(* ===== verification/_CoqProject ===== *)
-Q . S2P
Prelude.v
Platform.v
Machines.v
AddrSpace.v
Umm.v
UmmProps.v
Exec.v
Syscalls.v
Trap.v
TrapProps.v
Handshake.v
Loader.v
Stack.v
LoaderProps.v
CString.v
Policy.v
PolicyProps.v
Sthread.v
SthreadProps.v
Recycle.v
Mediation.v
SthreadWf.v
Firewall.v
FirewallParse.v
FirewallProps.v
Apps.v
Httpd.v
HttpdProps.v
HttpdPolicy.v
WedgeBench.v
WedgeBenchProps.v
Ipi.v
IpiProps.v
BenchFault.v
BenchTimingProps.v
FaultSpec.v
BenchFaultProps.v
BenchMain.v
Ring.v
RingProps.v
