(* ===== verification/Prelude.v ===== *)
(** * A verification of the Dune/VMPL applications

    The repository holds programs that run on libdune, which lets a process
    use the privileged half of a virtual machine: its own page tables, page
    faults, system calls and interrupts.

    ** The parts and how they interact

    - The sandbox (sandbox/) runs an untrusted program in user mode. boxer_main
      loads the program and its interpreter, builds the initial stack, installs
      the handlers of trap.c and jumps. Each system call of the program enters
      syscall_handler, which checks the memory the call refers to, asks the
      policy that the embedding program registered (boxer_register_syscall_monitor),
      and then performs the call: memory calls through the memory manager umm.c,
      execve through exec.c, clone through the thread code, the rest by passing
      them to the kernel.
    - nullsandbox and the firewall (ufirewall/) are two such embedding programs;
      the firewall's policy refuses connect and bind by a list of rules.
    - Wedge (wedge/) runs parts of one process as sthreads, each on its own page
      table with a policy of tagged memory, descriptors and system calls; a web
      server and a benchmark use it.
    - The benchmarks (bench/) measure faults, system calls from user mode and
      interrupts between cores.

    ** The files

    Foundations. Prelude: machine integers, the outcome/state monad [M] in which
    C functions are written, loops with fuel, bits and alignment. Platform: the
    constants of libdune's headers ([dune_abi]), the calls that leave the
    sandbox ([oscall]), the platform that answers them, the state of the sandbox
    process with the trace of its calls. Machines: threads as actors on a shared
    state, schedules, invariants of runs, termination under fair schedules.

    Sandbox. AddrSpace: sandbox.h and the extent and string checks of trap.c
    (mem_ref_is_safe, check_extent, check_string). Umm and UmmProps: umm.c, one
    definition per function, on the counters [brk_len] and [mmap_len]. Exec:
    exec.c (exec_execev, the parser of a script's first line). Syscalls, Trap
    and TrapProps: trap.c (syscall_check_params, syscall_do, syscall_handler,
    pgflt_handler, the thread functions). Handshake: the two sides of
    dune_pthread_create and pthread_entry interleaved. Loader, Stack and
    LoaderProps: main.c (process_elf_ph, load_elf, setup_arguments, setup_aux,
    boxer_main). Apps: the mains of nullsandbox.c and of the firewall, on the
    sandbox and the variable that holds the registered policy, with the system
    calls of the application that boxer_main starts.

    Firewall. CString: the C string functions the parsers use. Firewall,
    FirewallParse and FirewallProps: firewall.c (firewall_parse,
    firewall_check_connect, firewall_check_bind, the policy).

    Wedge. Policy and PolicyProps: policies and tags of sthread.c (sc_mem_add,
    sc_fd_add, sc_sys_add, tag_new, smalloc). Sthread: the rest of sthread.c on
    the record [kern] of its static variables; SthreadProps (what an sthread
    can reach), Recycle (recycle), Mediation (the handler) and SthreadWf (the
    well-formedness of the kernel). Httpd and HttpdProps: httpd.c; HttpdPolicy:
    the policy of its sthreads against the handler of sthread.c. WedgeBench and
    WedgeBenchProps: wedge/src/bench.c.

    Benchmarks. Ipi and IpiProps: bench_dune_ipi.c, posted_ipi.c and
    bench_fork_ipi.c as one machine, with the cores of the threads and
    interrupts that name a vector and a core. BenchFault and BenchTimingProps: bench.h,
    bench_dune.c and bench_linux.c. FaultSpec: the abstract machine of those two
    programs and the interface a system offers them; BenchFaultProps: Dune and
    Linux are instances of it; BenchMain: the whole programs. Ring and
    RingProps: bench_dune_ring.c.

    ** How code becomes definitions

    A w-bit integer is a [Z] with the wrap-around written where the machine
    performs it. A C function is a definition in [M], over the record of the
    static variables it uses; it can return, exit, abort, leave through
    dune_ret_from_user, or do something undefined, and each way out keeps the
    state. Code that is not in the repository (libdune, the kernel, libc
    allocation, the ELF library) is an argument of the definitions; what a
    theorem needs of it is a class ([platform_ok], [walker_ok],
    [vm_mprotect_ok], [jump_ok], ...), and each class has a concrete instance
    that the witnesses use.

    ** What the theorems show

    - The sandbox. Every system call of the application is checked and decided
      by the policy before it is performed ([handler_mediates],
      [passthrough_only_checked]); the check accepts a call exactly when the
      specification of its arguments does ([check_params_exact]), and what it
      accepts lies in the application's windows ([accepted_ranges_confined],
      [check_extent_exact], [check_string_exact]). The memory manager keeps its
      areas inside the window and apart, over every history of calls
      ([umm_histories_confined], [umm_areas_disjoint], [umm_brk_behaviour],
      [umm_errors_atomic], [memory_lock_discipline]). Loading stays in the
      windows and the stack has the layout of the ABI ([load_elf_confined],
      [setup_arguments_layout], [boxer_main_guarded]). A new program again runs
      in the sandbox ([exec_stays_sandboxed], [parse_script_roundtrip],
      [short_script_in_bounds]). The creator of a thread gets the thread's id
      under every fair schedule, unless the child signals too late, on a
      condition variable that is gone ([handshake_returns_tid]).
    - The firewall. The policy installed in the handler implements the rules
      ([firewall_enforces_policy]); the parser ends on every input and reads
      back what is printed ([firewall_parse_total], [firewall_parse_roundtrip]);
      a file that is refused runs no program, and one that is read is the
      policy for every call of the application ([fw_main_fails_closed]).
    - Wedge. A new sthread reaches only what its policy grants
      ([create_default_deny]), its handler mediates every call
      ([sthread_handler_mediates]), recycling restores memory
      ([recycle_restores]), the kernel's state stays well formed
      ([sthread_kernel_well_formed]), tag memory is handed out disjointly and
      the policy operations are exact ([smalloc_blocks_disjoint],
      [sc_fd_add_exact], [sc_sys_add_exact]). The web server follows its
      protocol and serves ([do_handle_dude_protocol], [do_handle_dude_serves]),
      and the handler of the sthread kernel lets its calls through with the
      policy it asks for ([dude_policy_suffices]); the benchmark's assertions hold and its mean is
      exact ([switch_assertions_hold], [benchmark_latency_exact]).
    - The benchmarks. Dune's and Linux's fault benchmarks take the same faults
      and leave the same pages writable ([fault_benchmarks_agree]), and both
      run to their end and print their lines, given the mappings they do not
      test ([dune_main_completes], [linux_main_completes]); the
      overhead is the least of the measured ones ([tsc_overhead_is_least]); the
      ring benchmark comes back at the N-th call ([ring_main_result]); the
      interrupt ping-pong of threads that are pinned neither loses nor repeats a
      turn and ends under every fair schedule ([ipi_ping_pong]).

    Besides these, the files prove the places where the code departs from its
    intent, each with a concrete run: [handshake_hazards], [ipi_hangs],
    [user_fault_correction], [refused_buffer_poisons], [read_loses_sthread],
    [wrapping_segment_mapped], [setup_arguments_clobbers],
    [long_script_overruns], [other_lengths_pass], [ufw_rules_decide].

    ** Fuel and bounds

    Loops over machine integers use [iterZ], whose fuel is the binary bound of
    the loop itself. The two file parsers have fuel linear in the length of
    their input; [firewall_parse_total] shows that it is enough for the rules.
    The accept loop of the web server serves as many clients as it is told. A store
    that faults is retried once; the theorems on the benchmarks show that one
    retry is enough. sthread_join takes the number of turns it waits as an
    argument, and tells when they were not enough. Schedules are finite lists;
    liveness is stated for as many rounds as the measure of the start state.

    ** Not modelled

    The translation cache (flushes are recorded where the code makes them),
    weak memory between cores (accesses to flags are sequentially consistent),
    the interrupt controller beyond one pending interrupt and its delivery to
    the core it names, debug and diagnostic output, print_procmap, the unit tests and test programs
    (firewall_test.c, wedge/src/test.c, syscalls/, test/), the kernel module and
    huge-page program, and bench_self_ipi.c, which only calls libdune. *)

(** * Shared vocabulary

    Machine-width integers, the outcome/state monad in which the C functions are
    written, bounded loops with binary fuel, byte memories and the arithmetic
    and list lemmas the components use. *)

From stdpp Require Import base numbers list option gmap strings.
From Stdlib Require Import ZArith Lia.

Global Open Scope Z_scope.

(** ** Machine-width integers

    A [w]-bit unsigned C integer is a [Z]; every operation that can leave the
    range is followed by the wrap-around the machine performs. *)

Definition wrap (w x : Z) : Z := x mod 2 ^ w.

Abbreviation wrap8 := (wrap 8).
Abbreviation wrap16 := (wrap 16).
Abbreviation wrap32 := (wrap 32).
Abbreviation wrap64 := (wrap 64).

(** Conversion of a 64-bit value to [int]: the low 32 bits, read in two's
    complement. *)
Definition to_int (x : Z) : Z :=
  let y := x mod 2 ^ 32 in if y <? 2 ^ 31 then y else y - 2 ^ 32.

Definition u64 (x : Z) : Prop := 0 <= x < 2 ^ 64.
Definition u32 (x : Z) : Prop := 0 <= x < 2 ^ 32.
Definition u16 (x : Z) : Prop := 0 <= x < 2 ^ 16.

(** The largest multiple of [n] below [x], the next multiple above it. *)
Definition align_down (n x : Z) : Z := x - x mod n.
Definition align_up (n x : Z) : Z := align_down n (x + n - 1).

(** [x & m] used as a C condition. *)
Definition has_bits (x m : Z) : bool := negb (Z.land x m =? 0).

(** C truth value. *)
Definition truthy (x : Z) : bool := negb (x =? 0).

(** The C conversion of a negative [int] (an error code) to an unsigned
    64-bit value. *)
Abbreviation ulong_of_int := (wrap 64).

Lemma truthy_true x : truthy x = true <-> x <> 0.
Proof. unfold truthy. destruct (Z.eqb_spec x 0); simpl; split; congruence. Qed.

Lemma truthy_false x : truthy x = false <-> x = 0.
Proof. unfold truthy. destruct (Z.eqb_spec x 0); simpl; split; congruence. Qed.

Create HintDb machine.

Lemma wrap_small w x : 0 <= x < 2 ^ w -> wrap w x = x.
Proof. apply Z.mod_small. Qed.

Lemma wrap_range w x : 0 <= w -> 0 <= wrap w x < 2 ^ w.
Proof. intros. apply Z.mod_pos_bound, Z.pow_pos_nonneg; lia. Qed.

Lemma wrap_cases w x :
  0 < w -> 0 <= x < 2 * 2 ^ w -> wrap w x = x /\ x < 2 ^ w \/ wrap w x = x - 2 ^ w /\ 2 ^ w <= x.
Proof.
  intros Hw Hx. pose proof (Z.pow_pos_nonneg 2 w ltac:(lia) ltac:(lia)).
  destruct (Z_lt_le_dec x (2 ^ w)).
  - left. split; [apply wrap_small; lia | lia].
  - right. split; [|lia]. unfold wrap.
    rewrite <- (Z.mod_small (x - 2 ^ w) (2 ^ w)) by lia.
    replace x with ((x - 2 ^ w) + 1 * 2 ^ w) at 1 by lia.
    now rewrite Z.mod_add by lia.
Qed.

Lemma wrap64_small x : u64 x -> wrap64 x = x.
Proof. apply wrap_small. Qed.

Lemma wrap64_range x : u64 (wrap64 x).
Proof. apply wrap_range. lia. Qed.

Lemma wrap_opp_mod w x y : 0 < w -> wrap w (x + y) = wrap w (wrap w x + y).
Proof. intros. unfold wrap. now rewrite Zplus_mod_idemp_l. Qed.

#[export] Hint Resolve wrap64_range : machine.

(** [lia] on goals about machine words. *)
Ltac mlia := unfold u64, u32, u16 in *; lia.

(** ** Alignment *)

Lemma align_down_range n x : 0 < n -> x - n < align_down n x <= x.
Proof. intros. unfold align_down. pose proof (Z.mod_pos_bound x n). lia. Qed.

Lemma align_up_range n x : 0 < n -> x <= align_up n x < x + n.
Proof. intros. unfold align_up. pose proof (align_down_range n (x + n - 1)). lia. Qed.

Lemma align_down_divide n x : 0 < n -> (n | align_down n x).
Proof.
  intros. unfold align_down. exists (x / n).
  pose proof (Z_div_mod_eq_full x n). lia.
Qed.

Lemma align_up_divide n x : 0 < n -> (n | align_up n x).
Proof. intros. now apply align_down_divide. Qed.

Lemma align_down_id n x : 0 < n -> (n | x) -> align_down n x = x.
Proof. intros ? [k ->]. unfold align_down. rewrite Z.mod_mul; lia. Qed.

(** Rounding up never crosses a multiple of the alignment. *)
Lemma align_up_le n x b : 0 < n -> (n | b) -> x <= b -> align_up n x <= b.
Proof.
  intros Hn Hb Hx. destruct (Z_le_gt_dec (align_up n x) b) as [|Hgt]; [done|exfalso].
  pose proof (align_up_range n x Hn). pose proof (align_up_divide n x Hn) as [k Hk].
  destruct Hb as [j ->]. rewrite Hk in *. assert (k < j + 1) by nia. nia.
Qed.

Lemma divide_mod_0 n x : 0 < n -> (n | x) -> x mod n = 0.
Proof. intros ? [k ->]. apply Z.mod_mul. lia. Qed.

(** ** Bits *)

Lemma land_ones_mod x n : 0 <= n -> Z.land x (2 ^ n - 1) = x mod 2 ^ n.
Proof. intros. replace (2 ^ n - 1) with (Z.ones n) by (rewrite Z.ones_equiv; lia). now apply Z.land_ones. Qed.

Lemma land_bound_r x m : 0 <= m -> 0 <= Z.land x m <= m.
Proof.
  intros Hm. split; [apply Z.land_nonneg; auto|].
  apply Z.ldiff_le; [done|]. apply Z.bits_inj'. intros i Hi.
  rewrite Z.ldiff_spec, Z.land_spec, Z.bits_0.
  destruct (Z.testbit x i), (Z.testbit m i); reflexivity.
Qed.

Lemma has_bits_ldiff_same x m : has_bits (Z.ldiff x m) m = false.
Proof.
  unfold has_bits. replace (Z.land (Z.ldiff x m) m) with 0; [done|]. symmetry.
  apply Z.bits_inj'. intros i _. rewrite Z.land_spec, Z.ldiff_spec, Z.bits_0.
  destruct (Z.testbit x i), (Z.testbit m i); done.
Qed.

Lemma has_bits_ldiff_other x m m' : Z.land m m' = 0 -> has_bits (Z.ldiff x m') m = has_bits x m.
Proof.
  intros Hd. unfold has_bits. replace (Z.land (Z.ldiff x m') m) with (Z.land x m); [done|].
  apply Z.bits_inj'. intros i _. rewrite !Z.land_spec, Z.ldiff_spec.
  apply (f_equal (fun z => Z.testbit z i)) in Hd. rewrite Z.land_spec, Z.bits_0 in Hd.
  destruct (Z.testbit x i), (Z.testbit m i), (Z.testbit m' i); done.
Qed.

Lemma has_bits_lor_same x m : m <> 0 -> has_bits (Z.lor x m) m = true.
Proof.
  intros Hm. unfold has_bits. rewrite Z.land_lor_distr_l, Z.land_diag.
  destruct (Z.eqb_spec (Z.lor (Z.land x m) m) 0) as [H|]; [|done].
  apply Z.lor_eq_0_iff in H as [_ H]. done.
Qed.

Lemma has_bits_lor_other x m m' : Z.land m' m = 0 -> has_bits (Z.lor x m') m = has_bits x m.
Proof. intros H. unfold has_bits. now rewrite Z.land_lor_distr_l, H, Z.lor_0_r. Qed.

Lemma has_bits_lor_mono x m m' : has_bits x m = true -> has_bits (Z.lor x m') m = true.
Proof.
  unfold has_bits. rewrite Z.land_lor_distr_l. destruct (Z.eqb_spec (Z.land x m) 0) as [|H]; [done|intros _].
  destruct (Z.eqb_spec (Z.lor (Z.land x m) (Z.land m' m)) 0) as [H'|]; [|done].
  apply Z.lor_eq_0_iff in H' as [? _]. done.
Qed.

Lemma has_bits_land_disjoint x k m : Z.land k m = 0 -> has_bits (Z.land x k) m = false.
Proof. intros H. unfold has_bits. now rewrite <- Z.land_assoc, H, Z.land_0_r. Qed.

(** ** The monad of C functions

    A C function runs against the state [S] of its component and ends in one
    of five ways: it returns, it ends the process ([exit], [err], [errx]), it
    dies on a failed [assert] or [abort], it leaves through a transfer of
    control that does not come back ([dune_ret_from_user]), or it performs
    an access the C standard leaves undefined. *)

Inductive outcome (A : Type) : Type :=
  | Ret (a : A)
  | Exit (code : Z)
  | Abort
  | Leave (code : Z)
  | UB.
Global Arguments Ret {A} a.
Global Arguments Exit {A} code.
Global Arguments Abort {A}.
Global Arguments Leave {A} code.
Global Arguments UB {A}.

Definition M (S A : Type) : Type := S -> outcome A * S.

Global Instance M_ret S : MRet (M S) := fun A a s => (Ret a, s).

Global Instance M_bind S : MBind (M S) := fun A B k c s =>
  match c s with
  | (Ret a, s') => k a s'
  | (Exit n, s') => (Exit n, s')
  | (Abort, s') => (Abort, s')
  | (Leave n, s') => (Leave n, s')
  | (UB, s') => (UB, s')
  end.

Definition stop {S A} (o : outcome A) : M S A := fun s => (o, s).
Definition get {S} : M S S := fun s => (Ret s, s).
Definition gets {S A} (f : S -> A) : M S A := fun s => (Ret (f s), s).
Definition modify {S} (f : S -> S) : M S unit := fun s => (Ret tt, f s).

(** C's [assert]. *)
Definition c_assert {S} (b : bool) : M S unit := fun s => (if b then Ret tt else Abort, s).

Lemma bind_ret_l {S A B} (a : A) (k : A -> M S B) s : (mret a ≫= k) s = k a s.
Proof. reflexivity. Qed.

(** A computation that returned went through its first part. *)
Lemma bind_inv {S A B} (c : M S A) (k : A -> M S B) s b s' :
  (c ≫= k) s = (Ret b, s') -> exists a s1, c s = (Ret a, s1) /\ k a s1 = (Ret b, s').
Proof. unfold mbind, M_bind. destruct (c s) as [[a| | | |] s1]; try discriminate. eauto. Qed.

(** What a computation leaves behind in every way it can end: the Hoare-style
    judgement the components' invariants are stated with. *)
Definition preserves {S A} (P : S -> Prop) (c : M S A) : Prop :=
  forall s, P s -> P (c s).2.

(** [ensures P c Q]: from a [P]-state, [c] ends in a [P]-state, and in a state
    and value satisfying [Q] when it returns. *)
Definition ensures {S A} (P : S -> Prop) (c : M S A) (Q : A -> S -> Prop) : Prop :=
  forall s, P s -> match c s with (Ret a, s') => Q a s' | (_, s') => P s' end.

Section preservation.
Context {S : Type} (P : S -> Prop).

Lemma preserves_ret {A} (a : A) : preserves P (mret a : M S A).
Proof. intros s Hs. exact Hs. Qed.

Lemma preserves_stop {A} (o : outcome A) : preserves P (stop o : M S A).
Proof. intros s Hs. exact Hs. Qed.

Lemma preserves_gets {A} (f : S -> A) : preserves P (gets f).
Proof. intros s Hs. exact Hs. Qed.

Lemma preserves_assert b : preserves P (c_assert b).
Proof. intros s Hs. exact Hs. Qed.

Lemma preserves_modify f : (forall s, P s -> P (f s)) -> preserves P (modify f).
Proof. intros Hf s Hs. now apply Hf. Qed.

Lemma preserves_bind {A B} (c : M S A) (k : A -> M S B) :
  preserves P c -> (forall a, preserves P (k a)) -> preserves P (c ≫= k).
Proof.
  intros Hc Hk s Hs. specialize (Hc s Hs). unfold mbind, M_bind.
  destruct (c s) as [[a| | | |] s']; simpl in *; try done. now apply Hk.
Qed.

Lemma preserves_if {A} (b : bool) (c d : M S A) :
  preserves P c -> preserves P d -> preserves P (if b then c else d).
Proof. now destruct b. Qed.

Lemma ensures_bind {A B} (c : M S A) (k : A -> M S B) Q R :
  ensures P c Q -> (forall a s, Q a s -> match k a s with (Ret b, s') => R b s' | (_, s') => P s' end) ->
  ensures P (c ≫= k) R.
Proof.
  intros Hc Hk s Hs. specialize (Hc s Hs). unfold mbind, M_bind.
  destruct (c s) as [[a| | | |] s']; simpl in *; try done. now apply Hk.
Qed.
End preservation.

Create HintDb monad.
#[export] Hint Resolve preserves_ret preserves_stop preserves_gets preserves_assert
  preserves_bind preserves_if : monad.

(** ** Loops

    A counted C loop whose bound is a machine integer. [iterZ] runs the body
    at most [n] times and stops at the first [inr]; its fuel is the binary
    number itself, so a bound of 2^33 costs only the iterations really made. *)

Section loops.
Context {St R : Type} (step : St -> St + R).

Fixpoint iter_pos (p : positive) (s : St) : St + R :=
  match p with
  | xH => step s
  | xO q => match iter_pos q s with inl s' => iter_pos q s' | inr r => inr r end
  | xI q => match step s with
            | inl s1 => match iter_pos q s1 with inl s2 => iter_pos q s2 | inr r => inr r end
            | inr r => inr r
            end
  end.

Definition iterZ (n : Z) (s : St) : St + R :=
  match n with Zpos p => iter_pos p s | _ => inl s end.

Fixpoint iter_nat (n : nat) (s : St) : St + R :=
  match n with
  | O => inl s
  | S m => match step s with inl s' => iter_nat m s' | inr r => inr r end
  end.

Lemma iter_nat_add n m s :
  iter_nat (n + m) s = match iter_nat n s with inl s' => iter_nat m s' | inr r => inr r end.
Proof. revert s; induction n as [|n IH]; intros s; simpl; [done|]. destruct (step s); auto. Qed.

(** A loop that has ended is not changed by more fuel. *)
Lemma iter_nat_mono n m s r : (n <= m)%nat -> iter_nat n s = inr r -> iter_nat m s = inr r.
Proof. intros Hle Hn. replace m with (n + (m - n))%nat by lia. now rewrite iter_nat_add, Hn. Qed.

Lemma iter_pos_nat p s : iter_pos p s = iter_nat (Pos.to_nat p) s.
Proof.
  revert s; induction p as [p IH|p IH|]; intros s.
  - rewrite Pos2Nat.inj_xI. simpl. destruct (step s) as [s'|]; [|done].
    rewrite Nat.add_0_r, iter_nat_add, <- IH. destruct (iter_pos p s'); auto.
  - rewrite Pos2Nat.inj_xO. simpl. rewrite Nat.add_0_r, iter_nat_add, <- IH.
    destruct (iter_pos p s); auto.
  - simpl. destruct (step s); auto.
Qed.

Lemma iterZ_nat n s : iterZ n s = iter_nat (Z.to_nat n) s.
Proof. destruct n as [|p|p]; [done| |done]. simpl. apply iter_pos_nat. Qed.
End loops.

(** A counting search finds the first index that satisfies the test. *)
Lemma iterZ_first (f : Z -> bool) n k :
  0 <= k < n -> f k = true -> (forall j, 0 <= j < k -> f j = false) ->
  iterZ (fun i => if f i then inr i else inl (i + 1)) n 0 = inr k.
Proof.
  intros Hk Hf Hb. rewrite iterZ_nat.
  assert (Hgen : forall m i, 0 <= i <= k -> k - i < Z.of_nat m ->
            iter_nat (fun i => if f i then inr i else inl (i + 1)) m i = inr k).
  { induction m as [|m IH]; intros i Hi Hm; [lia|]. cbn [iter_nat].
    destruct (decide (i = k)) as [->|Hne]; [by rewrite Hf|]. rewrite Hb by lia. apply IH; lia. }
  apply Hgen; lia.
Qed.

(** [memchr(p, c, n)] over a memory given by its byte-read function. *)
Definition memchr (load : Z -> Z) (p c n : Z) : option Z :=
  match iterZ (fun i => if load (wrap64 (p + i)) =? c then inr (wrap64 (p + i)) else inl (i + 1)) n 0 with
  | inr q => Some q
  | inl _ => None
  end.

Section memchr_facts.
Context (load : Z -> Z) (p c : Z).

Let step i : Z + Z := if load (wrap64 (p + i)) =? c then inr (wrap64 (p + i)) else inl (i + 1).

Lemma memchr_loop k i :
  match iter_nat step k i with
  | inr q => exists j, i <= j < i + Z.of_nat k /\ q = wrap64 (p + j) /\ load q = c
                       /\ forall j', i <= j' < j -> load (wrap64 (p + j')) <> c
  | inl _ => forall j, i <= j < i + Z.of_nat k -> load (wrap64 (p + j)) <> c
  end.
Proof.
  revert i; induction k as [|k IH]; intros i; cbn [iter_nat]; [intros; lia|].
  unfold step at 1. destruct (Z.eqb_spec (load (wrap64 (p + i))) c) as [Hc|Hc].
  - exists i. split; [lia|]. split; [done|]. split; [done|]. intros; lia.
  - specialize (IH (i + 1)). destruct (iter_nat step k (i + 1)) as [s|q].
    + intros j Hj. destruct (decide (j = i)) as [->|]; [done|]. apply IH. lia.
    + destruct IH as (j & Hj & -> & Hl & Hb). exists j. split; [lia|]. do 2 (split; [done|]).
      intros j' Hj'. destruct (decide (j' = i)) as [->|]; [done|]. apply Hb. lia.
Qed.

(** [memchr] finds the first occurrence, and misses none. *)
Lemma memchr_spec n :
  match memchr load p c n with
  | Some q => exists j, 0 <= j < n /\ q = wrap64 (p + j) /\ load q = c
                        /\ forall j', 0 <= j' < j -> load (wrap64 (p + j')) <> c
  | None => forall j, 0 <= j < n -> load (wrap64 (p + j)) <> c
  end.
Proof.
  unfold memchr. fold step. rewrite iterZ_nat. pose proof (memchr_loop (Z.to_nat n) 0) as H.
  destruct (iter_nat step (Z.to_nat n) 0) as [s|q].
  - intros j Hj. apply H. lia.
  - destruct H as (j & Hj & H). exists j. split; [lia|exact H].
Qed.
End memchr_facts.
