(* ===== verification/Platform.v ===== *)
(** The code the sandbox is built on and that is not in the repository: the
    constants and macros of the Dune/VMPL headers ([dune_abi]), and the
    operations of the kernel, of libc and of libdune the sandbox calls
    ([platform]).  Both are arguments of every definition that uses them; the
    facts the code relies on are the classes [dune_abi_ok] and [platform_ok].
    The file also holds the state of the sandbox process ([sandbox]) and the
    one way its code reaches the platform, [ext], which records each call. *)

From stdpp Require Import base numbers list option.
From S2P Require Import Prelude.

(** ** Header constants of vmpl/dune.h *)

Record dune_abi := DuneAbi {
  mmap_base : Z;            (* extern uintptr_t mmap_base *)
  PGSIZE : Z;
  BIG_PGSIZE : Z;
  PGADDR : Z -> Z;
  PGOFF : Z -> Z;
  BIG_PGADDR : Z -> Z;
  BIG_PGOFF : Z -> Z;
  PERM_R : Z;
  PERM_W : Z;
  PERM_X : Z;
  PERM_U : Z;
  PERM_BIG : Z;
  CREATE_NORMAL : Z;
  PTE_P : Z;
  PTE_W : Z;
  PTE_ADDR : Z -> Z;
  PTE_U : Z;
  PTE_D : Z;
  VA_START : Z;
  VA_END : Z;
}.

(** The documented meaning of these macros on x86-64, and where Dune places
    the region it hands out: page aligned, above the ELF window, with the 8GB
    of the sandbox below the canonical user limit. *)
Class dune_abi_ok (D : dune_abi) : Prop := {
  abi_PGSIZE : PGSIZE D = 4096;
  abi_BIG_PGSIZE : BIG_PGSIZE D = 2097152;
  abi_PGADDR x : u64 x -> PGADDR D x = align_down 4096 x;
  abi_PGOFF x : u64 x -> PGOFF D x = x mod 4096;
  abi_BIG_PGADDR x : u64 x -> BIG_PGADDR D x = align_down 2097152 x;
  abi_BIG_PGOFF x : u64 x -> BIG_PGOFF D x = x mod 2097152;
  abi_base_low : 0x70000000 <= mmap_base D;
  abi_base_high : mmap_base D + 0x200000000 < 2 ^ 47;
  abi_base_aligned : (4096 | mmap_base D);
}.

(** A concrete instance: the usual values. *)
Definition dune_x86 : dune_abi := {|
  mmap_base := 0x7f0000000000 - 0x400000000;
  PGSIZE := 4096;
  BIG_PGSIZE := 2097152;
  PGADDR := align_down 4096;
  PGOFF := fun x => x mod 4096;
  BIG_PGADDR := align_down 2097152;
  BIG_PGOFF := fun x => x mod 2097152;
  PERM_R := 1; PERM_W := 2; PERM_X := 4; PERM_U := 8; PERM_BIG := 256;
  CREATE_NORMAL := 1;
  PTE_P := 1; PTE_W := 2;
  PTE_ADDR := align_down 4096;
  PTE_U := 4; PTE_D := 0x40;
  VA_START := 0; VA_END := 2 ^ 47 - 1;
|}.

#[export] Instance dune_x86_ok : dune_abi_ok dune_x86.
Proof.
  split; try reflexivity; try (intros; reflexivity); try (simpl; lia).
  now exists (mmap_base dune_x86 / 4096).
Qed.

(** ** Operations of the platform *)

(** The trap frame Dune passes to the handlers. [arg0] to [arg5] are the
    registers the macros [ARG0] to [ARG5] name. *)
Record dune_tf := DuneTf {
  rax : Z;
  arg0 : Z; arg1 : Z; arg2 : Z; arg3 : Z; arg4 : Z; arg5 : Z;
  rip : Z; rsp : Z; cs : Z; rflags : Z;
}.

Definition set_rax (v : Z) (tf : dune_tf) : dune_tf :=
  DuneTf v (arg0 tf) (arg1 tf) (arg2 tf) (arg3 tf) (arg4 tf) (arg5 tf)
         (rip tf) (rsp tf) (cs tf) (rflags tf).

#[export] Instance dune_tf_eq_dec : EqDecision dune_tf.
Proof. solve_decision. Defined.

(** The two mutexes of trap.c: the global [_syscall_mtx] and the one inside a
    [struct thread_arg]. *)
Inductive mutex : Type := SyscallMtx | ArgMtx.

#[export] Instance mutex_eq_dec : EqDecision mutex.
Proof. solve_decision. Defined.

(** An element of the argument vector built by [exec_execev]: one of the two
    constant paths, a pointer taken from the caller, a pointer into the local
    buffer [page], or NULL. *)
Inductive exec_arg : Type := ASandboxPath | ALdPath | APtr (p : Z) | APage (off : Z) | ANull.

#[export] Instance exec_arg_eq_dec : EqDecision exec_arg.
Proof. solve_decision. Defined.

(** [Elf64_Phdr], the fields the loader reads. *)
Record elf_phdr := ElfPhdr {
  p_type : Z; p_flags : Z; p_vaddr : Z; p_filesz : Z; p_memsz : Z;
}.

#[export] Instance elf_phdr_eq_dec : EqDecision elf_phdr.
Proof. solve_decision. Defined.

(** The calls that leave the sandbox's code. Each answers with a return value,
    the value of [errno] afterwards, and one word of output for the calls that
    fill a structure. *)
Inductive oscall : Type :=
  (* kernel memory management *)
  | Mmap (addr len prot flags fd off : Z)
  | Munmap (addr len : Z)
  | Mprotect (addr len prot : Z)
  | Mremap (old_address old_size new_size flags new_address : Z)
  | ShmctlStat (shmid : Z)
  | Shmat (shmid addr shmflg : Z)
  | Shmdt (addr : Z)
  (* Dune page tables *)
  | VmMapPhys (va len pa perm : Z)
  | VmUnmap (va len : Z)
  | VmMprotect (va len perm : Z)
  | VmLookup (va create : Z)
  | SetPte (va pte : Z)
  | VaToPa (va : Z)
  (* Dune mode switches and user registers *)
  | DuneInit
  | DuneEnter
  | SetUserFs (fs : Z)
  | GetUserFs
  | JumpToUser (tf : dune_tf)
  | Passthrough (tf : dune_tf)
  | RegisterHandlers
  | ReadGsBase
  (* threads; [SetTaTid] and [GetTaTid] are the accesses to [ta_tid] of the
     [thread_arg] shared between a thread and its creator *)
  | MutexInit (m : mutex) | MutexLock (m : mutex) | MutexUnlock (m : mutex) | MutexDestroy (m : mutex)
  | CondInit | CondWait | CondSignal | CondDestroy
  | PthreadCreate (tf : dune_tf)
  | SetTaTid (tid : Z)
  | GetTaTid
  | Gettid
  | SetTidAddress (p : Z)
  | CloneSys (a0 a1 a2 a3 a4 : Z)
  | ExitThread (code : Z)
  (* files and processes *)
  | OpenFile (path : Z)
  | ReadFile (fd len : Z)
  | CloseFile (fd : Z)
  | Fork
  | Execve (path : exec_arg) (argv : list exec_arg) (envp : exec_arg) (page : list Z)
  | ElfOpen (path : Z)
  | ElfLoadPh (ph : elf_phdr) (off : Z)
  | ElfClose.

#[export] Instance oscall_eq_dec : EqDecision oscall.
Proof. solve_decision. Defined.

Record answer := Answer { a_ret : Z; a_errno : Z; a_out : Z }.

(** The platform over a type [W] of its own states: it answers calls, and
    holds the memory of the process, read and written bytewise. [p_data] gives
    the bytes a [read] delivers. *)
Record platform (W : Type) := Platform {
  p_call : oscall -> W -> answer * W;
  p_data : oscall -> W -> list Z;
  p_load : W -> Z -> Z;
  p_store : W -> Z -> Z -> W;
}.
Global Arguments p_call {W} _ _ _.
Global Arguments p_data {W} _ _ _.
Global Arguments p_load {W} _ _ _.
Global Arguments p_store {W} _ _ _ _.

(** What the sandbox relies on: a memory byte is a byte, error numbers lie in
    Linux's range 1 to 4095, [dune_vm_map_phys] answers 0 or a negated error
    number, and the kernel refuses a mapping longer than the user address space
    (it fails with ENOMEM, see mmap(2), mremap(2), shmat(2)). *)
Class platform_ok {W} (P : platform W) : Prop := {
  pf_byte w a : 0 <= p_load P w a < 256;
  pf_errno c w : 0 < (p_call P c w).1.(a_errno) < 4096;
  pf_map_phys w va len pa perm :
    -4096 < (p_call P (VmMapPhys va len pa perm) w).1.(a_ret) <= 0;
  pf_mmap_huge w addr len prot flags fd off :
    2 ^ 47 <= len -> (p_call P (Mmap addr len prot flags fd off) w).1.(a_ret) = 2 ^ 64 - 1;
  pf_mremap_huge w a olen len flags new :
    2 ^ 47 <= len -> (p_call P (Mremap a olen len flags new) w).1.(a_ret) = 2 ^ 64 - 1;
  pf_shmat_huge w shmid addr flg :
    2 ^ 47 <= (p_call P (ShmctlStat shmid) w).1.(a_out) ->
    (p_call P (Shmat shmid addr flg) (p_call P (ShmctlStat shmid) w).2).1.(a_ret) = 2 ^ 64 - 1;
  pf_segsz w shmid : u64 (p_call P (ShmctlStat shmid) w).1.(a_out);
}.

(** Memory is memory: a byte written is read back, and no other byte moves. *)
Class memory_ok {W} (P : platform W) : Prop := {
  pf_store w a v b :
    0 <= v < 256 -> p_load P (p_store P w a v) b = if b =? a then v else p_load P w b;
}.

(** A concrete platform that grants every request of a possible size, used to
    show that the hypotheses above can be met. Its state is the memory. *)
Definition obliging_call (c : oscall) : answer :=
  match c with
  | Mmap addr len _ _ _ _ => Answer (if len <? 2 ^ 47 then addr else 2 ^ 64 - 1) 12 0
  | Mremap _ _ len _ new => Answer (if len <? 2 ^ 47 then new else 2 ^ 64 - 1) 12 0
  | ShmctlStat _ => Answer 0 12 4096
  | Shmat _ addr _ => Answer addr 12 0
  | VaToPa va => Answer va 12 0
  | Gettid => Answer 1234 12 0
  | OpenFile _ => Answer 3 12 0
  | _ => Answer 0 12 0
  end.

Definition obliging : platform (Z -> Z) := {|
  p_call c w := (obliging_call c, w);
  p_data c w := [];
  p_load w a := w a mod 256;
  p_store w a v := fun b => if b =? a then v else w b;
|}.

#[export] Instance obliging_ok : platform_ok obliging.
Proof.
  split; cbn -[Z.modulo Z.pow].
  - intros. apply Z.mod_pos_bound. lia.
  - intros c w. destruct c; cbn; lia.
  - intros. lia.
  - intros. destruct (Z.ltb_spec len (2 ^ 47)); lia.
  - intros. destruct (Z.ltb_spec len (2 ^ 47)); lia.
  - intros. lia.
  - intros. mlia.
Qed.

#[export] Instance obliging_memory : memory_ok obliging.
Proof.
  split. intros w a v b Hv. cbn. destruct (b =? a); [|done]. apply Z.mod_small. lia.
Qed.

(** ** The state of the sandbox process *)

Record sandbox (W : Type) := Sandbox {
  brk_len : Z;                    (* umm.c *)
  mmap_len : Z;                   (* umm.c *)
  errno : Z;
  world : W;
  trace : list (oscall * Z);      (* the calls made and what they returned *)
}.
Global Arguments Sandbox {W} _ _ _ _ _.
Global Arguments brk_len {W} _.
Global Arguments mmap_len {W} _.
Global Arguments errno {W} _.
Global Arguments world {W} _.
Global Arguments trace {W} _.

Section effects.
Context {W : Type} (P : platform W).

Definition set_brk_len (v : Z) (s : sandbox W) : sandbox W :=
  Sandbox v (mmap_len s) (errno s) (world s) (trace s).
Definition set_mmap_len (v : Z) (s : sandbox W) : sandbox W :=
  Sandbox (brk_len s) v (errno s) (world s) (trace s).
Definition set_world (w : W) (s : sandbox W) : sandbox W :=
  Sandbox (brk_len s) (mmap_len s) (errno s) w (trace s).

(** One call to the platform, with its full answer. *)
Definition ext_full (c : oscall) : M (sandbox W) answer := fun s =>
  let '(a, w) := p_call P c (world s) in
  (Ret a, Sandbox (brk_len s) (mmap_len s) (a_errno a) w (trace s ++ [(c, a_ret a)])).

Definition ext (c : oscall) : M (sandbox W) Z := a ← ext_full c; mret (a_ret a).

(** The answer to a call and the state after it. *)
Definition reply (c : oscall) (s : sandbox W) : Z := (p_call P c (world s)).1.(a_ret).
Definition after (c : oscall) (s : sandbox W) : sandbox W :=
  Sandbox (brk_len s) (mmap_len s) (a_errno (p_call P c (world s)).1)
          (p_call P c (world s)).2 (trace s ++ [(c, reply c s)]).

Lemma ext_eq c s : ext c s = (Ret (reply c s), after c s).
Proof.
  unfold ext, ext_full, after, reply, mbind, M_bind.
  destruct (p_call P c (world s)) as [a w]. reflexivity.
Qed.

Lemma bind_ext {B} c (k : Z -> M (sandbox W) B) s :
  (ext c ≫= k) s = k (reply c s) (after c s).
Proof. unfold mbind, M_bind. now rewrite ext_eq. Qed.

Lemma bind_ext_full {B} c (k : answer -> M (sandbox W) B) s :
  (ext_full c ≫= k) s = k (p_call P c (world s)).1 (after c s).
Proof.
  unfold mbind, M_bind, ext_full, after, reply.
  destruct (p_call P c (world s)) as [a w]. reflexivity.
Qed.

(** The memory of the process, as the byte-read function. *)
Definition memory (s : sandbox W) : Z -> Z := p_load P (world s).

Definition store (a v : Z) : M (sandbox W) unit :=
  modify (fun s => set_world (p_store P (world s) a v) s).

(** A little-endian word of [n] bytes. *)
Fixpoint store_word (n : nat) (a v : Z) : M (sandbox W) unit :=
  match n with
  | O => mret tt
  | S n => _ ← store a (v mod 256); store_word n (wrap64 (a + 1)) (v / 256)
  end.
End effects.

Fixpoint load_word (ld : Z -> Z) (n : nat) (a : Z) : Z :=
  match n with
  | O => 0
  | S n => ld a + 256 * load_word ld n (wrap64 (a + 1))
  end.

(** Symbolic execution of a computation one bind at a time. *)
Lemma bind_get {S B} (k : S -> M S B) s : (get ≫= k) s = k s s.
Proof. reflexivity. Qed.
Lemma bind_gets {S A B} (f : S -> A) (k : A -> M S B) s : (gets f ≫= k) s = k (f s) s.
Proof. reflexivity. Qed.
Lemma bind_modify {S B} (f : S -> S) (k : unit -> M S B) s : (modify f ≫= k) s = k tt (f s).
Proof. reflexivity. Qed.
Lemma bind_stop_ret {S A B} (a : A) (k : A -> M S B) s : (stop (Ret a) ≫= k) s = k a s.
Proof. reflexivity. Qed.
Lemma bind_step {S A B} (c : M S A) (k : A -> M S B) s a s' : c s = (Ret a, s') -> (c ≫= k) s = k a s'.
Proof. intros H. unfold mbind, M_bind. now rewrite H. Qed.
Lemma bind_assoc {S A B C} (c : M S A) (k : A -> M S B) (h : B -> M S C) s :
  ((c ≫= k) ≫= h) s = (c ≫= (fun a => k a ≫= h)) s.
Proof. unfold mbind, M_bind. destruct (c s) as [[] ?]; reflexivity. Qed.

Create Rewrite HintDb exec.
#[export] Hint Rewrite @bind_ext @bind_ext_full @bind_get @bind_gets @bind_modify @bind_assoc
  @bind_ret_l @bind_stop_ret : exec.

Ltac exec := repeat (autorewrite with exec; cbv beta).

(** ** What a computation emits

    [emits ok c]: every call [c] makes, in every way it can end, satisfies
    [ok]. *)
Definition emits {W A} (ok : oscall * Z -> Prop) (c : M (sandbox W) A) : Prop :=
  forall s, exists l, trace (c s).2 = trace s ++ l /\ Forall ok l.

Section emits_facts.
Context {W : Type} (P : platform W) (ok : oscall * Z -> Prop).
Abbreviation C := (M (sandbox W)).

Lemma emits_pure {A} (c : C A) : (forall s, trace (c s).2 = trace s) -> emits ok c.
Proof. intros H s. exists []. rewrite app_nil_r. auto. Qed.

Lemma emits_ret {A} (a : A) : emits ok (mret a : C A).
Proof. now apply emits_pure. Qed.

Lemma emits_stop {A} (o : outcome A) : emits ok (stop o : C A).
Proof. now apply emits_pure. Qed.

Lemma emits_get : emits ok (get : C _).
Proof. now apply emits_pure. Qed.

Lemma emits_gets {A} (f : sandbox W -> A) : emits ok (gets f).
Proof. now apply emits_pure. Qed.

Lemma emits_assert b : emits ok (c_assert b : C unit).
Proof. now apply emits_pure. Qed.

Lemma emits_modify f : (forall s, trace (f s) = trace s) -> emits ok (modify f : C unit).
Proof. intros H. now apply emits_pure. Qed.

Lemma emits_store a v : emits ok (store P a v).
Proof. now apply emits_pure. Qed.

Lemma emits_bind {A B} (c : C A) (k : A -> C B) :
  emits ok c -> (forall a, emits ok (k a)) -> emits ok (c ≫= k).
Proof.
  intros Hc Hk s. specialize (Hc s). unfold mbind, M_bind.
  destruct (c s) as [[a| | | |] s']; simpl in *; [|exact Hc..].
  destruct Hc as (l & Hl & Hf). destruct (Hk a s') as (l' & Hl' & Hf').
  exists (l ++ l'). rewrite Hl', Hl, app_assoc. split; [done|]. now apply Forall_app.
Qed.

Lemma emits_ext_full c : (forall r, ok (c, r)) -> emits ok (ext_full P c).
Proof.
  intros Hok s. unfold ext_full. destruct (p_call P c (world s)) as [a w]. cbn.
  exists [(c, a_ret a)]. auto.
Qed.

Lemma emits_ext c : (forall r, ok (c, r)) -> emits ok (ext P c).
Proof. intros. apply emits_bind; [now apply emits_ext_full|]. intros. apply emits_ret. Qed.

Lemma emits_if {A} (b : bool) (c d : C A) : emits ok c -> emits ok d -> emits ok (if b then c else d).
Proof. now destruct b. Qed.

Lemma emits_store_word n a v : emits ok (store_word P n a v).
Proof.
  revert a v; induction n; intros; cbn [store_word]; [apply emits_ret|].
  apply emits_bind; [apply emits_store|auto].
Qed.

(** The new part of the trace. *)
Lemma emits_In {A} (c : C A) s o s' e :
  emits ok c -> c s = (o, s') -> e ∈ trace s' -> e ∈ trace s \/ ok e.
Proof.
  intros Hc Hs He. destruct (Hc s) as (l & Hl & Hf). rewrite Hs in Hl. cbn in Hl.
  rewrite Hl in He. apply elem_of_app in He as [?|He]; [by left|right].
  rewrite List.Forall_forall in Hf. apply Hf. now apply list_elem_of_In.
Qed.
End emits_facts.

Lemma emits_mono {W A} (ok ok' : oscall * Z -> Prop) (c : M (sandbox W) A) :
  (forall e, ok e -> ok' e) -> emits ok c -> emits ok' c.
Proof.
  intros Hi Hc s. destruct (Hc s) as (l & ? & Hf). exists l. split; [done|].
  eapply List.Forall_impl; [|exact Hf]. auto.
Qed.

Create HintDb emits.
#[export] Hint Resolve emits_ret emits_stop emits_get emits_gets emits_assert emits_store
  emits_store_word : emits.
#[export] Hint Extern 2 (emits _ (if _ then _ else _)) => apply emits_if : emits.
#[export] Hint Extern 3 (emits _ (ext _ _)) => apply emits_ext; intros; cbn : emits.
#[export] Hint Extern 3 (emits _ (ext_full _ _)) => apply emits_ext_full; intros; cbn : emits.
#[export] Hint Extern 3 (emits _ (modify _)) => apply emits_modify; intros; reflexivity : emits.
#[export] Hint Extern 4 (emits _ (mbind _ _)) => apply emits_bind; [|intros] : emits.

(** Walks over a computation and leaves the calls that need an argument. *)
Ltac walk := repeat first
  [ progress intros
  | solve [auto with emits]
  | match goal with
    | |- emits _ (mbind _ _) => apply emits_bind
    | |- emits _ (if _ then _ else _) => apply emits_if
    | |- emits _ (ext _ _) => apply emits_ext; intros; cbn
    | |- emits _ (ext_full _ _) => apply emits_ext_full; intros; cbn
    | |- emits _ (modify _) => apply emits_modify; intros; reflexivity
    | |- emits _ (match ?x with _ => _ end) => destruct x
    end ].
