(* ===== verification/Machines.v ===== *)
(** Concurrent code as a machine of actors: each actor is a function on the
    shared state that makes its next step, and leaves the state alone while it
    is blocked or spins. A run is a schedule, a list of actors. The file holds
    what the machines of the development share: invariants along runs, and
    termination under every fair schedule. *)

From stdpp Require Import base numbers list option.
From S2P Require Import Prelude.

Section machine.
Context {S A : Type} (act : A -> S -> S).

Definition run (sched : list A) (s : S) : S := foldl (fun s a => act a s) s sched.

Lemma run_concat l l' s : run (l ++ l') s = run l' (run l s).
Proof. apply foldl_app. Qed.

(** ** Invariants *)

Definition stable (I : S -> Prop) : Prop := forall a s, I s -> I (act a s).

Lemma run_stable I sched s : stable I -> I s -> I (run sched s).
Proof. intros HI. revert s. induction sched as [|a l IH]; intros s Hs; [done|]. apply IH. by apply HI. Qed.

(** An invariant that needs the actors of the schedule to be of some kind. *)
Lemma run_stable_for (ok : A -> Prop) (I : S -> Prop) sched s :
  (forall a s, ok a -> I s -> I (act a s)) -> Forall ok sched -> I s -> I (run sched s).
Proof.
  intros HI Hok. revert s. induction Hok as [|a l Ha Hl IH]; intros s Hs; [done|]. apply IH. by apply HI.
Qed.

(** ** Fair schedules *)

(** A round gives every actor of [all] a turn, in any order and any number of
    times. *)
Definition round (all l : list A) : Prop := forall a, a ∈ all -> a ∈ l.

Section fair.
Context (all : list A) (ok : A -> Prop) (I final : S -> Prop) (m : S -> nat).

(** The conditions: while the machine has not come to its end some actor can
    get nearer to it, and no actor undoes progress: what it does is either
    nothing or progress. *)
Class progressing : Prop := {
  prog_inv a s : ok a -> I s -> I (act a s);
  prog_step a s : ok a -> I s -> act a s = s \/ (m (act a s) < m s)%nat;
  prog_helpful s : I s -> ~ final s -> exists a, a ∈ all /\ (m (act a s) < m s)%nat;
  prog_final a s : ok a -> I s -> final s -> final (act a s);
}.

Context `{!progressing}.

Lemma run_measure l s : Forall ok l -> I s -> (m (run l s) <= m s)%nat.
Proof.
  intros Hok. revert s. induction Hok as [|a l Ha Hl IH]; intros s Hs; [done|]. cbn.
  etransitivity; [apply IH; by apply prog_inv|]. destruct (prog_step a s Ha Hs) as [->|?]; lia.
Qed.

(** A schedule in which a helpful actor has a turn makes progress. *)
Lemma run_progress l s a :
  Forall ok l -> I s -> a ∈ l -> (m (act a s) < m s)%nat -> (m (run l s) < m s)%nat.
Proof.
  intros Hok. revert s. induction Hok as [|b l Hb Hl IH]; intros s Hs Ha Hlt; [by apply elem_of_nil in Ha|].
  cbn. apply elem_of_cons in Ha as [->|Ha].
  - eapply Nat.le_lt_trans; [apply (run_measure l); [done|by apply prog_inv]|done].
  - destruct (prog_step b s Hb Hs) as [->|Hb']; [by apply IH|].
    eapply Nat.le_lt_trans; [apply (run_measure l); [done|by apply prog_inv]|done].
Qed.

Lemma run_final l s : Forall ok l -> I s -> final s -> final (run l s).
Proof.
  intros Hok. revert s. induction Hok as [|b l Hb Hl IH]; intros s Hs Hf; [done|].
  cbn. apply IH; [by apply prog_inv|by apply prog_final].
Qed.

(** As many rounds as the measure is large are enough. *)
Theorem fair_terminates rounds s :
  (forall s, Decision (final s)) -> Forall (fun l => round all l /\ Forall ok l) rounds -> I s ->
  (m s <= length rounds)%nat -> final (run (concat rounds) s).
Proof.
  intros Hdec Hr. revert s. induction Hr as [|l rounds [Hl Hok] Hr IH]; intros s Hs Hm.
  - destruct (Hdec s) as [|Hn]; [done|]. destruct (prog_helpful s Hs Hn) as (a & _ & ?). cbn in Hm. lia.
  - cbn [concat]. rewrite run_concat. destruct (Hdec s) as [Hf|Hn].
    + apply run_final; [|by apply (run_stable_for ok); [apply prog_inv|..]|by apply run_final].
      clear -Hr. induction Hr as [|l rounds [_ Hl] _ IH]; cbn; [constructor|]. by apply Forall_app.
    + apply IH; [by apply (run_stable_for ok); [apply prog_inv|..]|].
      destruct (prog_helpful s Hs Hn) as (a & Ha & Hlt).
      pose proof (run_progress l s a Hok Hs (Hl a Ha) Hlt). cbn in Hm. lia.
Qed.
End fair.
End machine.
