(* ===== verification/AddrSpace.v ===== *)
(** The address layout of a sandboxed application (sandbox/include/sandbox.h)
    and the two checks every untrusted reference goes through,
    [mem_ref_is_safe]/[check_extent] and [check_string] (sandbox/src/trap.c). *)

From stdpp Require Import base numbers list option.
From S2P Require Import Prelude Platform.

Definition LOADER_VADDR_OFF : Z := 0x6F000000.
Definition APP_MAX_ELF_VADDR : Z := 0x70000000.
Definition APP_MMAP_BASE_OFF : Z := 0x200000000.
Definition APP_MMAP_LEN : Z := 0x200000000.
Definition APP_STACK_SIZE : Z := 0x800000.

(** Error numbers of errno.h. *)
Definition EPERM : Z := 1.
Definition ENOEXEC : Z := 8.
Definition ENOMEM : Z := 12.
Definition EACCES : Z := 13.
Definition EFAULT : Z := 14.
Definition EINVAL : Z := 22.
Definition ENOSYS : Z := 38.

Section address_space.
Context (D : dune_abi) (DUNE : bool).   (* [DUNE]: the preprocessor symbol *)

(** mem_ref_is_safe *)
Definition mem_ref_is_safe (ptr len : Z) : bool :=
  let begin := ptr in
  let end_ := wrap64 (ptr + len) in
  if (len <=? APP_MAX_ELF_VADDR) && (begin >=? 0) && (end_ <=? APP_MAX_ELF_VADDR) then true
  else if DUNE && (len <=? APP_MMAP_LEN) && (begin >=? mmap_base D)
          && (end_ <? wrap64 (mmap_base D + APP_MMAP_LEN)) then true
  else false.

(** check_extent; the diagnostic it prints is not modelled. *)
Definition check_extent (ptr len : Z) : Z :=
  if negb (mem_ref_is_safe ptr len) then - EFAULT else 0.

(** check_string, over the memory [ld]. *)
Definition check_string (ld : Z -> Z) (ptr : Z) : Z :=
  let scan maxlen := match memchr ld ptr 0 maxlen with Some _ => 0 | None => - EFAULT end in
  if ptr <? APP_MAX_ELF_VADDR then scan (APP_MAX_ELF_VADDR - ptr)
  else if ptr >=? mmap_base D then
    if ptr >=? wrap64 (mmap_base D + APP_MMAP_LEN) then - EFAULT
    else scan (wrap64 (wrap64 (mmap_base D + APP_MMAP_LEN) - ptr))
  else - EFAULT.

(** get_err *)
Definition get_err (err ret : Z) : Z := if ret <? 0 then - err else ret.

(** ** What the checks promise *)

(** The two windows of the application, as half-open ranges. *)
Definition in_elf (p len : Z) : Prop := 0 <= p /\ p + len <= APP_MAX_ELF_VADDR.
Definition in_mmap (p len : Z) : Prop :=
  mmap_base D <= p /\ p + len <= mmap_base D + APP_MMAP_LEN.
Definition in_app (p len : Z) : Prop := in_elf p len \/ in_mmap p len.

Context `{!dune_abi_ok D}.

Lemma mmap_end_small : wrap64 (mmap_base D + APP_MMAP_LEN) = mmap_base D + APP_MMAP_LEN.
Proof.
  pose proof (abi_base_low (D := D)). pose proof (abi_base_high (D := D)).
  apply wrap64_small. unfold APP_MMAP_LEN. mlia.
Qed.

Lemma mem_ref_is_safe_cases p len :
  u64 p -> u64 len ->
  mem_ref_is_safe p len = true <->
    in_elf p len
    \/ (DUNE = true /\ mmap_base D <= p /\ p + len < mmap_base D + APP_MMAP_LEN)
    \/ (2 ^ 64 <= p + len /\ len <= if DUNE then APP_MMAP_LEN else APP_MAX_ELF_VADDR).
Proof.
  intros Hp Hl. unfold mem_ref_is_safe. rewrite mmap_end_small.
  pose proof (abi_base_low (D := D)). pose proof (abi_base_high (D := D)).
  unfold in_elf, APP_MMAP_LEN, APP_MAX_ELF_VADDR in *.
  destruct (wrap_cases 64 (p + len)) as [[-> ?]|[-> ?]]; [lia|mlia| |];
    destruct DUNE; simpl; split; intros; repeat case_match; mlia.
Qed.

(** A reference that does not wrap around the address space is accepted only
    inside the application's windows. *)
Lemma mem_ref_is_safe_in_app p len :
  u64 p -> u64 len -> p + len < 2 ^ 64 -> mem_ref_is_safe p len = true -> in_app p len.
Proof.
  intros Hp Hl Hw Hs. apply mem_ref_is_safe_cases in Hs; [|done..].
  unfold in_app, in_mmap. destruct Hs as [?|[(_&?&?)|[? _]]]; [by left|right; lia|lia].
Qed.

Lemma check_extent_0 p len : check_extent p len = 0 <-> mem_ref_is_safe p len = true.
Proof. unfold check_extent, EFAULT. destruct (mem_ref_is_safe p len); simpl; naive_solver lia. Qed.

Lemma check_extent_val p len : check_extent p len = 0 \/ check_extent p len = - EFAULT.
Proof. unfold check_extent. destruct (mem_ref_is_safe p len); simpl; auto. Qed.

(** The end of the window a string reference is scanned in. *)
Definition window_end (p : Z) : option Z :=
  if p <? APP_MAX_ELF_VADDR then Some APP_MAX_ELF_VADDR
  else if (mmap_base D <=? p) && (p <? mmap_base D + APP_MMAP_LEN)
       then Some (mmap_base D + APP_MMAP_LEN)
  else None.

Lemma check_string_window ld p :
  u64 p ->
  check_string ld p =
    match window_end p with
    | Some e => match memchr ld p 0 (e - p) with Some _ => 0 | None => - EFAULT end
    | None => - EFAULT
    end.
Proof.
  intros Hp. unfold check_string, window_end. rewrite mmap_end_small.
  pose proof (abi_base_low (D := D)). pose proof (abi_base_high (D := D)).
  destruct (Z.ltb_spec p APP_MAX_ELF_VADDR); [done|].
  rewrite (Z.geb_leb p (mmap_base D)), (Z.geb_leb p).
  destruct (Z.leb_spec (mmap_base D) p); simpl; [|done].
  destruct (Z.leb_spec (mmap_base D + APP_MMAP_LEN) p), (Z.ltb_spec p (mmap_base D + APP_MMAP_LEN));
    try lia.
  rewrite wrap64_small; [done|]. unfold APP_MMAP_LEN in *. mlia.
Qed.

Lemma window_end_bounds p e :
  u64 p -> window_end p = Some e -> p < e < 2 ^ 64 /\ (e = APP_MAX_ELF_VADDR \/
    e = mmap_base D + APP_MMAP_LEN /\ mmap_base D <= p).
Proof.
  intros Hp. unfold window_end. pose proof (abi_base_high (D := D)).
  unfold APP_MMAP_LEN, APP_MAX_ELF_VADDR in *.
  repeat case_match; intros; simplify_eq; mlia.
Qed.

Lemma window_end_None p n : 0 <= n -> window_end p = None -> ~ in_app p (n + 1).
Proof.
  intros Hn. unfold window_end, in_app, in_elf, in_mmap.
  destruct (Z.ltb_spec p APP_MAX_ELF_VADDR); [done|].
  destruct (Z.leb_spec (mmap_base D) p), (Z.ltb_spec p (mmap_base D + APP_MMAP_LEN));
    simpl; try done; lia.
Qed.

(** ** Properties *)

(** C24. A memory extent is accepted exactly when it lies in the ELF window,
    or (when the code is built with DUNE defined) in the mmap window short of
    its last byte, or when it wraps around the top of the address space with
    an admissible length: the wrapped end passes the upper-bound test. *)
Theorem check_extent_exact p len :
  u64 p -> u64 len ->
  check_extent p len = 0 <->
    in_elf p len
    \/ (DUNE = true /\ mmap_base D <= p /\ p + len < mmap_base D + APP_MMAP_LEN)
    \/ (2 ^ 64 <= p + len /\ len <= if DUNE then APP_MMAP_LEN else APP_MAX_ELF_VADDR).
Proof. intros. rewrite check_extent_0. now apply mem_ref_is_safe_cases. Qed.

(** C25. A string reference is accepted exactly when a terminating NUL lies
    between it and the end of the application window that contains it; then
    the whole string, terminator included, lies in that window. *)
Theorem check_string_exact ld p :
  u64 p ->
  check_string ld p = 0 <->
    exists n, 0 <= n /\ in_app p (n + 1) /\ ld (p + n) = 0 /\ forall j, 0 <= j < n -> ld (p + j) <> 0.
Proof.
  intros Hp. rewrite check_string_window by done. unfold EFAULT.
  destruct (window_end p) as [e|] eqn:He.
  - destruct (window_end_bounds _ _ Hp He) as [[Hpe He64] Hreg].
    pose proof (memchr_spec ld p 0 (e - p)) as Hspec.
    assert (Hw : forall j, 0 <= j < e - p -> wrap64 (p + j) = p + j) by
      (intros; apply wrap64_small; mlia).
    destruct (memchr ld p 0 (e - p)) as [q|].
    + destruct Hspec as (j & Hj & -> & Hl & Hb). split; [intros _|done].
      exists j. rewrite Hw in Hl by done. split; [lia|]. split.
      { unfold in_app, in_elf, in_mmap. mlia. }
      split; [done|]. intros j' Hj'. rewrite <- Hw by lia. now apply Hb.
    + split; [lia|]. intros (n & Hn & Happ & Hl & _). exfalso. apply (Hspec n).
      { unfold in_app, in_elf, in_mmap, APP_MMAP_LEN, APP_MAX_ELF_VADDR in *.
        pose proof (abi_base_low (D := D)). mlia. }
      rewrite Hw; [done|]. unfold in_app, in_elf, in_mmap, APP_MMAP_LEN, APP_MAX_ELF_VADDR in *.
      pose proof (abi_base_low (D := D)). mlia.
  - split; [lia|]. intros (n & Hn & Happ & _). now destruct (window_end_None p n).
Qed.
End address_space.

(** A wrapping reference, accepted: one page at the very top of the address
    space together with the first page. *)
Lemma check_extent_exact_witness :
  (u64 (2 ^ 64 - 4096) /\ u64 8192)
  /\ check_extent dune_x86 true (2 ^ 64 - 4096) 8192 = 0.
Proof.
  split; [split; mlia|].
  apply (check_extent_exact dune_x86 true); [mlia|mlia|].
  right; right. unfold APP_MMAP_LEN. mlia.
Defined.

Lemma check_string_exact_witness :
  u64 0x1000 /\ check_string dune_x86 (fun a => if a =? 0x1003 then 0 else 65) 0x1000 = 0.
Proof.
  split; [mlia|].
  apply (check_string_exact dune_x86); [mlia|].
  exists 3. split; [lia|]. split; [left; unfold in_elf, APP_MAX_ELF_VADDR; lia|].
  split; [reflexivity|]. intros j Hj.
  destruct (Z.eqb_spec (0x1000 + j) 0x1003); lia.
Defined.
