(* ===== verification/Umm.v ===== *)
(** Memory management for the untrusted process (sandbox/src/umm.c): the heap
    that grows up from [mmap_base], the mapping area that grows down from
    [mmap_base + APP_MMAP_BASE_OFF], and the requests that act on ranges the
    application names.  [USE_BIG_MEM] is 0, as in the source. *)

From stdpp Require Import base numbers list option.
From S2P Require Import Prelude Platform AddrSpace.

(** Constants of sys/mman.h and sys/shm.h. *)
Definition PROT_READ : Z := 1.
Definition PROT_WRITE : Z := 2.
Definition PROT_EXEC : Z := 4.
Definition MAP_PRIVATE : Z := 0x2.
Definition MAP_FIXED : Z := 0x10.
Definition MAP_ANONYMOUS : Z := 0x20.
Definition MAP_HUGETLB : Z := 0x40000.
Definition MREMAP_MAYMOVE : Z := 1.
Definition MREMAP_FIXED : Z := 2.
Definition SHM_RDONLY : Z := 0x1000.

Section umm.
Context {W : Type} (P : platform W) (D : dune_abi) (DUNE : bool).
Abbreviation C := (M (sandbox W)).

Definition umm_space_left (s : sandbox W) (len : Z) : bool :=
  wrap64 (brk_len s + mmap_len s + len) <? APP_MMAP_LEN.

Definition umm_get_map_pos (s : sandbox W) : Z :=
  wrap64 (mmap_base D + APP_MMAP_BASE_OFF - mmap_len s).

Definition prot_to_perm (prot : Z) : Z :=
  let perm := PERM_U D in
  let perm := if has_bits prot PROT_READ then Z.lor perm (PERM_R D) else perm in
  let perm := if has_bits prot PROT_WRITE then Z.lor perm (PERM_W D) else perm in
  if has_bits prot PROT_EXEC then Z.lor perm (PERM_X D) else perm.

(** [-errno] *)
Definition neg_errno : C Z := e ← gets errno; mret (- e).

(** [PGADDR(len + PGSIZE - 1)] and its 2MB counterpart. *)
Definition page_round (len : Z) : Z := PGADDR D (wrap64 (len + PGSIZE D - 1)).
Definition big_round (len : Z) : Z := BIG_PGADDR D (wrap64 (len + BIG_PGSIZE D - 1)).

Definition umm_mmap_anom (addr len prot : Z) (big : bool) : C Z :=
  let flags := Z.lor (Z.lor MAP_FIXED MAP_PRIVATE) MAP_ANONYMOUS in
  let perm := prot_to_perm prot in
  let flags := if big then Z.lor flags MAP_HUGETLB else flags in
  let perm := if big then Z.lor perm (PERM_BIG D) else perm in
  mem ← ext P (Mmap addr len prot flags (-1) 0);
  if negb (mem =? addr) then neg_errno else
  pa ← ext P (VaToPa addr);
  ret ← ext P (VmMapPhys addr len pa perm);
  if truthy ret then _ ← ext P (Munmap addr len); mret ret
  else mret 0.

Definition umm_mmap_file (addr len prot flags fd offset : Z) : C Z :=
  mem ← ext P (Mmap addr len prot (Z.lor MAP_FIXED flags) fd offset);
  if negb (mem =? addr) then neg_errno else
  pa ← ext P (VaToPa addr);
  ret ← ext P (VmMapPhys addr len pa (prot_to_perm prot));
  if truthy ret then _ ← ext P (Munmap addr len); mret ret
  else mret 0.

Definition umm_brk (brk : Z) : C Z :=
  if brk =? 0 then mret (mmap_base D)
  else if brk <? mmap_base D then mret (ulong_of_int (- EINVAL)) else
  let len := page_round (wrap64 (brk - mmap_base D)) in
  s ← get;
  if negb (umm_space_left s len) then mret (ulong_of_int (- ENOMEM))
  else if len =? brk_len s then mret brk
  else if len <? brk_len s then
    ret ← ext P (Munmap (wrap64 (mmap_base D + len)) (wrap64 (brk_len s - len)));
    if truthy ret then e ← neg_errno; mret (ulong_of_int e) else
    _ ← ext P (VmUnmap (wrap64 (mmap_base D + len)) (wrap64 (brk_len s - len)));
    _ ← modify (set_brk_len len);
    mret brk
  else
    ret ← umm_mmap_anom (wrap64 (mmap_base D + brk_len s)) (wrap64 (len - brk_len s))
            (Z.lor PROT_READ PROT_WRITE) false;
    if truthy ret then mret (ulong_of_int ret) else
    _ ← modify (set_brk_len len);
    mret brk.

(** Compiled but only called when [USE_BIG_MEM] is set. *)
Definition umm_map_big (len prot : Z) : C Z :=
  s ← get;
  let full_len := wrap64 (big_round len + BIG_PGOFF D (umm_get_map_pos s)) in
  let addr := wrap64 (umm_get_map_pos s - full_len) in
  ret ← umm_mmap_anom addr len prot true;
  if truthy ret then mret (ulong_of_int ret) else
  _ ← modify (fun s => set_mmap_len (wrap64 (mmap_len s + full_len)) s);
  mret addr.

(** [mmap_len += PGADDR(len + PGSIZE - 1)] *)
Definition bump (adjust : bool) (len : Z) : C unit :=
  if adjust then modify (fun s => set_mmap_len (wrap64 (mmap_len s + page_round len)) s)
  else mret tt.

(** Where the next area of [len] bytes goes. *)
Definition place (s : sandbox W) (len : Z) : Z :=
  wrap64 (umm_get_map_pos s - page_round len).

(** The part of [umm_mmap] after the address is chosen. *)
Definition umm_mmap_at (adjust : bool) (addr len prot flags fd offset : Z) : C Z :=
  if has_bits flags MAP_ANONYMOUS then
    ret ← umm_mmap_anom addr len prot false;
    if truthy ret then mret (ulong_of_int ret) else _ ← bump adjust len; mret addr
  else if fd >? 0 then
    ret ← umm_mmap_file addr len prot flags fd offset;
    if truthy ret then mret (ulong_of_int ret) else _ ← bump adjust len; mret addr
  else mret (ulong_of_int (- EINVAL)).

Definition umm_mmap (addr len prot flags fd offset : Z) : C Z :=
  s ← get;
  if addr =? 0 then
    if negb (umm_space_left s len) then mret (ulong_of_int (- ENOMEM))
    else umm_mmap_at true (place s len) len prot flags fd offset
  else if negb (mem_ref_is_safe D DUNE addr len) then mret (ulong_of_int (- EINVAL))
  else umm_mmap_at false addr len prot flags fd offset.

Definition umm_munmap (addr len : Z) : C Z :=
  if negb (mem_ref_is_safe D DUNE addr len) then mret (- EACCES) else
  ret ← ext P (Munmap addr len);
  if truthy ret then
    ret ← ext P (Munmap addr (big_round len));
    if truthy ret then neg_errno else
    _ ← ext P (VmUnmap addr (big_round len));
    mret 0
  else
    _ ← ext P (VmUnmap addr len);
    mret 0.

Definition umm_mprotect (addr len prot : Z) : C Z :=
  if negb (mem_ref_is_safe D DUNE addr len) then mret (- EACCES) else
  ret ← ext P (Mprotect addr len (to_int prot));
  if truthy ret then neg_errno else
  ret ← ext P (VmMprotect addr len (prot_to_perm (to_int prot)));
  _ ← c_assert (negb (truthy ret));
  mret 0.

(** The part of [umm_shmat] after the address is chosen. *)
Definition umm_shmat_at (adjust : bool) (shmid addr shmflg len perm : Z) : C Z :=
  mem ← ext P (Shmat shmid addr shmflg);
  if negb (mem =? addr) then e ← neg_errno; mret (ulong_of_int e) else
  pa ← ext P (VaToPa addr);
  ret ← ext P (VmMapPhys addr len pa perm);
  if truthy ret then _ ← ext P (Shmdt addr); mret (ulong_of_int ret) else
  _ ← bump adjust len;
  mret addr.

Definition umm_shmat (shmid addr shmflg : Z) : C Z :=
  let prot := PROT_READ in
  let prot := if negb (has_bits shmflg SHM_RDONLY) then Z.lor prot PROT_WRITE else prot in
  let perm := prot_to_perm prot in
  shm ← ext_full P (ShmctlStat shmid);
  if a_ret shm =? -1 then mret (ulong_of_int (-1)) else
  let len := a_out shm in
  s ← get;
  if addr =? 0 then
    if negb (umm_space_left s len) then mret (ulong_of_int (- ENOMEM))
    else umm_shmat_at true shmid (place s len) shmflg len perm
  else if negb (mem_ref_is_safe D DUNE addr len) then mret (ulong_of_int (- EINVAL))
  else umm_shmat_at false shmid addr shmflg len perm.

(** The part of [umm_mremap] after the address is chosen. *)
Definition umm_mremap_at (adjust : bool) (old_address old_size new_size flags new_address : Z) : C Z :=
  if negb (has_bits flags MREMAP_MAYMOVE) then mret (ulong_of_int (- EINVAL)) else
  let flags := Z.lor flags (Z.lor MREMAP_FIXED MREMAP_MAYMOVE) in
  ret ← ext P (Mremap old_address old_size new_size flags new_address);
  if negb (ret =? new_address) then e ← neg_errno; mret (ulong_of_int e) else
  _ ← bump adjust new_size;
  _ ← ext P (VmUnmap old_address old_size);
  pa ← ext P (VaToPa new_address);
  r ← ext P (VmMapPhys new_address new_size pa (prot_to_perm (Z.lor PROT_READ PROT_WRITE)));
  if truthy r then stop (Exit 1) else mret ret.

Definition umm_mremap (old_address old_size new_size flags new_address : Z) : C Z :=
  if negb (mem_ref_is_safe D DUNE old_address old_size) then mret (ulong_of_int (- EACCES))
  else if has_bits flags MREMAP_FIXED then
    if negb (mem_ref_is_safe D DUNE new_address new_size) then mret (ulong_of_int (- EACCES))
    else umm_mremap_at false old_address old_size new_size flags new_address
  else
    s ← get;
    if negb (umm_space_left s new_size) then mret (ulong_of_int (- ENOMEM))
    else umm_mremap_at true old_address old_size new_size flags (place s new_size).

(** Returns the error code and the top of the new stack. *)
Definition umm_alloc_stack : C (Z * Z) :=
  s ← get;
  let base := umm_get_map_pos s in
  if negb (umm_space_left s APP_STACK_SIZE) then mret (- ENOMEM, 0) else
  ret ← umm_mmap_anom (wrap64 (PGADDR D base - APP_STACK_SIZE + PGSIZE D))
          (APP_STACK_SIZE - PGSIZE D) (Z.lor PROT_READ PROT_WRITE) false;
  if truthy ret then mret (ret, 0) else
  _ ← modify (fun s => set_mmap_len (wrap64 (mmap_len s + (APP_STACK_SIZE + PGOFF D base))) s);
  mret (0, PGADDR D base).

(** ** Invariant and effects *)

(** Both areas are whole pages and fit the window together. *)
Definition umm_inv (s : sandbox W) : Prop :=
  0 <= brk_len s /\ 0 <= mmap_len s /\ (4096 | brk_len s) /\ (4096 | mmap_len s)
  /\ brk_len s + mmap_len s <= APP_MMAP_LEN.

(** The lowest address handed out so far. *)
Definition lo (s : sandbox W) : Z := mmap_base D + APP_MMAP_LEN - mmap_len s.

(** The calls umm.c may make. A mapping the kernel grants (where it was asked
    for), a page-table mapping and a protection change lie in the
    application's windows; a segment that is attached or detached starts in
    one; an unmapping lies in one, or is the 2MB retry of [umm_munmap]: a
    range that starts in a window and whose length, before it is rounded up to
    2MB, does not leave it. *)
Definition confined (e : oscall * Z) : Prop :=
  match e with
  | (Mmap a len _ _ _ _, r) => r = a -> in_app D a len
  | (Mremap a olen len _ new, r) => r = new -> in_app D a olen /\ in_app D new len
  | (VmMapPhys a len _ _, _) | (Mprotect a len _, _) | (VmMprotect a len _, _) => in_app D a len
  | (Shmat _ a _, r) => r = a -> in_app D a 0
  | (Shmdt a, _) => in_app D a 0
  | (Munmap a len, _) | (VmUnmap a len, _) =>
      in_app D a len \/ exists l, in_app D a l /\ len = align_up 2097152 l
  | (VaToPa _, _) | (ShmctlStat _, _) => True
  | _ => False
  end.

(** [umm_post s s' g]: from [s], a request kept the invariant, made only
    confined calls, and, when it placed a new area [g] itself, put it below
    all areas placed before. *)
Definition umm_post (s s' : sandbox W) (g : option (Z * Z)) : Prop :=
  umm_inv s' /\ mmap_len s <= mmap_len s'
  /\ (exists l, trace s' = trace s ++ l /\ Forall confined l)
  /\ match g with Some (a, len) => lo s' <= a /\ a + len <= lo s | None => True end.

Context `{!dune_abi_ok D} `{!platform_ok P}.

Lemma page_round_spec len :
  u64 len -> len < 2 ^ 64 - 4096 -> page_round len = align_up 4096 len.
Proof.
  intros Hl Hs. unfold page_round. rewrite abi_PGSIZE.
  rewrite wrap64_small by mlia. apply abi_PGADDR. mlia.
Qed.

Lemma big_round_spec len :
  u64 len -> len < 2 ^ 64 - 2097152 -> big_round len = align_up 2097152 len.
Proof.
  intros Hl Hs. unfold big_round. rewrite abi_BIG_PGSIZE.
  rewrite wrap64_small by mlia. apply abi_BIG_PGADDR. mlia.
Qed.

Lemma lo_bounds s : umm_inv s -> mmap_base D + brk_len s <= lo s <= mmap_base D + APP_MMAP_LEN.
Proof. unfold umm_inv, lo. lia. Qed.

Lemma umm_get_map_pos_lo s : umm_inv s -> umm_get_map_pos s = lo s.
Proof.
  intros Hi. pose proof (lo_bounds s Hi). unfold umm_get_map_pos, lo, umm_inv in *.
  pose proof (abi_base_low (D := D)). pose proof (abi_base_high (D := D)).
  unfold APP_MMAP_BASE_OFF, APP_MMAP_LEN in *. apply wrap64_small. mlia.
Qed.

(** Space check and rounding together: a checked area fits below [lo]. *)
Lemma space_left_fits s len :
  umm_inv s -> u64 len -> len < 2 ^ 47 -> umm_space_left s len = true ->
  page_round len = align_up 4096 len
  /\ brk_len s + mmap_len s + align_up 4096 len <= APP_MMAP_LEN
  /\ place s len = lo s - align_up 4096 len.
Proof.
  intros Hi Hl Hs Hsp. rewrite page_round_spec by mlia. split; [done|].
  pose proof Hi as (? & ? & Hb & Hm & Hsum). pose proof (lo_bounds s Hi).
  pose proof (align_up_range 4096 len ltac:(lia)).
  pose proof (abi_base_low (D := D)). pose proof (abi_base_high (D := D)).
  unfold umm_space_left in Hsp. rewrite wrap64_small in Hsp by (unfold APP_MMAP_LEN in *; mlia).
  apply Z.ltb_lt in Hsp.
  assert (Hfit : align_up 4096 len <= APP_MMAP_LEN - brk_len s - mmap_len s).
  { apply align_up_le; [lia| |lia].
    apply Z.divide_sub_r; [apply Z.divide_sub_r|]; auto. now exists 2097152. }
  split; [lia|]. unfold place. rewrite umm_get_map_pos_lo, page_round_spec by (done || mlia).
  apply wrap64_small. unfold lo, APP_MMAP_LEN in *. mlia.
Qed.

Lemma umm_post_refl s : umm_inv s -> umm_post s s None.
Proof. intros. split; [done|]. split; [lia|]. split; [exists []; now rewrite app_nil_r|done]. Qed.

Lemma umm_post_ext s s' c :
  umm_post s s' None -> confined (c, reply P c s') -> umm_post s (after P c s') None.
Proof.
  intros (Hi & Hle & (l & Hl & Hc) & _) Hconf. split; [done|]. split; [done|]. split; [|done].
  exists (l ++ [(c, reply P c s')]). unfold after; cbn [trace]. rewrite Hl, app_assoc.
  split; [done|]. apply Forall_app. split; [done|]. now repeat constructor.
Qed.

(** The common body of [umm_mmap_anom] and [umm_mmap_file]. *)
Definition map_fixed (addr len prot flags fd off perm : Z) : C Z :=
  mem ← ext P (Mmap addr len prot flags fd off);
  if negb (mem =? addr) then neg_errno else
  pa ← ext P (VaToPa addr);
  ret ← ext P (VmMapPhys addr len pa perm);
  if truthy ret then _ ← ext P (Munmap addr len); mret ret
  else mret 0.

Lemma umm_mmap_anom_eq a len prot big :
  umm_mmap_anom a len prot big =
  map_fixed a len prot
    (if big then Z.lor (Z.lor (Z.lor MAP_FIXED MAP_PRIVATE) MAP_ANONYMOUS) MAP_HUGETLB
     else Z.lor (Z.lor MAP_FIXED MAP_PRIVATE) MAP_ANONYMOUS) (-1) 0
    (if big then Z.lor (prot_to_perm prot) (PERM_BIG D) else prot_to_perm prot).
Proof. reflexivity. Qed.

Lemma umm_mmap_file_eq a len prot flags fd off :
  umm_mmap_file a len prot flags fd off =
  map_fixed a len prot (Z.lor MAP_FIXED flags) fd off (prot_to_perm prot).
Proof. reflexivity. Qed.

(** [same s s']: the two counters are untouched. *)
Definition same (s s' : sandbox W) : Prop := brk_len s' = brk_len s /\ mmap_len s' = mmap_len s.

Lemma neg_errno_after c s :
  exists e, neg_errno (after P c s) = (Ret (- e), after P c s) /\ 0 < e < 4096.
Proof. eexists. split; [reflexivity|]. cbn. apply pf_errno. Qed.

(** A fixed mapping either fails with an error code and leaves no mapping, or
    succeeds; the counters do not move. *)
Lemma map_fixed_spec s0 s a len prot flags fd off perm :
  umm_post s0 s None -> a <> 2 ^ 64 - 1 -> (len < 2 ^ 47 -> in_app D a len) ->
  exists r s', map_fixed a len prot flags fd off perm s = (Ret r, s')
    /\ umm_post s0 s' None /\ same s s'
    /\ (r = 0 /\ len < 2 ^ 47 \/ -4096 < r < 0).
Proof.
  intros Hs Ha Happ. unfold map_fixed. exec.
  set (c1 := Mmap a len prot flags fd off). set (s1 := after P c1 s).
  assert (Hlen : reply P c1 s = a -> len < 2 ^ 47).
  { intros Hr. destruct (Z_lt_le_dec len (2 ^ 47)) as [|Hge]; [done|].
    pose proof (pf_mmap_huge (P := P) (world s) a len prot flags fd off Hge) as Hp.
    unfold reply, c1 in Hr. congruence. }
  assert (H1 : umm_post s0 s1 None) by (apply umm_post_ext; [done|]; cbn; auto).
  destruct (Z.eqb_spec (reply P c1 s) a) as [Heq|_]; cbn [negb].
  2:{ destruct (neg_errno_after c1 s) as (e & Hn & He). fold s1 in Hn. rewrite Hn. exists (- e), s1.
      split; [done|]. split; [done|]. split; [by split|]. right; lia. }
  exec. set (s2 := after P (VaToPa a) s1).
  assert (H2 : umm_post s0 s2 None) by (apply umm_post_ext; [done|]; cbn; auto).
  set (c3 := VmMapPhys a len (reply P (VaToPa a) s1) perm). set (s3 := after P c3 s2).
  assert (H3 : umm_post s0 s3 None) by (apply umm_post_ext; [done|]; cbn; auto).
  pose proof (pf_map_phys (P := P) (world s2) a len (reply P (VaToPa a) s1) perm) as Hr.
  fold c3 in Hr. fold (reply P c3 s2) in Hr. unfold truthy.
  destruct (Z.eqb_spec (reply P c3 s2) 0) as [Hz|Hz]; cbn [negb]; exec.
  - exists 0, s3. split; [done|]. split; [done|]. split; [by split|]. auto.
  - eexists _, (after P (Munmap a len) s3). split; [reflexivity|].
    split; [apply umm_post_ext; [done|]; cbn; auto|]. split; [by split|]. right; lia.
Qed.

Lemma bump_spec adjust len s :
  u64 (page_round len) -> umm_inv s ->
  (adjust = true -> (4096 | page_round len) /\ brk_len s + mmap_len s + page_round len <= APP_MMAP_LEN) ->
  exists s', bump adjust len s = (Ret tt, s') /\ umm_inv s' /\ trace s' = trace s
    /\ mmap_len s' = mmap_len s + (if adjust then page_round len else 0)
    /\ brk_len s' = brk_len s /\ world s' = world s.
Proof.
  intros Hu Hi Hadj. unfold bump. destruct adjust.
  - destruct (Hadj eq_refl) as [Hd Hf]. destruct Hi as (? & ? & ? & ? & ?).
    eexists. split; [reflexivity|]. unfold umm_inv, set_mmap_len; cbn.
    rewrite wrap64_small by (unfold APP_MMAP_LEN in *; mlia).
    repeat split; try done; try mlia. now apply Z.divide_add_r.
  - exists s. repeat split; try done; try apply Hi. lia.
Qed.

(** An unsigned return value that encodes an error number. *)
Definition is_err (v : Z) : bool := 2 ^ 64 - 4096 <? v.

Lemma is_err_neg e : -4096 < e < 0 -> is_err (ulong_of_int e) = true.
Proof.
  intros He. unfold is_err. apply Z.ltb_lt. unfold wrap.
  rewrite <- (Z.mod_add e 1) by lia. rewrite Z.mod_small; lia.
Qed.

Lemma in_app_not_err a len : 0 <= len -> in_app D a len -> is_err a = false /\ a <> 2 ^ 64 - 1.
Proof.
  intros Hl Ha. pose proof (abi_base_low (D := D)). pose proof (abi_base_high (D := D)).
  unfold is_err, in_app, in_elf, in_mmap, APP_MMAP_LEN, APP_MAX_ELF_VADDR in *.
  split; [apply Z.ltb_ge|]; lia.
Qed.

Lemma page_round_aligned len : (4096 | page_round len) /\ u64 (page_round len).
Proof.
  unfold page_round. rewrite abi_PGADDR by auto with machine.
  pose proof (wrap64_range (len + PGSIZE D - 1)).
  pose proof (align_down_range 4096 (wrap64 (len + PGSIZE D - 1)) ltac:(lia)).
  split; [apply align_down_divide; lia|]. unfold align_down in *.
  pose proof (Z.mod_le (wrap64 (len + PGSIZE D - 1)) 4096). mlia.
Qed.

Lemma place_aligned s len : umm_inv s -> place s len <> 2 ^ 64 - 1.
Proof.
  intros Hi. unfold place. rewrite umm_get_map_pos_lo by done.
  destruct (page_round_aligned len) as [[k Hk] _]. destruct Hi as (_ & _ & _ & [m Hm] & _).
  destruct (abi_base_aligned (D := D)) as [b Hb]. unfold lo, APP_MMAP_LEN. rewrite Hk, Hm, Hb.
  unfold wrap. replace (b * 4096 + 0x200000000 - m * 4096 - k * 4096)
    with ((b + 2097152 - m - k) * 2 ^ 12) by lia.
  change (2 ^ 64) with (2 ^ 52 * 2 ^ 12). rewrite Z.mul_mod_distr_r by lia. lia.
Qed.

(** What placing a fresh area guarantees once the length is known sane. *)
Lemma place_spec s len :
  umm_inv s -> u64 len -> umm_space_left s len = true -> len < 2 ^ 47 ->
  in_app D (place s len) len /\ page_round len = align_up 4096 len
  /\ place s len = lo s - page_round len /\ len <= page_round len
  /\ brk_len s + mmap_len s + page_round len <= APP_MMAP_LEN.
Proof.
  intros Hi Hl Hsp Hs. destruct (space_left_fits s len) as (Hr & Hf & Hp); try done.
  pose proof (lo_bounds s Hi). pose proof (align_up_range 4096 len ltac:(lia)).
  rewrite Hp, Hr. repeat split; try lia. right. unfold in_mmap, lo in *.
  destruct Hi as (? & ? & _). lia.
Qed.

(** [settled]: the outcome of a request that places or reuses an area at
    [addr]: an error with the counters untouched, or the address itself with
    [mmap_len] advanced when the area is fresh. *)
Definition settled (adjust : bool) (s s' : sandbox W) (addr len v : Z) : Prop :=
  is_err v = true /\ same s s'
  \/ v = addr /\ len < 2 ^ 47 /\ brk_len s' = brk_len s
     /\ mmap_len s' = mmap_len s + (if adjust then page_round len else 0).

Lemma umm_post_same s0 s s' :
  umm_post s0 s None -> umm_inv s' -> trace s' = trace s -> mmap_len s <= mmap_len s' ->
  umm_post s0 s' None.
Proof.
  intros (_ & ? & (l & Hl & Hc) & _) Hi Ht Hm. split; [done|]. split; [lia|].
  split; [|done]. exists l. now rewrite Ht.
Qed.

(** Recording a granted area in [mmap_len], from a state with the counters
    of [s] on which the space check was made. *)
Lemma bump_settles adjust s s1 len :
  umm_post s s1 None -> same s s1 -> umm_inv s -> u64 len -> len < 2 ^ 47 ->
  (adjust = true -> umm_space_left s len = true) ->
  exists s2, bump adjust len s1 = (Ret tt, s2) /\ umm_post s s2 None /\ brk_len s2 = brk_len s
    /\ mmap_len s2 = mmap_len s + (if adjust then page_round len else 0).
Proof.
  intros Hp [Hb Hm] Hi Hl Hs Hadj.
  destruct (page_round_aligned len) as [Hd Hu].
  destruct (bump_spec adjust len s1) as (s2 & Hbump & Hi2 & Ht & Hm2 & Hb2 & _); [done|apply Hp| |].
  { intros ->. destruct (place_spec s len) as (_ & _ & _ & _ & ?); auto.
    split; [done|]. lia. }
  exists s2. rewrite Hbump, Hm2, Hb2, Hb, Hm. split; [done|]. split; [|done].
  apply (umm_post_same s s1); auto. destruct adjust; mlia.
Qed.

Lemma umm_mmap_at_spec adjust s addr len prot flags fd off :
  umm_inv s -> u64 len -> addr <> 2 ^ 64 - 1 -> (len < 2 ^ 47 -> in_app D addr len) ->
  (adjust = true -> umm_space_left s len = true) ->
  exists v s', umm_mmap_at adjust addr len prot flags fd off s = (Ret v, s')
    /\ umm_post s s' None /\ settled adjust s s' addr len v.
Proof.
  intros Hi Hl Ha Happ Hadj. unfold umm_mmap_at.
  assert (Hfix : forall fl fd' off' perm, exists v s',
    (ret ← map_fixed addr len prot fl fd' off' perm;
     if truthy ret then mret (ulong_of_int ret) else _ ← bump adjust len; mret addr) s = (Ret v, s')
    /\ umm_post s s' None /\ settled adjust s s' addr len v).
  { intros fl fd' off' perm.
    destruct (map_fixed_spec s s addr len prot fl fd' off' perm) as (r & s1 & Hm & Hp & Hsame & Hr);
      [by apply umm_post_refl|done|done|].
    unfold mbind at 1, M_bind at 1. rewrite Hm. unfold truthy.
    destruct Hr as [[-> Hlen]|Hr]; cbn [Z.eqb negb].
    - destruct (bump_settles adjust s s1 len) as (s2 & Hb & Hp2 & Hb2 & Hm2); try done.
      unfold mbind, M_bind. rewrite Hb. exists addr, s2. split; [done|]. split; [done|].
      right. auto.
    - destruct (Z.eqb_spec r 0) as [->|_]; [lia|]. cbn [negb]. exists (ulong_of_int r), s1.
      split; [done|]. split; [done|]. left. split; [|done]. apply is_err_neg. lia. }
  destruct (has_bits flags MAP_ANONYMOUS); [rewrite umm_mmap_anom_eq; apply Hfix|].
  destruct (fd >? 0); [rewrite umm_mmap_file_eq; apply Hfix|].
  exists (ulong_of_int (- EINVAL)), s. split; [done|]. split; [by apply umm_post_refl|].
  left. split; [apply is_err_neg; unfold EINVAL; lia|by split].
Qed.

Lemma refused s e :
  umm_inv s -> 0 < e < 4096 ->
  exists v s', (mret (ulong_of_int (- e)) : C Z) s = (Ret v, s') /\ umm_post s s' None
    /\ is_err v = true /\ same s s'.
Proof.
  intros Hi He. exists (ulong_of_int (- e)), s. split; [done|]. split; [by apply umm_post_refl|].
  split; [apply is_err_neg; lia|by split].
Qed.

(** [umm_mmap] on either kind of request. *)
Lemma umm_mmap_spec s addr len prot flags fd off :
  umm_inv s -> u64 addr -> u64 len -> addr = 0 \/ addr + len < 2 ^ 64 ->
  exists v s', umm_mmap addr len prot flags fd off s = (Ret v, s')
    /\ umm_post s s' None
    /\ settled (addr =? 0) s s' (if addr =? 0 then place s len else addr) len v.
Proof.
  intros Hi Ha Hl Hw. unfold umm_mmap. exec.
  destruct (Z.eqb_spec addr 0) as [->|Hnz].
  - destruct (umm_space_left s len) eqn:Hsp; cbn [negb].
    + apply umm_mmap_at_spec; auto; [by apply place_aligned|].
      intros. now apply place_spec.
    + destruct (refused s ENOMEM) as (v & s' & -> & Hp & Hv); [done|unfold ENOMEM; lia|].
      exists v, s'. unfold settled. auto.
  - destruct (mem_ref_is_safe D DUNE addr len) eqn:Hsafe; cbn [negb].
    + destruct Hw as [|Hw]; [done|].
      pose proof (mem_ref_is_safe_in_app D DUNE addr len Ha Hl Hw Hsafe) as Happ.
      destruct (in_app_not_err addr len) as [_ ?]; [mlia|done|].
      apply umm_mmap_at_spec; auto. done.
    + destruct (refused s EINVAL) as (v & s' & -> & Hp & Hv); [done|unfold EINVAL; lia|].
      exists v, s'. unfold settled. auto.
Qed.

Lemma umm_brk_spec s brk :
  umm_inv s -> u64 brk ->
  exists v s', umm_brk brk s = (Ret v, s') /\ umm_post s s' None /\ mmap_len s' = mmap_len s
    /\ (is_err v = true /\ brk_len s' = brk_len s
        \/ brk = 0 /\ v = mmap_base D /\ brk_len s' = brk_len s
        \/ v = brk /\ mmap_base D <= brk /\ brk_len s' = align_up 4096 (brk - mmap_base D)).
Proof.
  intros Hi Hb. unfold umm_brk. exec.
  pose proof Hi as (Hb0 & Hm0 & Hbd & Hmd & Hsum).
  pose proof (abi_base_low (D := D)) as Hbl. pose proof (abi_base_high (D := D)) as Hbh.
  pose proof (umm_post_refl s Hi) as Hp0.
  destruct (Z.eqb_spec brk 0) as [->|Hnz]; [exists (mmap_base D), s; auto 8|].
  destruct (Z.ltb_spec brk (mmap_base D)) as [|Hge].
  { destruct (refused s EINVAL) as (v & s' & -> & Hp & Hv & [? ?]); [done|unfold EINVAL; lia|].
    exists v, s'. auto 8. }
  rewrite (wrap64_small (brk - mmap_base D)) by mlia.
  rewrite page_round_spec by mlia. exec.
  set (len := align_up 4096 (brk - mmap_base D)).
  assert (Hlen : brk - mmap_base D <= len < brk - mmap_base D + 4096)
    by (apply align_up_range; lia).
  assert (Hld : (4096 | len)) by (apply align_up_divide; lia).
  destruct (umm_space_left s len) eqn:Hsp; cbn [negb].
  2:{ destruct (refused s ENOMEM) as (v & s' & -> & Hp & Hv & [? ?]); [done|unfold ENOMEM; lia|].
      exists v, s'. auto 8. }
  assert (Hfit : len < 2 ^ 48 -> brk_len s + mmap_len s + len < APP_MMAP_LEN).
  { intros. unfold umm_space_left in Hsp. apply Z.ltb_lt in Hsp.
    rewrite wrap64_small in Hsp; [done|]. unfold APP_MMAP_LEN in *. mlia. }
  destruct (Z.eqb_spec len (brk_len s)) as [Heq|Hne].
  { exists brk, s. do 3 (split; [done|]). right; right. repeat split; auto. }
  destruct (Z.ltb_spec len (brk_len s)) as [Hlt|Hgt]; exec.
  - (* shrink *)
    rewrite !wrap64_small by (unfold APP_MMAP_LEN in *; mlia).
    assert (Hc : in_app D (mmap_base D + len) (brk_len s - len))
      by (right; unfold in_mmap, APP_MMAP_LEN in *; lia).
    set (c1 := Munmap _ _). set (s1 := after P c1 s).
    assert (H1 : umm_post s s1 None) by (apply umm_post_ext; [done|]; cbn; auto).
    unfold truthy. destruct (Z.eqb_spec (reply P c1 s) 0) as [|]; cbn [negb]; exec.
    + set (s2 := after P _ s1). eexists _, _. split; [reflexivity|].
      assert (H2 : umm_post s s2 None) by (apply umm_post_ext; [done|]; cbn; auto).
      split; [|split; [done|]; right; right; auto].
      apply (umm_post_same s s2); auto; [|cbn; lia]. unfold umm_inv, APP_MMAP_LEN in *; cbn.
      repeat split; try done; lia.
    + destruct (neg_errno_after c1 s) as (e & Hn & He). fold s1 in Hn.
      unfold mbind, M_bind. rewrite Hn. exists (ulong_of_int (- e)), s1. split; [done|].
      split; [done|]. split; [done|]. left. split; [apply is_err_neg; lia|done].
  - (* grow *)
    rewrite (wrap64_small (mmap_base D + brk_len s)) by (unfold APP_MMAP_LEN in *; mlia).
    rewrite (wrap64_small (len - brk_len s)) by mlia. rewrite umm_mmap_anom_eq.
    destruct (map_fixed_spec s s (mmap_base D + brk_len s) (len - brk_len s)
                (Z.lor PROT_READ PROT_WRITE) (Z.lor (Z.lor MAP_FIXED MAP_PRIVATE) MAP_ANONYMOUS)
                (-1) 0 (prot_to_perm (Z.lor PROT_READ PROT_WRITE)))
      as (r & s1 & Hm & Hp & [Hsb Hsm] & Hr); [done|unfold APP_MMAP_LEN in *; mlia| |].
    { intros Hs. right. unfold in_mmap, APP_MMAP_LEN in *. lia. }
    unfold mbind at 1, M_bind at 1. rewrite Hm. unfold truthy.
    destruct Hr as [[-> Hs]|Hr]; cbn [Z.eqb negb].
    + exec. eexists _, _. split; [reflexivity|]. split; [|split; [done|]; right; right; auto].
      apply (umm_post_same s s1); auto; [|cbn; lia]. unfold umm_inv, APP_MMAP_LEN in *; cbn.
      rewrite Hsm. repeat split; try done; lia.
    + destruct (Z.eqb_spec r 0) as [->|_]; [lia|]. cbn [negb]. exists (ulong_of_int r), s1.
      do 3 (split; [done|]). left. split; [apply is_err_neg; lia|done].
Qed.

(** A request that names a range and is checked first: an error with nothing
    touched, or the range is the application's. *)
Lemma safe_range addr len :
  u64 addr -> u64 len -> addr + len < 2 ^ 64 -> mem_ref_is_safe D DUNE addr len = true ->
  in_app D addr len /\ len < 2 ^ 47.
Proof.
  intros Ha Hl Hw Hs. pose proof (mem_ref_is_safe_in_app D DUNE addr len Ha Hl Hw Hs) as Happ.
  split; [done|]. pose proof (abi_base_high (D := D)). pose proof (abi_base_low (D := D)).
  unfold in_app, in_elf, in_mmap, APP_MMAP_LEN, APP_MAX_ELF_VADDR in *. mlia.
Qed.

Lemma umm_munmap_spec s addr len :
  umm_inv s -> u64 addr -> u64 len -> addr + len < 2 ^ 64 ->
  exists v s', umm_munmap addr len s = (Ret v, s') /\ umm_post s s' None /\ same s s'
    /\ (v = 0 \/ -4096 < v < 0).
Proof.
  intros Hi Ha Hl Hw. unfold umm_munmap. pose proof (umm_post_refl s Hi) as Hp0.
  destruct (mem_ref_is_safe D DUNE addr len) eqn:Hs; cbn [negb].
  2:{ exists (- EACCES), s. unfold EACCES. do 2 (split; [done|]). split; [by split|]. right; lia. }
  destruct (safe_range addr len Ha Hl Hw Hs) as [Happ Hlen]. exec.
  set (c1 := Munmap addr len). set (s1 := after P c1 s).
  assert (H1 : umm_post s s1 None) by (apply umm_post_ext; [done|]; cbn; auto).
  unfold truthy. destruct (Z.eqb_spec (reply P c1 s) 0) as [|]; cbn [negb]; exec.
  - eexists _, _. split; [reflexivity|]. split; [|split; [by split|auto]].
    apply umm_post_ext; [done|]; cbn; auto.
  - rewrite big_round_spec by mlia. set (c2 := Munmap addr (align_up _ len)). set (s2 := after P c2 s1).
    assert (H2 : umm_post s s2 None) by (apply umm_post_ext; [done|]; cbn; eauto).
    destruct (Z.eqb_spec (reply P c2 s1) 0) as [|]; cbn [negb]; exec.
    + eexists _, _. split; [reflexivity|]. split; [|split; [by split|auto]].
      apply umm_post_ext; [done|]; cbn; eauto.
    + destruct (neg_errno_after c2 s1) as (e & Hn & He). fold s2 in Hn. rewrite Hn.
      exists (- e), s2. do 2 (split; [done|]). split; [by split|]. right; lia.
Qed.

Lemma umm_mprotect_spec s addr len prot :
  umm_inv s -> u64 addr -> u64 len -> addr + len < 2 ^ 64 ->
  exists o s', umm_mprotect addr len prot s = (o, s') /\ umm_post s s' None /\ same s s'
    /\ (o = Abort \/ exists v, o = Ret v /\ (v = 0 \/ -4096 < v < 0)).
Proof.
  intros Hi Ha Hl Hw. unfold umm_mprotect. pose proof (umm_post_refl s Hi) as Hp0.
  destruct (mem_ref_is_safe D DUNE addr len) eqn:Hs; cbn [negb].
  2:{ exists (Ret (- EACCES)), s. unfold EACCES. do 2 (split; [done|]). split; [by split|].
      right. exists (-13). split; [done|lia]. }
  destruct (safe_range addr len Ha Hl Hw Hs) as [Happ Hlen]. exec.
  set (c1 := Mprotect addr len _). set (s1 := after P c1 s).
  assert (H1 : umm_post s s1 None) by (apply umm_post_ext; [done|]; cbn; auto).
  unfold truthy. destruct (Z.eqb_spec (reply P c1 s) 0) as [|]; cbn [negb]; exec.
  - set (c2 := VmMprotect addr len _). set (s2 := after P c2 s1).
    assert (H2 : umm_post s s2 None) by (apply umm_post_ext; [done|]; cbn; auto).
    unfold mbind, M_bind, c_assert.
    destruct (reply P c2 s1 =? 0); cbn [negb]; eexists _, s2; (split; [reflexivity|]);
      (split; [done|]); (split; [by split|]); [right; exists 0; auto|auto].
  - destruct (neg_errno_after c1 s) as (e & Hn & He). fold s1 in Hn. rewrite Hn.
    exists (Ret (- e)), s1. do 2 (split; [done|]). split; [by split|]. right. exists (- e). split; [done|lia].
Qed.

Lemma umm_alloc_stack_spec s :
  umm_inv s ->
  exists r top s', umm_alloc_stack s = (Ret (r, top), s') /\ umm_post s s' None
    /\ (-4096 < r < 0 /\ same s s'
        \/ r = 0 /\ top = lo s /\ lo s' = top - APP_STACK_SIZE /\ brk_len s' = brk_len s).
Proof.
  intros Hi. unfold umm_alloc_stack. exec. rewrite umm_get_map_pos_lo by done.
  pose proof (abi_base_low (D := D)) as Hbl. pose proof (abi_base_high (D := D)) as Hbh.
  pose proof (lo_bounds s Hi) as Hlo. pose proof Hi as (Hb0 & Hm0 & Hbd & Hmd & Hsum).
  destruct (umm_space_left s APP_STACK_SIZE) eqn:Hsp; cbn [negb].
  2:{ exists (- ENOMEM), 0, s. split; [done|]. split; [by apply umm_post_refl|]. left.
      unfold ENOMEM. split; [lia|by split]. }
  assert (Hlod : (4096 | lo s)).
  { unfold lo. apply Z.divide_sub_r; [apply Z.divide_add_r|]; auto using abi_base_aligned.
    now exists 2097152. }
  destruct (place_spec s APP_STACK_SIZE) as (Happ & Hr & Hpl & _ & Hfit);
    [done|unfold APP_STACK_SIZE; mlia|done|unfold APP_STACK_SIZE; lia|].
  change (align_up 4096 APP_STACK_SIZE) with APP_STACK_SIZE in Hr. rewrite Hr in Hfit, Hpl.
  unfold APP_STACK_SIZE, APP_MMAP_LEN in *.
  rewrite abi_PGADDR, abi_PGOFF, abi_PGSIZE by mlia.
  rewrite align_down_id, divide_mod_0 by (lia || done). rewrite (wrap64_small (lo s - _ + _)) by mlia.
  rewrite umm_mmap_anom_eq.
  destruct (map_fixed_spec s s (lo s - 0x800000 + 4096) (0x800000 - 4096) (Z.lor PROT_READ PROT_WRITE)
              (Z.lor (Z.lor MAP_FIXED MAP_PRIVATE) MAP_ANONYMOUS) (-1) 0
              (prot_to_perm (Z.lor PROT_READ PROT_WRITE)))
    as (r & s1 & Hm & Hp & [Hsb Hsm] & Hret); [by apply umm_post_refl|mlia| |].
  { intros _. right. unfold in_mmap, lo, APP_MMAP_LEN. lia. }
  unfold mbind at 1, M_bind at 1. rewrite Hm. unfold truthy.
  destruct Hret as [[-> _]|Hret]; cbn [Z.eqb negb].
  - exec. eexists _, _, _. split; [reflexivity|].
    assert (Hw : wrap64 (mmap_len s1 + (0x800000 + 0)) = mmap_len s + 0x800000)
      by (rewrite Hsm; rewrite wrap64_small by mlia; lia).
    split; [|right; unfold lo, set_mmap_len, APP_MMAP_LEN in *; cbn; rewrite Hw; repeat split; lia].
    apply (umm_post_same s s1); auto; unfold umm_inv, set_mmap_len, APP_MMAP_LEN; cbn; rewrite Hw.
    { rewrite Hsb. repeat split; try done; try lia. apply Z.divide_add_r; [done|]. now exists 2048. }
    lia.
  - destruct (Z.eqb_spec r 0) as [->|_]; [lia|]. cbn [negb]. exists r, 0, s1.
    do 2 (split; [done|]). left. split; [lia|by split].
Qed.

Lemma umm_shmat_at_spec adjust s s1 shmid addr flg len perm :
  umm_post s s1 None -> same s s1 -> umm_inv s -> u64 len -> addr <> 2 ^ 64 - 1 ->
  (2 ^ 47 <= len -> reply P (Shmat shmid addr flg) s1 = 2 ^ 64 - 1) ->
  (len < 2 ^ 47 -> in_app D addr len) ->
  (adjust = true -> umm_space_left s len = true) ->
  exists v s', umm_shmat_at adjust shmid addr flg len perm s1 = (Ret v, s')
    /\ umm_post s s' None /\ settled adjust s s' addr len v.
Proof.
  intros Hp Hsame Hi Hl Ha Hhuge Happ Hadj. unfold umm_shmat_at. exec.
  set (c1 := Shmat shmid addr flg) in *. set (s2 := after P c1 s1).
  assert (Hlen : reply P c1 s1 = addr -> len < 2 ^ 47)
    by (intros Heq; destruct (Z_lt_le_dec len (2 ^ 47)); [done|]; rewrite Hhuge in Heq by done; congruence).
  assert (Hstart : reply P c1 s1 = addr -> in_app D addr 0).
  { intros Heq. specialize (Happ (Hlen Heq)).
    unfold in_app, in_elf, in_mmap, u64 in *. destruct Happ; [left|right]; lia. }
  assert (H2 : umm_post s s2 None) by (apply umm_post_ext; [done|]; cbn; exact Hstart).
  destruct (Z.eqb_spec (reply P c1 s1) addr) as [Heq|_]; cbn [negb].
  2:{ destruct (neg_errno_after c1 s1) as (e & Hn & He). fold s2 in Hn. unfold mbind, M_bind. rewrite Hn.
      exists (ulong_of_int (- e)), s2. split; [done|]. split; [done|]. left.
      split; [apply is_err_neg; lia|apply Hsame]. }
  specialize (Hlen Heq). exec. set (s3 := after P (VaToPa addr) s2).
  assert (H3 : umm_post s s3 None) by (apply umm_post_ext; [done|]; cbn; auto).
  set (c4 := VmMapPhys addr len (reply P (VaToPa addr) s2) perm). set (s4 := after P c4 s3).
  assert (H4 : umm_post s s4 None) by (apply umm_post_ext; [done|]; cbn; auto).
  pose proof (pf_map_phys (P := P) (world s3) addr len (reply P (VaToPa addr) s2) perm) as Hr.
  fold c4 in Hr. fold (reply P c4 s3) in Hr. unfold truthy.
  destruct (Z.eqb_spec (reply P c4 s3) 0) as [Hz|Hz]; cbn [negb]; exec.
  - destruct (bump_settles adjust s s4 len) as (s5 & Hb & Hp5 & Hb5 & Hm5); try done.
    unfold mbind, M_bind. rewrite Hb. exists addr, s5. split; [done|]. split; [done|]. right; auto.
  - eexists _, (after P (Shmdt addr) s4). split; [reflexivity|].
    split; [apply umm_post_ext; [done|]; cbn; auto|]. left.
    split; [apply is_err_neg; lia|apply Hsame].
Qed.

Lemma umm_mremap_at_spec adjust s old osz nsz flags new :
  umm_inv s -> u64 nsz -> new <> 2 ^ 64 - 1 -> in_app D old osz ->
  (nsz < 2 ^ 47 -> in_app D new nsz) ->
  (adjust = true -> umm_space_left s nsz = true) ->
  exists o s', umm_mremap_at adjust old osz nsz flags new s = (o, s')
    /\ umm_post s s' None
    /\ (o = Exit 1 \/ exists v, o = Ret v /\ settled adjust s s' new nsz v).
Proof.
  intros Hi Hl Hnew Hold Happ Hadj. unfold umm_mremap_at.
  destruct (has_bits flags MREMAP_MAYMOVE); cbn [negb].
  2:{ destruct (refused s EINVAL) as (v & s' & -> & Hp & Hv); [done|unfold EINVAL; lia|].
      exists (Ret v), s'. split; [done|]. split; [done|]. right. exists v. unfold settled; auto. }
  exec. set (c1 := Mremap old osz nsz _ new). set (s1 := after P c1 s).
  assert (Hlen : reply P c1 s = new -> nsz < 2 ^ 47).
  { intros Hr. destruct (Z_lt_le_dec nsz (2 ^ 47)) as [|Hge]; [done|].
    pose proof (pf_mremap_huge (P := P) (world s) old osz nsz
                  (Z.lor flags (Z.lor MREMAP_FIXED MREMAP_MAYMOVE)) new Hge) as Hh.
    unfold reply, c1 in Hr. congruence. }
  assert (H1 : umm_post s s1 None)
    by (apply umm_post_ext; [by apply umm_post_refl|]; cbn; auto).
  destruct (Z.eqb_spec (reply P c1 s) new) as [Heq|_]; cbn [negb].
  2:{ destruct (neg_errno_after c1 s) as (e & Hn & He). fold s1 in Hn. unfold mbind, M_bind. rewrite Hn.
      exists (Ret (ulong_of_int (- e))), s1. split; [done|]. split; [done|]. right. eexists.
      split; [done|]. left. split; [apply is_err_neg; lia|by split]. }
  destruct (bump_settles adjust s s1 nsz) as (s2 & Hb & Hp2 & Hb2 & Hm2);
    [done|by split|done|done|auto|done|].
  unfold mbind at 1, M_bind at 1. rewrite Hb. exec.
  set (s3 := after P (VmUnmap old osz) s2).
  assert (H3 : umm_post s s3 None) by (apply umm_post_ext; [done|]; cbn; auto).
  set (s4 := after P (VaToPa new) s3).
  assert (H4 : umm_post s s4 None) by (apply umm_post_ext; [done|]; cbn; auto).
  set (c5 := VmMapPhys new nsz _ _). set (s5 := after P c5 s4).
  assert (H5 : umm_post s s5 None) by (apply umm_post_ext; [done|]; cbn; auto).
  unfold truthy. destruct (Z.eqb_spec (reply P c5 s4) 0); cbn [negb].
  - eexists (Ret _), s5. split; [reflexivity|]. split; [done|]. right. eexists. split; [done|].
    right. rewrite Heq. auto.
  - exists (Exit 1), s5. auto.
Qed.

(** The size of a shared-memory segment, as [shmctl] reports it now. *)
Definition segsz (s : sandbox W) (shmid : Z) : Z := (p_call P (ShmctlStat shmid) (world s)).1.(a_out).

Lemma umm_shmat_spec s shmid addr flg :
  umm_inv s -> u64 addr -> addr = 0 \/ addr + segsz s shmid < 2 ^ 64 ->
  exists v s', umm_shmat shmid addr flg s = (Ret v, s') /\ umm_post s s' None
    /\ settled (addr =? 0) s s' (if addr =? 0 then place s (segsz s shmid) else addr) (segsz s shmid) v.
Proof.
  intros Hi Ha Hw. unfold umm_shmat. exec. fold (segsz s shmid).
  set (c1 := ShmctlStat shmid). set (s1 := after P c1 s).
  assert (H1 : umm_post s s1 None)
    by (apply umm_post_ext; [by apply umm_post_refl|]; cbn; auto).
  assert (Hsame : same s s1) by (by split).
  assert (Hl : u64 (segsz s shmid)) by (apply pf_segsz).
  assert (Hhuge : forall a, 2 ^ 47 <= segsz s shmid -> reply P (Shmat shmid a flg) s1 = 2 ^ 64 - 1).
  { intros a Hge. unfold reply, s1, after, c1; cbn. now apply pf_shmat_huge. }
  assert (Hpl : place s1 (segsz s shmid) = place s (segsz s shmid)) by done.
  assert (Hsl : umm_space_left s1 (segsz s shmid) = umm_space_left s (segsz s shmid)) by done.
  assert (Herr : forall e, -4096 < e < 0 -> forall adj a, exists v s',
     (mret (ulong_of_int e) : C Z) s1 = (Ret v, s') /\ umm_post s s' None
     /\ settled adj s s' a (segsz s shmid) v).
  { intros e He adj a. exists (ulong_of_int e), s1. split; [done|]. split; [done|]. left.
    split; [by apply is_err_neg|done]. }
  destruct (a_ret _ =? -1); [apply Herr; lia|]. exec. rewrite Hsl, Hpl.
  destruct (Z.eqb_spec addr 0) as [->|Hnz].
  - destruct (umm_space_left s (segsz s shmid)) eqn:Hsp; cbn [negb];
      [|apply (Herr (- ENOMEM)); unfold ENOMEM; lia].
    apply umm_shmat_at_spec; auto; [by apply place_aligned|]. intros. now apply place_spec.
  - destruct (mem_ref_is_safe D DUNE addr (segsz s shmid)) eqn:Hsafe; cbn [negb];
      [|apply (Herr (- EINVAL)); unfold EINVAL; lia].
    destruct Hw as [|Hw]; [done|]. destruct (safe_range _ _ Ha Hl Hw Hsafe) as [Happ _].
    destruct (in_app_not_err addr (segsz s shmid)) as [_ ?]; [mlia|done|].
    apply umm_shmat_at_spec; auto. done.
Qed.

Lemma umm_mremap_spec s old osz nsz flags new :
  umm_inv s -> u64 old -> u64 osz -> u64 nsz -> u64 new ->
  old + osz < 2 ^ 64 -> new + nsz < 2 ^ 64 ->
  exists o s', umm_mremap old osz nsz flags new s = (o, s') /\ umm_post s s' None
    /\ (o = Exit 1 \/ exists v, o = Ret v /\
          settled (negb (has_bits flags MREMAP_FIXED)) s s'
            (if has_bits flags MREMAP_FIXED then new else place s nsz) nsz v).
Proof.
  intros Hi Ho Hosz Hnsz Hnew Hw1 Hw2. unfold umm_mremap.
  assert (Herr : forall e, 0 < e < 4096 -> forall adj a, exists o s',
     (mret (ulong_of_int (- e)) : C Z) s = (o, s') /\ umm_post s s' None
     /\ (o = Exit 1 \/ exists v, o = Ret v /\ settled adj s s' a nsz v)).
  { intros e He adj a. destruct (refused s e Hi He) as (v & s' & -> & Hp & Hv).
    exists (Ret v), s'. split; [done|]. split; [done|]. right. exists v. unfold settled; auto. }
  destruct (mem_ref_is_safe D DUNE old osz) eqn:Hsafe; cbn [negb];
    [|apply Herr; unfold EACCES; lia].
  destruct (safe_range _ _ Ho Hosz Hw1 Hsafe) as [Happ _].
  destruct (has_bits flags MREMAP_FIXED); cbn [negb].
  - destruct (mem_ref_is_safe D DUNE new nsz) eqn:Hs2; cbn [negb];
      [|apply Herr; unfold EACCES; lia].
    destruct (safe_range _ _ Hnew Hnsz Hw2 Hs2) as [Happ2 _].
    destruct (in_app_not_err new nsz) as [_ ?]; [mlia|done|].
    apply umm_mremap_at_spec; auto. done.
  - exec. destruct (umm_space_left s nsz) eqn:Hsp; cbn [negb];
      [|apply Herr; unfold ENOMEM; lia].
    apply umm_mremap_at_spec; auto; [by apply place_aligned|]. intros. now apply place_spec.
Qed.
End umm.
