(* ===== verification/UmmProps.v ===== *)
(** What umm.c guarantees over every history of requests: the requests as a
    transition system, its reachable states by rule induction, and the
    behaviour of single requests. *)

From stdpp Require Import base numbers list option.
From S2P Require Import Prelude Platform AddrSpace Umm.

(** The requests the trap handler and the loader make of umm.c. *)
Inductive umm_req : Type :=
  | RBrk (brk : Z)
  | RMmap (addr len prot flags fd offset : Z)
  | RMunmap (addr len : Z)
  | RMprotect (addr len prot : Z)
  | RShmat (shmid addr shmflg : Z)
  | RMremap (old_address old_size new_size flags new_address : Z)
  | RAllocStack.

Section requests.
Context {W : Type} (P : platform W) (D : dune_abi) (DUNE : bool).
Abbreviation C := (M (sandbox W)).

(** A request with its return value (as an unsigned word) and the area that
    umm.c placed itself, if it did. *)
Definition umm_call (r : umm_req) : C (Z * option (Z * Z)) :=
  match r with
  | RBrk b => v ← umm_brk P D b; mret (v, None)
  | RMmap addr len prot flags fd off =>
      v ← umm_mmap P D DUNE addr len prot flags fd off;
      mret (v, if (addr =? 0) && negb (is_err v) then Some (v, len) else None)
  | RMunmap addr len => v ← umm_munmap P D DUNE addr len; mret (ulong_of_int v, None)
  | RMprotect addr len prot => v ← umm_mprotect P D DUNE addr len prot; mret (ulong_of_int v, None)
  | RShmat id addr flg =>
      s ← get;
      v ← umm_shmat P D DUNE id addr flg;
      mret (v, if (addr =? 0) && negb (is_err v) then Some (v, segsz P s id) else None)
  | RMremap old osz nsz flags new =>
      v ← umm_mremap P D DUNE old osz nsz flags new;
      mret (v, if negb (has_bits flags MREMAP_FIXED) && negb (is_err v) then Some (v, nsz) else None)
  | RAllocStack =>
      '(r, top) ← umm_alloc_stack P D;
      mret (ulong_of_int r,
            if r =? 0 then Some (top - APP_STACK_SIZE + 4096, APP_STACK_SIZE - 4096) else None)
  end.

(** The arguments are machine words, and a range the application names does
    not wrap around the address space. *)
Definition req_ok (s : sandbox W) (r : umm_req) : Prop :=
  match r with
  | RBrk b => u64 b
  | RMmap addr len _ _ _ _ => u64 addr /\ u64 len /\ (addr = 0 \/ addr + len < 2 ^ 64)
  | RMunmap addr len | RMprotect addr len _ => u64 addr /\ u64 len /\ addr + len < 2 ^ 64
  | RShmat id addr _ => u64 addr /\ (addr = 0 \/ addr + segsz P s id < 2 ^ 64)
  | RMremap old osz nsz _ new =>
      (u64 old /\ u64 osz /\ old + osz < 2 ^ 64) /\ u64 nsz /\ u64 new /\ new + nsz < 2 ^ 64
  | RAllocStack => True
  end.

(** States reachable from a fresh process, with the areas placed so far. *)
Inductive reachable : sandbox W -> list (Z * Z) -> Prop :=
  | reach_init e w : reachable (Sandbox 0 0 e w []) []
  | reach_step s A r o s' :
      reachable s A -> req_ok s r -> umm_call r s = (o, s') ->
      reachable s' (match o with Ret (_, Some g) => g :: A | _ => A end).

Definition disjoint_areas (a b : Z * Z) : Prop := a.1 + a.2 <= b.1 \/ b.1 + b.2 <= a.1.

Fixpoint pairwise_disjoint (A : list (Z * Z)) : Prop :=
  match A with
  | [] => True
  | a :: A => Forall (disjoint_areas a) A /\ pairwise_disjoint A
  end.

Context `{!dune_abi_ok D} `{!platform_ok P}.

(** A successfully placed area lies just below the ones before it. *)
Lemma settled_post adj (s s' : sandbox W) addr len v :
  umm_inv s -> u64 len -> umm_post D s s' None ->
  settled D adj s s' (if adj then place D s len else addr) len v ->
  umm_post D s s' (if adj && negb (is_err v) then Some (v, len) else None).
Proof.
  intros Hi Hl (Hi' & Hm & Ht & _) Hset. split; [done|]. split; [done|]. split; [done|].
  destruct adj; [|done]. destruct (is_err v) eqn:He; [done|]. cbn.
  destruct Hset as [[? _]|(-> & Hlen & _ & Hm')]; [congruence|].
  unfold place. rewrite umm_get_map_pos_lo by done. 
  rewrite (page_round_spec D len) in * by mlia.
  pose proof (align_up_range 4096 len ltac:(lia)). pose proof (lo_bounds D s' Hi').
  pose proof (abi_base_low (D := D)). pose proof (abi_base_high (D := D)).
  pose proof (lo_bounds D s Hi). destruct Hi' as (? & _).
  unfold lo, APP_MMAP_LEN in *. rewrite wrap64_small by mlia. lia.
Qed.

(** Every request, whatever its outcome, keeps the invariant, makes only
    confined calls and places areas downwards. *)
Lemma umm_call_spec r s :
  req_ok s r -> umm_inv s ->
  match umm_call r s with
  | (Ret (_, g), s') => umm_post D s s' g
  | (_, s') => umm_post D s s' None
  end.
Proof.
  intros Hok Hi. destruct r; cbn [req_ok umm_call] in *.
  - destruct (umm_brk_spec P D s brk Hi Hok) as (v & s' & He & Hp & _).
    unfold mbind, M_bind. now rewrite He.
  - destruct Hok as (Ha & Hl & Hw).
    destruct (umm_mmap_spec P D DUNE s addr len prot flags fd offset Hi Ha Hl Hw) as (v & s' & He & Hp & Hset).
    unfold mbind, M_bind. rewrite He. by apply (settled_post _ _ _ addr).
  - destruct Hok as (Ha & Hl & Hw).
    destruct (umm_munmap_spec P D DUNE s addr len Hi Ha Hl Hw) as (v & s' & He & Hp & _).
    unfold mbind, M_bind. now rewrite He.
  - destruct Hok as (Ha & Hl & Hw).
    destruct (umm_mprotect_spec P D DUNE s addr len prot Hi Ha Hl Hw) as (o & s' & He & Hp & _ & Ho).
    unfold mbind, M_bind. rewrite He. destruct Ho as [->|(v & -> & _)]; done.
  - destruct Hok as (Ha & Hw).
    destruct (umm_shmat_spec P D DUNE s shmid addr shmflg Hi Ha Hw) as (v & s' & He & Hp & Hset).
    exec. unfold mbind, M_bind. rewrite He. apply (settled_post _ _ _ addr); auto. apply pf_segsz.
  - destruct Hok as ((Ho & Hos & Hw1) & Hn & Hnew & Hw2).
    destruct (umm_mremap_spec P D DUNE s old_address old_size new_size flags new_address
                Hi Ho Hos Hn Hnew Hw1 Hw2) as (o & s' & He & Hp & Hres).
    unfold mbind, M_bind. rewrite He. destruct Hres as [->|(v & -> & Hset)]; [done|].
    apply (settled_post _ _ _ new_address); auto. now destruct (has_bits flags MREMAP_FIXED).
  - destruct (umm_alloc_stack_spec P D s Hi) as (r & top & s' & He & Hp & Hres).
    unfold mbind, M_bind. rewrite He. destruct Hres as [[Hr _]|(-> & -> & Hlo & _)].
    + destruct (Z.eqb_spec r 0); [lia|done].
    + destruct Hp as (? & ? & ? & _). do 3 (split; [done|]). cbn. unfold APP_STACK_SIZE in *. lia.
Qed.

Lemma umm_inv_init e w : umm_inv (Sandbox 0 0 e w [] : sandbox W).
Proof. unfold umm_inv, APP_MMAP_LEN; cbn. repeat split; try lia; apply Z.divide_0_r. Qed.

Lemma reachable_inv s A :
  reachable s A ->
  umm_inv s /\ Forall (confined D) (trace s)
  /\ Forall (fun a => lo D s <= a.1 /\ a.1 + a.2 <= mmap_base D + APP_MMAP_LEN) A
  /\ pairwise_disjoint A.
Proof.
  induction 1 as [e w|s A r o s' Hr (Hi & Hc & Hb & Hd) Hok Hcall].
  { split; [apply umm_inv_init|]. repeat constructor. }
  pose proof (umm_call_spec r s Hok Hi) as Hpost. rewrite Hcall in Hpost.
  assert (Hgen : forall g, umm_post D s s' g ->
    umm_inv s' /\ Forall (confined D) (trace s')
    /\ Forall (fun a => lo D s' <= a.1 /\ a.1 + a.2 <= mmap_base D + APP_MMAP_LEN)
         (match g with Some g => g :: A | None => A end)
    /\ pairwise_disjoint (match g with Some g => g :: A | None => A end)).
  { intros g (Hi' & Hm & (l & -> & Hl) & Hg). split; [done|].
    split; [apply Forall_app; auto|].
    assert (Hb' : Forall (fun a => lo D s' <= a.1 /\ a.1 + a.2 <= mmap_base D + APP_MMAP_LEN) A).
    { eapply List.Forall_impl; [|exact Hb]. unfold lo. intros a ?; cbv beta in *. lia. }
    destruct g as [[a len]|]; [|auto]. pose proof (lo_bounds D s Hi).
    split; [constructor; [cbn; lia|done]|]. split; [|done].
    eapply List.Forall_impl; [|exact Hb]. unfold disjoint_areas; cbn. intros b ?; cbv beta in *. lia. }
  destruct o as [[v g]| | | |]; [|apply (Hgen None Hpost)..].
  specialize (Hgen g Hpost). destruct g; exact Hgen.
Qed.

(** A request that settled with an error value moved no counter. *)
Lemma settled_err adj (s s' : sandbox W) addr len v :
  umm_inv s -> u64 len -> umm_post D s s' None ->
  settled D adj s s' (if adj then place D s len else addr) len v -> is_err v = true -> same s s'.
Proof.
  intros Hi Hl Hp Hset He. pose proof (settled_post adj s s' addr len v Hi Hl Hp Hset) as Hpost.
  destruct Hset as [[_ ?]|(-> & Hlen & Hb & Hm)]; [done|].
  destruct adj; [exfalso|split; lia].
  destruct Hp as (Hi' & _). pose proof (lo_bounds D s' Hi') as Hlo. destruct Hi' as (? & _).
  assert (Hv : place D s len = lo D s').
  { unfold place. rewrite umm_get_map_pos_lo by done.
    pose proof (abi_base_low (D := D)). pose proof (abi_base_high (D := D)).
    unfold lo, APP_MMAP_LEN in *. rewrite wrap64_small; [lia|]. mlia. }
  rewrite Hv in He. pose proof (abi_base_high (D := D)).
  unfold is_err, APP_MMAP_LEN in *. apply Z.ltb_lt in He. lia.
Qed.

(** ** Properties *)

(** C1. Whatever sequence of memory requests an application makes (with
    ranges that do not wrap), the counters stay page aligned with heap and
    mapping area fitting the window together, and umm.c makes no other calls
    than these: mappings, by mmap or mremap, that lie in the application's
    windows if the kernel grants them where they are asked for; page-table
    mappings and protection changes that lie in the windows; attachments and
    detachments of shared segments whose start lies in a window; and
    unmappings that lie in a window or are the 2MB retry of [umm_munmap],
    which concerns a range that lies in a window before its length is rounded
    up to 2MB, and so may leave the window by less than 2MB. *)
Theorem umm_histories_confined s A :
  reachable s A -> umm_inv s /\ Forall (confined D) (trace s).
Proof. intros Hr. destruct (reachable_inv s A Hr) as (? & ? & _). auto. Qed.

(** C8. In every reachable state, the areas umm.c placed itself (the stack,
    and each successful mmap, shmat or mremap without a fixed address) are
    pairwise disjoint, lie in the mmap window, and do not meet the heap. *)
Theorem umm_areas_disjoint s A :
  reachable s A ->
  pairwise_disjoint A /\
  Forall (fun a => mmap_base D + brk_len s <= a.1 /\ a.1 + a.2 <= mmap_base D + APP_MMAP_LEN) A.
Proof.
  intros Hr. destruct (reachable_inv s A Hr) as (Hi & _ & Hb & Hd). split; [done|].
  eapply List.Forall_impl; [|exact Hb]. intros a ?; cbv beta in *. pose proof (lo_bounds D s Hi). lia.
Qed.

(** C37. A failed request is atomic: when the value handed back to the
    application is an error number, neither counter has moved. *)
Theorem umm_errors_atomic s r v g s' :
  req_ok s r -> umm_inv s -> umm_call r s = (Ret (v, g), s') -> is_err v = true -> same s s'.
Proof.
  intros Hok Hi Hcall He. destruct r; cbn [req_ok umm_call] in *.
  - destruct (umm_brk_spec P D s brk Hi Hok) as (v' & s1 & Hc & (Hi1 & _) & Hm & Hcase).
    unfold mbind, M_bind in Hcall. rewrite Hc in Hcall. injection Hcall as -> _ ->. split; [|exact Hm].
    destruct Hcase as [[_ ?]|[(_ & _ & ?)|(-> & ? & Hb)]]; [done..|exfalso].
    pose proof (align_up_range 4096 (brk - mmap_base D) ltac:(lia)).
    pose proof (abi_base_high (D := D)). destruct Hi1 as (? & ? & _ & _ & ?).
    unfold is_err, APP_MMAP_LEN in *. apply Z.ltb_lt in He. lia.
  - destruct Hok as (Ha & Hl & Hw).
    destruct (umm_mmap_spec P D DUNE s addr len prot flags fd offset Hi Ha Hl Hw) as (v' & s1 & Hc & Hp & Hset).
    unfold mbind, M_bind in Hcall. rewrite Hc in Hcall. injection Hcall as -> _ ->.
    by apply (settled_err (addr =? 0) _ _ addr len v).
  - destruct Hok as (Ha & Hl & Hw).
    destruct (umm_munmap_spec P D DUNE s addr len Hi Ha Hl Hw) as (v' & s1 & Hc & _ & ? & _).
    unfold mbind, M_bind in Hcall. rewrite Hc in Hcall. by injection Hcall as _ _ ->.
  - destruct Hok as (Ha & Hl & Hw).
    destruct (umm_mprotect_spec P D DUNE s addr len prot Hi Ha Hl Hw) as (o & s1 & Hc & _ & ? & Ho).
    unfold mbind, M_bind in Hcall. rewrite Hc in Hcall. destruct Ho as [->|(? & -> & _)]; [done|].
    by injection Hcall as _ _ ->.
  - destruct Hok as (Ha & Hw).
    destruct (umm_shmat_spec P D DUNE s shmid addr shmflg Hi Ha Hw) as (v' & s1 & Hc & Hp & Hset).
    revert Hcall. exec. unfold mbind, M_bind. rewrite Hc. intros Hcall. injection Hcall as -> _ ->.
    apply (settled_err (addr =? 0) _ _ addr (segsz P s shmid) v); auto. apply pf_segsz.
  - destruct Hok as ((Ho & Hos & Hw1) & Hn & Hnew & Hw2).
    destruct (umm_mremap_spec P D DUNE s old_address old_size new_size flags new_address
                Hi Ho Hos Hn Hnew Hw1 Hw2) as (o & s1 & Hc & Hp & Hres).
    unfold mbind, M_bind in Hcall. rewrite Hc in Hcall.
    destruct Hres as [->|(v' & -> & Hset)]; [done|]. injection Hcall as -> _ ->.
    apply (settled_err (negb (has_bits flags MREMAP_FIXED)) _ _ new_address new_size v); auto.
    by destruct (has_bits flags MREMAP_FIXED).
  - destruct (umm_alloc_stack_spec P D s Hi) as (r & top & s1 & Hc & _ & Hres).
    unfold mbind, M_bind in Hcall. rewrite Hc in Hcall. injection Hcall as Hv _ ->.
    destruct Hres as [[_ ?]|(-> & _)]; [done|]. now rewrite <- Hv in He.
Qed.

(** ** The heap *)

(** A call that, if it maps, unmaps or protects, does so within [a, b), and
    a call of another kind than those of [umm_brk] is none. *)
Definition touches_only (a b : Z) (e : oscall * Z) : Prop :=
  match e.1 with
  | Mmap x n _ _ _ _ | VmMapPhys x n _ _ | Munmap x n | VmUnmap x n => a <= x /\ x + n <= b
  | VaToPa _ => True
  | _ => False
  end.

Lemma map_fixed_calls (s : sandbox W) a len prot flags fd off perm r s' :
  map_fixed P a len prot flags fd off perm s = (Ret r, s') ->
  (r = 0 \/ -4096 < r < 0)
  /\ exists l, trace s' = trace s ++ l /\ Forall (touches_only a (a + len)) l
    /\ (r = 0 -> exists pa,
         l = [(Mmap a len prot flags fd off, a); (VaToPa a, pa); (VmMapPhys a len pa perm, 0)]).
Proof.
  unfold map_fixed. exec. set (c1 := Mmap a len prot flags fd off).
  destruct (Z.eqb_spec (reply P c1 s) a) as [Heq|_]; cbn [negb].
  2:{ destruct (neg_errno_after P c1 s) as (e & -> & He). intros [= <- <-].
      split; [lia|]. exists [(c1, reply P c1 s)]. split; [done|]. split; [|lia].
      constructor; [cbn; lia|constructor]. }
  exec. set (s1 := after P c1 s). set (pa := reply P (VaToPa a) s1).
  set (s2 := after P (VaToPa a) s1). set (c3 := VmMapPhys a len pa perm). unfold truthy.
  assert (Hr3 : -4096 < reply P c3 s2 <= 0) by apply (pf_map_phys (P := P)).
  assert (Ht : trace (after P c3 s2) = trace s ++ [(c1, reply P c1 s); (VaToPa a, pa); (c3, reply P c3 s2)])
    by (cbn; by rewrite <- !app_assoc).
  destruct (Z.eqb_spec (reply P c3 s2) 0) as [Hz|Hz]; cbn [negb]; exec; intros [= <- <-]; (split; [lia|]).
  - eexists. split; [exact Ht|]. split; [repeat constructor; cbn; lia|].
    intros _. exists pa. by rewrite Heq, Hz.
  - exists ([(c1, reply P c1 s); (VaToPa a, pa); (c3, reply P c3 s2)]
            ++ [(Munmap a len, reply P (Munmap a len) (after P c3 s2))]).
    split; [rewrite app_assoc, <- Ht; done|]. split; [repeat constructor; cbn; lia|done].
Qed.

(** The calls of a request for a new break, from the old end of the heap to
    the new one. *)
Definition grow_calls (old new pa : Z) : list (oscall * Z) :=
  let a := mmap_base D + old in
  let prot := Z.lor PROT_READ PROT_WRITE in
  [(Mmap a (new - old) prot (Z.lor (Z.lor MAP_FIXED MAP_PRIVATE) MAP_ANONYMOUS) (-1) 0, a);
   (VaToPa a, pa);
   (VmMapPhys a (new - old) pa (prot_to_perm D prot), 0)].

Definition shrink_calls (old new r : Z) : list (oscall * Z) :=
  [(Munmap (mmap_base D + new) (old - new), 0); (VmUnmap (mmap_base D + new) (old - new), r)].

Definition heap_calls (old new : Z) (l : list (oscall * Z)) : Prop :=
  (old < new -> exists pa, l = grow_calls old new pa)
  /\ (new < old -> exists r, l = shrink_calls old new r)
  /\ (new = old -> l = []).

Lemma umm_brk_calls s brk v s' :
  umm_inv s -> u64 brk -> umm_brk P D brk s = (Ret v, s') ->
  let old := brk_len s in
  let new := align_up 4096 (brk - mmap_base D) in
  exists l, trace s' = trace s ++ l
    /\ Forall (touches_only (mmap_base D + Z.min old new) (mmap_base D + Z.max old new)) l
    /\ (brk < mmap_base D -> l = [])
    /\ (mmap_base D <= brk -> is_err v = false -> heap_calls old new l).
Proof.
  intros Hi Hb. unfold umm_brk. cbn zeta. set (new := align_up 4096 (brk - mmap_base D)).
  pose proof Hi as (Hb0 & Hm0 & Hbd & Hmd & Hsum).
  pose proof (abi_base_low (D := D)) as Hbl. pose proof (abi_base_high (D := D)) as Hbh.
  set (between := touches_only (mmap_base D + Z.min (brk_len s) new) (mmap_base D + Z.max (brk_len s) new)).
  assert (Hnone : forall v0, (mmap_base D <= brk -> is_err v0 = false -> new = brk_len s) ->
    (Ret v0, s) = (Ret v, s') -> exists l, trace s' = trace s ++ l
    /\ Forall between l /\ (brk < mmap_base D -> l = [])
    /\ (mmap_base D <= brk -> is_err v = false -> heap_calls (brk_len s) new l)).
  { intros v0 Hn [= -> ->]. exists []. rewrite app_nil_r. split; [done|]. split; [constructor|].
    split; [done|]. intros Hge Hok. specialize (Hn Hge Hok). unfold heap_calls. split; [lia|]. by split; [lia|]. }
  destruct (Z.eqb_spec brk 0) as [->|Hnz]; [apply Hnone; lia|].
  destruct (Z.ltb_spec brk (mmap_base D)) as [|Hge]; [apply Hnone; lia|].
  rewrite (wrap64_small (brk - mmap_base D)) by mlia.
  rewrite (page_round_spec D) by mlia. exec. fold new.
  assert (Hlen : brk - mmap_base D <= new < brk - mmap_base D + 4096) by (apply align_up_range; lia).
  destruct (umm_space_left s new); cbn [negb]; [|apply Hnone; intros _ Hx; discriminate Hx].
  destruct (Z.eqb_spec new (brk_len s)) as [Heq|Hne]; [apply Hnone; done|].
  destruct (Z.ltb_spec new (brk_len s)) as [Hlt|Hgt]; exec.
  - rewrite !wrap64_small by (unfold APP_MMAP_LEN in *; mlia). set (c1 := Munmap _ _).
    unfold truthy. destruct (Z.eqb_spec (reply P c1 s) 0) as [Hz|]; cbn [negb]; exec.
    + intros [= <- <-]. eexists. split; [cbn; rewrite <- app_assoc, Hz; reflexivity|].
      split; [repeat constructor; cbn; lia|]. split; [lia|]. intros _ _. split; [lia|].
      split; [intros _; by eexists|lia].
    + destruct (neg_errno_after P c1 s) as (e & Hn & He). unfold mbind, M_bind. rewrite Hn.
      intros [= <- <-]. exists [(c1, reply P c1 s)]. split; [done|].
      split; [repeat constructor; cbn; lia|]. split; [lia|]. rewrite is_err_neg by lia. done.
  - rewrite (wrap64_small (mmap_base D + brk_len s)) by (unfold APP_MMAP_LEN in *; mlia).
    rewrite (wrap64_small (new - brk_len s)) by mlia. rewrite umm_mmap_anom_eq.
    unfold mbind at 1, M_bind at 1.
    destruct (map_fixed P _ _ _ _ _ _ _ s) as [[r| | | |] s1] eqn:Hm; try done.
    apply map_fixed_calls in Hm as (Hrr & l & Ht & Hf & Hl). unfold truthy.
    assert (Hf' : Forall between l).
    { eapply List.Forall_impl; [|exact Hf]. intros [c x]. unfold between, touches_only. cbn [fst].
      destruct c; try done; cbn; lia. }
    intros Hr. exists l. destruct (Z.eqb_spec r 0) as [->|Hr0]; cbn [negb] in Hr.
    + revert Hr. exec. intros [= <- <-]. split; [done|]. split; [done|]. split; [lia|]. intros _ _.
      destruct (Hl eq_refl) as (pa & ->). split; [intros _; by exists pa|lia].
    + injection Hr as <- <-. split; [done|]. split; [done|]. split; [lia|].
      rewrite is_err_neg by lia. done.
Qed.

(** C36. [umm_brk] on every break: asking for 0 reports [mmap_base]; a break
    below [mmap_base] and an error leave the heap as it was; success returns
    the argument, and the calls made are exactly those that turn the old heap
    into the pages from [mmap_base] up to it: to grow, one anonymous mapping,
    readable and writable, of the pages between the old end and the new one
    and its entry in the page table; to shrink, the unmapping of the pages
    between the new end and the old one; none if the number of pages is the
    same. On every outcome no call touches an address outside the pages
    between the two ends, and the mapping area does not move. *)
Theorem umm_brk_behaviour s brk :
  umm_inv s -> u64 brk ->
  let old := brk_len s in
  let new := align_up 4096 (brk - mmap_base D) in
  exists v s' l, umm_brk P D brk s = (Ret v, s') /\ umm_inv s' /\ mmap_len s' = mmap_len s
    /\ trace s' = trace s ++ l
    /\ Forall (touches_only (mmap_base D + Z.min old new) (mmap_base D + Z.max old new)) l
    /\ (brk = 0 -> v = mmap_base D /\ brk_len s' = old /\ l = [])
    /\ (is_err v = true -> brk_len s' = old)
    /\ (brk < mmap_base D -> l = [])
    /\ (brk <> 0 -> is_err v = false ->
          v = brk /\ brk_len s' = new /\ heap_calls old new l).
Proof.
  intros Hi Hb. destruct (umm_brk_spec P D s brk Hi Hb) as (v & s' & He & Hp & Hm & Hcase).
  destruct (umm_brk_calls s brk v s' Hi Hb He) as (l & Ht & Hf & Hlow & Hc).
  exists v, s', l. split; [done|]. split; [apply Hp|]. do 3 (split; [done|]).
  pose proof (abi_base_low (D := D)). pose proof (abi_base_high (D := D)).
  destruct Hcase as [[Herr Hb']|[(-> & -> & Hb')|(-> & Hge & Hb')]].
  - split; [|split; [done|split; [done|congruence]]]. intros ->. injection He as <- <-. auto with lia.
  - split; [auto with lia|]. split; [done|]. split; [done|lia].
  - split; [lia|]. split; [|auto]. intros Herr. destruct Hp as ((Hb0 & Hm0 & _ & _ & Hs) & _).
    pose proof (align_up_range 4096 (brk - mmap_base D) ltac:(lia)).
    unfold is_err, APP_MMAP_LEN in *. apply Z.ltb_lt in Herr. lia.
Qed.

(** A request for a new break is refused with ENOMEM whenever the old
    heap, the new heap and the mapping area together do not fit the window,
    even when the new break is below the current one: the space test counts
    the heap twice. *)
Theorem umm_brk_counts_heap_twice s brk :
  umm_inv s -> mmap_base D <= brk < mmap_base D + APP_MMAP_LEN ->
  APP_MMAP_LEN <= brk_len s + mmap_len s + align_up 4096 (brk - mmap_base D) ->
  umm_brk P D brk s = (Ret (ulong_of_int (- ENOMEM)), s).
Proof.
  intros Hi Hb Hsum. unfold umm_brk. destruct Hi as (? & ? & _ & _ & ?).
  pose proof (abi_base_low (D := D)). pose proof (abi_base_high (D := D)).
  pose proof (align_up_range 4096 (brk - mmap_base D) ltac:(lia)).
  destruct (Z.eqb_spec brk 0); [lia|]. destruct (Z.ltb_spec brk (mmap_base D)); [lia|].
  rewrite (wrap64_small (brk - mmap_base D)) by (unfold APP_MMAP_LEN in *; mlia).
  rewrite (page_round_spec D) by (unfold APP_MMAP_LEN in *; mlia). exec.
  unfold umm_space_left. rewrite wrap64_small by (unfold APP_MMAP_LEN in *; mlia).
  destruct (Z.ltb_spec (brk_len s + mmap_len s + align_up 4096 (brk - mmap_base D)) APP_MMAP_LEN);
    [lia|reflexivity].
Qed.
End requests.

(** ** Witnesses *)

(** A run on the obliging platform: a stack, an 8KB mapping, a heap. *)
Definition demo0 : sandbox (Z -> Z) := Sandbox 0 0 0 (fun _ => 0) [].
Definition demo_reqs : list umm_req :=
  [RAllocStack; RMmap 0 8192 3 0x22 (-1) 0; RBrk (mmap_base dune_x86 + 5000)].

Fixpoint demo_run (rs : list umm_req) (s : sandbox (Z -> Z)) (A : list (Z * Z)) :
    sandbox (Z -> Z) * list (Z * Z) :=
  match rs with
  | [] => (s, A)
  | r :: rs =>
      let '(o, s') := umm_call obliging dune_x86 true r s in
      demo_run rs s' (match o with Ret (_, Some g) => g :: A | _ => A end)
  end.

Lemma demo_reachable rs s A :
  reachable obliging dune_x86 true s A -> Forall (fun r => forall s, req_ok obliging s r) rs ->
  reachable obliging dune_x86 true (demo_run rs s A).1 (demo_run rs s A).2.
Proof.
  revert s A. induction rs as [|r rs IH]; intros s A Hr Hok; cbn [demo_run]; [done|].
  inversion Hok; subst. destruct (umm_call obliging dune_x86 true r s) as [o s'] eqn:Hc.
  apply IH; [|done]. eapply reach_step; eauto.
Qed.

Lemma demo_reqs_ok : Forall (fun r => forall s, req_ok obliging s r) demo_reqs.
Proof. repeat constructor; cbn; try mlia. Qed.

Lemma umm_histories_confined_witness :
  length (trace (demo_run demo_reqs demo0 []).1) = 9%nat
  /\ Forall (confined dune_x86) (trace (demo_run demo_reqs demo0 []).1).
Proof.
  split; [vm_compute; reflexivity|].
  refine (proj2 (umm_histories_confined obliging dune_x86 true _ (demo_run demo_reqs demo0 []).2 _)).
  apply demo_reachable; [constructor|exact demo_reqs_ok].
Defined.

Lemma umm_areas_disjoint_witness :
  length (demo_run demo_reqs demo0 []).2 = 2%nat
  /\ pairwise_disjoint (demo_run demo_reqs demo0 []).2.
Proof.
  split; [vm_compute; reflexivity|].
  refine (proj1 (umm_areas_disjoint obliging dune_x86 true (demo_run demo_reqs demo0 []).1 _ _)).
  apply demo_reachable; [constructor|exact demo_reqs_ok].
Defined.

Lemma umm_brk_behaviour_witness :
  exists v s' l, umm_brk obliging dune_x86 (mmap_base dune_x86 + 5000) demo0 = (Ret v, s')
    /\ brk_len s' = 8192 /\ exists pa, l = grow_calls dune_x86 0 8192 pa.
Proof.
  destruct (umm_brk_behaviour obliging dune_x86 demo0 (mmap_base dune_x86 + 5000))
    as (v & s' & l & He & _ & _ & _ & _ & _ & _ & _ & Hok); [apply umm_inv_init|cbn; mlia|].
  exists v, s', l. split; [exact He|]. destruct Hok as (_ & -> & Hl & _); [cbn; lia| |].
  - vm_compute in He. injection He as <- _. reflexivity.
  - split; [reflexivity|]. apply Hl. vm_compute. reflexivity.
Defined.

Lemma umm_errors_atomic_witness :
  same demo0 (umm_call obliging dune_x86 true (RMmap 0 0x300000000 3 0x22 (-1) 0) demo0).2.
Proof.
  apply (umm_errors_atomic obliging dune_x86 true demo0 (RMmap 0 0x300000000 3 0x22 (-1) 0)
           (ulong_of_int (- ENOMEM)) None).
  - cbn; mlia.
  - apply umm_inv_init.
  - vm_compute; reflexivity.
  - vm_compute; reflexivity.
Defined.

(** Shrinking a 5GB heap to 4GB, with 1GB of mappings: refused. *)
Lemma umm_brk_counts_heap_twice_witness :
  umm_brk obliging dune_x86 (mmap_base dune_x86 + 0x100000000)
    (Sandbox 0x140000000 0x40000000 0 (fun _ => 0) [])
  = (Ret (ulong_of_int (- ENOMEM)), Sandbox 0x140000000 0x40000000 0 (fun _ => 0) []).
Proof.
  apply (umm_brk_counts_heap_twice obliging dune_x86).
  - unfold umm_inv, APP_MMAP_LEN; cbn. repeat split; try lia; [now exists 0x140000|now exists 0x40000].
  - unfold APP_MMAP_LEN; cbn; lia.
  - vm_compute. discriminate.
Defined.
