(* ===== verification/Exec.v ===== *)
(** execve for the sandboxed application (sandbox/src/exec.c): recognition of
    ELF images and of interpreter scripts, and construction of the argument
    vector with which the sandbox starts itself again. *)

From stdpp Require Import base numbers list list_numbers option.
From S2P Require Import Prelude Platform AddrSpace Umm.

Definition EXECPGSIZE : Z := 4096.

(** ** Scanning the first page *)

(** How many leading bytes do not satisfy [stop]: the iterations of
    [for (; i < EXECPGSIZE; i++) if (stop(page[i])) break;]. *)
Fixpoint skip (stop : Z -> bool) (l : list Z) : nat :=
  match l with
  | [] => O
  | b :: l => if stop b then O else S (skip stop l)
  end.

Definition scan (stop : Z -> bool) (page : list Z) (i : nat) : nat := (i + skip stop (drop i page))%nat.

Definition is_blank (b : Z) : bool := (b =? 32) || (b =? 9).             (* ' ' '\t' *)
Definition is_line_end (b : Z) : bool := (b =? 10) || (b =? 0).          (* '\n' '\0' *)

(** What the script branch finds in the page: the interpreter's bounds, the
    bounds of the argument string if there is one, and the page with the
    terminators written. *)
Record script := Script {
  interp_begin : nat; interp_end : nat; arg_begin : option nat; script_page : list Z;
}.

(** The parsing part of the script branch. [UB]: an access to [page] at index
    [EXECPGSIZE]. *)
Definition parse_script (page : list Z) : outcome (option script) :=
  let ib := scan (fun b => negb (is_blank b)) page 2 in
  let ie := scan (fun b => is_blank b || is_line_end b) page ib in
  if (ib =? ie)%nat then Ret None else
  match page !! ib with
  | None => UB
  | Some b =>
      if b =? 0 then Ret None else
      match page !! ie with
      | None => UB
      | Some e =>
          if e =? 10 then Ret (Some (Script ib ie None (<[ie := 0]> page)))
          else
            let ae := scan is_line_end page ie in
            if (ae <? length page)%nat
            then Ret (Some (Script ib ie (Some (S ie)) (<[ie := 0]> (<[ae := 0]> page))))
            else UB
      end
  end.

(** The page as [read] leaves it: [len] bytes of the file over the previous
    contents of the buffer, and a terminator when the file is shorter. *)
Definition fill_page (buf data : list Z) (len : Z) : list Z :=
  let n := Z.to_nat len in
  let page := take n data ++ drop n buf in
  if len <? EXECPGSIZE then <[n := 0]> page else page.

Definition is_elf (page : list Z) : bool :=
  match page with
  | 0x7f :: 69 :: 76 :: 70 :: _ => true
  | _ => false
  end.

Definition is_script (page : list Z) : bool :=
  match page with
  | b0 :: b1 :: _ => (b0 =? 35) || (b1 =? 33)                            (* '#' '!' *)
  | _ => false
  end.

Section exec.
Context {W : Type} (P : platform W).
Abbreviation C := (M (sandbox W)).

(** getlen: the number of entries before the NULL; [UB] when the first 2^31
    entries hold none, where the int counter overflows. *)
Definition getlen (argv : Z) : C Z := fun s =>
  match iterZ (fun i => if load_word (memory P s) 8 (wrap64 (argv + 8 * i)) =? 0
                        then inr i else inl (i + 1)) (2 ^ 31) 0 with
  | inr i => (Ret i, s)
  | inl _ => (UB, s)
  end.

Definition ptr_arg (p : Z) : exec_arg := if p =? 0 then ANull else APtr p.

(** [argv[0] .. argv[arglen]] *)
Definition copy_argv (argv arglen : Z) (s : sandbox W) : list exec_arg :=
  (fun i => ptr_arg (load_word (memory P s) 8 (wrap64 (argv + 8 * i)))) <$> seqZ 0 (arglen + 1).

(** fork, end the parent, and exec in the child. *)
Definition respawn (new_argv : list exec_arg) (envp : Z) (page : list Z) : C Z :=
  status ← ext P Fork;
  if status <? 0 then mret status
  else if status >? 0 then stop (Exit 0)
  else
    _ ← ext P (Execve ASandboxPath new_argv (ptr_arg envp) page);
    stop Abort.

Definition exec_execev (buf : list Z) (filename argv envp : Z) : C Z :=
  fd ← ext P (OpenFile filename);
  if fd <? 0 then neg_errno else
  s ← get;
  let data := p_data P (ReadFile fd EXECPGSIZE) (world s) in
  len ← ext P (ReadFile fd EXECPGSIZE);
  if len <? 2 then mret (- ENOEXEC) else
  _ ← ext P (CloseFile fd);
  let page := fill_page buf data len in
  if is_elf page then
    arglen ← getlen argv;
    s ← get;
    respawn ([ASandboxPath; ALdPath] ++ copy_argv argv arglen s ++ [ANull]) envp page
  else if is_script page then
    arglen ← getlen argv;
    s ← get;
    r ← stop (parse_script page);
    match r with
    | None => mret (- ENOEXEC)
    | Some sc =>
        let args := match arg_begin sc with
                    | None => [APtr filename]
                    | Some a => [APage (Z.of_nat a); APtr filename]
                    end in
        respawn ([ASandboxPath; ALdPath; APage (Z.of_nat (interp_begin sc))] ++ args
                 ++ copy_argv argv arglen s ++ [ANull]) envp (script_page sc)
    end
  else mret (- ENOEXEC).
End exec.

(** ** Facts about the scan *)

Lemma skip_app stop l b r :
  Forall (fun x => stop x = false) l -> stop b = true -> skip stop (l ++ b :: r) = length l.
Proof. induction 1 as [|x l Hx _ IH]; intros Hb; simpl; [now rewrite Hb|]. rewrite Hx. auto. Qed.

Lemma skip_none stop l : Forall (fun x => stop x = false) l -> skip stop l = length l.
Proof. induction 1 as [|x l Hx _ IH]; simpl; [done|]. rewrite Hx. auto. Qed.

Lemma skip_le stop l : (skip stop l <= length l)%nat.
Proof. induction l as [|b l IH]; simpl; [lia|]. destruct (stop b); lia. Qed.

(** The scan stops at or before any byte that satisfies the condition. *)
Lemma skip_hit stop l n b : l !! n = Some b -> stop b = true -> (skip stop l <= n)%nat.
Proof.
  revert n; induction l as [|x l IH]; intros n Hn Hb; [done|]. simpl.
  destruct (stop x) eqn:Hx; [lia|]. destruct n as [|n]; simpl in Hn; [congruence|].
  specialize (IH n Hn Hb). lia.
Qed.

Lemma scan_hit stop page i n b :
  page !! n = Some b -> stop b = true -> (i <= n)%nat -> (i <= scan stop page i <= n)%nat.
Proof.
  intros Hn Hb Hi. unfold scan. split; [lia|].
  assert (drop i page !! (n - i)%nat = Some b) as Hd by (rewrite lookup_drop; rewrite <- Hn; f_equal; lia).
  pose proof (skip_hit stop _ _ _ Hd Hb). lia.
Qed.

Lemma scan_at stop pre l b r i :
  i = length pre -> Forall (fun x => stop x = false) l -> stop b = true ->
  scan stop (pre ++ l ++ b :: r) i = (length pre + length l)%nat.
Proof. intros -> Hl Hb. unfold scan. rewrite drop_app_length. now rewrite skip_app. Qed.

(** The C string that starts at offset [i]. *)
Definition c_string (page : list Z) (i : nat) : list Z :=
  take (skip (fun b => b =? 0) (drop i page)) (drop i page).

Lemma c_string_at pre l r i :
  i = length pre -> Forall (fun x => (x =? 0) = false) l -> c_string (pre ++ l ++ 0 :: r) i = l.
Proof.
  intros -> Hl. unfold c_string. rewrite drop_app_length, skip_app by done. apply take_app_length.
Qed.

Lemma insert_mid {A} (pre : list A) x y r i :
  i = length pre -> <[i := y]> (pre ++ x :: r) = pre ++ y :: r.
Proof. intros ->. induction pre as [|p pre IH]; simpl; [done|]. f_equal. exact IH. Qed.

(** A byte of a word on the script's first line. *)
Definition word_byte (b : Z) : Prop := is_blank b = false /\ is_line_end b = false.

Lemma word_byte_scan l : Forall word_byte l -> Forall (fun b => is_blank b || is_line_end b = false) l.
Proof. intros H. eapply List.Forall_impl; [|exact H]. intros b [-> ->]. done. Qed.

Lemma word_byte_nonzero l : Forall word_byte l -> Forall (fun b => (b =? 0) = false) l.
Proof.
  intros H. eapply List.Forall_impl; [|exact H]. intros b [_ Hb].
  unfold is_line_end in Hb. now apply orb_false_iff in Hb as [_ ?].
Qed.

Section parse.
Context (m0 m1 : Z) (blanks interp : list Z).
Context (Hblanks : Forall (fun b => negb (is_blank b) = false) blanks).
Context (Hinterp : Forall word_byte interp) (Hne : interp <> []).

Let pre := [m0; m1] ++ blanks.
Let ib := length pre.
Let ie := (ib + length interp)%nat.

Lemma parse_prefix tail e :
  is_blank e || is_line_end e = true ->
  let page := pre ++ interp ++ e :: tail in
  scan (fun b => negb (is_blank b)) page 2 = ib
  /\ scan (fun b => is_blank b || is_line_end b) page ib = ie
  /\ (ib =? ie)%nat = false
  /\ (exists b, page !! ib = Some b /\ (b =? 0) = false)
  /\ page !! ie = Some e.
Proof.
  intros He page.
  assert (exists b0 irest, interp = b0 :: irest /\ word_byte b0) as (b0 & irest & Hi & [Hb0 Hl0]).
  { destruct interp as [|b0 irest]; [done|]. inversion Hinterp; subst. eauto. }
  assert (Hib : scan (fun b => negb (is_blank b)) page 2 = ib).
  { subst page pre ib. rewrite Hi, <- app_assoc.
    change ((b0 :: irest) ++ e :: tail) with (b0 :: (irest ++ e :: tail)).
    rewrite (scan_at _ [m0; m1] blanks b0); [done|done|done|]. now rewrite Hb0. }
  split; [done|]. split; [|split; [|split]].
  - subst page ie ib. rewrite (scan_at _ pre interp e); [done|done| |done].
    now apply word_byte_scan.
  - apply Nat.eqb_neq. subst ie. rewrite Hi. cbn [length]. lia.
  - exists b0. split; [subst page ib; rewrite Hi; apply list_lookup_middle; reflexivity|].
    unfold is_line_end in Hl0. now apply orb_false_iff in Hl0 as [_ ?].
  - subst page ie ib. rewrite app_assoc. apply list_lookup_middle. now rewrite length_app.
Qed.

(** [#!interp] ended by a newline. *)
Lemma parse_no_args tail :
  parse_script (pre ++ interp ++ 10 :: tail) =
  Ret (Some (Script ib ie None (pre ++ interp ++ 0 :: tail))).
Proof.
  destruct (parse_prefix tail 10 eq_refl) as (H1 & H2 & H3 & (b & H4 & H5) & H6).
  unfold parse_script. rewrite H1, H2, H3, H4, H5, H6. cbn [Z.eqb Pos.eqb].
  do 4 f_equal. rewrite !app_assoc. apply insert_mid. subst ie ib. now rewrite length_app.
Qed.

(** [#!interp args] ended by a newline or a NUL. *)
Lemma parse_args sep args e tail :
  is_blank sep = true -> is_line_end e = true -> Forall (fun b => is_line_end b = false) args ->
  parse_script (pre ++ interp ++ sep :: args ++ e :: tail) =
  Ret (Some (Script ib ie (Some (S ie)) (pre ++ interp ++ 0 :: args ++ 0 :: tail))).
Proof.
  intros Hsep He Hargs.
  destruct (parse_prefix (args ++ e :: tail) sep) as (H1 & H2 & H3 & (b & H4 & H5) & H6);
    [now rewrite Hsep|].
  assert (Hnl : (sep =? 10) = false /\ is_line_end sep = false).
  { unfold is_blank in Hsep. apply orb_true_iff in Hsep as [H|H]; apply Z.eqb_eq in H; now subst. }
  destruct Hnl as [Hnl Hsl].
  unfold parse_script. rewrite H1, H2, H3, H4, H5, H6, Hnl.
  assert (Hae : scan is_line_end (pre ++ interp ++ sep :: args ++ e :: tail) ie
                = (ie + S (length args))%nat).
  { rewrite app_assoc. change (sep :: args ++ e :: tail) with ((sep :: args) ++ e :: tail).
    rewrite (scan_at _ (pre ++ interp) (sep :: args) e); [| |by constructor|done].
    - subst ie ib. rewrite length_app. simpl. lia.
    - subst ie ib. now rewrite length_app. }
  rewrite Hae. destruct (Nat.ltb_spec (ie + S (length args))
    (length (pre ++ interp ++ sep :: args ++ e :: tail))) as [_|Hge].
  2:{ exfalso. subst ie ib. rewrite !length_app in Hge; simpl in Hge; rewrite length_app in Hge; simpl in Hge. lia. }
  do 4 f_equal. rewrite !app_assoc.
  replace ((pre ++ interp) ++ sep :: args ++ e :: tail)
    with (((pre ++ interp) ++ sep :: args) ++ e :: tail) by (now rewrite <- !app_assoc).
  rewrite insert_mid by (subst ie ib; rewrite !length_app; simpl; lia).
  rewrite <- app_assoc. cbn [app]. apply insert_mid. subst ie ib. now rewrite length_app.
Qed.
End parse.

(** A page with a NUL somewhere after its two magic bytes is parsed without
    leaving the buffer. *)
Lemma parse_script_no_ub page n :
  page !! n = Some 0 -> (2 <= n)%nat -> parse_script page <> UB.
Proof.
  intros Hn H2. unfold parse_script.
  pose proof (lookup_lt_Some _ _ _ Hn) as Hlt.
  pose proof (scan_hit (fun b => negb (is_blank b)) page 2 n 0 Hn eq_refl H2) as Hib.
  set (ib := scan _ page 2) in *.
  pose proof (scan_hit (fun b => is_blank b || is_line_end b) page ib n 0 Hn eq_refl ltac:(lia)) as Hie.
  set (ie := scan _ page ib) in *.
  pose proof (scan_hit is_line_end page ie n 0 Hn eq_refl ltac:(lia)) as Hae.
  set (ae := scan is_line_end page ie) in *.
  destruct (ib =? ie)%nat; [done|].
  destruct (lookup_lt_is_Some_2 page ib ltac:(lia)) as [b ->]. destruct (b =? 0); [done|].
  destruct (lookup_lt_is_Some_2 page ie ltac:(lia)) as [e ->]. destruct (e =? 10); [done|].
  destruct (Nat.ltb_spec ae (length page)); [done|lia].
Qed.

(** ** Properties *)

(** C26. Script parsing, forwards: from a first line [#! interp args] the branch
    takes the interpreter to be the string [interp] and passes all of [args] as
    one string, blanks inside it included; from [#! interp] ended by a newline
    it takes no argument. Both strings are NUL-terminated in the page handed to
    execve. *)
Theorem parse_script_roundtrip m0 m1 blanks interp sep args e tail :
  Forall (fun b => is_blank b = true) blanks -> Forall word_byte interp -> interp <> [] ->
  is_blank sep = true -> is_line_end e = true -> Forall (fun b => is_line_end b = false) args ->
  (exists sc, parse_script (([m0; m1] ++ blanks) ++ interp ++ 10 :: tail) = Ret (Some sc)
     /\ c_string (script_page sc) (interp_begin sc) = interp /\ arg_begin sc = None)
  /\ (exists sc a, parse_script (([m0; m1] ++ blanks) ++ interp ++ sep :: args ++ e :: tail) = Ret (Some sc)
     /\ c_string (script_page sc) (interp_begin sc) = interp
     /\ arg_begin sc = Some a /\ c_string (script_page sc) a = args).
Proof.
  intros Hb Hi Hne Hsep He Hargs.
  assert (Hb' : Forall (fun b => negb (is_blank b) = false) blanks)
    by (eapply List.Forall_impl; [|exact Hb]; intros b Hbb; now rewrite Hbb).
  split.
  - eexists. split; [now apply parse_no_args|]. cbn. split; [|done].
    apply c_string_at; [done|]. now apply word_byte_nonzero.
  - eexists _, _. split; [now apply parse_args|]. cbn [script_page interp_begin arg_begin].
    split; [apply c_string_at; [done|]; now apply word_byte_nonzero|]. split; [done|].
    rewrite app_assoc.
    replace ((([m0; m1] ++ blanks) ++ interp) ++ 0 :: args ++ 0 :: tail)
      with (((([m0; m1] ++ blanks) ++ interp) ++ [0]) ++ args ++ 0 :: tail) by (now rewrite <- !app_assoc).
    apply c_string_at; [rewrite !length_app; simpl; lia|].
    eapply List.Forall_impl; [|exact Hargs]. intros b Hbb. unfold is_line_end in Hbb.
    now apply orb_false_iff in Hbb as [_ ?].
Qed.

Lemma parse_script_roundtrip_witness :
  (* #!/sh -x y \n *)
  exists sc a, parse_script [35; 33; 47; 115; 104; 32; 45; 120; 32; 121; 10; 0] = Ret (Some sc)
     /\ c_string (script_page sc) (interp_begin sc) = [47; 115; 104]
     /\ arg_begin sc = Some a /\ c_string (script_page sc) a = [45; 120; 32; 121].
Proof.
  apply (parse_script_roundtrip 35 33 [] [47; 115; 104] 32 [45; 120; 32; 121] 10 [0]);
    try done; repeat (constructor; try done).
Defined.

(** C40. For a file shorter than the buffer, the script branch never accesses
    the page outside its bounds, whatever the file and the buffer contain. *)
Theorem short_script_in_bounds buf data len :
  length buf = 4096%nat -> Z.of_nat (length data) = len -> 2 <= len < EXECPGSIZE ->
  parse_script (fill_page buf data len) <> UB.
Proof.
  intros Hbuf Hdata Hlen. unfold fill_page, EXECPGSIZE in *.
  destruct (Z.ltb_spec len 4096); [|lia].
  apply (parse_script_no_ub _ (Z.to_nat len)); [|lia].
  apply list_lookup_insert_eq. rewrite length_app, length_take, length_drop. lia.
Qed.

Lemma short_script_in_bounds_witness :
  parse_script (fill_page (replicate 4096 7) [35; 33; 47; 97] 4) <> UB.
Proof. apply short_script_in_bounds; [reflexivity|reflexivity|unfold EXECPGSIZE; lia]. Defined.

(** A page filled to the end by a first line without a blank, newline or
    NUL after its magic bytes makes the script branch access [page] one past
    its end. *)
Theorem long_script_overruns m0 m1 b rest :
  word_byte b -> Forall word_byte rest -> parse_script (m0 :: m1 :: b :: rest) = UB.
Proof.
  intros Hb Hrest. unfold parse_script.
  assert (Hib : scan (fun b => negb (is_blank b)) (m0 :: m1 :: b :: rest) 2 = 2%nat).
  { destruct Hb as [Hb _]. unfold scan. cbn. now rewrite Hb. }
  assert (Hie : scan (fun b => is_blank b || is_line_end b) (m0 :: m1 :: b :: rest) 2
                = length (m0 :: m1 :: b :: rest)).
  { unfold scan. cbn [drop]. rewrite skip_none; [done|]. apply word_byte_scan. by constructor. }
  rewrite Hib, Hie. cbn [Nat.eqb length lookup list_lookup]. destruct Hb as [_ Hl].
  unfold is_line_end in Hl. apply orb_false_iff in Hl as [_ ->].
  replace (rest !! length rest) with (@None Z); [done|].
  symmetry. now apply lookup_ge_None.
Qed.

Lemma long_script_overruns_witness : parse_script (35 :: 33 :: 47 :: replicate 4093 97) = UB.
Proof.
  apply long_script_overruns; [split; reflexivity|].
  apply Forall_replicate. split; reflexivity.
Defined.

Section exec_vector.
Context {W : Type} (P : platform W).

(** What the code passes between the dynamic linker and the application's own
    arguments: nothing for an ELF image; for a script, the interpreter named in
    the page, its argument string if it has one, and the script's name. *)
Inductive script_args (filename : Z) : list exec_arg -> Prop :=
  | args_elf : script_args filename []
  | args_plain i : script_args filename [APage i; APtr filename]
  | args_with i a : script_args filename [APage i; APage a; APtr filename].

(** The calls exec.c may make: files are only opened, read and closed, and
    the only program ever executed is the sandbox itself, with the environment
    of the request, loading its argument through the dynamic linker. *)
Definition exec_event (filename argv envp : Z) (e : oscall * Z) : Prop :=
  match e.1 with
  | OpenFile _ | ReadFile _ _ | CloseFile _ | Fork => True
  | Execve path v env _ =>
      path = ASandboxPath /\ env = ptr_arg envp
      /\ exists args n s, script_args filename args
         /\ v = ASandboxPath :: ALdPath :: args ++ copy_argv P argv n s ++ [ANull]
  | _ => False
  end.

Lemma emits_neg_errno ok : emits ok (neg_errno : M (sandbox W) Z).
Proof. unfold neg_errno. walk. Qed.

Lemma emits_getlen ok argv : emits ok (getlen P argv).
Proof. apply emits_pure. intros s. unfold getlen. now destruct (iterZ _ _ _). Qed.

Lemma emits_exec buf filename argv envp :
  emits (exec_event filename argv envp) (exec_execev P buf filename argv envp).
Proof.
  unfold exec_execev, neg_errno, respawn. walk; try exact I; auto using emits_getlen; cbn [app].
  - split; [done|]. split; [done|]. eexists [], _, _. split; [constructor|reflexivity].
  - split; [done|]. split; [done|]. destruct (arg_begin _).
    + eexists [_; _; _], _, _. split; [apply args_with|reflexivity].
    + eexists [_; _], _, _. split; [apply args_plain|reflexivity].
Qed.

End exec_vector.

(** An ELF image on a platform whose memory is empty: [argv] is NULL at once. *)
Definition elf_platform : platform unit := {|
  p_call c w := (Answer (match c with ReadFile _ _ => 5 | _ => 0 end) 2 0, w);
  p_data c w := [0x7f; 69; 76; 70; 2];
  p_load w a := 0;
  p_store w a v := w;
|}.

