(* ===== verification/Syscalls.v ===== *)
(** The system call numbers, structure sizes and command codes of the x86-64
    Linux ABI that sandbox/src/trap.c uses, and the classification of a number
    into the cases its switches distinguish. *)

From stdpp Require Import base numbers list option.
From S2P Require Import Prelude.

Inductive sysno : Type :=
  | SYS_read | SYS_write | SYS_open | SYS_close | SYS_stat | SYS_fstat | SYS_lstat | SYS_lseek
  | SYS_mmap | SYS_mprotect | SYS_munmap | SYS_brk | SYS_rt_sigaction | SYS_rt_sigprocmask
  | SYS_rt_sigreturn | SYS_ioctl | SYS_readv | SYS_writev | SYS_access | SYS_mremap | SYS_shmat
  | SYS_dup2 | SYS_getpid | SYS_sendfile | SYS_socket | SYS_connect | SYS_accept | SYS_shutdown
  | SYS_bind | SYS_listen | SYS_setsockopt | SYS_clone | SYS_execve | SYS_exit | SYS_uname
  | SYS_fcntl | SYS_getdents | SYS_getcwd | SYS_unlink | SYS_getrlimit | SYS_getuid | SYS_getgid
  | SYS_setuid | SYS_setgid | SYS_setgroups | SYS_rt_sigpending | SYS_rt_sigtimedwait
  | SYS_rt_sigqueueinfo | SYS_rt_sigsuspend | SYS_sigaltstack | SYS_statfs | SYS_arch_prctl
  | SYS_time | SYS_epoll_create | SYS_exit_group | SYS_epoll_wait | SYS_epoll_ctl | SYS_openat
  | SYS_signalfd | SYS_signalfd4
  | SYS_other (n : Z).

#[export] Instance sysno_eq_dec : EqDecision sysno.
Proof. solve_decision. Defined.

Definition sysno_table : list (Z * sysno) :=
  [(0, SYS_read); (1, SYS_write); (2, SYS_open); (3, SYS_close); (4, SYS_stat); (5, SYS_fstat);
   (6, SYS_lstat); (8, SYS_lseek); (9, SYS_mmap); (10, SYS_mprotect); (11, SYS_munmap);
   (12, SYS_brk); (13, SYS_rt_sigaction); (14, SYS_rt_sigprocmask); (15, SYS_rt_sigreturn);
   (16, SYS_ioctl); (19, SYS_readv); (20, SYS_writev); (21, SYS_access); (25, SYS_mremap);
   (30, SYS_shmat); (33, SYS_dup2); (39, SYS_getpid); (40, SYS_sendfile); (41, SYS_socket);
   (42, SYS_connect); (43, SYS_accept); (48, SYS_shutdown); (49, SYS_bind); (50, SYS_listen);
   (54, SYS_setsockopt); (56, SYS_clone); (59, SYS_execve); (60, SYS_exit); (63, SYS_uname);
   (72, SYS_fcntl); (78, SYS_getdents); (79, SYS_getcwd); (87, SYS_unlink); (97, SYS_getrlimit);
   (102, SYS_getuid); (104, SYS_getgid); (105, SYS_setuid); (106, SYS_setgid);
   (116, SYS_setgroups); (127, SYS_rt_sigpending); (128, SYS_rt_sigtimedwait);
   (129, SYS_rt_sigqueueinfo); (130, SYS_rt_sigsuspend); (131, SYS_sigaltstack);
   (137, SYS_statfs); (158, SYS_arch_prctl); (201, SYS_time); (213, SYS_epoll_create);
   (231, SYS_exit_group); (232, SYS_epoll_wait); (233, SYS_epoll_ctl); (257, SYS_openat);
   (282, SYS_signalfd); (289, SYS_signalfd4)].

Fixpoint assoc (t : list (Z * sysno)) (n : Z) : sysno :=
  match t with
  | [] => SYS_other n
  | (k, s) :: t => if k =? n then s else assoc t n
  end.

Definition sysno_of (rax : Z) : sysno := assoc sysno_table rax.

(** Sizes of the structures passed by reference. *)
Definition sizeof_utsname : Z := 390.
Definition sizeof_ulong : Z := 8.
Definition sizeof_stat : Z := 144.
Definition sizeof_statfs : Z := 120.
Definition sizeof_time_t : Z := 8.
Definition sizeof_epoll_event : Z := 12.
Definition sizeof_flock : Z := 32.
Definition sizeof_gid_t : Z := 4.
Definition sizeof_sigaction : Z := 152.
Definition sizeof_sigset_t : Z := 128.
Definition sizeof_siginfo_t : Z := 128.
Definition sizeof_timespec : Z := 16.
Definition sizeof_rlimit : Z := 16.
Definition sizeof_off_t : Z := 8.
Definition sizeof_iovec : Z := 16.
Definition sizeof_socklen_t : Z := 4.

Definition ARCH_SET_FS : Z := 0x1002.
Definition ARCH_GET_FS : Z := 0x1003.

(** The fcntl commands, by what the check does with them. *)
Inductive fcntl_class := FcntlPlain | FcntlLock | FcntlUnknown.

(** F_DUPFD 0, F_GETFD 1, F_SETFD 2, F_GETFL 3, F_SETFL 4, F_SETOWN 8,
    F_GETOWN 9, F_DUPFD_CLOEXEC 1030; F_GETLK 5, F_SETLK 6, F_SETLKW 7. *)
Definition fcntl_class_of (cmd : Z) : fcntl_class :=
  if existsb (Z.eqb cmd) [0; 1030; 1; 2; 3; 4; 9; 8] then FcntlPlain
  else if existsb (Z.eqb cmd) [7; 5; 6] then FcntlLock
  else FcntlUnknown.

Definition IOC_DIR (nr : Z) : Z := Z.land (Z.shiftr nr 30) 3.
Definition IOC_SIZE (nr : Z) : Z := Z.land (Z.shiftr nr 16) 0x3fff.

(** clone flags *)
Definition CLONE_SETTLS : Z := 0x80000.
Definition CLONE_PARENT_SETTID : Z := 0x100000.
Definition CLONE_CHILD_CLEARTID : Z := 0x200000.
