(* ===== verification/Trap.v ===== *)
(** The trap handler of the sandbox (sandbox/src/trap.c): validation of the
    memory references of a system call, the policy hook, the dispatch to the
    sandbox's own implementations, thread creation and page faults. *)

From stdpp Require Import base numbers list option.
From S2P Require Import Prelude Platform AddrSpace Umm Exec Syscalls.

Section check.
Context (D : dune_abi) (DUNE : bool) (ld : Z -> Z).

(** check_iovec. For a negative [num] the extent check has already failed. *)
Definition check_iovec (iov num : Z) : Z :=
  if truthy (check_extent D DUNE iov (wrap64 (sizeof_iovec * num))) then - EFAULT else
  match iterZ (fun i =>
      let e := wrap64 (iov + sizeof_iovec * i) in
      if truthy (check_extent D DUNE (load_word ld 8 e) (load_word ld 8 (wrap64 (e + 8))))
      then inr (- EFAULT) else inl (i + 1)) num 0 with
  | inr e => e
  | inl _ => 0
  end.

(** What the switch of [syscall_check_params] leaves behind: the variables
    [ptr], [len], [str] and [err]; or an early [return -1] with a value for
    [rax]; or a failed assertion. *)
Inductive verdict : Type :=
  | Refs (ptr len str err : Z)
  | Early (rax : Z)
  | AssertFailed.

Definition early_fault : verdict := Early (ulong_of_int (- EFAULT)).

(** The second half of the switch: signals, memory, processes. *)
Definition syscall_switch_rest (tf : dune_tf) : verdict :=
  match sysno_of (rax tf) with
  | SYS_rt_sigaction =>
      if truthy (arg2 tf) && truthy (check_extent D DUNE (arg2 tf) sizeof_sigaction)
      then early_fault else Refs (arg1 tf) sizeof_sigaction 0 0
  | SYS_sigaltstack | SYS_signalfd | SYS_signalfd4 => Refs (arg1 tf) sizeof_sigset_t 0 0
  | SYS_rt_sigpending => Refs (arg0 tf) sizeof_sigset_t 0 0
  | SYS_rt_sigprocmask =>
      if truthy (arg2 tf) && truthy (check_extent D DUNE (arg2 tf) sizeof_sigset_t)
      then early_fault
      else if truthy (arg1 tf) then Refs (arg1 tf) sizeof_sigset_t 0 0 else Refs 0 0 0 0
  | SYS_rt_sigreturn => Refs 0 0 0 0
  | SYS_rt_sigsuspend => Refs (arg0 tf) sizeof_sigset_t 0 0
  | SYS_rt_sigqueueinfo => Refs (arg1 tf) sizeof_siginfo_t 0 0
  | SYS_rt_sigtimedwait =>
      if truthy (check_extent D DUNE (arg0 tf) sizeof_siginfo_t) then early_fault
      else if truthy (check_extent D DUNE (arg1 tf) sizeof_siginfo_t) then early_fault
      else if truthy (arg2 tf) && truthy (check_extent D DUNE (arg2 tf) sizeof_timespec)
      then early_fault else Refs 0 0 0 0
  | SYS_brk | SYS_mprotect | SYS_munmap | SYS_mmap => Refs 0 0 0 0
  | SYS_getcwd => Refs (arg0 tf) (arg1 tf) 0 0
  | SYS_getrlimit => Refs (arg1 tf) sizeof_rlimit 0 0
  | SYS_sendfile => Refs (arg2 tf) sizeof_off_t 0 0
  | SYS_getuid | SYS_setuid | SYS_getgid | SYS_setgid | SYS_getpid | SYS_epoll_create
  | SYS_dup2 | SYS_socket | SYS_shutdown | SYS_listen | SYS_lseek => Refs 0 0 0 0
  | SYS_close => if arg0 tf <? 3 then Early 0 else Refs 0 0 0 0
  | SYS_execve =>
      if truthy (check_string D ld (arg0 tf)) then Refs 0 0 0 (- EFAULT) else Refs 0 0 0 0
  | _ => Refs 0 0 0 0
  end.

(** The switch: identification, files, sockets; then the rest. *)
Definition syscall_switch (tf : dune_tf) : verdict :=
  match sysno_of (rax tf) with
  | SYS_uname => Refs (arg0 tf) sizeof_utsname 0 0
  | SYS_arch_prctl =>
      if arg0 tf =? ARCH_GET_FS then Refs (arg1 tf) sizeof_ulong 0 0 else Refs 0 0 0 0
  | SYS_access | SYS_open | SYS_unlink => Refs 0 0 (arg0 tf) 0
  | SYS_openat => Refs 0 0 (arg1 tf) 0
  | SYS_getdents | SYS_read | SYS_write | SYS_connect | SYS_bind => Refs (arg1 tf) (arg2 tf) 0 0
  | SYS_writev | SYS_readv => Refs 0 0 0 (check_iovec (arg1 tf) (to_int (arg2 tf)))
  | SYS_stat | SYS_lstat => Refs (arg1 tf) sizeof_stat (arg0 tf) 0
  | SYS_fstat => Refs (arg1 tf) sizeof_stat 0 0
  | SYS_statfs => Refs (arg1 tf) sizeof_statfs (arg0 tf) 0
  | SYS_time => Refs (arg0 tf) sizeof_time_t 0 0
  | SYS_epoll_ctl => Refs (arg3 tf) sizeof_epoll_event 0 0
  | SYS_epoll_wait => Refs (arg1 tf) (wrap64 (arg2 tf * sizeof_epoll_event)) 0 0
  | SYS_setsockopt => Refs (arg3 tf) (arg4 tf) 0 0
  | SYS_accept =>
      if truthy (arg2 tf) then
        if truthy (check_extent D DUNE (arg2 tf) sizeof_socklen_t) then Refs 0 0 0 (- EFAULT)
        else if arg1 tf =? 0 then AssertFailed
        else Refs (arg1 tf) (load_word ld 4 (arg2 tf)) 0 0
      else Refs 0 0 0 0
  | SYS_fcntl =>
      match fcntl_class_of (arg1 tf) with
      | FcntlPlain => Refs 0 0 0 0
      | FcntlLock => Refs (arg2 tf) sizeof_flock 0 0
      | FcntlUnknown => Refs 0 0 0 (- EFAULT)
      end
  | SYS_ioctl =>
      if truthy (IOC_DIR (arg1 tf)) then Refs (arg2 tf) (IOC_SIZE (arg1 tf)) 0 0
      else Refs 0 0 0 0
  | SYS_setgroups => Refs (arg1 tf) (wrap64 (sizeof_gid_t * arg0 tf)) 0 0
  | _ => syscall_switch_rest tf
  end.

(** The checks after the switch. *)
Definition check_refs (ptr len str err : Z) (tf : dune_tf) : outcome (Z * dune_tf) :=
  let err := if truthy ptr && truthy len && truthy (check_extent D DUNE ptr len)
             then - EFAULT else err in
  let err := if truthy str && truthy (check_string D ld str) then - EFAULT else err in
  if truthy err then Ret (-1, set_rax (ulong_of_int err) tf) else Ret (0, tf).

(** syscall_check_params: the return value and the updated frame. *)
Definition syscall_check_params (tf : dune_tf) : outcome (Z * dune_tf) :=
  match syscall_switch tf with
  | AssertFailed => Abort
  | Early v => Ret (-1, set_rax v tf)
  | Refs ptr len str err => check_refs ptr len str err tf
  end.
End check.

(** The policy hook: [boxer_syscall_cb] reads and may change the frame. *)
Definition monitor (W : Type) : Type := dune_tf -> M (sandbox W) (Z * dune_tf).

(** What the handler expects of a policy: it only looks at the machine, and
    either lets the call through with its frame untouched or refuses it with
    EPERM. *)
Class MonitorOk {W} (cb : monitor W) : Prop := {
  monitor_decides tf s :
    (exists v, cb tf s = (Ret (v, tf), s) /\ v <> 0)
    \/ cb tf s = (Ret (0, set_rax (ulong_of_int (- EPERM)) tf), s);
}.

(** The policy lets the call through. *)
Definition allows {W} (cb : monitor W) (tf : dune_tf) (s : sandbox W) : Prop :=
  exists v, cb tf s = (Ret (v, tf), s) /\ v <> 0.

Section trap.
Context {W : Type} (P : platform W) (D : dune_abi) (DUNE : bool) (buf : list Z).
Abbreviation C := (M (sandbox W)).

(** boxer_register_syscall_monitor, as the value of [_syscall_monitor]. *)
Definition boxer_register_syscall_monitor (cb : option (monitor W)) : option (monitor W) := cb.

(** pgflt_handler. [pgroot] is Dune's root; printing is not modelled. *)
Definition pgflt_handler (addr : Z) (tf : dune_tf) : C unit :=
  let was_user := truthy (Z.land (cs tf) 3) in
  if was_user then
    _ ← ext P Gettid;
    stop (Leave (- EFAULT))
  else
    _ ← ext P (MutexLock SyscallMtx);
    ret ← ext P (VmLookup addr (CREATE_NORMAL D));
    _ ← c_assert (negb (truthy ret));
    pa ← ext P (VaToPa addr);
    _ ← ext P (SetPte addr (Z.lor (Z.lor (PTE_P D) (PTE_W D)) (PTE_ADDR D pa)));
    _ ← ext P (MutexUnlock SyscallMtx);
    mret tt.

(** do_enter_thread: the thread ends when the application leaves it. *)
Definition do_enter_thread (tf : dune_tf) : C unit :=
  rc ← ext P (JumpToUser tf);
  _ ← ext P (ExitThread rc);
  mret tt.

(** pthread_entry, run by the new thread. *)
Definition pthread_entry (tf : dune_tf) : C unit :=
  let flags := to_int (arg0 tf) in
  _ ← ext P DuneEnter;
  tid ← ext P Gettid;
  _ ← (if has_bits flags CLONE_SETTLS then _ ← ext P (SetUserFs (arg4 tf)); mret tt else mret tt);
  _ ← (if has_bits flags CLONE_PARENT_SETTID then store_word P 4 (arg2 tf) tid else mret tt);
  _ ← (if has_bits flags CLONE_CHILD_CLEARTID then _ ← ext P (SetTidAddress (arg3 tf)); mret tt
       else mret tt);
  let child_tf := DuneTf 0 (arg0 tf) (arg1 tf) (arg2 tf) (arg3 tf) (arg4 tf) (arg5 tf)
                    (rip tf) (arg1 tf) (cs tf) (rflags tf) in
  _ ← ext P (MutexLock ArgMtx);
  _ ← ext P (SetTaTid tid);
  _ ← ext P (MutexUnlock ArgMtx);
  _ ← ext P CondSignal;
  do_enter_thread child_tf.

(** dune_pthread_create. [ta_tid] is written by the new thread, so each read
    of it is an access to shared memory. *)
Definition dune_pthread_create (tf : dune_tf) : C Z :=
  _ ← ext P (SetTaTid 0);
  r ← ext P CondInit;
  if truthy r then mret (-1) else
  r ← ext P (MutexInit ArgMtx);
  if truthy r then mret (-1) else
  r ← ext P (PthreadCreate tf);
  if truthy r then mret (-1) else
  _ ← ext P (MutexLock ArgMtx);
  t ← ext P GetTaTid;
  _ ← (if t =? 0 then _ ← ext P CondWait; mret tt else mret tt);
  _ ← ext P (MutexUnlock ArgMtx);
  _ ← ext P (MutexDestroy ArgMtx);
  _ ← ext P CondDestroy;
  ext P GetTaTid.

Definition dune_clone (tf : dune_tf) : C Z :=
  _ ← ext P ReadGsBase;
  if negb (arg1 tf =? 0) then dune_pthread_create tf else
  fs ← ext P GetUserFs;
  rc ← ext P (CloneSys (arg0 tf) (arg1 tf) (arg2 tf) (arg3 tf) (arg4 tf));
  let rc := to_int rc in
  if rc <? 0 then neg_errno else
  _ ← (if rc =? 0 then _ ← ext P DuneEnter; _ ← ext P (SetUserFs fs); mret tt else mret tt);
  mret rc.

(** syscall_allow, with [_syscall_monitor] as its argument. *)
Definition syscall_allow (mon : option (monitor W)) (tf : dune_tf) : C (Z * dune_tf) :=
  match mon with
  | None => mret (0, set_rax (ulong_of_int (- EPERM)) tf)
  | Some cb => cb tf
  end.

Definition syscall_do_foreal (tf : dune_tf) : C dune_tf :=
  let ret (v : Z) : dune_tf := set_rax (ulong_of_int v) tf in
  match sysno_of (rax tf) with
  | SYS_arch_prctl =>
      if arg0 tf =? ARCH_GET_FS then
        fs ← ext P GetUserFs;
        _ ← store_word P 8 (arg1 tf) fs;
        mret (ret 0)
      else if arg0 tf =? ARCH_SET_FS then
        _ ← ext P (SetUserFs (arg1 tf));
        mret (ret 0)
      else mret (ret (- EINVAL))
  | SYS_brk => v ← umm_brk P D (arg0 tf); mret (ret v)
  | SYS_mmap =>
      v ← umm_mmap P D DUNE (arg0 tf) (arg1 tf) (to_int (arg2 tf)) (to_int (arg3 tf))
            (to_int (arg4 tf)) (arg5 tf);
      mret (ret v)
  | SYS_mprotect => v ← umm_mprotect P D DUNE (arg0 tf) (arg1 tf) (arg2 tf); mret (ret v)
  | SYS_munmap => v ← umm_munmap P D DUNE (arg0 tf) (arg1 tf); mret (ret v)
  | SYS_mremap =>
      v ← umm_mremap P D DUNE (arg0 tf) (arg1 tf) (arg2 tf) (to_int (arg3 tf)) (arg4 tf);
      mret (ret v)
  | SYS_shmat => v ← umm_shmat P D DUNE (to_int (arg0 tf)) (arg1 tf) (to_int (arg2 tf)); mret (ret v)
  | SYS_clone => v ← dune_clone tf; mret (ret v)
  | SYS_execve => v ← exec_execev P buf (arg0 tf) (arg1 tf) (arg2 tf); mret (ret v)
  | SYS_rt_sigaction | SYS_rt_sigprocmask => mret (ret 0)
  | SYS_sigaltstack | SYS_signalfd | SYS_signalfd4 | SYS_rt_sigpending | SYS_rt_sigreturn
  | SYS_rt_sigsuspend | SYS_rt_sigqueueinfo | SYS_rt_sigtimedwait => mret (ret (- ENOSYS))
  | SYS_exit_group | SYS_exit => stop (Leave (to_int (arg0 tf)))
  | _ => v ← ext P (Passthrough tf); mret (ret v)
  end.

Definition needs_lock (tf : dune_tf) : bool :=
  match sysno_of (rax tf) with
  | SYS_mmap | SYS_mprotect | SYS_munmap => true
  | _ => false
  end.

Definition syscall_do (tf : dune_tf) : C dune_tf :=
  let need_lock := needs_lock tf in
  r ← (if need_lock then ext P (MutexLock SyscallMtx) else mret 0);
  if truthy r then stop (Exit 1) else
  tf' ← syscall_do_foreal tf;
  r ← (if need_lock then ext P (MutexUnlock SyscallMtx) else mret 0);
  if truthy r then stop (Exit 1) else
  mret tf'.

(** syscall_handler: the frame the application resumes with. *)
Definition syscall_handler (mon : option (monitor W)) (tf : dune_tf) : C dune_tf :=
  s ← get;
  r ← stop (syscall_check_params D DUNE (memory P s) tf);
  let '(r, tf1) := r in
  if r =? -1 then mret tf1 else
  a ← syscall_allow mon tf1;
  let '(ok, tf2) := a in
  if ok =? 0 then mret tf2 else
  syscall_do tf2.

(** trap_init *)
Definition trap_init : C Z :=
  r ← ext P (MutexInit SyscallMtx);
  if truthy r then mret (-1) else
  _ ← ext P RegisterHandlers;
  mret 0.
End trap.

(** The policy of the plain sandbox (sandbox/src/nullsandbox.c): everything is
    allowed; the message printed for open is not modelled. *)
Definition null_monitor {W : Type} : monitor W := fun tf =>
  match sysno_of (rax tf) with
  | SYS_open => mret (1, tf)
  | _ => mret (1, tf)
  end.

#[export] Instance null_monitor_ok {W} : MonitorOk (@null_monitor W).
Proof.
  split. intros tf s. left. exists 1. split; [|done].
  unfold null_monitor. destruct (sysno_of (rax tf)); reflexivity.
Qed.
