(* ===== verification/TrapProps.v ===== *)
(** What the trap handler guarantees: its parameter check against a table of
    the references each system call declares, the reference-monitor behaviour
    of the whole handler, and the use of the memory lock. *)

From stdpp Require Import base numbers list list_numbers option.
From S2P Require Import Prelude Platform AddrSpace Umm Exec Syscalls Trap.

(** ** Declared references *)

(** A reference a system call hands to the kernel: a range or a string that
    must be the application's, one that may also be NULL (or empty), or a
    command that is not understood. *)
Inductive uref : Type :=
  | URange (p len : Z)
  | UMaybe (p len : Z)
  | UString (p : Z)
  | UMaybeString (p : Z)
  | UBad.

Section references.
Context (D : dune_abi) (DUNE : bool) (ld : Z -> Z).

Definition uref_ok (r : uref) : Prop :=
  match r with
  | URange p len => check_extent D DUNE p len = 0
  | UMaybe p len => p = 0 \/ len = 0 \/ check_extent D DUNE p len = 0
  | UString p => check_string D ld p = 0
  | UMaybeString p => p = 0 \/ check_string D ld p = 0
  | UBad => False
  end.

Definition iovec_refs (iov num : Z) : list uref :=
  URange iov (wrap64 (sizeof_iovec * num)) ::
  ((fun i => let e := wrap64 (iov + sizeof_iovec * i) in
             URange (load_word ld 8 e) (load_word ld 8 (wrap64 (e + 8)))) <$> seqZ 0 num).

(** The references of a call, by its number. *)
Definition declared (tf : dune_tf) : list uref :=
  match sysno_of (rax tf) with
  | SYS_uname => [UMaybe (arg0 tf) sizeof_utsname]
  | SYS_arch_prctl => if arg0 tf =? ARCH_GET_FS then [UMaybe (arg1 tf) sizeof_ulong] else []
  | SYS_access | SYS_open | SYS_unlink => [UMaybeString (arg0 tf)]
  | SYS_openat => [UMaybeString (arg1 tf)]
  | SYS_getdents | SYS_read | SYS_write | SYS_connect | SYS_bind => [UMaybe (arg1 tf) (arg2 tf)]
  | SYS_writev | SYS_readv => iovec_refs (arg1 tf) (to_int (arg2 tf))
  | SYS_stat | SYS_lstat => [UMaybe (arg1 tf) sizeof_stat; UMaybeString (arg0 tf)]
  | SYS_fstat => [UMaybe (arg1 tf) sizeof_stat]
  | SYS_statfs => [UMaybe (arg1 tf) sizeof_statfs; UMaybeString (arg0 tf)]
  | SYS_time => [UMaybe (arg0 tf) sizeof_time_t]
  | SYS_epoll_ctl => [UMaybe (arg3 tf) sizeof_epoll_event]
  | SYS_epoll_wait => [UMaybe (arg1 tf) (wrap64 (arg2 tf * sizeof_epoll_event))]
  | SYS_setsockopt => [UMaybe (arg3 tf) (arg4 tf)]
  | SYS_accept =>
      if arg2 tf =? 0 then []
      else [URange (arg2 tf) sizeof_socklen_t; UMaybe (arg1 tf) (load_word ld 4 (arg2 tf))]
  | SYS_fcntl =>
      match fcntl_class_of (arg1 tf) with
      | FcntlPlain => []
      | FcntlLock => [UMaybe (arg2 tf) sizeof_flock]
      | FcntlUnknown => [UBad]
      end
  | SYS_ioctl => if IOC_DIR (arg1 tf) =? 0 then [] else [UMaybe (arg2 tf) (IOC_SIZE (arg1 tf))]
  | SYS_setgroups => [UMaybe (arg1 tf) (wrap64 (sizeof_gid_t * arg0 tf))]
  | SYS_rt_sigaction => [UMaybe (arg1 tf) sizeof_sigaction; UMaybe (arg2 tf) sizeof_sigaction]
  | SYS_sigaltstack | SYS_signalfd | SYS_signalfd4 => [UMaybe (arg1 tf) sizeof_sigset_t]
  | SYS_rt_sigpending | SYS_rt_sigsuspend => [UMaybe (arg0 tf) sizeof_sigset_t]
  | SYS_rt_sigprocmask => [UMaybe (arg1 tf) sizeof_sigset_t; UMaybe (arg2 tf) sizeof_sigset_t]
  | SYS_rt_sigqueueinfo => [UMaybe (arg1 tf) sizeof_siginfo_t]
  | SYS_rt_sigtimedwait =>
      [URange (arg0 tf) sizeof_siginfo_t; URange (arg1 tf) sizeof_siginfo_t;
       UMaybe (arg2 tf) sizeof_timespec]
  | SYS_getcwd => [UMaybe (arg0 tf) (arg1 tf)]
  | SYS_getrlimit => [UMaybe (arg1 tf) sizeof_rlimit]
  | SYS_sendfile => [UMaybe (arg2 tf) sizeof_off_t]
  | SYS_execve => [UString (arg0 tf)]
  | _ => []
  end.

(** Closing one of the three standard descriptors is swallowed. *)
Definition closes_std (tf : dune_tf) : Prop := sysno_of (rax tf) = SYS_close /\ arg0 tf < 3.

(** accept with a length but without an address buffer. *)
Definition accept_null (tf : dune_tf) : Prop :=
  sysno_of (rax tf) = SYS_accept /\ arg2 tf <> 0 /\ arg1 tf = 0
  /\ check_extent D DUNE (arg2 tf) sizeof_socklen_t = 0.

#[export] Instance closes_std_dec tf : Decision (closes_std tf).
Proof. unfold closes_std. apply _. Defined.

#[export] Instance accept_null_dec tf : Decision (accept_null tf).
Proof. unfold accept_null. apply _. Defined.

(** ** Correctness of the check *)

(** [passes o tf]: the check accepts and leaves the frame alone;
    [faults o tf]: it refuses with EFAULT. *)
Definition passes (o : outcome (Z * dune_tf)) (tf : dune_tf) : Prop := o = Ret (0, tf).
Definition faults (o : outcome (Z * dune_tf)) (tf : dune_tf) : Prop :=
  o = Ret (-1, set_rax (ulong_of_int (- EFAULT)) tf).

Definition decides (o : outcome (Z * dune_tf)) (tf : dune_tf) (P : Prop) : Prop :=
  (passes o tf /\ P) \/ (faults o tf /\ ~ P).

Lemma check_refs_decides ptr len str err tf :
  err = 0 \/ err = - EFAULT ->
  decides (check_refs D DUNE ld ptr len str err tf) tf
    (err = 0 /\ uref_ok (UMaybe ptr len) /\ uref_ok (UMaybeString str)).
Proof.
  intros Herr. unfold decides, passes, faults, check_refs, uref_ok, truthy.
  destruct (Z.eqb_spec ptr 0), (Z.eqb_spec len 0), (Z.eqb_spec (check_extent D DUNE ptr len) 0),
    (Z.eqb_spec str 0), (Z.eqb_spec (check_string D ld str) 0), Herr as [->| ->]; cbn;
    first [left; split; [reflexivity|tauto] | right; split; [reflexivity|]; unfold EFAULT; lia
          | right; split; [reflexivity|tauto]].
Qed.

(** The verdict of the switch decides [P]. *)
Lemma decides_iff o tf P Q : (P <-> Q) -> decides o tf P -> decides o tf Q.
Proof. unfold decides. tauto. Qed.

Lemma check_refs_list ptr len str tf l :
  (Forall uref_ok l <-> uref_ok (UMaybe ptr len) /\ uref_ok (UMaybeString str)) ->
  decides (check_refs D DUNE ld ptr len str 0 tf) tf (Forall uref_ok l).
Proof.
  intros Hl. eapply decides_iff; [|apply check_refs_decides; by left]. tauto.
Qed.

Lemma iovec_loop num iov i :
  match iter_nat (fun i =>
      let e := wrap64 (iov + sizeof_iovec * i) in
      if truthy (check_extent D DUNE (load_word ld 8 e) (load_word ld 8 (wrap64 (e + 8))))
      then inr (- EFAULT) else inl (i + 1)) num i with
  | inr e => e = - EFAULT /\ ~ Forall uref_ok ((fun i => let e := wrap64 (iov + sizeof_iovec * i) in
               URange (load_word ld 8 e) (load_word ld 8 (wrap64 (e + 8)))) <$> seqZ i (Z.of_nat num))
  | inl _ => Forall uref_ok ((fun i => let e := wrap64 (iov + sizeof_iovec * i) in
               URange (load_word ld 8 e) (load_word ld 8 (wrap64 (e + 8)))) <$> seqZ i (Z.of_nat num))
  end.
Proof.
  revert i; induction num as [|num IH]; intros i; [apply Forall_nil; done|].
  rewrite seqZ_cons by lia. replace (Z.pred (Z.of_nat (S num))) with (Z.of_nat num) by lia.
  cbn [iter_nat]. cbn zeta. rewrite fmap_cons. cbn zeta.
  set (e := wrap64 (iov + sizeof_iovec * i)) in *.
  destruct (truthy (check_extent D DUNE (load_word ld 8 e) (load_word ld 8 (wrap64 (e + 8))))) eqn:Hc.
  - split; [done|]. rewrite List.Forall_cons_iff. intros [Hr _]. cbn in Hr.
    apply truthy_true in Hc. done.
  - apply truthy_false in Hc. specialize (IH (i + 1)). cbn zeta in IH.
    replace (Z.succ i) with (i + 1) by lia.
    destruct (iter_nat _ num (i + 1)).
    + apply List.Forall_cons_iff. auto.
    + rewrite List.Forall_cons_iff. tauto.
Qed.

(** check_iovec decides its list of references. *)
Lemma check_iovec_spec iov num :
  check_iovec D DUNE ld iov num = 0 /\ Forall uref_ok (iovec_refs iov num)
  \/ check_iovec D DUNE ld iov num = - EFAULT /\ ~ Forall uref_ok (iovec_refs iov num).
Proof.
  unfold check_iovec, iovec_refs. rewrite List.Forall_cons_iff.
  destruct (truthy (check_extent D DUNE iov (wrap64 (sizeof_iovec * num)))) eqn:Hc.
  { apply truthy_true in Hc. right. split; [done|]. cbn. tauto. }
  apply truthy_false in Hc. rewrite iterZ_nat. pose proof (iovec_loop (Z.to_nat num) iov 0) as Hl.
  replace (seqZ 0 (Z.of_nat (Z.to_nat num))) with (seqZ 0 num) in Hl.
  2:{ destruct (Z_le_gt_dec 0 num); [now rewrite Z2Nat.id by lia|].
      rewrite !seqZ_nil by lia. done. }
  destruct (iter_nat _ (Z.to_nat num) 0); [left|right]; cbn in *; naive_solver.
Qed.

Lemma early_decides v tf l :
  ~ Forall uref_ok l -> v = ulong_of_int (- EFAULT) ->
  decides (Ret (-1, set_rax v tf)) tf (Forall uref_ok l).
Proof. intros Hl ->. right. split; [done|done]. Qed.

Lemma err_decides err tf l :
  (err = 0 /\ Forall uref_ok l) \/ (err = - EFAULT /\ ~ Forall uref_ok l) ->
  decides (check_refs D DUNE ld 0 0 0 err tf) tf (Forall uref_ok l).
Proof.
  intros Hl. eapply decides_iff; [|apply check_refs_decides; tauto]. cbn. unfold EFAULT in *.
  destruct Hl as [[-> ?]|[-> ?]]; [tauto|]. split; [lia|tauto].
Qed.

(** Unfolds a list of references into the conjunction of their conditions. *)
Ltac refs := rewrite ?List.Forall_cons_iff, ?List.Forall_nil_iff; cbn [uref_ok].

Lemma maybe_refused p len :
  truthy p && truthy (check_extent D DUNE p len) = true -> len <> 0 -> ~ uref_ok (UMaybe p len).
Proof. rewrite andb_true_iff, !truthy_true. cbn. tauto. Qed.

Lemma maybe_accepted p len :
  truthy p && truthy (check_extent D DUNE p len) = false -> uref_ok (UMaybe p len).
Proof. rewrite andb_false_iff, !truthy_false. cbn. tauto. Qed.

Lemma check_params_decides tf :
  ~ accept_null tf -> ~ closes_std tf ->
  decides (syscall_check_params D DUNE ld tf) tf (Forall uref_ok (declared tf)).
Proof.
  unfold accept_null, closes_std, syscall_check_params, syscall_switch, syscall_switch_rest, declared.
  intros Hacc Hclose.
  destruct (sysno_of (rax tf)) eqn:Hn; try (apply check_refs_list; refs; tauto).
  - (* close *) destruct (Z.ltb_spec (arg0 tf) 3); [tauto|]. apply check_refs_list; refs; tauto.
  - (* rt_sigaction *) destruct (truthy (arg2 tf) && _) eqn:Hc.
    + apply maybe_refused in Hc; [|done]. apply early_decides; [|done]. refs. cbn in Hc. tauto.
    + apply maybe_accepted in Hc. apply check_refs_list. refs. cbn in Hc. tauto.
  - (* rt_sigprocmask *) destruct (truthy (arg2 tf) && _) eqn:Hc.
    + apply maybe_refused in Hc; [|done]. apply early_decides; [|done]. refs. cbn in Hc. tauto.
    + apply maybe_accepted in Hc. cbn in Hc.
      destruct (truthy (arg1 tf)) eqn:H1; [|apply truthy_false in H1];
        apply check_refs_list; refs; tauto.
  - (* ioctl *) unfold truthy. destruct (IOC_DIR (arg1 tf) =? 0); apply check_refs_list; refs; tauto.
  - (* readv *) apply err_decides. apply check_iovec_spec.
  - (* writev *) apply err_decides. apply check_iovec_spec.
  - (* accept *) unfold truthy at 1. destruct (Z.eqb_spec (arg2 tf) 0) as [H2|H2]; cbn [negb];
      [apply check_refs_list; refs; tauto|].
    destruct (truthy (check_extent D DUNE (arg2 tf) sizeof_socklen_t)) eqn:Hc.
    + apply truthy_true in Hc. apply err_decides. right. split; [done|]. refs. tauto.
    + apply truthy_false in Hc. destruct (Z.eqb_spec (arg1 tf) 0); [tauto|].
      apply check_refs_list. refs. tauto.
  - (* execve *) destruct (truthy (check_string D ld (arg0 tf))) eqn:Hc.
    + apply truthy_true in Hc. apply err_decides. right. split; [done|]. refs. tauto.
    + apply truthy_false in Hc. apply check_refs_list. refs. tauto.
  - (* fcntl *) destruct (fcntl_class_of (arg1 tf)); try (apply check_refs_list; refs; tauto).
    apply err_decides. right. split; [done|]. refs. tauto.
  - (* rt_sigtimedwait *)
    destruct (truthy (check_extent D DUNE (arg0 tf) sizeof_siginfo_t)) eqn:H0;
      [apply truthy_true in H0; apply early_decides; [refs; tauto|done]|apply truthy_false in H0].
    destruct (truthy (check_extent D DUNE (arg1 tf) sizeof_siginfo_t)) eqn:H1;
      [apply truthy_true in H1; apply early_decides; [refs; tauto|done]|apply truthy_false in H1].
    destruct (truthy (arg2 tf) && _) eqn:Hc.
    + apply maybe_refused in Hc; [|done]. apply early_decides; [|done]. refs. cbn in Hc. tauto.
    + apply maybe_accepted in Hc. apply check_refs_list. refs. cbn in Hc. tauto.
  - (* arch_prctl *) destruct (arg0 tf =? ARCH_GET_FS); apply check_refs_list; refs; tauto.
Qed.

Lemma check_closes_std tf :
  closes_std tf -> syscall_check_params D DUNE ld tf = Ret (-1, set_rax 0 tf).
Proof.
  intros [Hn Hlt]. unfold syscall_check_params, syscall_switch, syscall_switch_rest. rewrite Hn.
  destruct (Z.ltb_spec (arg0 tf) 3); [done|lia].
Qed.

Lemma check_accept_null tf : accept_null tf -> syscall_check_params D DUNE ld tf = Abort.
Proof.
  intros (Hn & H2 & H1 & Hx). unfold syscall_check_params, syscall_switch, syscall_switch_rest. rewrite Hn.
  apply truthy_true in H2. rewrite H2, Hx, H1. reflexivity.
Qed.

(** A call the switch does not list is accepted whatever its arguments. *)
Lemma unlisted_calls_unchecked tf n :
  sysno_of (rax tf) = SYS_other n -> syscall_check_params D DUNE ld tf = Ret (0, tf).
Proof. intros Hn. unfold syscall_check_params, syscall_switch, syscall_switch_rest. now rewrite Hn. Qed.

(** ** Properties of the check *)

(** C3. The parameter check, exactly: closing a standard descriptor is
    answered with 0; accept with a length but no address buffer aborts the
    sandbox; every other call is passed unchanged when all the references in
    its row of the table are acceptable, and refused with EFAULT when one is
    not. *)
Theorem check_params_exact tf :
  (closes_std tf -> syscall_check_params D DUNE ld tf = Ret (-1, set_rax 0 tf))
  /\ (accept_null tf -> syscall_check_params D DUNE ld tf = Abort)
  /\ (~ closes_std tf -> ~ accept_null tf ->
      (syscall_check_params D DUNE ld tf = Ret (0, tf) /\ Forall uref_ok (declared tf))
      \/ (syscall_check_params D DUNE ld tf = Ret (-1, set_rax (ulong_of_int (- EFAULT)) tf)
          /\ ~ Forall uref_ok (declared tf))).
Proof.
  split; [apply check_closes_std|]. split; [apply check_accept_null|].
  intros Hc Ha. exact (check_params_decides tf Ha Hc).
Qed.

Context `{!dune_abi_ok D}.

(** C10. What acceptance means: when the check passes a call, every range it
    declares that is not NULL, not empty and does not wrap lies wholly in one
    of the application's two windows. *)
Theorem accepted_ranges_confined tf tf' p len :
  syscall_check_params D DUNE ld tf = Ret (0, tf') ->
  URange p len ∈ declared tf \/ UMaybe p len ∈ declared tf ->
  p <> 0 -> len <> 0 -> u64 p -> u64 len -> p + len < 2 ^ 64 -> in_app D p len.
Proof.
  intros Hchk Hin Hp Hl Hup Hul Hw.
  assert (Hf : Forall uref_ok (declared tf)).
  { destruct (decide (closes_std tf)) as [Hc|Hc]; [rewrite (check_closes_std tf Hc) in Hchk; done|].
    destruct (decide (accept_null tf)) as [Ha|Ha]; [rewrite (check_accept_null tf Ha) in Hchk; done|].
    destruct (check_params_decides tf Ha Hc) as [[_ ?]|[Hr _]]; [done|].
    unfold faults in Hr. rewrite Hr in Hchk. discriminate. }
  rewrite List.Forall_forall in Hf.
  apply (mem_ref_is_safe_in_app D DUNE); auto. apply check_extent_0.
  destruct Hin as [Hin|Hin]; apply list_elem_of_In, Hf in Hin; cbn in Hin; tauto.
Qed.
End references.

(** ** The handler *)

Section handler.
Context {W : Type} (P : platform W) (D : dune_abi) (DUNE : bool) (buf : list Z).
Abbreviation C := (M (sandbox W)).

(** The calls the handler keeps for itself: it never lets one of these reach
    the kernel as the application made it. *)
Definition intercepted (n : sysno) : bool :=
  match n with
  | SYS_arch_prctl | SYS_brk | SYS_mmap | SYS_mprotect | SYS_munmap | SYS_mremap | SYS_shmat
  | SYS_clone | SYS_execve | SYS_rt_sigaction | SYS_rt_sigprocmask | SYS_sigaltstack
  | SYS_signalfd | SYS_signalfd4 | SYS_rt_sigpending | SYS_rt_sigreturn | SYS_rt_sigsuspend
  | SYS_rt_sigqueueinfo | SYS_rt_sigtimedwait | SYS_exit_group | SYS_exit => true
  | _ => false
  end.

(** Calls other than a pass-through and the memory lock. *)
Definition inner_event (e : oscall * Z) : Prop :=
  match e.1 with
  | Passthrough _ | MutexLock SyscallMtx | MutexUnlock SyscallMtx => False
  | _ => True
  end.

Lemma emits_map_fixed a len prot flags fd off perm :
  emits inner_event (map_fixed P a len prot flags fd off perm).
Proof. unfold map_fixed, neg_errno. walk; exact I. Qed.

Lemma emits_mmap_anom a len prot big : emits inner_event (umm_mmap_anom P D a len prot big).
Proof. apply emits_map_fixed. Qed.

Lemma emits_mmap_file a len prot flags fd off :
  emits inner_event (umm_mmap_file P D a len prot flags fd off).
Proof. apply emits_map_fixed. Qed.

Lemma emits_bump adjust len : emits inner_event (bump D adjust len : C unit).
Proof. unfold bump. walk. Qed.

Lemma emits_brk b : emits inner_event (umm_brk P D b).
Proof. unfold umm_brk, neg_errno. walk; auto using emits_mmap_anom; exact I. Qed.

Lemma emits_mmap a len prot flags fd off : emits inner_event (umm_mmap P D DUNE a len prot flags fd off).
Proof.
  unfold umm_mmap, umm_mmap_at. walk; auto using emits_mmap_anom, emits_mmap_file, emits_bump; exact I.
Qed.

Lemma emits_munmap a len : emits inner_event (umm_munmap P D DUNE a len).
Proof. unfold umm_munmap, neg_errno. walk; exact I. Qed.

Lemma emits_mprotect a len prot : emits inner_event (umm_mprotect P D DUNE a len prot).
Proof. unfold umm_mprotect, neg_errno. walk; exact I. Qed.

Lemma emits_shmat id a flg : emits inner_event (umm_shmat P D DUNE id a flg).
Proof. unfold umm_shmat, umm_shmat_at, neg_errno. walk; auto using emits_bump; exact I. Qed.

Lemma emits_mremap a b c d e : emits inner_event (umm_mremap P D DUNE a b c d e).
Proof. unfold umm_mremap, umm_mremap_at, neg_errno. walk; auto using emits_bump; exact I. Qed.

Lemma emits_clone tf : emits inner_event (dune_clone P tf).
Proof. unfold dune_clone, dune_pthread_create, neg_errno. walk; exact I. Qed.

Lemma emits_exec_inner f a env : emits inner_event (exec_execev P buf f a env).
Proof.
  eapply emits_mono; [|apply emits_exec]. intros [c r]. unfold exec_event, inner_event; cbn.
  destruct c; tauto.
Qed.

(** The dispatch: at most one pass-through, of the given frame, and only of a
    call that is not intercepted; the lock is never touched here. *)
Definition dispatch_event (tf : dune_tf) (e : oscall * Z) : Prop :=
  inner_event e \/ exists r, e = (Passthrough tf, r) /\ intercepted (sysno_of (rax tf)) = false.

Lemma emits_dispatch tf : emits (dispatch_event tf) (syscall_do_foreal P D DUNE buf tf).
Proof.
  assert (Hi : forall A (c : C A), emits inner_event c -> emits (dispatch_event tf) c)
    by (intros; eapply emits_mono; [|eassumption]; unfold dispatch_event; auto).
  unfold syscall_do_foreal. destruct (sysno_of (rax tf)) eqn:Hn; walk;
    try (right; eexists; split; [reflexivity|]; rewrite Hn; reflexivity);
    try (left; exact I); apply Hi;
    auto using emits_brk, emits_mmap, emits_munmap, emits_mprotect, emits_shmat, emits_mremap,
      emits_clone, emits_exec_inner.
Qed.

(** Running the handler with a policy: refused with only [rax] changed and
    nothing done, aborted on the one asserted case, or performed. *)
Lemma handler_cases cb `{!MonitorOk cb} tf s :
  (exists v, syscall_handler P D DUNE buf (Some cb) tf s = (Ret (set_rax v tf), s)
     /\ (closes_std tf \/ ~ Forall (uref_ok D DUNE (memory P s)) (declared (memory P s) tf)
         \/ ~ allows cb tf s))
  \/ (syscall_handler P D DUNE buf (Some cb) tf s = (Abort, s) /\ accept_null D DUNE tf)
  \/ (syscall_handler P D DUNE buf (Some cb) tf s = syscall_do P D DUNE buf tf s
      /\ Forall (uref_ok D DUNE (memory P s)) (declared (memory P s) tf) /\ allows cb tf s
      /\ ~ closes_std tf).
Proof.
  unfold syscall_handler. exec. unfold stop, mbind, M_bind. set (ld := memory P s).
  assert (Hdec : closes_std tf \/ accept_null D DUNE tf \/ ~ closes_std tf /\ ~ accept_null D DUNE tf).
  { destruct (decide (closes_std tf)), (decide (accept_null D DUNE tf)); tauto. }
  destruct Hdec as [Hc|[Ha|[Hc Ha]]].
  - left. exists 0. split; [|by left]. by rewrite check_closes_std.
  - right. left. split; [|done]. by rewrite check_accept_null.
  - destruct (check_params_decides D DUNE ld tf Ha Hc) as [[Hok Hf]|[Hok Hf]];
      unfold passes, faults in Hok; rewrite Hok; cbn.
    2:{ left. eexists. split; [reflexivity|]. auto. }
    destruct (monitor_decides (cb := cb) tf s) as [(v & Hv & Hnz)|Hv]; rewrite Hv; cbn.
    + destruct (Z.eqb_spec v 0); [done|]. right; right. split; [done|]. split; [done|].
      split; [by exists v|done].
    + left. eexists. split; [reflexivity|]. right; right. intros (v & Hv' & Hnz).
      rewrite Hv in Hv'. injection Hv' as <-. done.
Qed.

(** ** Properties *)

(** C2. Complete mediation: running the handler with a policy either leaves
    the machine exactly as it was, with at most [rax] of the frame changed or
    the process aborted, or the call is performed on the frame the
    application supplied, every reference the call declares was accepted, and
    the policy allowed it. *)
Theorem handler_mediates cb `{!MonitorOk cb} tf s o s' :
  syscall_handler P D DUNE buf (Some cb) tf s = (o, s') ->
  (s' = s /\ (o = Abort \/ exists v, o = Ret (set_rax v tf)))
  \/ (syscall_do P D DUNE buf tf s = (o, s') /\ allows cb tf s
      /\ Forall (uref_ok D DUNE (memory P s)) (declared (memory P s) tf)).
Proof.
  intros Hh. destruct (handler_cases cb tf s) as [(v & Hv & _)|[[Hv _]|(Hv & Hf & Ha & _)]];
    rewrite Hv in Hh.
  - injection Hh as <- <-. eauto.
  - injection Hh as <- <-. eauto.
  - auto.
Qed.

(** Without a registered policy no call has any effect: the handler makes
    no call to the platform at all, for every frame. *)
Theorem handler_default_deny tf s :
  (syscall_handler P D DUNE buf None tf s).2 = s.
Proof.
  unfold syscall_handler. exec. unfold stop, mbind, M_bind.
  destruct (syscall_check_params _ _ _ tf) as [[r tf1]| | | |]; cbn; try done.
  now destruct (r =? -1).
Qed.

(** A pass-through in the trace of the handler. *)
Lemma handler_passthrough cb `{!MonitorOk cb} tf s o s' t r :
  syscall_handler P D DUNE buf (Some cb) tf s = (o, s') -> (Passthrough t, r) ∈ trace s' ->
  (Passthrough t, r) ∈ trace s
  \/ (t = tf /\ intercepted (sysno_of (rax tf)) = false /\ allows cb tf s
      /\ Forall (uref_ok D DUNE (memory P s)) (declared (memory P s) tf)).
Proof.
  intros Hh Hin. destruct (handler_cases cb tf s) as [(v & Hv & _)|[[Hv _]|(Hv & Hf & Ha & _)]];
    rewrite Hv in Hh; [injection Hh as <- <-; auto..|].
  assert (Hem : emits (fun e => dispatch_event tf e \/ forall t, e.1 <> Passthrough t)
                  (syscall_do P D DUNE buf tf)).
  { unfold syscall_do. walk; try (right; done). eapply emits_mono; [|apply emits_dispatch]. auto. }
  destruct (emits_In _ _ s o s' _ Hem Hh Hin) as [?|[[Hi|(r' & He & Hn)]|Hne]]; [by left| | |].
  - destruct Hi.
  - right. injection He as -> _. auto.
  - by destruct (Hne t).
Qed.

(** C9. What reaches the kernel directly: a pass-through carries the frame
    the application supplied, its number is not one the sandbox implements
    itself (so no mmap, munmap, mprotect, mremap, brk, shmat, clone, execve
    or exit is ever passed through), its references were accepted and the
    policy allowed it. *)
Theorem passthrough_only_checked cb `{!MonitorOk cb} tf s o s' t r :
  syscall_handler P D DUNE buf (Some cb) tf s = (o, s') -> (Passthrough t, r) ∈ trace s' ->
  (Passthrough t, r) ∈ trace s
  \/ (t = tf /\ intercepted (sysno_of (rax tf)) = false /\ allows cb tf s
      /\ Forall (uref_ok D DUNE (memory P s)) (declared (memory P s) tf)).
Proof. apply handler_passthrough. done. Qed.

(** The switch of [syscall_do] by system-call number. *)
Lemma needs_lock_numbers tf : needs_lock tf = true <-> rax tf = 9 \/ rax tf = 10 \/ rax tf = 11.
Proof.
  unfold needs_lock, sysno_of. generalize (rax tf); intros n. cbn [sysno_table assoc]. split.
  - repeat match goal with
      |- context [if ?k =? n then _ else _] => destruct (Z.eqb_spec k n); [subst n; try done; auto|] end.
    done.
  - by intros [->|[->| ->]].
Qed.

(** C38. The memory lock: a call that returns and whose number is 9 (mmap), 10
    (mprotect) or 11 (munmap) ran between one lock and one unlock of the
    sandbox's mutex, both successful, with no other use of it in between; a
    call of any other number, 12 (brk), 25 (mremap) and 30 (shmat) included,
    ran without touching the lock. *)
Theorem memory_lock_discipline tf s tf' s' :
  syscall_do P D DUNE buf tf s = (Ret tf', s') ->
  (rax tf = 9 \/ rax tf = 10 \/ rax tf = 11 ->
     exists mid, Forall (dispatch_event tf) mid /\
     trace s' = trace s ++ (MutexLock SyscallMtx, 0) :: mid ++ [(MutexUnlock SyscallMtx, 0)])
  /\ (rax tf <> 9 -> rax tf <> 10 -> rax tf <> 11 ->
     exists l, Forall (dispatch_event tf) l /\ trace s' = trace s ++ l).
Proof.
  intros Hd. pose proof (needs_lock_numbers tf) as Hnum.
  split; [intros Hn; apply Hnum in Hn|intros H9 H10 H11; destruct (needs_lock tf) eqn:Hn; [tauto|]];
    unfold syscall_do in Hd; rewrite Hn in Hd; revert Hd; exec.
  - unfold truthy. destruct (Z.eqb_spec (reply P (MutexLock SyscallMtx) s) 0) as [Hl|]; [|done].
    cbn [negb]. destruct (emits_dispatch tf (after P (MutexLock SyscallMtx) s)) as (mid & Ht & Hf).
    unfold mbind at 1, M_bind at 1.
    destruct (syscall_do_foreal P D DUNE buf tf _) as [[tf1| | | |] s1]; try done. exec. cbn in Ht.
    destruct (Z.eqb_spec (reply P (MutexUnlock SyscallMtx) s1) 0) as [Hu|]; [|done].
    intros Hr. injection Hr as _ <-. exists mid. split; [done|]. cbn.
    rewrite Ht, Hl, Hu, <- !app_assoc. done.
  - cbn [truthy Z.eqb negb]. destruct (emits_dispatch tf s) as (l & Ht & Hf).
    unfold mbind at 1, M_bind at 1.
    destruct (syscall_do_foreal P D DUNE buf tf s) as [[tf1| | | |] s1]; try done.
    intros Hr. injection Hr as _ <-. exists l. auto.
Qed.
End handler.

(** ** Witnesses *)

Definition frame (n a0 a1 a2 : Z) : dune_tf := DuneTf n a0 a1 a2 0 0 0 0 0 0 0.
Definition start : sandbox (Z -> Z) := Sandbox 0 0 0 (fun _ => 0) [].

(** write(1, 0x10000, 64) *)
Definition write_frame : dune_tf := frame 1 1 0x10000 64.

Lemma accepted_ranges_confined_witness :
  syscall_check_params dune_x86 true (fun _ => 0) write_frame = Ret (0, write_frame)
  /\ in_app dune_x86 0x10000 64.
Proof.
  split; [reflexivity|].
  apply (accepted_ranges_confined dune_x86 true (fun _ => 0) write_frame write_frame);
    [reflexivity| |lia..|mlia|mlia|mlia].
  right. apply list_elem_of_here.
Defined.

Lemma handler_mediates_witness :
  let r := syscall_handler obliging dune_x86 true [] (Some null_monitor) write_frame start in
  (r.2 = start /\ (r.1 = Abort \/ exists v, r.1 = Ret (set_rax v write_frame)))
  \/ (syscall_do obliging dune_x86 true [] write_frame start = r /\ allows null_monitor write_frame start
      /\ Forall (uref_ok dune_x86 true (memory obliging start)) (declared (memory obliging start) write_frame)).
Proof.
  intros r. destruct r as [o s'] eqn:Hr.
  apply (handler_mediates obliging dune_x86 true [] null_monitor write_frame start o s').
  exact Hr.
Defined.

Lemma passthrough_only_checked_witness :
  let s' := (syscall_handler obliging dune_x86 true [] (Some null_monitor) write_frame start).2 in
  (Passthrough write_frame, 0) ∈ trace s' /\ intercepted (sysno_of (rax write_frame)) = false.
Proof.
  intros s'. assert (Hin : (Passthrough write_frame, 0) ∈ trace s') by (apply list_elem_of_here).
  split; [exact Hin|].
  destruct (passthrough_only_checked obliging dune_x86 true [] null_monitor write_frame start
              (syscall_handler obliging dune_x86 true [] (Some null_monitor) write_frame start).1
              s' write_frame 0) as [H|(_ & H & _)]; [|exact Hin| |exact H].
  - apply surjective_pairing.
  - inversion H.
Defined.

(** mmap(NULL, 4096, PROT_READ, MAP_ANONYMOUS|MAP_PRIVATE) under the lock. *)
Lemma memory_lock_discipline_witness :
  let tf := frame 9 0 4096 1 in
  let r := syscall_do obliging dune_x86 true [] tf start in
  exists mid, trace r.2 = (MutexLock SyscallMtx, 0) :: mid ++ [(MutexUnlock SyscallMtx, 0)].
Proof.
  intros tf r.
  destruct (memory_lock_discipline obliging dune_x86 true [] tf start
              (set_rax (wrap64 (-22)) tf) r.2) as [H _]; [reflexivity|].
  destruct (H (or_introl eq_refl)) as (mid & _ & Ht). exists mid. exact Ht.
Defined.

(** accept(0, NULL, p) with a readable length word. *)
Lemma check_params_exact_witness :
  syscall_check_params dune_x86 true (fun _ => 0) (frame 43 0 0 0x10000) = Abort.
Proof.
  destruct (check_params_exact dune_x86 true (fun _ => 0) (frame 43 0 0 0x10000)) as (_ & H & _).
  apply H. repeat split; done.
Defined.
