(* ===== verification/Handshake.v ===== *)
(** The two sides of the creation of a thread in the sandbox
    (sandbox/src/trap.c: dune_pthread_create and pthread_entry), interleaved.
    The parent waits on a condition variable of its stack frame until the
    child has stored its thread id; Trap.v has each side as a sequence of
    calls, here they are the actors of a machine.

    A mutex and a condition variable behave as POSIX describes them: a lock
    that is held blocks, a wait releases the mutex and takes it again, a signal
    wakes a waiting thread, and a wait may also return by itself ([Spurious]).
    Using an object that has been destroyed, or any field of the stack frame
    after its function has returned, is undefined: the machine then stops in a
    state marked [hs_fault], about which nothing more is claimed. *)

From stdpp Require Import base numbers list option.
From S2P Require Import Prelude Platform Machines AddrSpace Syscalls Trap.

Inductive side : Type := Parent | Child.

#[export] Instance side_eq_dec : EqDecision side.
Proof. solve_decision. Defined.

(** Where the parent is in dune_pthread_create, after pthread_create: about to
    lock, about to test [ta_tid], waiting, woken and taking the mutex again,
    about to unlock, to destroy the two objects, to return; returned. *)
Inductive parent_pc : Type :=
  | PLock | PTest | PWait | PRelock | PUnlock | PDestroyMtx | PDestroyCnd | PRet | PDone (v : Z).

#[export] Instance parent_pc_eq_dec : EqDecision parent_pc.
Proof. solve_decision. Defined.

(** Where the child is in pthread_entry: before the handshake, about to lock,
    to store, to unlock, to signal; in the application. *)
Inductive child_pc : Type := CStart | CLock | CStore | CUnlock | CSignal | CRun.

#[export] Instance child_pc_eq_dec : EqDecision child_pc.
Proof. solve_decision. Defined.

(** The [struct thread_arg] on the parent's stack: [alive] while the parent
    has not returned; the flags tell whether the objects are initialised. *)
Record thread_arg := ThreadArg {
  ta_tid : Z;
  ta_owner : option side;
  ta_mtx : bool;
  ta_cnd : bool;
  ta_alive : bool;
}.

#[export] Instance thread_arg_eq_dec : EqDecision thread_arg.
Proof. solve_decision. Defined.

Record handshake := Handshake { hs_parent : parent_pc; hs_child : child_pc; hs_arg : thread_arg; hs_fault : bool }.

#[export] Instance handshake_eq_dec : EqDecision handshake.
Proof. solve_decision. Defined.

Definition hs_init : handshake := Handshake PLock CStart (ThreadArg 0 None true true true) false.

Section handshake.
Context (tid : Z).

Definition set_owner (o : option side) (a : thread_arg) : thread_arg :=
  ThreadArg (ta_tid a) o (ta_mtx a) (ta_cnd a) (ta_alive a).

(** The parent's next step. *)
Definition parent_step (s : handshake) : handshake :=
  let a := hs_arg s in
  let goto pc a := Handshake pc (hs_child s) a (hs_fault s) in
  match hs_parent s with
  | PLock => match ta_owner a with None => goto PTest (set_owner (Some Parent) a) | Some _ => s end
  | PTest => if ta_tid a =? 0 then goto PWait (set_owner None a) else goto PUnlock a
  | PWait => s
  | PRelock => match ta_owner a with None => goto PUnlock (set_owner (Some Parent) a) | Some _ => s end
  | PUnlock => goto PDestroyMtx (set_owner None a)
  | PDestroyMtx => goto PDestroyCnd (ThreadArg (ta_tid a) (ta_owner a) false (ta_cnd a) (ta_alive a))
  | PDestroyCnd => goto PRet (ThreadArg (ta_tid a) (ta_owner a) (ta_mtx a) false (ta_alive a))
  | PRet => goto (PDone (ta_tid a)) (ThreadArg (ta_tid a) (ta_owner a) (ta_mtx a) (ta_cnd a) false)
  | PDone _ => s
  end.

(** The child's next step; [crash]: it uses an object that is no more. *)
Definition child_step (s : handshake) : handshake :=
  let a := hs_arg s in
  let goto pc a := Handshake (hs_parent s) pc a (hs_fault s) in
  let crash := Handshake (hs_parent s) (hs_child s) a true in
  match hs_child s with
  | CStart => goto CLock a
  | CLock =>
      if negb (ta_alive a && ta_mtx a) then crash else
      match ta_owner a with None => goto CStore (set_owner (Some Child) a) | Some _ => s end
  | CStore =>
      if negb (ta_alive a) then crash else
      goto CUnlock (ThreadArg tid (ta_owner a) (ta_mtx a) (ta_cnd a) (ta_alive a))
  | CUnlock => if negb (ta_alive a && ta_mtx a) then crash else goto CSignal (set_owner None a)
  | CSignal =>
      if negb (ta_alive a && ta_cnd a) then crash else
      Handshake (if decide (hs_parent s = PWait) then PRelock else hs_parent s) CRun a (hs_fault s)
  | CRun => s
  end.

Inductive actor : Type := Side (p : side) | Spurious.

#[export] Instance actor_eq_dec : EqDecision actor.
Proof. solve_decision. Defined.

Definition hs_act (x : actor) (s : handshake) : handshake :=
  if hs_fault s then s else
  match x with
  | Side Parent => parent_step s
  | Side Child => child_step s
  | Spurious =>
      if decide (hs_parent s = PWait)
      then Handshake PRelock (hs_child s) (hs_arg s) (hs_fault s) else s
  end.

(** ** Correctness without spurious wake-ups *)

Definition no_spurious (x : actor) : Prop := x <> Spurious.

(** The child has stored its id. *)
Definition stored (c : child_pc) : bool :=
  match c with CUnlock | CSignal | CRun => true | _ => false end.

Definition holds_child (c : child_pc) : bool := match c with CStore | CUnlock => true | _ => false end.
Definition holds_parent (p : parent_pc) : bool := match p with PTest | PUnlock => true | _ => false end.

Definition hs_owner (p : parent_pc) (c : child_pc) : option side :=
  if holds_parent p then Some Parent else if holds_child c then Some Child else None.

(** Past its test the parent knows that the id is there. *)
Definition sure (p : parent_pc) : bool :=
  match p with PLock | PTest | PWait => false | _ => true end.

(** The objects of the frame that the parent has not destroyed yet. *)
Definition mtx_live (p : parent_pc) : bool :=
  match p with PDestroyCnd | PRet | PDone _ => false | _ => true end.
Definition cnd_live (p : parent_pc) : bool := match p with PRet | PDone _ => false | _ => true end.
Definition frame_live (p : parent_pc) : bool := match p with PDone _ => false | _ => true end.

(** The only way to go wrong: the child is about to signal, and the parent has
    destroyed the condition variable already. *)
Definition late_signal (s : handshake) : Prop :=
  hs_child s = CSignal /\ (hs_parent s = PRet \/ hs_parent s = PDone tid).

(** The parent holds the mutex or has released it for good. *)
Definition has_locked (p : parent_pc) : bool :=
  match p with PLock | PWait | PRelock => false | _ => true end.

Record hs_inv (s : handshake) : Prop := HsInv {
  inv_flags : ta_mtx (hs_arg s) = mtx_live (hs_parent s) /\ ta_cnd (hs_arg s) = cnd_live (hs_parent s)
              /\ ta_alive (hs_arg s) = frame_live (hs_parent s);
  inv_fault : hs_fault s = true -> late_signal s;
  inv_owner : ta_owner (hs_arg s) = hs_owner (hs_parent s) (hs_child s);
  inv_excl : holds_parent (hs_parent s) && holds_child (hs_child s) = false;
  inv_tid : ta_tid (hs_arg s) = if stored (hs_child s) then tid else 0;
  inv_sure : sure (hs_parent s) = true -> stored (hs_child s) = true;
  inv_unlocked : has_locked (hs_parent s) = true -> holds_child (hs_child s) = false;
  inv_wait : hs_parent s = PWait -> hs_child s <> CRun;
  inv_ret v : hs_parent s = PDone v -> v = tid;
}.

Context (Htid : 0 < tid).

Lemma hs_inv_init : hs_inv hs_init.
Proof. by split. Qed.

Lemma hs_inv_step x s : no_spurious x -> hs_inv s -> hs_inv (hs_act x s).
Proof.
  intros Hx Hinv. unfold hs_act. destruct (hs_fault s) eqn:Hf; [done|].
  destruct Hinv as [(Hm & Hc & Ha) _ Ho He Ht Hs Hu Hw Hr].
  destruct s as [p c [t o mtx cnd al] f]. cbn in *. subst t o mtx cnd al f.
  destruct x as [[]|]; [| |done]; destruct p, c; cbn in *; try discriminate;
    try (specialize (Hs eq_refl); discriminate); try (by specialize (Hu eq_refl));
    try (by specialize (Hw eq_refl));
    try (destruct (Z.eqb_spec tid 0) as [|_]; [lia|]);
    split; cbn; try done; try (intros; congruence); try (intros w [= <-]; auto).
  all: intros _; split; cbn; auto. right. f_equal. by apply Hr.
Qed.

(** ** Termination *)

Definition parent_rank (p : parent_pc) : nat :=
  match p with
  | PLock => 8 | PTest => 7 | PWait => 6 | PRelock => 5 | PUnlock => 4
  | PDestroyMtx => 3 | PDestroyCnd => 2 | PRet => 1 | PDone _ => 0
  end.

Definition child_rank (c : child_pc) : nat :=
  match c with CStart => 5 | CLock => 4 | CStore => 3 | CUnlock => 2 | CSignal => 1 | CRun => 0 end.

Definition hs_rank (s : handshake) : nat :=
  if hs_fault s then O else parent_rank (hs_parent s) + child_rank (hs_child s).

Definition hs_final (s : handshake) : Prop :=
  hs_fault s = false /\ hs_parent s = PDone tid /\ hs_child s = CRun.

(** The handshake is over, or its behaviour is undefined. *)
Definition hs_stopped (s : handshake) : Prop := hs_final s \/ hs_fault s = true.

#[export] Instance hs_stopped_dec s : Decision (hs_stopped s).
Proof. unfold hs_stopped, hs_final. apply _. Defined.

Lemma hs_helpful s :
  hs_inv s -> ~ hs_stopped s ->
  exists x, x ∈ [Side Parent; Side Child] /\ (hs_rank (hs_act x s) < hs_rank s)%nat.
Proof.
  intros [(Hm & Hcd & Ha) _ Ho He Ht Hs Hu Hw Hr] Hn.
  destruct s as [p c [t o mtx cnd al] [|]]; [destruct Hn; by right|]. cbn in *. subst t o mtx cnd al.
  assert (HP : forall x, x = Side Parent \/ x = Side Child -> x ∈ [Side Parent; Side Child]).
  { intros x [->| ->]; [apply list_elem_of_here|apply list_elem_of_further, list_elem_of_here]. }
  destruct c;
    try (exists (Side Child); split; [apply HP; by right|]; unfold hs_rank; destruct p; cbn; try done; lia);
    destruct p; try (by specialize (Hw eq_refl)); try (by specialize (Hu eq_refl)); try discriminate;
    try (exists (Side Parent); split; [apply HP; by left|]; unfold hs_rank; cbn;
         try (destruct (Z.eqb_spec tid 0) as [|_]; [lia|]); cbn; lia);
    try (exists (Side Child); split; [apply HP; by right|]; unfold hs_rank; cbn; repeat case_decide; try congruence; cbn; lia).
  all: exfalso; apply Hn; left; split; [done|]; split; cbn; [f_equal; by apply Hr|done].
Qed.

#[export] Instance hs_progressing :
  progressing hs_act [Side Parent; Side Child] no_spurious hs_inv hs_stopped hs_rank.
Proof.
  split.
  - apply hs_inv_step.
  - intros x s Hx Hinv. destruct s as [p c [t o mtx cnd al] [|]]; [by left|].
    destruct x as [[]|]; [| |done]; unfold hs_rank; destruct p, c, o, mtx, cnd, al; cbn; repeat case_decide;
      try (by left); try (right; cbn; lia); destruct (t =? 0); cbn; right; lia.
  - apply hs_helpful.
  - intros x s Hx _ Hst. destruct s as [p c a f]. destruct Hst as [(Hf & Hp & Hc)|Hf]; cbn in Hf; subst f; [|by right].
    cbn in Hp, Hc. subst p c. left. by destruct x as [[]|]; [| |done].
Qed.

(** C12. The handshake of a new thread, under every interleaving of the two
    threads in which no wait returns by itself. Safety: a parent that has
    returned from dune_pthread_create has returned the id of the child.
    Freedom from faults up to the signal: behaviour becomes undefined in one
    way only, when the child signals after the parent has already destroyed
    the condition variable. Liveness: when both threads keep getting turns,
    after thirteen rounds at most either the parent has returned the id and
    the child is in the application, or the child has made that late signal;
    no wake-up is lost and the mutex cannot deadlock. *)
Theorem handshake_returns_tid :
  (forall sched, Forall no_spurious sched ->
     let s := run hs_act sched hs_init in
     (forall v, hs_parent s = PDone v -> v = tid) /\ (hs_fault s = true -> late_signal s))
  /\ (forall rounds, Forall (fun l => round [Side Parent; Side Child] l /\ Forall no_spurious l) rounds ->
        (13 <= length rounds)%nat ->
        let s := run hs_act (concat rounds) hs_init in hs_final s \/ hs_fault s = true /\ late_signal s).
Proof.
  assert (Hall : forall sched, Forall no_spurious sched -> hs_inv (run hs_act sched hs_init)).
  { intros sched Hok. exact (run_stable_for hs_act no_spurious hs_inv sched hs_init hs_inv_step Hok hs_inv_init). }
  split.
  - intros sched Hok. destruct (Hall sched Hok). split; [done|by apply inv_fault0].
  - intros rounds Hr Hlen.
    assert (Hst : hs_stopped (run hs_act (concat rounds) hs_init)).
    { apply (fair_terminates hs_act [Side Parent; Side Child] no_spurious hs_inv hs_stopped hs_rank);
        [apply _|done|apply hs_inv_init|done]. }
    destruct Hst as [Hf|Hf]; [by left|right]. split; [done|]. apply Hall; [|done].
    apply Forall_concat. eapply List.Forall_impl; [|exact Hr]. by intros l [_ ?].
Qed.
End handshake.

(** ** The machine and the sequences of Trap.v *)

(** The call a step of the machine stands for; a wait is one call. *)
Definition parent_label (p : parent_pc) : list oscall :=
  match p with
  | PLock => [MutexLock ArgMtx]
  | PTest | PRet => [GetTaTid]
  | PWait => [CondWait]
  | PUnlock => [MutexUnlock ArgMtx]
  | PDestroyMtx => [MutexDestroy ArgMtx]
  | PDestroyCnd => [CondDestroy]
  | PRelock | PDone _ => []
  end.

(** The places the parent passes, for the id its test finds. *)
Definition parent_path (t : Z) : list parent_pc :=
  [PLock; PTest] ++ (if t =? 0 then [PWait; PRelock] else []) ++ [PUnlock; PDestroyMtx; PDestroyCnd; PRet].

(** The calls of the parent's code, once the thread is created, are those of
    the machine. *)
Lemma parent_follows_machine {W} (P : platform W) tf s :
  reply P CondInit (after P (SetTaTid 0) s) = 0 ->
  reply P (MutexInit ArgMtx) (after P CondInit (after P (SetTaTid 0) s)) = 0 ->
  let s3 := after P (MutexInit ArgMtx) (after P CondInit (after P (SetTaTid 0) s)) in
  reply P (PthreadCreate tf) s3 = 0 ->
  let s4 := after P (PthreadCreate tf) s3 in
  exists l, trace (dune_pthread_create P tf s).2 = trace s4 ++ l
    /\ map fst l = concat (map parent_label (parent_path (reply P GetTaTid (after P (MutexLock ArgMtx) s4)))).
Proof.
  intros H1 H2 s3 H3 s4. unfold dune_pthread_create. exec. rewrite H1. cbn [truthy Z.eqb negb]. exec.
  rewrite H2. cbn [truthy Z.eqb negb]. exec. fold s3. rewrite H3. cbn [truthy Z.eqb negb]. exec. fold s4.
  unfold parent_path. destruct (_ =? 0); exec; rewrite ext_eq; cbn [snd after trace];
    rewrite <- !app_assoc; eexists; (split; [reflexivity|reflexivity]).
Qed.

(** What the handshake leaves open. A single spurious wake-up makes the
    parent return 0 in place of the id, since the wait is not in a loop; and
    without one there is an interleaving in which the parent returns before
    the child signals, so that the child uses a condition variable that has
    been destroyed, in a stack frame that is gone. *)
Theorem handshake_hazards tid :
  0 < tid ->
  (exists sched, List.count_occ actor_eq_dec sched Spurious = 1%nat
     /\ hs_parent (run (hs_act tid) sched hs_init) = PDone 0)
  /\ (exists sched, Forall no_spurious sched
        /\ hs_parent (run (hs_act tid) sched hs_init) = PDone tid
        /\ hs_fault (run (hs_act tid) sched hs_init) = true).
Proof.
  intros Htid. split.
  - exists ([Side Parent; Side Parent; Spurious] ++ replicate 5 (Side Parent)). split; reflexivity.
  - exists (replicate 4 (Side Child) ++ replicate 6 (Side Parent) ++ [Side Child]). split.
    + repeat (constructor; [discriminate|]). constructor.
    + cbn. destruct (Z.eqb_spec tid 0); [lia|]. cbn. split; reflexivity.
Qed.

Lemma handshake_returns_tid_witness :
  hs_final 1234 (run (hs_act 1234) (concat (replicate 13 [Side Child; Side Parent])) hs_init).
Proof.
  destruct (handshake_returns_tid 1234 ltac:(lia)) as [_ H].
  destruct (H (replicate 13 [Side Child; Side Parent])) as [Hf|[Hf _]]; [|cbn; lia|exact Hf|].
  - apply Forall_replicate. split.
    + intros x Hx. apply elem_of_cons in Hx as [->|Hx]; [apply list_elem_of_further, list_elem_of_here|].
      apply elem_of_cons in Hx as [->|Hx]; [apply list_elem_of_here|by apply elem_of_nil in Hx].
    + repeat (constructor; [discriminate|]). constructor.
  - vm_compute in Hf. discriminate Hf.
Defined.

Lemma handshake_hazards_witness :
  exists sched, Forall no_spurious sched /\ hs_fault (run (hs_act 7) sched hs_init) = true.
Proof.
  destruct (handshake_hazards 7 ltac:(lia)) as [_ (sched & H1 & _ & H2)]. exists sched. split; [exact H1|exact H2].
Defined.
