(* ===== verification/Loader.v ===== *)
(** The loader of the sandbox (sandbox/src/main.c): loading the segments of an
    ELF file into the application's window, building the initial stack of the
    application, and [boxer_main].

    Libdune's ELF reader is a parameter: the header [dune_elf_open] reads and
    the iteration [dune_elf_iter_ph] over the program headers. *)

From stdpp Require Import base numbers list option.
From S2P Require Import Prelude Platform AddrSpace Umm Trap.

Definition NUM_AUX : Z := 13.
Definition PT_LOAD : Z := 1.
Definition PT_INTERP : Z := 3.
Definition PF_X : Z := 1.
Definition PF_W : Z := 2.
Definition PF_R : Z := 4.
Definition ET_EXEC : Z := 2.
Definition ET_DYN : Z := 3.
Definition sizeof_auxv : Z := 16.

Definition AT_PHDR : Z := 3.
Definition AT_PHNUM : Z := 5.
Definition AT_PAGESZ : Z := 6.
Definition AT_FLAGS : Z := 8.
Definition AT_ENTRY : Z := 9.
Definition AT_UID : Z := 11.
Definition AT_EUID : Z := 12.
Definition AT_GID : Z := 13.
Definition AT_EGID : Z := 14.
Definition AT_HWCAP : Z := 16.
Definition AT_CLKTCK : Z := 17.
Definition AT_SECURE : Z := 23.
Definition AT_RANDOM : Z := 25.

(** [struct elf_data] *)
Record elf_data := ElfData { d_entry : Z; d_phdr : Z; d_phnum : Z }.

(** The fields of [Elf64_Ehdr] the loader reads. *)
Record elf_hdr := ElfHdr { e_type : Z; e_entry : Z; e_phoff : Z; e_phnum : Z }.

(** Libdune's ELF reader. *)
Record elf_lib (W : Type) := ElfLib {
  el_hdr : Z -> sandbox W -> elf_hdr;
  el_iter_ph : Z -> (elf_phdr -> M (sandbox W) Z) -> M (sandbox W) Z;
}.
Global Arguments el_hdr {W} _ _ _.
Global Arguments el_iter_ph {W} _ _ _.

(** Calling [f] on each header, up to the first nonzero result. *)
Fixpoint iter_phdrs {W} (f : elf_phdr -> M (sandbox W) Z) (phs : list elf_phdr) : M (sandbox W) Z :=
  match phs with
  | [] => mret 0
  | ph :: phs => r ← f ph; if truthy r then mret r else iter_phdrs f phs
  end.

(** What the loader relies on: [dune_elf_iter_ph] is that iteration over the
    program headers [phs path] of the file. *)
Class elf_lib_ok {W} (E : elf_lib W) (phs : Z -> list elf_phdr) : Prop := {
  iter_ph_spec path f : el_iter_ph E path f = iter_phdrs f (phs path);
}.

Section loader.
Context {W : Type} (P : platform W) (D : dune_abi) (DUNE : bool) (E : elf_lib W).
Abbreviation C := (M (sandbox W)).

Definition load_offset (h : elf_hdr) : Z := if e_type h =? ET_DYN then LOADER_VADDR_OFF else 0.

(** The permissions of a segment from its flags. *)
Definition ph_perm (ph : elf_phdr) : Z :=
  let perm := PERM_U D in
  let perm := if has_bits (p_flags ph) PF_X then Z.lor perm (PERM_X D) else perm in
  let perm := if has_bits (p_flags ph) PF_R then Z.lor perm (PERM_R D) else perm in
  if has_bits (p_flags ph) PF_W then Z.lor perm (PERM_W D) else perm.

Definition process_elf_ph (h : elf_hdr) (ph : elf_phdr) : C Z :=
  if p_type ph =? PT_INTERP then mret (- EINVAL)
  else if negb (p_type ph =? PT_LOAD) then mret 0
  else
    let off := load_offset h in
    if (APP_MAX_ELF_VADDR <? wrap64 (p_vaddr ph + off + p_memsz ph))
       || (APP_MAX_ELF_VADDR <? p_memsz ph) || (p_memsz ph <? p_filesz ph)
    then mret (- EINVAL)
    else
      let va := wrap64 (p_vaddr ph + off) in
      ret ← ext P (VmMapPhys va (p_memsz ph) va (Z.lor (PERM_R D) (PERM_W D)));
      if truthy ret then mret ret else
      ret ← ext P (ElfLoadPh ph off);
      if truthy ret then mret ret else
      ret ← ext P (VmMprotect va (p_memsz ph) (ph_perm ph));
      if truthy ret then mret ret else
      mret 0.

(** load_elf: the return value, and [*data] when it was filled in. *)
Definition load_elf (path : Z) : C (Z * option elf_data) :=
  ret ← ext P (ElfOpen path);
  if truthy ret then mret (ret, None) else
  h ← gets (el_hdr E path);
  r ← (if negb (e_type h =? ET_EXEC) && negb (e_type h =? ET_DYN) then mret (- EINVAL, None)
       else
         ret ← el_iter_ph E path (process_elf_ph h);
         if truthy ret then mret (ret, None)
         else if e_type h =? ET_DYN then
           mret (ret, Some (ElfData (wrap64 (e_entry h + LOADER_VADDR_OFF))
                                    (wrap64 (e_phoff h + LOADER_VADDR_OFF)) (e_phnum h)))
         else mret (ret, Some (ElfData (e_entry h) (wrap64 (e_phoff h + 0x400000)) (e_phnum h))));
  _ ← ext P ElfClose;
  mret r.

(** ** The initial stack *)

(** The value of a search that must succeed: without it the C code runs off
    the end of memory. *)
Definition found {A} (o : option A) : C A := match o with Some a => mret a | None => stop UB end.

(** rawmemchr(p, 0) *)
Definition rawmemchr (ld : Z -> Z) (p : Z) : option Z := memchr ld p 0 (2 ^ 64).

Definition word_at (ld : Z -> Z) (a : Z) : Z := load_word ld 8 a.

(** The number of entries of a NULL-terminated vector; the counter is an [int]. *)
Definition vec_len (ld : Z -> Z) (argv : Z) : option Z :=
  match iterZ (fun i => if word_at ld (wrap64 (argv + 8 * i)) =? 0 then inr i else inl (i + 1)) (2 ^ 31) 0 with
  | inr i => Some i
  | inl _ => None
  end.

(** count_args: [*argc] and [*arglen]. *)
Definition count_args (argv : Z) : C (Z * Z) :=
  ld ← gets (memory P);
  i ← found (vec_len ld argv);
  if i =? 0 then mret (0, 0) else
  e ← found (rawmemchr ld (word_at ld (wrap64 (argv + 8 * (i - 1)))));
  mret (i, wrap64 (e - word_at ld argv + 1)).

(** find_aux_entry: the address of the entry, [None] for NULL. *)
Definition find_aux_entry (ld : Z -> Z) (aux type : Z) : option (option Z) :=
  match iterZ (fun aux =>
      if word_at ld aux =? 0 then inr None
      else if word_at ld aux =? type then inr (Some aux) else inl (wrap64 (aux + sizeof_auxv)))
      (2 ^ 60) aux with
  | inr r => Some r
  | inl _ => None
  end.

Definition set_aux (cur type val : Z) : C unit :=
  _ ← store_word P 8 cur type;
  store_word P 8 (wrap64 (cur + 8)) val.

Definition copy_aux (ref cur type : Z) : C unit :=
  _ ← store_word P 8 cur type;
  ld ← gets (memory P);
  f ← found (find_aux_entry ld ref type);
  match f with
  | None => stop Abort
  | Some f =>
      ld ← gets (memory P);
      store_word P 8 (wrap64 (cur + 8)) (word_at ld (wrap64 (f + 8)))
  end.

(** The entries [setup_aux] writes, in its order: copied from the vector of
    the sandbox, or set to a value. *)
Inductive aux_op : Type := ACopy (type : Z) | ASet (type val : Z).

Definition aux_ops (data : elf_data) : list aux_op :=
  [ACopy AT_HWCAP; ACopy AT_PAGESZ; ACopy AT_CLKTCK;
   ASet AT_PHDR (d_phdr data); ASet AT_PHNUM (d_phnum data);
   ACopy AT_FLAGS; ASet AT_ENTRY (d_entry data);
   ACopy AT_UID; ACopy AT_EUID; ACopy AT_GID; ACopy AT_EGID;
   ASet AT_SECURE 0; ASet AT_RANDOM (d_phdr data)].

(** Each entry in turn, followed by [cur++]. *)
Fixpoint write_aux (ref cur : Z) (ops : list aux_op) : C Z :=
  match ops with
  | [] => mret cur
  | op :: ops =>
      _ ← match op with
          | ACopy t => copy_aux ref cur t
          | ASet t v => set_aux cur t v
          end;
      write_aux ref (wrap64 (cur + sizeof_auxv)) ops
  end.

(** setup_aux; the terminator is one word. *)
Definition setup_aux (ref cur : Z) (data : elf_data) : C unit :=
  cur ← write_aux ref cur (aux_ops data);
  store_word P 8 cur 0.

(** The bytes of a memory range. *)
Definition read_bytes (ld : Z -> Z) (p n : Z) : list Z := (fun i => ld (wrap64 (p + i))) <$> seqZ 0 n.

Fixpoint store_list (a : Z) (l : list Z) : C unit :=
  match l with
  | [] => mret tt
  | v :: l => _ ← store P a v; store_list (wrap64 (a + 1)) l
  end.

(** stpcpy(dst, src): the address of the NUL it wrote. *)
Definition stpcpy (dst src : Z) : C Z :=
  ld ← gets (memory P);
  e ← found (rawmemchr ld src);
  let n := wrap64 (e - src) in
  _ ← store_list dst (read_bytes ld src n ++ [0]);
  mret (wrap64 (dst + n)).

(** The loop over a vector: a pointer into the string area and a copy of the
    string, [n] times; the two pointers afterwards. *)
Fixpoint push_strings (n : nat) (vec arg_ptr data_ptr : Z) : C (Z * Z) :=
  match n with
  | O => mret (arg_ptr, data_ptr)
  | S n =>
      _ ← store_word P 8 arg_ptr data_ptr;
      ld ← gets (memory P);
      e ← stpcpy data_ptr (word_at ld vec);
      push_strings n (wrap64 (vec + 8)) (wrap64 (arg_ptr + 8)) (wrap64 (e + 1))
  end.

Definition setup_arguments (sp path argv envv : Z) (data : elf_data) : C Z :=
  a ← count_args argv;
  e ← count_args envv;
  let '(argc, alen) := a in
  let '(envc, elen) := e in
  ld ← gets (memory P);
  z ← found (rawmemchr ld path);
  let len := wrap64 (alen + elen + (wrap64 (z - path) + 1)) in
  let data_ptr := wrap64 (sp - len) in
  let aux_ptr := wrap64 (envv + 8 * (envc + 1)) in
  let len := wrap64 (len + sizeof_auxv * NUM_AUX) in
  let len := wrap64 (len + (argc + envc + 4) * 8) in
  let len := Z.land (wrap64 (len + 0x1f)) (2 ^ 64 - 0x20) in
  let arg_ptr := wrap64 (sp - len) in
  _ ← store_word P 8 arg_ptr (argc + 1);
  let arg_ptr := wrap64 (arg_ptr + 8) in
  _ ← store_word P 8 arg_ptr data_ptr;
  let arg_ptr := wrap64 (arg_ptr + 8) in
  n ← stpcpy data_ptr path;
  let data_ptr := wrap64 (n + 1) in
  r ← push_strings (Z.to_nat argc) argv arg_ptr data_ptr;
  let '(arg_ptr, data_ptr) := r in
  _ ← store_word P 8 arg_ptr 0;
  let arg_ptr := wrap64 (arg_ptr + 8) in
  r ← push_strings (Z.to_nat envc) envv arg_ptr data_ptr;
  let '(arg_ptr, data_ptr) := r in
  _ ← store_word P 8 arg_ptr 0;
  let arg_ptr := wrap64 (arg_ptr + 8) in
  _ ← setup_aux aux_ptr arg_ptr data;
  mret (wrap64 (sp - len)).

(** ** Start *)

Definition run_app (sp e_entry : Z) : C Z :=
  ext P (JumpToUser (DuneTf 0 0 0 0 0 0 0 e_entry sp 0 0)).

(** boxer_main, on the argument vector at [argv] and the environment at
    [environ]. *)
Definition boxer_main (argc argv environ : Z) : C Z :=
  if argc <? 2 then mret (- EINVAL) else
  ret ← ext P DuneInit;
  if truthy ret then mret ret else
  ret ← ext P DuneEnter;
  if truthy ret then mret ret else
  ld ← gets (memory P);
  let path := word_at ld (wrap64 (argv + 8)) in
  r ← load_elf path;
  match r with
  | (_, None) => mret r.1
  | (_, Some data) =>
      _ ← ext P (SetUserFs 0);
      ret ← trap_init P;
      if truthy ret then mret ret else
      st ← umm_alloc_stack P D;
      if truthy st.1 then mret st.1 else
      ld ← gets (memory P);
      sp ← setup_arguments st.2 (word_at ld (wrap64 (argv + 8))) (wrap64 (argv + 16)) environ data;
      if sp =? 0 then mret (- EINVAL) else
      run_app sp (d_entry data)
  end.
End loader.
