(* ===== verification/Stack.v ===== *)
(** Memory images: bytes, words, strings and vectors in memory, and what the
    primitives of the loader that write to the stack leave there. *)

From stdpp Require Import base numbers list option.
From S2P Require Import Prelude Platform AddrSpace Umm Trap Loader.

(** ** Memories as functions *)

(** The memory [m] with the bytes [l] written at [a]. *)
Definition upd (m : Z -> Z) (a : Z) (l : list Z) (b : Z) : Z :=
  if (a <=? b) && (b <? a + Z.of_nat (length l)) then nth (Z.to_nat (b - a)) l 0 else m b.

(** The bytes [l] lie in [m] at [a]. *)
Definition holds (m : Z -> Z) (a : Z) (l : list Z) : Prop :=
  forall i v, l !! i = Some v -> m (a + Z.of_nat i) = v.

(** The range [a, a+n) lies outside [lo, hi). *)
Definition outside (lo hi a n : Z) : Prop := a + n <= lo \/ hi <= a.

Lemma upd_out m a l b : outside a (a + Z.of_nat (length l)) b 1 -> upd m a l b = m b.
Proof.
  unfold upd, outside. intros.
  destruct (Z.leb_spec a b), (Z.ltb_spec b (a + Z.of_nat (length l))); cbn; lia.
Qed.

Lemma upd_in m a l i v : l !! i = Some v -> upd m a l (a + Z.of_nat i) = v.
Proof.
  intros Hi. pose proof (lookup_lt_Some _ _ _ Hi). unfold upd.
  destruct (Z.leb_spec a (a + Z.of_nat i)), (Z.ltb_spec (a + Z.of_nat i) (a + Z.of_nat (length l)));
    cbn; try lia.
  replace (Z.to_nat (a + Z.of_nat i - a)) with i by lia. by apply nth_lookup_Some.
Qed.

Lemma holds_upd m a l : holds (upd m a l) a l.
Proof. intros i v Hi. by apply upd_in. Qed.

Lemma holds_upd_other m a l a' l' :
  outside a' (a' + Z.of_nat (length l')) a (Z.of_nat (length l)) -> holds m a l -> holds (upd m a' l') a l.
Proof.
  intros Ho Hh i v Hi. pose proof (lookup_lt_Some _ _ _ Hi). rewrite upd_out; [by apply Hh|].
  unfold outside in *. lia.
Qed.

Lemma holds_app m a l l' : holds m a (l ++ l') <-> holds m a l /\ holds m (a + Z.of_nat (length l)) l'.
Proof.
  split.
  - intros H. split; intros i v Hi.
    + apply H. by apply lookup_app_l_Some.
    + rewrite <- Z.add_assoc, <- Nat2Z.inj_add. apply H.
      rewrite lookup_app_r by lia. by replace (length l + i - length l)%nat with i by lia.
  - intros [H H'] i v Hi. destruct (decide (i < length l)%nat).
    + apply H. by rewrite lookup_app_l in Hi.
    + rewrite lookup_app_r in Hi by lia. apply H' in Hi. rewrite <- Hi. f_equal. lia.
Qed.

Lemma holds_ext m m' a l :
  (forall b, a <= b < a + Z.of_nat (length l) -> m' b = m b) -> holds m a l -> holds m' a l.
Proof.
  intros He Hh i v Hi. pose proof (lookup_lt_Some _ _ _ Hi). rewrite He by lia. by apply Hh.
Qed.

(** ** Words *)

Fixpoint le_bytes (n : nat) (v : Z) : list Z :=
  match n with O => [] | S n => v mod 256 :: le_bytes n (v / 256) end.

Definition byte (v : Z) : Prop := 0 <= v < 256.

Lemma le_bytes_length n v : length (le_bytes n v) = n.
Proof. revert v; induction n; intros; cbn; auto. Qed.

Lemma le_bytes_byte n v : Forall byte (le_bytes n v).
Proof.
  revert v; induction n as [|n IH]; intros v; cbn; constructor; [|apply IH].
  apply Z.mod_pos_bound. lia.
Qed.

Lemma load_word_ext ld ld' n a :
  (forall b, a <= b < a + Z.of_nat n -> ld' b = ld b) -> 0 <= a -> a + Z.of_nat n < 2 ^ 64 ->
  load_word ld' n a = load_word ld n a.
Proof.
  revert a; induction n as [|n IH]; intros a He Ha Hn; cbn [load_word]; [done|].
  rewrite He by lia. f_equal. f_equal. rewrite wrap64_small by mlia. apply IH; [|lia..].
  intros b Hb. apply He. lia.
Qed.

Lemma load_word_le n v ld a :
  0 <= a -> a + Z.of_nat n < 2 ^ 64 -> holds ld a (le_bytes n v) -> load_word ld n a = v mod 256 ^ Z.of_nat n.
Proof.
  revert v a; induction n as [|n IH]; intros v a Ha Hn Hh; cbn [load_word].
  { rewrite Z.pow_0_r, Z.mod_1_r. done. }
  change (le_bytes (S n) v) with ([v mod 256] ++ le_bytes n (v / 256)) in Hh.
  apply holds_app in Hh as [H0 Hr]. cbn [length] in Hr.
  rewrite wrap64_small by mlia. rewrite (IH (v / 256)) by (done || lia).
  specialize (H0 0%nat _ eq_refl). rewrite Z.add_0_r in H0. rewrite H0.
  rewrite Nat2Z.inj_succ, Z.pow_succ_r, Z.rem_mul_r by lia. lia.
Qed.

Lemma word_at_le m a v : 0 <= a -> a + 8 < 2 ^ 64 -> u64 v -> holds m a (le_bytes 8 v) -> word_at m a = v.
Proof.
  intros Ha Hs Hv Hh. unfold word_at. rewrite (load_word_le 8 v) by (done || lia).
  apply Z.mod_small. mlia.
Qed.

Lemma word_at_ext m m' a :
  (forall b, a <= b < a + 8 -> m' b = m b) -> 0 <= a -> a + 8 < 2 ^ 64 -> word_at m' a = word_at m a.
Proof. intros. unfold word_at. apply load_word_ext; auto. Qed.

(** ** Strings and vectors *)

Definition string_bytes (str : list Z) : Prop := Forall (fun v => 0 < v < 256) str.

(** NUL-terminated strings one after the other, and where each begins. *)
Definition flat (strs : list (list Z)) : list Z := mjoin ((fun s => s ++ [0]) <$> strs).

Fixpoint starts (p : Z) (strs : list (list Z)) : list Z :=
  match strs with
  | [] => []
  | s :: strs => p :: starts (p + Z.of_nat (length s) + 1) strs
  end.

Lemma flat_cons s strs : flat (s :: strs) = (s ++ [0]) ++ flat strs.
Proof. reflexivity. Qed.

Lemma flat_app l l' : flat (l ++ l') = flat l ++ flat l'.
Proof. unfold flat. by rewrite fmap_app, join_app. Qed.

Lemma starts_length p strs : length (starts p strs) = length strs.
Proof. revert p; induction strs; intros; cbn; auto. Qed.

(** A NULL-terminated vector of pointers. *)
Definition vec_at (m : Z -> Z) (vec : Z) (ptrs : list Z) : Prop :=
  (forall i p, ptrs !! i = Some p -> word_at m (vec + 8 * Z.of_nat i) = p /\ p <> 0)
  /\ word_at m (vec + 8 * Z.of_nat (length ptrs)) = 0.

Lemma vec_at_cons m vec p ptrs :
  vec_at m vec (p :: ptrs) -> word_at m vec = p /\ p <> 0 /\ vec_at m (vec + 8) ptrs.
Proof.
  intros [Hi Hn]. destruct (Hi 0%nat p eq_refl) as [H0 Hp]. rewrite Z.add_0_r in H0.
  do 2 (split; [done|]). split.
  - intros i q Hq. destruct (Hi (S i) q Hq) as [Hw ?]. split; [|done]. rewrite <- Hw. f_equal. lia.
  - rewrite <- Hn. f_equal. cbn [length]. lia.
Qed.

Lemma vec_len_spec m vec ptrs :
  vec_at m vec ptrs -> 0 <= vec -> vec + 8 * (Z.of_nat (length ptrs) + 1) < 2 ^ 64 ->
  Z.of_nat (length ptrs) < 2 ^ 31 -> vec_len m vec = Some (Z.of_nat (length ptrs)).
Proof.
  intros [Hi Hn] H0 Hr Hc. unfold vec_len.
  rewrite (iterZ_first (fun i => word_at m (wrap64 (vec + 8 * i)) =? 0) _ (Z.of_nat (length ptrs)));
    [done|lia| |].
  - rewrite wrap64_small by mlia. by apply Z.eqb_eq.
  - intros j Hj. destruct (lookup_lt_is_Some_2 ptrs (Z.to_nat j)) as [p Hp]; [lia|].
    destruct (Hi _ _ Hp) as [Hw Hnz]. rewrite Z2Nat.id in Hw by lia.
    rewrite wrap64_small by mlia. apply Z.eqb_neq. congruence.
Qed.

Lemma memchr_string m p str :
  holds m p (str ++ [0]) -> string_bytes str -> 0 <= p -> p + Z.of_nat (length str) < 2 ^ 64 ->
  memchr m p 0 (2 ^ 64) = Some (p + Z.of_nat (length str)).
Proof.
  intros Hh Hs H0 Hr. apply holds_app in Hh as [Hstr Hz].
  specialize (Hz 0%nat 0 eq_refl). rewrite Z.add_0_r in Hz.
  assert (Hnz : forall j, 0 <= j < Z.of_nat (length str) -> m (wrap64 (p + j)) <> 0).
  { intros j Hj. destruct (lookup_lt_is_Some_2 str (Z.to_nat j)) as [v Hv]; [lia|].
    pose proof (Forall_lookup_1 _ _ _ _ Hs Hv). apply Hstr in Hv. rewrite Z2Nat.id in Hv by lia.
    rewrite wrap64_small by mlia. cbn in *. lia. }
  pose proof (memchr_spec m p 0 (2 ^ 64)) as Hm.
  destruct (memchr m p 0 (2 ^ 64)) as [q|].
  - destruct Hm as (j & Hj & -> & Hq & Hb). f_equal.
    destruct (Z.lt_trichotomy j (Z.of_nat (length str))) as [Hlt|[->|Hgt]].
    + by destruct (Hnz j ltac:(lia)).
    + apply wrap64_small. mlia.
    + destruct (Hb (Z.of_nat (length str)) ltac:(lia)). rewrite wrap64_small by mlia. done.
  - destruct (Hm (Z.of_nat (length str)) ltac:(lia)). rewrite wrap64_small by mlia. done.
Qed.

Lemma rawmemchr_spec m p str :
  holds m p (str ++ [0]) -> string_bytes str -> 0 <= p -> p + Z.of_nat (length str) < 2 ^ 64 ->
  rawmemchr m p = Some (p + Z.of_nat (length str)).
Proof. unfold rawmemchr. apply memchr_string. Qed.

Lemma read_bytes_spec m p str :
  holds m p str -> 0 <= p -> p + Z.of_nat (length str) < 2 ^ 64 ->
  read_bytes m p (Z.of_nat (length str)) = str.
Proof.
  intros Hh H0 Hr. unfold read_bytes. apply list_eq. intros i. rewrite list_lookup_fmap.
  destruct (str !! i) as [v|] eqn:Hi.
  - pose proof (lookup_lt_Some _ _ _ Hi). rewrite lookup_seqZ_lt by lia. cbn.
    rewrite wrap64_small by mlia. f_equal. rewrite Z.add_0_l. by apply Hh.
  - apply lookup_ge_None in Hi. rewrite lookup_seqZ_ge by lia. done.
Qed.

(** ** The image under construction

    Words are pushed upwards from [A], strings upwards from [B]; everything
    outside [A, top) is the memory [m0] from before. *)

Section image.
Context {W : Type} (P : platform W) `{!platform_ok P} `{!memory_ok P}.
Context (m0 : Z -> Z) (A B top : Z).
Context (HA : 0 <= A) (HAB : A <= B) (HB : B <= top) (Htop : top < 2 ^ 64).

Record image (m : Z -> Z) (ws bs : list Z) : Prop := Image {
  img_out b : b < A \/ top <= b -> m b = m0 b;
  img_words i w : ws !! i = Some w -> word_at m (A + 8 * Z.of_nat i) = w;
  img_bytes : holds m B bs;
  img_fit : A + 8 * Z.of_nat (length ws) <= B /\ B + Z.of_nat (length bs) <= top;
}.

Lemma store_list_spec a l s :
  Forall byte l -> 0 <= a -> a + Z.of_nat (length l) < 2 ^ 64 ->
  exists w, store_list P a l s = (Ret tt, set_world w s)
            /\ forall b, p_load P w b = upd (p_load P (world s)) a l b.
Proof.
  intros Hl. revert a s; induction Hl as [|v l Hv Hl IH]; intros a s Ha Hr; cbn [store_list].
  { exists (world s). split; [by destruct s|]. intros b. rewrite upd_out; [done|].
    unfold outside. cbn [length]. lia. }
  cbn [length] in Hr. unfold store. exec. rewrite wrap64_small by mlia.
  destruct (IH (a + 1) (set_world (p_store P (world s) a v) s)) as (w & Hw & Hb); [lia|lia|].
  exists w. rewrite Hw. split; [done|]. intros b. rewrite Hb. unfold upd. cbn [world set_world length].
  rewrite pf_store by done.
  destruct (Z.leb_spec (a + 1) b), (Z.ltb_spec b (a + 1 + Z.of_nat (length l))), (Z.leb_spec a b),
    (Z.ltb_spec b (a + Z.of_nat (S (length l)))), (Z.eqb_spec b a); cbn [andb]; try lia; try done.
  - replace (Z.to_nat (b - a)) with (S (Z.to_nat (b - (a + 1)))) by lia. done.
  - subst. by replace (Z.to_nat (a - a)) with 0%nat by lia.
Qed.

Lemma store_word_list n a v s : store_word P n a v s = store_list P a (le_bytes n v) s.
Proof.
  revert a v s; induction n as [|n IH]; intros; cbn [store_word store_list le_bytes]; [done|].
  unfold store. exec. apply IH.
Qed.

(** Writing the next word. *)
Lemma push_word s ws bs v :
  image (memory P s) ws bs -> u64 v -> A + 8 * Z.of_nat (length ws) + 8 <= B ->
  exists w, store_word P 8 (A + 8 * Z.of_nat (length ws)) v s = (Ret tt, set_world w s)
            /\ image (p_load P w) (ws ++ [v]) bs.
Proof.
  intros [Ho Hw Hb [Hf1 Hf2]] Hv Hr. rewrite store_word_list.
  destruct (store_list_spec (A + 8 * Z.of_nat (length ws)) (le_bytes 8 v) s) as (w & He & Hu);
    [apply le_bytes_byte|lia|rewrite le_bytes_length; lia|].
  exists w. split; [exact He|]. pose proof (le_bytes_length 8 v) as Hl8.
  assert (Hsame : forall b, b < A + 8 * Z.of_nat (length ws) \/ A + 8 * Z.of_nat (length ws) + 8 <= b ->
            p_load P w b = memory P s b).
  { intros b Hbb. rewrite Hu. apply upd_out. unfold outside. lia. }
  split.
  - intros b Hbb. rewrite Hsame by lia. by apply Ho.
  - intros i x Hi. destruct (decide (i < length ws)%nat) as [Hlt|Hge].
    + rewrite lookup_app_l in Hi by done. rewrite <- (Hw i x Hi). apply word_at_ext; [|lia..].
      intros b Hbb. apply Hsame. lia.
    + assert (i = length ws) as ->.
      { apply lookup_lt_Some in Hi. rewrite length_app in Hi. cbn in Hi. lia. }
      rewrite lookup_app_r, Nat.sub_diag in Hi by lia. injection Hi as <-.
      apply word_at_le; [lia|lia|done|]. eapply holds_ext; [|apply holds_upd].
      intros b _. apply Hu.
  - eapply holds_ext; [|exact Hb]. intros b Hbb. apply Hsame. lia.
  - rewrite length_app. cbn. lia.
Qed.

(** A string that lies outside the area under construction. *)
Definition string_at (p : Z) (str : list Z) : Prop :=
  holds m0 p (str ++ [0]) /\ string_bytes str /\ 0 <= p /\ p + Z.of_nat (length str) + 1 < 2 ^ 64
  /\ outside A top p (Z.of_nat (length str) + 1).

Lemma image_holds m ws bs p l :
  image m ws bs -> outside A top p (Z.of_nat (length l)) -> holds m0 p l -> holds m p l.
Proof.
  intros Hi Ho. apply holds_ext. intros b Hb. apply (img_out _ _ _ Hi). unfold outside in Ho. lia.
Qed.

Lemma image_word m ws bs a :
  image m ws bs -> outside A top a 8 -> 0 <= a -> a + 8 < 2 ^ 64 -> word_at m a = word_at m0 a.
Proof.
  intros Hi Ho Ha Hr. apply word_at_ext; [|done..]. intros b Hb. apply (img_out _ _ _ Hi).
  unfold outside in Ho. lia.
Qed.

Lemma string_bytes_byte str : string_bytes str -> Forall byte (str ++ [0]).
Proof.
  intros Hs. apply Forall_app. split; [|by repeat constructor].
  eapply List.Forall_impl; [|exact Hs]. unfold byte. cbn. lia.
Qed.

(** Copying the next string. *)
Lemma push_string s ws bs p str :
  image (memory P s) ws bs -> string_at p str ->
  B + Z.of_nat (length bs) + Z.of_nat (length str) + 1 <= top ->
  exists w, stpcpy P (B + Z.of_nat (length bs)) p s
            = (Ret (B + Z.of_nat (length bs) + Z.of_nat (length str)), set_world w s)
            /\ image (p_load P w) ws (bs ++ str ++ [0]).
Proof.
  intros Hi (Hh & Hs & Hp0 & Hpr & Hout) Hr. pose proof Hi as [Ho Hw Hb [Hf1 Hf2]].
  assert (Hlen : length (str ++ [0]) = S (length str)) by (rewrite length_app; cbn; lia).
  assert (Hm : holds (memory P s) p (str ++ [0])).
  { eapply image_holds; [done| |done]. rewrite Hlen. unfold outside in *. lia. }
  unfold stpcpy. exec. rewrite (rawmemchr_spec (memory P s) p str) by (done || lia). cbn [found]. exec.
  replace (p + Z.of_nat (length str) - p) with (Z.of_nat (length str)) by lia.
  rewrite (wrap64_small (Z.of_nat _)) by mlia.
  pose proof (proj1 (proj1 (holds_app _ _ _ _) Hm)) as Hm'.
  rewrite read_bytes_spec by (done || lia).
  destruct (store_list_spec (B + Z.of_nat (length bs)) (str ++ [0]) s) as (w & He & Hu);
    [by apply string_bytes_byte|lia|rewrite Hlen; lia|].
  exists w. unfold mbind, M_bind. rewrite He. rewrite wrap64_small by mlia. split; [done|].
  assert (Hsame : forall b, b < B + Z.of_nat (length bs) \/ top <= b -> p_load P w b = memory P s b).
  { intros b Hbb. rewrite Hu. apply upd_out. rewrite Hlen. unfold outside. lia. }
  split.
  - intros b Hbb. rewrite Hsame by lia. by apply Ho.
  - intros i x Hx. rewrite <- (Hw i x Hx). pose proof (lookup_lt_Some _ _ _ Hx).
    apply word_at_ext; [|lia..]. intros b Hbb. apply Hsame. lia.
  - apply holds_app. split.
    + eapply holds_ext; [|exact Hb]. intros b Hbb. apply Hsame. lia.
    + eapply holds_ext; [|apply holds_upd]. intros b _. apply Hu.
  - rewrite length_app, Hlen. lia.
Qed.

(** Strings packed one after the other outside the area. *)
Definition packed_at (p : Z) (strs : list (list Z)) : Prop :=
  holds m0 p (flat strs) /\ Forall string_bytes strs /\ 0 <= p
  /\ p + Z.of_nat (length (flat strs)) < 2 ^ 64 /\ outside A top p (Z.of_nat (length (flat strs))).

Lemma packed_at_cons p str strs :
  packed_at p (str :: strs) -> string_at p str /\ packed_at (p + Z.of_nat (length str) + 1) strs.
Proof.
  clear HA HAB HB Htop.
  intros (Hh & Hs & Hp & Hr & Ho). apply List.Forall_cons_iff in Hs as [Hs1 Hs2].
  rewrite flat_cons in *. apply holds_app in Hh as [Hh1 Hh2].
  rewrite !length_app in *. cbn [length] in *. unfold outside in *. split.
  - split; [done|]. split; [done|]. unfold outside. lia.
  - replace (p + Z.of_nat (length str) + 1) with (p + Z.of_nat (length str + 1)) by lia.
    split; [done|]. split; [done|]. unfold outside. lia.
Qed.

(** The loop over a vector. *)
Lemma push_strings_spec strs s ws bs vec p :
  image (memory P s) ws bs ->
  vec_at m0 vec (starts p strs) -> 0 <= vec -> vec + 8 * (Z.of_nat (length strs) + 1) < 2 ^ 64 ->
  outside A top vec (8 * (Z.of_nat (length strs) + 1)) ->
  packed_at p strs ->
  A + 8 * Z.of_nat (length ws + length strs) <= B ->
  B + Z.of_nat (length bs + length (flat strs)) <= top ->
  exists w, push_strings P (length strs) vec (A + 8 * Z.of_nat (length ws)) (B + Z.of_nat (length bs)) s
            = (Ret (A + 8 * Z.of_nat (length ws + length strs),
                    B + Z.of_nat (length bs + length (flat strs))), set_world w s)
            /\ image (p_load P w) (ws ++ starts (B + Z.of_nat (length bs)) strs) (bs ++ flat strs).
Proof.
  revert s ws bs vec p; induction strs as [|str strs IH]; intros s ws bs vec p Hi Hv Hv0 Hvr Hvo Hp HfA HfB.
  { exists (world s). cbn [push_strings length starts flat mjoin fmap list_fmap].
    rewrite !app_nil_r, !Nat.add_0_r. split; [by destruct s|exact Hi]. }
  cbn [push_strings length starts] in *. rewrite flat_cons, !length_app in HfB. cbn [length] in HfB.
  apply vec_at_cons in Hv as (Hw0 & Hnz & Hv). apply packed_at_cons in Hp as [Hstr Hp].
  destruct (push_word s ws bs (B + Z.of_nat (length bs))) as (w1 & He1 & Hi1); [done|mlia|lia|].
  unfold mbind at 1, M_bind at 1. rewrite He1. exec.
  assert (Hrd : word_at (memory P (set_world w1 s)) vec = p).
  { rewrite <- Hw0. eapply image_word; [exact Hi1| |lia..]. unfold outside in *. lia. }
  rewrite Hrd.
  destruct (push_string (set_world w1 s) (ws ++ [B + Z.of_nat (length bs)]) bs p str)
    as (w2 & He2 & Hi2); [done|done|lia|].
  unfold mbind at 1, M_bind at 1. rewrite He2.
  rewrite !wrap64_small by (unfold outside in *; mlia).
  destruct (IH (set_world w2 (set_world w1 s)) (ws ++ [B + Z.of_nat (length bs)]) (bs ++ str ++ [0])
              (vec + 8) (p + Z.of_nat (length str) + 1)) as (w3 & He3 & Hi3);
    [done|done|lia|lia|unfold outside in *; lia|done|rewrite length_app; cbn; lia
    |rewrite !length_app; cbn; lia|].
  exists w3. rewrite flat_cons, !length_app in *. cbn [length] in *.
  replace (A + 8 * Z.of_nat (length ws) + 8) with (A + 8 * Z.of_nat (length ws + 1)) by lia.
  replace (B + Z.of_nat (length bs) + Z.of_nat (length str) + 1)
    with (B + Z.of_nat (length bs + (length str + 1))) by lia.
  rewrite He3. split.
  - do 3 f_equal; lia.
  - rewrite <- !app_assoc in Hi3. rewrite <- !app_assoc.
    replace (B + Z.of_nat (length bs) + Z.of_nat (length str) + 1)
      with (B + Z.of_nat (length bs + (length str + 1))) by lia.
    exact Hi3.
Qed.
End image.
