(* ===== verification/LoaderProps.v ===== *)
(** What the loader guarantees: segments stay in the application's window, the
    initial stack is the one the System V ABI prescribes, and the application
    starts only behind installed handlers. *)

From stdpp Require Import base numbers list option.
From S2P Require Import Prelude Platform AddrSpace Umm Trap Loader Stack.

(** ** The auxiliary vector *)

(** The value of the first entry of type [t]. *)
Fixpoint aux_val (auxv : list (Z * Z)) (t : Z) : option Z :=
  match auxv with
  | [] => None
  | (t', v) :: auxv => if t' =? t then Some v else aux_val auxv t
  end.

Fixpoint aux_at (m : Z -> Z) (ref : Z) (auxv : list (Z * Z)) : Prop :=
  match auxv with
  | [] => word_at m ref = 0
  | (t, v) :: auxv =>
      word_at m ref = t /\ t <> 0 /\ word_at m (ref + 8) = v /\ u64 v /\ aux_at m (ref + 16) auxv
  end.

(** The bytes of an auxiliary vector, its terminator included. *)
Definition aux_size (auxv : list (Z * Z)) : Z := 16 * Z.of_nat (length auxv) + 8.

Lemma aux_at_ext m m' ref auxv :
  (forall b, ref <= b < ref + aux_size auxv -> m' b = m b) ->
  0 <= ref -> ref + aux_size auxv < 2 ^ 64 -> aux_at m ref auxv -> aux_at m' ref auxv.
Proof.
  unfold aux_size. revert ref; induction auxv as [|[t v] auxv IH]; intros ref He H0 Hr; cbn [aux_at length] in *.
  - intros <-. apply word_at_ext; [|lia..]. intros; apply He; lia.
  - intros (Ht & Hnz & Hv & Hu & Ha).
    assert (Hw : forall a, ref <= a -> a + 8 <= ref + 24 -> word_at m' a = word_at m a)
      by (intros; apply word_at_ext; [intros; apply He|..]; lia).
    rewrite !Hw by lia. do 4 (split; [done|]). apply IH; [|lia..|done]. intros; apply He; lia.
Qed.

Lemma find_aux_spec m ref auxv t v :
  aux_at m ref auxv -> 0 <= ref -> ref + aux_size auxv < 2 ^ 64 -> t <> 0 -> aux_val auxv t = Some v ->
  exists f, find_aux_entry m ref t = Some (Some f) /\ word_at m (wrap64 (f + 8)) = v /\ u64 v.
Proof.
  intros Ha H0 Hr Ht Hv. unfold find_aux_entry. rewrite iterZ_nat.
  assert (Hk : (length auxv < Z.to_nat (2 ^ 60))%nat) by (unfold aux_size in Hr; lia).
  revert Hk. generalize (Z.to_nat (2 ^ 60)). revert ref Ha H0 Hr.
  induction auxv as [|[t' v'] auxv IH]; intros ref Ha H0 Hr k Hk; [done|].
  cbn [aux_at aux_val length] in *. destruct Ha as (Hw & Hnz & Hv' & Hu & Ha).
  unfold aux_size in *. cbn [length] in Hr. destruct k as [|k]; [lia|]. cbn [iter_nat]. rewrite Hw.
  destruct (Z.eqb_spec t' 0); [done|]. destruct (Z.eqb_spec t' t) as [->|Hne].
  - injection Hv as ->. exists ref. rewrite wrap64_small by mlia. done.
  - unfold sizeof_auxv. rewrite wrap64_small by mlia. apply IH; [done|done|lia|lia|lia].
Qed.

(** The words of an entry [setup_aux] writes, and of all of them. *)
Definition op_words (auxv : list (Z * Z)) (op : aux_op) : list Z :=
  match op with
  | ACopy t => [t; default 0 (aux_val auxv t)]
  | ASet t v => [t; v]
  end.

Definition aux_words (auxv : list (Z * Z)) (data : elf_data) : list Z :=
  mjoin (op_words auxv <$> aux_ops data).

(** The entries it copies from its own vector. *)
Definition aux_needed : list Z :=
  [AT_HWCAP; AT_PAGESZ; AT_CLKTCK; AT_FLAGS; AT_UID; AT_EUID; AT_GID; AT_EGID].

Definition data_ok (data : elf_data) : Prop := u64 (d_entry data) /\ u64 (d_phdr data) /\ u64 (d_phnum data).

Section stack.
Context {W : Type} (P : platform W) `{!platform_ok P} `{!memory_ok P}.
Context (m0 : Z -> Z) (A B top : Z).
Context (HA : 0 <= A) (HAB : A <= B) (HB : B <= top) (Htop : top < 2 ^ 64).
Context (ref : Z) (auxv : list (Z * Z)) (data : elf_data).
Context (Hauxv : aux_at m0 ref auxv) (Href : 0 <= ref) (Hrr : ref + aux_size auxv < 2 ^ 64).
Context (Hro : outside A top ref (aux_size auxv)) (Hdata : data_ok data).
Context (Hneed : Forall (fun t => is_Some (aux_val auxv t)) aux_needed).

Abbreviation img := (image m0 A B top).

(** Writing one entry, known or copied. *)
Lemma push_aux s ws bs t v :
  img (memory P s) ws bs -> u64 t -> u64 v -> A + 8 * Z.of_nat (length ws) + 16 <= B ->
  exists w, set_aux P (A + 8 * Z.of_nat (length ws)) t v s = (Ret tt, set_world w s)
            /\ img (p_load P w) (ws ++ [t; v]) bs.
Proof.
  intros Hi Ht Hv Hr. unfold set_aux.
  destruct (push_word P m0 A B top HA HB Htop s ws bs t) as (w1 & He1 & Hi1); [done|done|lia|].
  unfold mbind, M_bind. rewrite He1, wrap64_small by mlia.
  destruct (push_word P m0 A B top HA HB Htop (set_world w1 s) (ws ++ [t]) bs v) as (w2 & He2 & Hi2);
    [done|done|rewrite length_app; cbn; lia|].
  rewrite length_app in He2. cbn [length] in He2.
  replace (A + 8 * Z.of_nat (length ws) + 8) with (A + 8 * Z.of_nat (length ws + 1)) by lia.
  exists w2. rewrite He2. split; [done|]. by rewrite <- app_assoc in Hi2.
Qed.

Lemma copy_aux_set s ws bs t :
  img (memory P s) ws bs -> u64 t -> t ∈ aux_needed -> t <> 0 ->
  A + 8 * Z.of_nat (length ws) + 16 <= B ->
  copy_aux P ref (A + 8 * Z.of_nat (length ws)) t s
  = set_aux P (A + 8 * Z.of_nat (length ws)) t (default 0 (aux_val auxv t)) s
  /\ u64 (default 0 (aux_val auxv t)).
Proof.
  intros Hi Ht Hin Hnz Hr. unfold copy_aux, set_aux.
  destruct (push_word P m0 A B top HA HB Htop s ws bs t) as (w1 & He1 & Hi1); [done|done|lia|].
  rewrite List.Forall_forall in Hneed. apply list_elem_of_In, Hneed in Hin as [v Hv].
  assert (Ha : aux_at (p_load P w1) ref auxv).
  { eapply aux_at_ext; [|done..]. intros b Hb. apply (img_out _ _ _ _ _ _ _ Hi1).
    unfold outside in Hro. lia. }
  destruct (find_aux_spec _ _ _ t v Ha Href Hrr Hnz Hv) as (f & Hf & Hw & Hu).
  rewrite !(bind_step _ _ _ _ _ He1). exec. unfold memory. cbn [world set_world].
  rewrite Hf. cbn [found]. exec. cbn [world set_world]. rewrite Hw, Hv. done.
Qed.

Definition op_ok (op : aux_op) : Prop :=
  match op with
  | ACopy t => u64 t /\ t ∈ aux_needed /\ t <> 0
  | ASet t v => u64 t /\ u64 v
  end.

Lemma write_aux_spec ops s ws bs :
  Forall op_ok ops -> img (memory P s) ws bs ->
  A + 8 * Z.of_nat (length ws) + 16 * Z.of_nat (length ops) <= B ->
  exists w, write_aux P ref (A + 8 * Z.of_nat (length ws)) ops s
            = (Ret (A + 8 * Z.of_nat (length ws) + 16 * Z.of_nat (length ops)), set_world w s)
            /\ img (p_load P w) (ws ++ mjoin (op_words auxv <$> ops)) bs.
Proof.
  intros Hops. revert s ws. induction Hops as [|op ops Hop Hops IH]; intros s ws Hi Hr.
  { exists (world s). cbn. rewrite app_nil_r, Z.add_0_r. split; [by destruct s|done]. }
  cbn [write_aux length] in *.
  assert (Hstep : exists w, (match op with
      | ACopy t => copy_aux P ref (A + 8 * Z.of_nat (length ws)) t
      | ASet t v => set_aux P (A + 8 * Z.of_nat (length ws)) t v end) s = (Ret tt, set_world w s)
      /\ img (p_load P w) (ws ++ op_words auxv op) bs).
  { destruct op as [t|t v]; cbn [op_ok op_words] in *.
    - destruct Hop as (Ht & Hin & Hnz). destruct (copy_aux_set s ws bs t) as [-> Hu]; [done..|lia|].
      apply push_aux; [done..|lia].
    - destruct Hop. apply push_aux; [done..|lia]. }
  destruct Hstep as (w1 & He1 & Hi1). unfold mbind, M_bind. rewrite He1.
  assert (Hl : length (op_words auxv op) = 2%nat) by (by destruct op).
  destruct (IH (set_world w1 s) (ws ++ op_words auxv op)) as (w2 & He2 & Hi2);
    [done|rewrite length_app; lia|]. rewrite length_app, Hl in He2.
  unfold sizeof_auxv. rewrite wrap64_small by mlia.
  replace (A + 8 * Z.of_nat (length ws) + 16) with (A + 8 * Z.of_nat (length ws + 2)) by lia.
  exists w2. rewrite He2. split; [do 2 f_equal; lia|]. cbn. by rewrite app_assoc.
Qed.

Lemma aux_ops_ok : Forall op_ok (aux_ops data).
Proof.
  destruct Hdata as (? & ? & ?). unfold aux_ops.
  repeat (apply List.Forall_cons; [cbn [op_ok]|]); [..|apply List.Forall_nil];
    (split; [vm_compute; split; [discriminate|reflexivity]|]);
    first [ assumption | vm_compute; split; [discriminate|reflexivity]
          | split; [apply list_elem_of_In; cbn; auto 10|discriminate] ].
Qed.

(** All entries; only the terminator remains to be written. *)
Lemma setup_aux_spec s ws bs :
  img (memory P s) ws bs -> A + 8 * Z.of_nat (length ws) + 208 <= B ->
  exists w, setup_aux P ref (A + 8 * Z.of_nat (length ws)) data s
            = store_word P 8 (A + 8 * Z.of_nat (length ws) + 208) 0 (set_world w s)
            /\ img (p_load P w) (ws ++ aux_words auxv data) bs.
Proof.
  intros Hi Hr. destruct (write_aux_spec (aux_ops data) s ws bs aux_ops_ok Hi) as (w & He & Hi');
    [cbn; lia|]. exists w. split; [|exact Hi']. unfold setup_aux, mbind, M_bind. by rewrite He.
Qed.
End stack.

(** ** The initial stack *)

Section launch.
Context {W : Type} (P : platform W) `{!platform_ok P} `{!memory_ok P}.

(** Counting a vector whose strings lie one after the other, as the kernel
    places them. *)
Lemma last_string m A top p strs :
  strs <> [] -> packed_at m A top p strs ->
  exists q str, starts p strs !! (length strs - 1)%nat = Some q /\ string_at m A top q str
    /\ q + Z.of_nat (length str) + 1 = p + Z.of_nat (length (flat strs)).
Proof.
  revert p; induction strs as [|str strs IH]; intros p Hn Hp; [done|].
  pose proof (packed_at_cons m A top _ _ _ Hp) as [Hs Hp'].
  rewrite flat_cons, !length_app. cbn [length].
  destruct strs as [|str' strs]; [exists p, str; cbn; split; [done|split; [done|lia]]|].
  destruct (IH _ ltac:(done) Hp') as (q & t & Hq & Ht & He). exists q, t.
  split; [|split; [done|lia]]. cbn [length] in *. rewrite Nat.sub_succ, Nat.sub_0_r in *. exact Hq.
Qed.

Lemma count_args_spec s vec p strs A top :
  vec_at (memory P s) vec (starts p strs) -> 0 <= vec ->
  vec + 8 * (Z.of_nat (length strs) + 1) < 2 ^ 64 -> Z.of_nat (length strs) < 2 ^ 31 ->
  packed_at (memory P s) A top p strs ->
  count_args P vec s = (Ret (Z.of_nat (length strs), Z.of_nat (length (flat strs))), s).
Proof.
  intros Hv H0 Hr Hc Hp. unfold count_args. exec.
  rewrite (vec_len_spec _ _ _ Hv) by (rewrite ?starts_length; lia). rewrite starts_length. cbn [found].
  exec. destruct (Z.eqb_spec (Z.of_nat (length strs)) 0) as [Hz|Hz].
  { destruct strs; [reflexivity|cbn in Hz; lia]. }
  destruct (last_string _ _ _ _ strs ltac:(by destruct strs) Hp) as (q & str & Hq & (Hh & Hs & Hq0 & Hqr & _) & He).
  destruct (proj1 Hv _ _ Hq) as [Hw _].
  replace (vec + 8 * (Z.of_nat (length strs) - 1)) with (vec + 8 * Z.of_nat (length strs - 1))
    by (destruct strs; cbn in *; lia).
  rewrite wrap64_small, Hw by (destruct strs; cbn in *; mlia).
  rewrite (rawmemchr_spec _ q str) by (done || lia). cbn [found]. exec.
  assert (Hfirst : word_at (memory P s) vec = p).
  { destruct strs as [|x strs]; [done|]. by apply vec_at_cons in Hv as [? _]. }
  rewrite Hfirst. destruct Hp as (_ & _ & Hp0 & Hpr & _).
  replace (q + Z.of_nat (length str) - p + 1) with (Z.of_nat (length (flat strs))) by lia.
  rewrite wrap64_small by mlia. done.
Qed.

Lemma land_round x : u64 x -> Z.land x (2 ^ 64 - 0x20) = align_down 32 x.
Proof.
  intros Hx. change (2 ^ 64 - 0x20) with (Z.land (Z.ones 64) (Z.lnot (Z.ones 5))).
  rewrite Z.land_assoc, Z.land_ones, <- Z.ldiff_land, Z.ldiff_ones_r by lia.
  rewrite Z.mod_small by mlia. rewrite Z.shiftl_mul_pow2, Z.shiftr_div_pow2 by lia.
  unfold align_down. change (2 ^ 5) with 32. pose proof (Z_div_mod_eq_full x 32). lia.
Qed.

(** The sizes [setup_arguments] computes. *)
Definition all_strings (pstr : list Z) (args envs : list (list Z)) : list (list Z) := pstr :: args ++ envs.
Definition str_len pstr args envs : Z := Z.of_nat (length (flat (all_strings pstr args envs))).
Definition raw_len pstr args envs : Z :=
  str_len pstr args envs + sizeof_auxv * NUM_AUX + 8 * (Z.of_nat (length args) + Z.of_nat (length envs) + 4).
Definition stack_len pstr args envs : Z := align_up 32 (raw_len pstr args envs).

(** The words from the stack pointer up: argc, argv, NULL, envp, NULL and the
    auxiliary entries, for strings that begin at [B]. *)
Definition stack_words (B : Z) pstr args envs (aux : list Z) : list Z :=
  Z.of_nat (length args) + 1 :: starts B (pstr :: args)
  ++ 0 :: starts (B + Z.of_nat (length (flat (pstr :: args)))) envs ++ 0 :: aux.

(** What the loader finds in memory: the path, the two vectors with their
    strings, and the auxiliary vector behind the environment; all of it apart
    from the part of the new stack that is written. *)
Record launch_ok (m : Z -> Z) (sp path argv envv ap ep : Z) (pstr : list Z)
    (args envs : list (list Z)) (auxv : list (Z * Z)) : Prop := {
  lk_sp : sp + 8 < 2 ^ 64;
  lk_fit : stack_len pstr args envs <= sp;
  lk_path : string_at m (sp - stack_len pstr args envs) sp path pstr;
  lk_argv : vec_at m argv (starts ap args);
  lk_argv_range : 0 <= argv /\ argv + 8 * (Z.of_nat (length args) + 1) < 2 ^ 64
                  /\ Z.of_nat (length args) < 2 ^ 30;
  lk_argv_out : outside (sp - stack_len pstr args envs) sp argv (8 * (Z.of_nat (length args) + 1));
  lk_args : packed_at m (sp - stack_len pstr args envs) sp ap args;
  lk_envv : vec_at m envv (starts ep envs);
  lk_envv_range : 0 <= envv /\ envv + 8 * (Z.of_nat (length envs) + 1) + aux_size auxv < 2 ^ 64
                  /\ Z.of_nat (length envs) < 2 ^ 30;
  lk_envv_out : outside (sp - stack_len pstr args envs) sp envv
                  (8 * (Z.of_nat (length envs) + 1) + aux_size auxv);
  lk_envs : packed_at m (sp - stack_len pstr args envs) sp ep envs;
  lk_auxv : aux_at m (envv + 8 * (Z.of_nat (length envs) + 1)) auxv;
  lk_need : Forall (fun t => is_Some (aux_val auxv t)) aux_needed;
}.

(** The gap between the auxiliary entries and the strings. *)
Definition padding pstr args envs : Z := stack_len pstr args envs - raw_len pstr args envs.

Lemma stack_len_bounds pstr args envs :
  0 <= padding pstr args envs < 32 /\ 0 < str_len pstr args envs
  /\ str_len pstr args envs <= raw_len pstr args envs <= stack_len pstr args envs.
Proof.
  unfold padding, stack_len. pose proof (align_up_range 32 (raw_len pstr args envs) ltac:(lia)).
  unfold raw_len, str_len, all_strings, sizeof_auxv, NUM_AUX in *. rewrite flat_cons, !length_app in *.
  cbn [length] in *. lia.
Qed.

(** The arithmetic of the area sizes. *)
Lemma setup_lengths pstr args envs sp :
  stack_len pstr args envs <= sp -> sp < 2 ^ 64 ->
  let L := wrap64 (Z.of_nat (length (flat args)) + Z.of_nat (length (flat envs)) + (Z.of_nat (length pstr) + 1)) in
  L = str_len pstr args envs
  /\ wrap64 (sp - L) = sp - str_len pstr args envs
  /\ Z.land (wrap64 (wrap64 (wrap64 (L + sizeof_auxv * NUM_AUX)
               + (Z.of_nat (length args) + Z.of_nat (length envs) + 4) * 8) + 0x1f)) (2 ^ 64 - 0x20)
     = stack_len pstr args envs.
Proof.
  intros Hfit Hsp L. pose proof (stack_len_bounds pstr args envs) as (Hpad & Hpos & Hle).
  assert (HL : L = str_len pstr args envs).
  { subst L. unfold str_len, all_strings in *. rewrite flat_cons, flat_app, !length_app in *. cbn [length] in *.
    rewrite wrap64_small by mlia. lia. }
  split; [done|]. rewrite HL. split; [apply wrap64_small; mlia|].
  assert (Hraw : wrap64 (wrap64 (str_len pstr args envs + sizeof_auxv * NUM_AUX)
            + (Z.of_nat (length args) + Z.of_nat (length envs) + 4) * 8) = raw_len pstr args envs).
  { unfold raw_len, sizeof_auxv, NUM_AUX in *. rewrite (wrap64_small (_ + 16 * 13)) by mlia.
    rewrite wrap64_small by mlia. lia. }
  rewrite Hraw. destruct (Z_lt_le_dec (raw_len pstr args envs + 31) (2 ^ 64)).
  - rewrite wrap64_small, land_round by mlia. unfold stack_len, align_up. f_equal. lia.
  - exfalso. destruct (align_up_divide 32 (raw_len pstr args envs)) as [k Hk]; [lia|].
    unfold stack_len in *. rewrite Hk in *. lia.
Qed.
End launch.

(** The pushes as steps of a larger computation. *)
Section steps.
Context {W : Type} (P : platform W) `{!platform_ok P} `{!memory_ok P}.
Context (m0 : Z -> Z) (A B top : Z).
Context (HA : 0 <= A) (HAB : A <= B) (HB : B <= top) (Htop : top < 2 ^ 64).
Context {R : Type}.

Lemma word_step s ws bs v a (k : unit -> M (sandbox W) R) :
  image m0 A B top (memory P s) ws bs -> u64 v -> a = A + 8 * Z.of_nat (length ws) -> a + 8 <= B ->
  exists w, (store_word P 8 a v ≫= k) s = k tt (set_world w s)
            /\ image m0 A B top (p_load P w) (ws ++ [v]) bs.
Proof.
  intros Hi Hv -> Hr. destruct (push_word P m0 A B top HA HB Htop s ws bs v Hi Hv Hr) as (w & He & Hi').
  exists w. by rewrite (bind_step _ _ _ _ _ He).
Qed.

Lemma string_step s ws bs p str d (k : Z -> M (sandbox W) R) :
  image m0 A B top (memory P s) ws bs -> string_at m0 A top p str ->
  d = B + Z.of_nat (length bs) -> d + Z.of_nat (length str) + 1 <= top ->
  exists w, (stpcpy P d p ≫= k) s = k (d + Z.of_nat (length str)) (set_world w s)
            /\ image m0 A B top (p_load P w) ws (bs ++ str ++ [0]).
Proof.
  intros Hi Hs -> Hr.
  destruct (push_string P m0 A B top HA HAB HB Htop s ws bs p str Hi Hs Hr) as (w & He & Hi').
  exists w. by rewrite (bind_step _ _ _ _ _ He).
Qed.

Lemma strings_step strs s ws bs vec p a d n (k : Z * Z -> M (sandbox W) R) :
  image m0 A B top (memory P s) ws bs ->
  vec_at m0 vec (starts p strs) -> 0 <= vec -> vec + 8 * (Z.of_nat (length strs) + 1) < 2 ^ 64 ->
  outside A top vec (8 * (Z.of_nat (length strs) + 1)) -> packed_at m0 A top p strs ->
  a = A + 8 * Z.of_nat (length ws) -> d = B + Z.of_nat (length bs) -> n = length strs ->
  a + 8 * Z.of_nat (length strs) <= B -> d + Z.of_nat (length (flat strs)) <= top ->
  exists w, (push_strings P n vec a d ≫= k) s
            = k (a + 8 * Z.of_nat (length strs), d + Z.of_nat (length (flat strs))) (set_world w s)
            /\ image m0 A B top (p_load P w) (ws ++ starts d strs) (bs ++ flat strs).
Proof.
  intros Hi Hv Hv0 Hvr Hvo Hp -> -> -> HrA HrB.
  destruct (push_strings_spec P m0 A B top HA HAB HB Htop strs s ws bs vec p) as (w & He & Hi');
    [done..|lia|lia|]. exists w. rewrite (bind_step _ _ _ _ _ He).
  by rewrite !Nat2Z.inj_add, !Z.mul_add_distr_l, !Z.add_assoc.
Qed.
End steps.

Section setup.
Context {W : Type} (P : platform W) `{!platform_ok P} `{!memory_ok P}.
Context (s : sandbox W) (sp path argv envv ap ep : Z) (pstr : list Z) (args envs : list (list Z)).
Context (auxv : list (Z * Z)) (data : elf_data).
Context (Hok : launch_ok (memory P s) sp path argv envv ap ep pstr args envs auxv) (Hdata : data_ok data).

Let A := sp - stack_len pstr args envs.
Let B := sp - str_len pstr args envs.

(** Everything but the terminator of the auxiliary vector, whose address is
    [B - padding]. *)
Lemma setup_arguments_image :
  exists w, setup_arguments P sp path argv envv data s
            = (store_word P 8 (B - padding pstr args envs) 0 ≫= fun _ => mret A) (set_world w s)
    /\ image (memory P s) A B sp (p_load P w) (stack_words B pstr args envs (aux_words auxv data))
             (flat (all_strings pstr args envs)).
Proof.
  pose proof (stack_len_bounds pstr args envs) as (Hpad & Hpos & Hle).
  destruct Hok as [Hsp8 Hfit Hpath Hargv (Ha0 & Har & Hac) Hao Hargs Henvv (He0 & Her & Hec) Heo Henvs Haux Hneed].
  assert (Hsp : sp < 2 ^ 64) by lia.
  destruct (setup_lengths pstr args envs sp Hfit Hsp) as (HL & HB & Hlen).
  assert (Haz : 0 < aux_size auxv) by (unfold aux_size; lia).
  assert (HA : 0 <= A <= B /\ B <= sp) by (subst A B; lia).
  unfold setup_arguments.
  rewrite (bind_step _ _ _ _ _ (count_args_spec P s argv ap args A sp Hargv Ha0 ltac:(lia) ltac:(lia) Hargs)).
  rewrite (bind_step _ _ _ _ _ (count_args_spec P s envv ep envs A sp Henvv He0 ltac:(lia) ltac:(lia) Henvs)).
  cbv beta iota. exec.
  destruct Hpath as (Hph & Hps & Hp0 & Hpr & Hpo).
  rewrite (rawmemchr_spec _ path pstr) by (done || lia). cbn [found]. exec. cbv zeta.
  replace (path + Z.of_nat (length pstr) - path) with (Z.of_nat (length pstr)) by lia.
  rewrite (wrap64_small (Z.of_nat (length pstr))) by mlia.
  rewrite Hlen, HB. fold A B.
  destruct HA as ((HA0 & HAB) & HBsp).
  assert (Hroom : A + 8 * (Z.of_nat (length args) + Z.of_nat (length envs) + 4) + 208
                  = B - padding pstr args envs).
  { subst A B. unfold padding, raw_len, sizeof_auxv, NUM_AUX. lia. }
  assert (Hstr : Z.of_nat (length pstr) + 1 + Z.of_nat (length (flat args))
                 + Z.of_nat (length (flat envs)) = sp - B).
  { subst B. unfold str_len, all_strings. rewrite flat_cons, flat_app, !length_app. cbn [length]. lia. }
  rewrite (wrap64_small A) by mlia.
  assert (Hi0 : image (memory P s) A B sp (memory P s) [] []).
  { split; [done|done|done|cbn; lia]. }
  edestruct (word_step P (memory P s) A B sp) as (w1 & -> & Hi1); [done..|exact Hi0|mlia|cbn; lia|lia|].
  rewrite (wrap64_small (A + 8)) by mlia.
  edestruct (word_step P (memory P s) A B sp) as (w2 & -> & Hi2); [done..|exact Hi1|mlia|cbn; lia|lia|].
  rewrite (wrap64_small (A + 8 + 8)) by mlia.
  edestruct (string_step P (memory P s) A B sp) as (w3 & -> & Hi3); [done..|exact Hi2|done|cbn; lia|lia|].
  rewrite (wrap64_small (B + Z.of_nat (length pstr) + 1)) by mlia.
  edestruct (strings_step (R := Z) P (memory P s) A B sp HA0 HAB HBsp Hsp args) as (w4 & -> & Hi4);
    [exact Hi3|exact Hargv|done|lia|done|exact Hargs|cbn; lia|rewrite !length_app; cbn; lia|lia|lia|lia|].
  cbv iota beta.
  edestruct (word_step P (memory P s) A B sp) as (w5 & -> & Hi5);
    [done..|exact Hi4|mlia|rewrite !length_app, starts_length; cbn; lia|lia|].
  rewrite (wrap64_small (A + 8 + 8 + _ + 8)) by mlia.
  edestruct (strings_step (R := Z) P (memory P s) A B sp HA0 HAB HBsp Hsp envs) as (w6 & -> & Hi6);
    [exact Hi5|exact Henvv|done|lia|unfold outside in *; lia|exact Henvs
    |rewrite !length_app, starts_length; cbn; lia|rewrite !length_app; cbn; lia|lia|lia|lia|].
  cbv iota beta.
  edestruct (word_step P (memory P s) A B sp) as (w7 & -> & Hi7);
    [done..|exact Hi6|mlia|rewrite !length_app, !starts_length; cbn; lia|lia|].
  rewrite (wrap64_small (_ + 8)) by mlia. rewrite (wrap64_small (envv + _)) by mlia.
  match type of Hi7 with image _ _ _ _ _ ?ws _ => set (words := ws) in * end.
  match goal with |- context [setup_aux P _ ?a data] => replace a with (A + 8 * Z.of_nat (length words)) end.
  2:{ subst words. rewrite !length_app, !starts_length. cbn. lia. }
  assert (Hwl : Z.of_nat (length words) = Z.of_nat (length args) + Z.of_nat (length envs) + 4).
  { subst words. rewrite !length_app, !starts_length. cbn. lia. }
  destruct (setup_aux_spec P (memory P s) A B sp HA0 HBsp Hsp (envv + 8 * (Z.of_nat (length envs) + 1))
      auxv data Haux ltac:(lia) ltac:(lia) ltac:(unfold outside in *; lia) Hdata Hneed
      (set_world w7 s) words (((([] ++ pstr ++ [0]) ++ flat args)) ++ flat envs)) as (w8 & He8 & Hi8);
    [exact Hi7|lia|].
  exists w8. unfold mbind, M_bind. change (set_world w7 _) with (set_world w7 s). rewrite He8.
  replace (A + 8 * Z.of_nat (length words) + 208) with (B - padding pstr args envs) by lia.
  split; [done|].
  replace (stack_words B pstr args envs (aux_words auxv data)) with (words ++ aux_words auxv data).
  2:{ subst words. unfold stack_words. rewrite flat_cons, !length_app. cbn [starts app length].
      rewrite <- !app_assoc. cbn [app]. 
      replace (B + Z.of_nat (length pstr + 1 + length (flat args)))
        with (B + Z.of_nat (length pstr) + 1 + Z.of_nat (length (flat args))) by lia. done. }
  unfold all_strings. rewrite flat_cons, flat_app. cbn [app] in Hi8. by rewrite app_assoc.
Qed.

(** C15. The initial stack is what the System V ABI prescribes: when the
    rounding leaves room for the terminator of the auxiliary vector,
    [setup_arguments] returns the new stack pointer [A], 32-byte aligned when
    the top is; from [A] lie argc, the argument pointers, NULL, the environment
    pointers, NULL, the thirteen auxiliary entries and their terminator; each
    pointer is the address of a copy of its string; and no byte outside the
    area from [A] to the top has changed. *)
Theorem setup_arguments_layout :
  8 <= padding pstr args envs ->
  exists w, setup_arguments P sp path argv envv data s = (Ret A, set_world w s)
    /\ image (memory P s) A B sp (p_load P w)
             (stack_words B pstr args envs (aux_words auxv data) ++ [0])
             (flat (all_strings pstr args envs))
    /\ ((32 | sp) -> (32 | A)).
Proof.
  intros Hpad. destruct setup_arguments_image as (w & -> & Hi).
  pose proof (stack_len_bounds pstr args envs) as (_ & Hpos & Hle).
  pose proof (lk_sp _ _ _ _ _ _ _ _ _ _ _ Hok). pose proof (lk_fit _ _ _ _ _ _ _ _ _ _ _ Hok).
  edestruct (word_step P (memory P s) A B sp) as (w' & -> & Hi');
    [subst A B; lia..|exact Hi|mlia| |lia|].
  - unfold stack_words. cbn [length]. rewrite !length_app, starts_length. cbn [length].
    rewrite length_app, starts_length. cbn [length]. change (length (aux_words auxv data)) with 26%nat.
    subst A B. unfold padding, raw_len, sizeof_auxv, NUM_AUX. lia.
  - exists w'. split; [done|]. split; [done|]. intros Hsp. subst A. apply Z.divide_sub_r; [done|].
    apply align_up_divide. lia.
Qed.

(** When the rounding leaves less than a word, the terminator is written
    over the beginning of the first string: the application finds an empty
    string as its name, whatever the path was. *)
Theorem setup_arguments_clobbers :
  padding pstr args envs < 8 ->
  exists w, setup_arguments P sp path argv envv data s = (Ret A, set_world w s)
    /\ word_at (p_load P w) (A + 8) = B /\ p_load P w B = 0.
Proof.
  intros Hpad. destruct setup_arguments_image as (w & -> & [_ Hw _ Hf]).
  pose proof (stack_len_bounds pstr args envs) as (Hp0 & Hpos & Hle).
  pose proof (lk_sp _ _ _ _ _ _ _ _ _ _ _ Hok). pose proof (lk_fit _ _ _ _ _ _ _ _ _ _ _ Hok).
  assert (HAB : A + 216 <= B - padding pstr args envs).
  { subst A B. unfold padding, raw_len, sizeof_auxv, NUM_AUX in *. lia. }
  destruct (store_list_spec P (B - padding pstr args envs) (le_bytes 8 0) (set_world w s)) as (w' & He & Hu);
    [apply le_bytes_byte|subst A B; lia|rewrite le_bytes_length; subst B; lia|].
  rewrite <- store_word_list in He. exists w'. rewrite (bind_step _ _ _ _ _ He). split; [done|]. split.
  - rewrite <- (Hw 1%nat B eq_refl). apply word_at_ext; [|subst A; lia..]. intros b Hb.
    rewrite Hu. apply upd_out. unfold outside. lia.
  - rewrite Hu. replace B with (B - padding pstr args envs + Z.of_nat (Z.to_nat (padding pstr args envs))) at 2
      by lia. apply upd_in. assert (Hn : (Z.to_nat (padding pstr args envs) < 8)%nat) by lia. revert Hn.
    generalize (Z.to_nat (padding pstr args envs)). intros n Hn. do 8 (destruct n as [|n]; [done|]). lia.
Qed.
End setup.

(** ** Segments *)

Section segments.
Context {W : Type} (P : platform W) (D : dune_abi) (E : elf_lib W) (phs : Z -> list elf_phdr).
Context `{!elf_lib_ok E phs}.
Abbreviation C := (M (sandbox W)).

(** The calls that load a file: each touches only the ELF window of the
    application, and a segment is filled from no more bytes than it has. *)
Definition load_event (e : oscall * Z) : Prop :=
  match e.1 with
  | VmMapPhys va len pa _ => pa = va /\ in_elf va len
  | ElfLoadPh ph off => in_elf (p_vaddr ph + off) (p_memsz ph) /\ p_filesz ph <= p_memsz ph
  | VmMprotect va len perm => in_elf va len
  | ElfOpen _ | ElfClose => True
  | _ => False
  end.

(** A program header whose end does not wrap around the address space. *)
Definition ph_ok (h : elf_hdr) (ph : elf_phdr) : Prop :=
  u64 (p_vaddr ph) /\ u64 (p_memsz ph) /\ p_vaddr ph + load_offset h + p_memsz ph < 2 ^ 64.

Lemma load_offset_range h : 0 <= load_offset h < 2 ^ 32.
Proof. unfold load_offset, LOADER_VADDR_OFF. destruct (e_type h =? ET_DYN); lia. Qed.

Lemma emits_process_elf_ph h ph : ph_ok h ph -> emits load_event (process_elf_ph P D h ph).
Proof.
  intros (Hv & Hm & Hw). pose proof (load_offset_range h). unfold process_elf_ph.
  destruct (p_type ph =? PT_INTERP); [walk|].
  destruct (p_type ph =? PT_LOAD); cbn [negb]; [|walk].
  cbv zeta. rewrite !wrap64_small by mlia.
  destruct (_ || _) eqn:Hg; [walk|]. apply orb_false_iff in Hg as [Hg Hg3].
  apply orb_false_iff in Hg as [Hg1 Hg2]. apply Z.ltb_ge in Hg1, Hg2, Hg3.
  assert (Hin : in_elf (p_vaddr ph + load_offset h) (p_memsz ph)) by (unfold in_elf; mlia).
  walk; done.
Qed.

Lemma emits_iter_phdrs (ok : oscall * Z -> Prop) (f : elf_phdr -> C Z) l :
  Forall (fun ph => emits ok (f ph)) l -> emits ok (iter_phdrs f l).
Proof. induction 1; cbn [iter_phdrs]; walk; auto. Qed.

Lemma emits_load_elf (ok : oscall * Z -> Prop) path :
  (forall r, ok (ElfOpen path, r)) -> (forall r, ok (ElfClose, r)) ->
  (forall h, Forall (fun ph => emits ok (process_elf_ph P D h ph)) (phs path)) ->
  emits ok (load_elf P D E path).
Proof.
  intros Ho Hc Hp. unfold load_elf. walk; auto. rewrite (iter_ph_spec (phs := phs)).
  by apply emits_iter_phdrs.
Qed.

(** C22. Loading keeps to the application's window: for a file none of whose
    segments wraps around the address space, every mapping, copy and protection
    change the loader makes, whatever its outcome, lies in the ELF window. *)
Theorem load_elf_confined path s :
  (forall h, Forall (ph_ok h) (phs path)) ->
  exists l, trace (load_elf P D E path s).2 = trace s ++ l /\ Forall load_event l.
Proof.
  intros Hp. apply emits_load_elf; [done..|]. intros h.
  eapply List.Forall_impl; [|apply Hp]. apply emits_process_elf_ph.
Qed.

(** The overflow check of the loader misses the wrap it is there for: a
    segment that begins near the top of the address space and ends, past zero,
    inside the window is accepted and mapped where it begins. *)
Theorem wrapping_segment_mapped h ph s :
  p_type ph = PT_LOAD -> e_type h <> ET_DYN -> u64 (p_vaddr ph) ->
  2 ^ 64 <= p_vaddr ph + p_memsz ph <= 2 ^ 64 + APP_MAX_ELF_VADDR ->
  p_memsz ph <= APP_MAX_ELF_VADDR -> p_filesz ph <= p_memsz ph ->
  exists l r, trace (process_elf_ph P D h ph s).2
    = trace s ++ (VmMapPhys (p_vaddr ph) (p_memsz ph) (p_vaddr ph) (Z.lor (PERM_R D) (PERM_W D)), r) :: l
    /\ ~ in_elf (p_vaddr ph) (p_memsz ph).
Proof.
  intros Ht He Hv Hw Hm Hf. unfold process_elf_ph, load_offset. rewrite Ht.
  apply Z.eqb_neq in He. rewrite He, !Z.add_0_r. change (PT_LOAD =? PT_INTERP) with false.
  rewrite Z.eqb_refl. cbn [negb]. cbv zeta.
  destruct (wrap_cases 64 (p_vaddr ph + p_memsz ph)) as [[_ ?]|[-> _]];
    [lia|unfold APP_MAX_ELF_VADDR in *; mlia|lia|].
  destruct (Z.ltb_spec APP_MAX_ELF_VADDR (p_vaddr ph + p_memsz ph - 2 ^ 64)); [lia|].
  destruct (Z.ltb_spec APP_MAX_ELF_VADDR (p_memsz ph)); [lia|].
  destruct (Z.ltb_spec (p_memsz ph) (p_filesz ph)); [lia|]. cbn [orb].
  rewrite (wrap64_small (p_vaddr ph)) by done. exec.
  assert (Hout : ~ in_elf (p_vaddr ph) (p_memsz ph)) by (unfold in_elf, APP_MAX_ELF_VADDR in *; lia).
  set (c := VmMapPhys _ _ _ _). destruct (truthy (reply P c s)).
  { exists [], (reply P c s). done. }
  match goal with |- context [(?k (after P c s)).2] => assert (Hem : emits (fun _ => True) k) by walk end.
  destruct (Hem (after P c s)) as (l & -> & _). exists l, (reply P c s). cbn. by rewrite <- app_assoc.
Qed.

(** ** Starting the application *)

Definition no_jump (e : oscall * Z) : Prop := match e.1 with JumpToUser _ => False | _ => True end.

(** What a call before the first instruction of the application must have
    answered: entering Dune and setting up the lock succeeded. *)
Definition succeeded (e : oscall * Z) : Prop :=
  match e with
  | (DuneInit, v) | (DuneEnter, v) | (MutexInit _, v) => v = 0
  | _ => True
  end.

(** A call that is neither a jump, nor one of those, nor passed through. *)
Definition quiet (e : oscall * Z) : Prop :=
  match e.1 with JumpToUser _ | Passthrough _ | DuneInit | DuneEnter | MutexInit _ => False | _ => True end.

Lemma quiet_calls l : Forall quiet l -> Forall no_jump l /\ Forall succeeded l.
Proof.
  intros H. split; (eapply List.Forall_impl; [|exact H]); intros [c v]; by destruct c.
Qed.

Lemma emits_setup_arguments ok sp path argv envv data :
  emits ok (setup_arguments P sp path argv envv data : C Z).
Proof.
  assert (Hf : forall A (o : option A), emits ok (found o : C A)) by (intros A []; cbn [found]; walk).
  assert (Hl : forall l a, emits ok (store_list P a l)).
  { induction l; intros; cbn [store_list]; walk; auto. }
  assert (Hs : forall d p, emits ok (stpcpy P d p)) by (intros; unfold stpcpy; walk; auto).
  assert (Hv : forall n vec a d, emits ok (push_strings P n vec a d)).
  { induction n; intros; cbn [push_strings]; walk; auto. }
  assert (Hw : forall ops ref cur, emits ok (write_aux P ref cur ops)).
  { induction ops as [|[t|t v] ops IH]; intros; cbn [write_aux]; unfold copy_aux, set_aux; walk; auto. }
  unfold setup_arguments, count_args, setup_aux. walk; auto.
Qed.

Lemma emits_alloc_stack : emits quiet (umm_alloc_stack P D).
Proof.
  unfold umm_alloc_stack, umm_mmap_anom, neg_errno. walk; exact I.
Qed.

Lemma emits_load_elf_quiet path : emits quiet (load_elf P D E path).
Proof.
  apply emits_load_elf; [done..|]. intros h. apply List.Forall_forall. intros ph _.
  unfold process_elf_ph. walk; exact I.
Qed.

(** A computation whose only jump, if it makes one, is its last call and comes
    after the calls [need], in their order, with none that failed. *)
Definition guarded {A} (need : list oscall) (c : C A) : Prop :=
  forall s, exists l, trace (c s).2 = trace s ++ l
    /\ (Forall no_jump l
        \/ exists pre tf r, l = pre ++ [(JumpToUser tf, r)] /\ Forall no_jump pre
             /\ Forall succeeded pre /\ need `sublist_of` (fst <$> pre)).

Lemma guarded_no_jump {A} need (c : C A) : emits no_jump c -> guarded need c.
Proof. intros Hc s. destruct (Hc s) as (l & Hl & Hf). exists l. auto. Qed.

Lemma guarded_jump tf : guarded [] (ext P (JumpToUser tf)).
Proof.
  intros s. rewrite ext_eq. cbn. exists [(JumpToUser tf, reply P (JumpToUser tf) s)]. split; [done|]. right.
  exists [], tf, (reply P (JumpToUser tf) s). split; [done|]. split; [constructor|]. split; constructor.
Qed.

(** A call of [need] comes next: if it succeeded, the rest is guarded by the
    other calls; if it did not, there is no jump at all. *)
Lemma guarded_call {B} need c0 (k : Z -> C B) :
  (forall r, no_jump (c0, r)) ->
  (forall r, succeeded (c0, r) /\ guarded need (k r) \/ emits no_jump (k r)) ->
  guarded (c0 :: need) (ext P c0 ≫= k).
Proof.
  intros Hj Hk s. unfold mbind, M_bind. rewrite ext_eq.
  set (r := reply P c0 s).
  assert (Ht : trace (after P c0 s) = trace s ++ [(c0, r)]) by done.
  destruct (Hk r) as [[Hs Hg]|Hq].
  - destruct (Hg (after P c0 s)) as (l & Hl & Hc). exists ((c0, r) :: l).
    split; [rewrite Hl, Ht, <- app_assoc; done|].
    destruct Hc as [Hc|(pre & tf & v & -> & Hp & Hok & Hsub)]; [left; by constructor|right].
    exists ((c0, r) :: pre), tf, v. split; [done|]. split; [by constructor|]. split; [by constructor|].
    cbn [fmap list_fmap fst]. by apply sublist_skip.
  - destruct (Hq (after P c0 s)) as (l & Hl & Hc). exists ((c0, r) :: l).
    split; [rewrite Hl, Ht, <- app_assoc; done|]. left. by constructor.
Qed.

Lemma guarded_skip {A B} need (c : C A) (k : A -> C B) :
  emits quiet c -> (forall a, guarded need (k a)) -> guarded need (c ≫= k).
Proof.
  intros Hc Hk s. destruct (Hc s) as (l0 & Hl0 & H0). destruct (quiet_calls l0 H0) as [Hj0 Hs0].
  unfold mbind, M_bind. destruct (c s) as [[a| | | |] s1]; cbn in *; try (exists l0; by auto).
  destruct (Hk a s1) as (l & Hl & Hj). exists (l0 ++ l). rewrite Hl, Hl0, app_assoc. split; [done|].
  destruct Hj as [Hj|(pre & tf & r & -> & Hp & Hok & Hsub)]; [left; by apply Forall_app|right].
  exists (l0 ++ pre), tf, r. rewrite app_assoc. split; [done|]. split; [by apply Forall_app|].
  split; [by apply Forall_app|]. rewrite fmap_app. by apply sublist_inserts_l.
Qed.

(** Starting the application passes no system call through. *)
Definition no_passthrough (e : oscall * Z) : Prop := match e.1 with Passthrough _ => False | _ => True end.

Lemma emits_boxer_main argc argv environ : emits no_passthrough (boxer_main P D E argc argv environ).
Proof.
  assert (Hq : forall A (c : C A), emits quiet c -> emits no_passthrough c).
  { intros A c. apply emits_mono. intros [c' v]. by destruct c'. }
  unfold boxer_main, trap_init, run_app.
  walk; try exact I; try (apply emits_setup_arguments); apply Hq;
    [apply emits_load_elf_quiet|apply emits_alloc_stack].
Qed.

(** [trap_init] as the first part of a computation. *)
Lemma trap_init_bind {A} (k : Z -> C A) s :
  (trap_init P ≫= k) s
  = (ext P (MutexInit SyscallMtx) ≫= fun r =>
       if truthy r then k (-1) else ext P RegisterHandlers ≫= fun _ => k 0) s.
Proof. unfold trap_init. exec. destruct (truthy _); [done|]. by exec. Qed.

(** What has to precede the first instruction of the application, in order. *)
Definition before_start : list oscall :=
  [DuneInit; DuneEnter; SetUserFs 0; MutexInit SyscallMtx; RegisterHandlers].

(** C16. The application starts only behind its guards: a run of [boxer_main]
    enters the application at most once and as its last call, and then Dune
    was initialised, then entered, the user FS base was cleared, the lock of
    the memory manager was initialised and the system-call and page-fault
    handlers were registered, in this order; and no call that initialises
    Dune, enters it or initialises a lock failed in that run: a run in which
    one of them fails never enters the application. *)
Theorem boxer_main_guarded argc argv environ s :
  exists l, trace (boxer_main P D E argc argv environ s).2 = trace s ++ l
    /\ (Forall no_jump l
        \/ exists pre tf r, l = pre ++ [(JumpToUser tf, r)] /\ Forall no_jump pre
             /\ Forall succeeded pre /\ before_start `sublist_of` (fst <$> pre)).
Proof.
  revert s. change (guarded before_start (boxer_main P D E argc argv environ)).
  assert (Hret : forall (v : Z), emits no_jump (mret v : C Z)) by (intros; walk).
  assert (Hcheck : forall need c0 v r (k : C Z), c0 = DuneInit \/ c0 = DuneEnter \/ c0 = MutexInit SyscallMtx ->
            guarded need k ->
            succeeded (c0, r) /\ guarded need (if truthy r then mret v else k)
            \/ emits no_jump (if truthy r then mret v else k)).
  { intros need c0 v r k Hc Hk. unfold truthy. destruct (Z.eqb_spec r 0) as [->|]; [left|right; apply Hret].
    split; [|done]. by destruct Hc as [->|[->| ->]]. }
  unfold boxer_main. destruct (argc <? 2); [apply guarded_no_jump, Hret|].
  apply guarded_call; [done|]. intros r1. apply Hcheck; [auto|].
  apply guarded_call; [done|]. intros r2. apply Hcheck; [auto|].
  apply guarded_skip; [walk|]. intros ld. cbv zeta.
  apply guarded_skip; [apply emits_load_elf_quiet|]. intros [ret [data|]]; [|apply guarded_no_jump, Hret].
  apply guarded_call; [done|]. intros r0. left. split; [done|]. intros s. rewrite trap_init_bind. revert s.
  apply guarded_call; [done|]. intros r3. apply Hcheck; [auto|].
  apply guarded_call; [done|]. intros r4. left. split; [done|]. change (truthy 0) with false. cbv iota.
  apply guarded_skip; [apply emits_alloc_stack|]. intros [ret4 sp]. cbn [fst snd].
  destruct (truthy ret4); [apply guarded_no_jump, Hret|].
  apply guarded_skip; [walk|]. intros ld'.
  apply guarded_skip; [apply emits_setup_arguments|]. intros sp'.
  destruct (sp' =? 0); [apply guarded_no_jump, Hret|]. apply guarded_jump.
Qed.
End segments.

(** ** Witnesses *)

(** A memory given by pieces. *)
Fixpoint pieces (l : list (Z * list Z)) (b : Z) : Z :=
  match l with
  | [] => 0
  | (a, bs) :: l => if (a <=? b) && (b <? a + Z.of_nat (length bs)) then nth (Z.to_nat (b - a)) bs 0
                    else pieces l b
  end.

Definition demo_auxv : list (Z * Z) :=
  [(AT_HWCAP, 7); (AT_PAGESZ, 4096); (AT_CLKTCK, 100); (AT_FLAGS, 0); (AT_UID, 1000); (AT_EUID, 1000);
   (AT_GID, 1000); (AT_EGID, 1000)].

(** The path at 0x1000, the argument [x] at 0x1100 with its vector at 0x2000, an
    empty environment at 0x3000 and the auxiliary vector behind it. *)
Definition demo_pieces (pstr : list Z) : Z -> Z :=
  pieces [(0x1000, pstr); (0x1100, [120]); (0x2000, le_bytes 8 0x1100);
          (0x3008, mjoin ((fun e : Z * Z => le_bytes 8 e.1 ++ le_bytes 8 e.2) <$> demo_auxv))].

Definition demo_launch (pstr : list Z) : sandbox (Z -> Z) := Sandbox 0 0 0 (demo_pieces pstr) [].
Definition demo_data : elf_data := ElfData 0x400100 0x400040 9.

Lemma demo_data_ok : data_ok demo_data.
Proof. unfold data_ok, u64, demo_data; cbn. lia. Qed.

Definition short_path : list Z := [47; 97].                    (* /a *)
Definition long_path : list Z := [47; 98; 105; 110; 47; 97].   (* /bin/a *)

(** Decides [holds] on a concrete memory. *)
Definition holdsb (m : Z -> Z) (a : Z) (l : list Z) : bool :=
  forallb (fun i => m (a + Z.of_nat i) =? nth i l 0) (seq 0 (length l)).

Lemma holdsb_holds m a l : holdsb m a l = true -> holds m a l.
Proof.
  unfold holdsb. rewrite forallb_forall. intros H i v Hi. pose proof (lookup_lt_Some _ _ _ Hi).
  specialize (H i ltac:(apply in_seq; lia)). apply Z.eqb_eq in H. rewrite H.
  by apply nth_lookup_Some.
Qed.

Lemma demo_aux_at pstr :
  pstr = short_path \/ pstr = long_path -> aux_at (memory obliging (demo_launch pstr)) 0x3008 demo_auxv.
Proof.
  intros Hp. unfold demo_auxv; cbn [aux_at].
  repeat match goal with
  | |- _ /\ _ => split
  | |- word_at _ _ = _ => destruct Hp as [-> | ->]; vm_compute; reflexivity
  | |- u64 _ => mlia
  | |- _ <> 0 => discriminate
  end.
Qed.

Lemma demo_launch_ok pstr :
  pstr = short_path \/ pstr = long_path ->
  launch_ok (memory obliging (demo_launch pstr)) 0x20000 0x1000 0x2000 0x3000 0x1100 0x1200 pstr
    [[120]] [] demo_auxv.
Proof.
  intros Hp.
  assert (Hlen : 0 < stack_len pstr [[120]] [] <= 288)
    by (destruct Hp as [-> | ->]; vm_compute; split; congruence).
  assert (Hs : string_bytes pstr /\ Z.of_nat (length pstr) <= 6).
  { destruct Hp as [-> | ->]; (split; [repeat (constructor; [lia|]); constructor|cbn; lia]). }
  assert (Hpath : holds (memory obliging (demo_launch pstr)) 0x1000 (pstr ++ [0]))
    by (destruct Hp as [-> | ->]; apply holdsb_holds; reflexivity).
  assert (Harg : holds (memory obliging (demo_launch pstr)) 0x1100 (flat [[120]]))
    by (destruct Hp as [-> | ->]; apply holdsb_holds; reflexivity).
  assert (Hw : word_at (memory obliging (demo_launch pstr)) 0x2000 = 0x1100
               /\ word_at (memory obliging (demo_launch pstr)) 0x2008 = 0
               /\ word_at (memory obliging (demo_launch pstr)) 0x3000 = 0)
    by (destruct Hp as [-> | ->]; vm_compute; done).
  assert (Hl2 : length (flat [[120]]) = 2%nat) by done. assert (Hl0 : length (flat []) = 0%nat) by done.
  assert (Hl8 : length demo_auxv = 8%nat) by done.
  destruct Hw as (Hw1 & Hw2 & Hw3).
  split; unfold string_at, packed_at, outside, vec_at, aux_size; rewrite ?Hl2, ?Hl0, ?Hl8;
    cbn [length starts]; try lia.
  - split; [done|]. split; [apply Hs|]. lia.
  - split; [|exact Hw2]. intros [|i] q; [intros [= <-]; split; [exact Hw1|done]|done].
  - split; [done|]. split; [repeat constructor; lia|]. lia.
  - split; [done|exact Hw3].
  - split; [done|]. split; [constructor|]. lia.
  - by apply demo_aux_at.
  - unfold aux_needed. repeat (constructor; [eexists; reflexivity|]). constructor.
Qed.

Lemma setup_arguments_layout_witness :
  exists w, setup_arguments obliging 0x20000 0x1000 0x2000 0x3000 demo_data (demo_launch long_path)
            = (Ret 0x1fee0, set_world w (demo_launch long_path))
    /\ word_at (p_load obliging w) 0x1fee0 = 2 /\ word_at (p_load obliging w) 0x1fee8 = 0x1fff7.
Proof.
  destruct (setup_arguments_layout obliging (demo_launch long_path) 0x20000 0x1000 0x2000 0x3000
              0x1100 0x1200 long_path [[120]] [] demo_auxv demo_data
              (demo_launch_ok long_path (or_intror eq_refl)) demo_data_ok) as (w & He & [_ Hw _ _] & _);
    [vm_compute; discriminate|].
  exists w. split; [exact He|]. split; [exact (Hw 0%nat 2 eq_refl)|exact (Hw 1%nat 0x1fff7 eq_refl)].
Defined.

Lemma setup_arguments_clobbers_witness :
  exists w, setup_arguments obliging 0x20000 0x1000 0x2000 0x3000 demo_data (demo_launch short_path)
            = (Ret 0x1ff00, set_world w (demo_launch short_path))
    /\ word_at (p_load obliging w) 0x1ff08 = 0x1fffb /\ p_load obliging w 0x1fffb = 0.
Proof.
  exact (setup_arguments_clobbers obliging (demo_launch short_path) 0x20000 0x1000 0x2000 0x3000
           0x1100 0x1200 short_path [[120]] [] demo_auxv demo_data
           (demo_launch_ok short_path (or_introl eq_refl)) demo_data_ok eq_refl).
Defined.

(** A file with one text segment at 0x400000. *)
Definition demo_ph : elf_phdr := ElfPhdr PT_LOAD (Z.lor PF_R PF_X) 0x400000 0x1000 0x1000.
Definition demo_elf : elf_lib (Z -> Z) := {|
  el_hdr := fun _ _ => ElfHdr ET_EXEC 0x400100 0x40 1;
  el_iter_ph := fun _ f => iter_phdrs f [demo_ph];
|}.

#[export] Instance demo_elf_ok : elf_lib_ok demo_elf (fun _ => [demo_ph]).
Proof. by split. Qed.

Lemma load_elf_confined_witness :
  exists l, trace (load_elf obliging dune_x86 demo_elf 0x1000 (demo_launch long_path)).2 = l
            /\ Forall load_event l.
Proof.
  destruct (load_elf_confined obliging dune_x86 demo_elf (fun _ => [demo_ph]) 0x1000 (demo_launch long_path))
    as (l & Hl & Hf); [|exists l; split; [exact Hl|exact Hf]].
  intros h. constructor; [|constructor]. pose proof (load_offset_range h). unfold ph_ok; cbn. mlia.
Defined.

Lemma wrapping_segment_mapped_witness :
  let ph := ElfPhdr PT_LOAD PF_R (2 ^ 64 - 4096) 0 8192 in
  let h := ElfHdr ET_EXEC 0x400100 0x40 1 in
  exists l r, trace (process_elf_ph obliging dune_x86 h ph (demo_launch long_path)).2
    = (VmMapPhys (2 ^ 64 - 4096) 8192 (2 ^ 64 - 4096) 3, r) :: l.
Proof.
  intros ph h.
  destruct (wrapping_segment_mapped obliging dune_x86 h ph (demo_launch long_path)) as (l & r & Ht & _);
    try reflexivity; try (cbn; unfold APP_MAX_ELF_VADDR; mlia); try (cbn; discriminate).
  exists l, r. exact Ht.
Defined.

Lemma boxer_main_guarded_witness :
  exists l, trace (boxer_main obliging dune_x86 demo_elf 2 0x2000 0x3000 (demo_launch long_path)).2 = l
    /\ (Forall no_jump l
        \/ exists pre tf r, l = pre ++ [(JumpToUser tf, r)] /\ Forall no_jump pre
             /\ Forall succeeded pre /\ before_start `sublist_of` (fst <$> pre)).
Proof.
  exact (boxer_main_guarded obliging dune_x86 demo_elf (fun _ => [demo_ph]) 2 0x2000 0x3000
           (demo_launch long_path)).
Defined.
