(* ===== verification/CString.v ===== *)
(** Text as C handles it: byte strings, white space, the [%s] conversion of
    sscanf and the digits of a number, shared by the rule parser of the
    firewall and the reader of /proc/self/maps. *)

From stdpp Require Import base numbers list option strings.
From S2P Require Import Prelude.

Definition bytes (s : string) : list Z :=
  (fun a => Z.of_N (Ascii.N_of_ascii a)) <$> String.list_ascii_of_string s.

Definition isspace (c : Z) : bool := (c =? 32) || ((9 <=? c) && (c <=? 13)).

(** The C string at the start of a byte array: up to the first NUL. *)
Fixpoint cstr (l : list Z) : list Z :=
  match l with
  | [] => []
  | c :: l => if c =? 0 then [] else c :: cstr l
  end.

(** strncmp(p, s, strlen(p)) == 0 *)
Fixpoint starts_with (p s : list Z) : bool :=
  match p, s with
  | [], _ => true
  | a :: p, b :: s => (a =? b) && starts_with p s
  | _ :: _, [] => false
  end.

Fixpoint skip_space (l : list Z) : list Z :=
  match l with
  | c :: l' => if isspace c then skip_space l' else l
  | [] => []
  end.

(** The longest prefix without white space, and the rest. *)
Fixpoint word (l : list Z) : list Z * list Z :=
  match l with
  | c :: l' => if isspace c then ([], l) else (c :: (word l').1, (word l').2)
  | [] => ([], [])
  end.

(** One [%s] conversion of sscanf into an array: white space is skipped; no
    character left stops the scan and leaves the array alone; a word is stored
    with its NUL, which is undefined when they do not fit. The result is the
    new array and the rest of the input, [None] in place of the rest when the
    scan stopped. *)
Definition scan_s (buf l : list Z) : outcome (list Z * option (list Z)) :=
  match word (skip_space l) with
  | ([], _) => Ret (buf, None)
  | (w, rest) =>
      if (length w <? length buf)%nat
      then Ret (w ++ 0 :: drop (S (length w)) buf, Some rest)
      else UB
  end.

Definition digit_of (base c : Z) : option Z :=
  let d := if (48 <=? c) && (c <=? 57) then c - 48
           else if (97 <=? c) && (c <=? 102) then c - 87
           else if (65 <=? c) && (c <=? 70) then c - 55 else 99 in
  if d <? base then Some d else None.

Fixpoint take_digits (base acc : Z) (l : list Z) : Z * list Z :=
  match l with
  | c :: l' => match digit_of base c with
               | Some d => take_digits base (acc * base + d) l'
               | None => (acc, l)
               end
  | [] => (acc, [])
  end.

(** atoi, as strtol in base 10: saturated at the ends of [long], then
    converted to [int]. *)
Definition atoi (s : list Z) : Z :=
  let l := skip_space s in
  let '(sign, l) := match l with
                    | c :: l' => if c =? 45 then (-1, l') else if c =? 43 then (1, l') else (1, l)
                    | [] => (1, [])
                    end in
  to_int (Z.max (- 2 ^ 63) (Z.min (2 ^ 63 - 1) (sign * (take_digits 10 0 l).1))).
