(* ===== verification/Policy.v ===== *)
(** The security policies of sthreads and the tagged memory they name
    (wedge/src/sthread.c, wedge/include/sthread.h): [sc_t] with its
    [sc_*_add] functions and the queries the system-call handler makes, and
    the tag allocator [tag_new] and [smalloc].

    The arrays of [sc_t] are lists of their C length. A scan for a free slot
    that runs past its array goes on through the fields behind it, as it does
    in memory, and ends in the error exit; past the structure it is
    undefined. *)

From stdpp Require Import base numbers list option.
From S2P Require Import Prelude Platform.

(** ** Policies *)

Record sc_t := Sc { sc_mem : list Z; sc_fd : list Z; sc_sys : list Z }.

#[export] Instance sc_eq_dec : EqDecision sc_t.
Proof. solve_decision. Defined.

Definition TAG_SIZE : Z := 4096 * 10.
Definition STACK_SIZE : Z := 4096 * 10.
Definition PROT_READ : Z := 1.
Definition PROT_WRITE : Z := 2.
Definition PROT_EXEC : Z := 4.
Definition SYS_read : Z := 0.
Definition SYS_write : Z := 1.
Definition SYS_open : Z := 2.
Definition SYS_close : Z := 3.
Definition SYS_sthread_exit : Z := 666.

Definition sc_init : sc_t := Sc (replicate 8 0) (replicate 8 0) (replicate 16 0).

Record tag := Tag { t_id : Z; t_buf : Z; t_p : Z; t_len : Z }.

#[export] Instance tag_eq_dec : EqDecision tag.
Proof. solve_decision. Defined.

(** The loops that look for a tag. *)
Fixpoint find_tag (tags : list tag) (tid : Z) : option tag :=
  match tags with
  | [] => None
  | t :: tags => if t_id t =? tid then Some t else find_tag tags tid
  end.

Fixpoint first_zero (l : list Z) : option nat :=
  match l with
  | [] => None
  | x :: l => if x =? 0 then Some O else S <$> first_zero l
  end.

(** The bytes of [sc_sys] read as words. *)
Definition sys_words (sys : list Z) : list Z :=
  let ld a := nth (Z.to_nat a) sys 0 in [load_word ld 8 0; load_word ld 8 8].

(** The free slot of an array, with the words of the structure behind it. *)
Definition free_slot (own behind : list Z) : outcome nat :=
  match first_zero own, first_zero behind with
  | Some i, _ => Ret i
  | None, Some _ => Exit 1
  | None, None => UB
  end.

Definition TAG_MASK : Z := 0xfffffffffffffff0.

Definition sc_mem_add (tags : list tag) (sc : sc_t) (tid prot : Z) : outcome sc_t :=
  match find_tag tags tid with
  | None => Exit 0
  | Some t =>
      match free_slot (sc_mem sc) (sc_fd sc ++ sys_words (sc_sys sc)) with
      | Ret i =>
          let addr := Z.land (t_buf t) TAG_MASK in
          if negb (addr =? t_buf t) then Abort
          else if negb (Z.land prot 0xf =? prot) then Abort
          else Ret (Sc (<[i := Z.lor addr prot]> (sc_mem sc)) (sc_fd sc) (sc_sys sc))
      | Exit n => Exit n
      | _ => UB
      end
  end.

(** The shift is done on [int], and the result converted to unsigned long; the
    assertions come after the store. *)
Definition sc_fd_add (sc : sc_t) (fd prot : Z) : outcome sc_t :=
  match free_slot (sc_fd sc) (sys_words (sc_sys sc)) with
  | Ret i =>
      let f := wrap64 (to_int (Z.lor (Z.shiftl fd 8) prot)) in
      if negb (Z.shiftr f 8 =? wrap64 fd) then Abort
      else if negb (Z.land f 0xf =? wrap64 prot) then Abort
      else Ret (Sc (sc_mem sc) (<[i := f]> (sc_fd sc)) (sc_sys sc))
  | Exit n => Exit n
  | _ => UB
  end.

(** The position of a system call: the bound test lets 16 through, which is
    one past the end of the array; a shift by a negative amount is undefined. *)
Definition sys_pos (sysno : Z) : outcome nat :=
  let pos := Z.quot sysno 8 in
  if (pos <? 0) || (16 <? pos) then Exit 1
  else if (pos =? 16) || (sysno <? 0) then UB
  else Ret (Z.to_nat pos).

Definition sc_sys_add (sc : sc_t) (sysno : Z) : outcome sc_t :=
  match sys_pos sysno with
  | Ret pos =>
      let byte := nth pos (sc_sys sc) 0 in
      Ret (Sc (sc_mem sc) (sc_fd sc)
              (<[pos := wrap8 (Z.lor byte (Z.shiftl 1 (Z.rem sysno 8)))]> (sc_sys sc)))
  | Exit n => Exit n
  | _ => UB
  end.

(** has_fd_perm: the first entry for the descriptor decides. *)
Fixpoint fd_perm (fds : list Z) (fd perm : Z) : bool :=
  match fds with
  | [] => false
  | f :: fds =>
      let f := to_int f in
      if f =? 0 then false
      else if Z.shiftr f 8 =? fd then truthy (Z.land (Z.land f 0xf) perm)
      else fd_perm fds fd perm
  end.

Definition has_fd_perm (sc : sc_t) (fd perm : Z) : bool := fd_perm (sc_fd sc) fd perm.

Definition can_do_sys (sc : sc_t) (sysno : Z) : outcome Z :=
  if (sysno =? SYS_sthread_exit) || (sysno =? SYS_read) || (sysno =? SYS_write) then Ret 1
  else
    match sys_pos sysno with
    | Ret pos => Ret (Z.land (nth pos (sc_sys sc) 0) (Z.shiftl 1 (Z.rem sysno 8)))
    | Exit n => Exit n
    | _ => UB
    end.

(** ** Tagged memory *)

(** tag_new, for the address mmap answered with ([None]: it failed): the new
    list and the next id. The counter is an int, whose increment may not
    overflow. *)
Definition tag_new (tags : list tag) (next : Z) (buf : option Z) : outcome (Z * list tag * Z) :=
  if next =? 2 ^ 31 - 1 then UB else
  match buf with
  | None => Exit 1
  | Some b => Ret (next, Tag next b b TAG_SIZE :: tags, next + 1)
  end.

(** smalloc: the block, or [None] for NULL, and the tags afterwards. *)
Fixpoint smalloc (tags : list tag) (tid sz : Z) : option Z * list tag :=
  match tags with
  | [] => (None, [])
  | t :: tags =>
      if t_id t =? tid then
        if t_len t <? wrap64 (wrap64 (t_p t - t_buf t) + sz) then (None, t :: tags)
        else (Some (t_p t), Tag (t_id t) (t_buf t) (wrap64 (t_p t + sz)) (t_len t) :: tags)
      else let '(p, tags) := smalloc tags tid sz in (p, t :: tags)
  end.

(** ** Facts about policies *)

(** A policy as the functions build it. *)
Definition sc_ok (sc : sc_t) : Prop :=
  length (sc_mem sc) = 8%nat /\ length (sc_fd sc) = 8%nat /\ length (sc_sys sc) = 16%nat
  /\ Forall (fun b => 0 <= b < 256) (sc_sys sc).

Lemma sc_init_ok : sc_ok sc_init.
Proof. repeat split; repeat (constructor; [lia|]); constructor. Qed.

Lemma sys_pos_ok n : 0 <= n < 128 -> sys_pos n = Ret (Z.to_nat (n / 8)).
Proof.
  intros Hn. unfold sys_pos. rewrite Z.quot_div_nonneg by lia.
  assert (0 <= n / 8 < 16) by (split; [apply Z.div_pos; lia|apply Z.div_lt_upper_bound; lia]).
  destruct (Z.ltb_spec (n / 8) 0), (Z.ltb_spec 16 (n / 8)), (Z.eqb_spec (n / 8) 16), (Z.ltb_spec n 0);
    cbn; lia || done.
Qed.

(** What the system-call part of a policy permits. *)
Definition permits (sc : sc_t) (n : Z) : bool := Z.testbit (nth (Z.to_nat (n / 8)) (sc_sys sc) 0) (n mod 8).

Lemma land_bit_truthy x i : 0 <= i -> truthy (Z.land x (Z.shiftl 1 i)) = Z.testbit x i.
Proof.
  intros Hi. rewrite Z.shiftl_1_l. unfold truthy. destruct (Z.testbit x i) eqn:Hb.
  - destruct (Z.eqb_spec (Z.land x (2 ^ i)) 0) as [H|]; [|done].
    apply (f_equal (fun z => Z.testbit z i)) in H.
    rewrite Z.land_spec, Hb, Z.pow2_bits_true, Z.bits_0 in H by lia. done.
  - replace (Z.land x (2 ^ i)) with 0; [done|]. symmetry. apply Z.bits_inj'. intros j Hj.
    rewrite Z.land_spec, Z.bits_0. destruct (decide (j = i)) as [->|Hne]; [by rewrite Hb|].
    rewrite Z.pow2_bits_false by lia. apply andb_false_r.
Qed.

Lemma can_do_sys_permits sc n :
  0 <= n < 128 -> exists v, can_do_sys sc n = Ret v
    /\ truthy v = (n =? SYS_read) || (n =? SYS_write) || permits sc n.
Proof.
  intros Hn. unfold can_do_sys. destruct (Z.eqb_spec n SYS_sthread_exit) as [->|_];
    [unfold SYS_sthread_exit in Hn; lia|].
  destruct (n =? SYS_read); [by exists 1|]. destruct (n =? SYS_write); [by exists 1|]. cbn [orb].
  rewrite sys_pos_ok by done. eexists. split; [reflexivity|].
  rewrite Z.rem_mod_nonneg by lia. apply land_bit_truthy. apply Z.mod_pos_bound. lia.
Qed.

Lemma permits_add sc n m :
  sc_ok sc -> 0 <= n < 128 -> 0 <= m < 128 ->
  exists sc', sc_sys_add sc n = Ret sc' /\ sc_ok sc' /\ sc_mem sc' = sc_mem sc /\ sc_fd sc' = sc_fd sc
    /\ permits sc' m = (m =? n) || permits sc m.
Proof.
  intros (Hm & Hf & Hs & Hb) Hn Hm'. unfold sc_sys_add. rewrite sys_pos_ok by done.
  rewrite Z.rem_mod_nonneg by lia.
  assert (Hr : forall x, 0 <= x < 128 -> 0 <= x / 8 < 16 /\ 0 <= x mod 8 < 8).
  { intros x Hx. split; [split; [apply Z.div_pos; lia|apply Z.div_lt_upper_bound; lia]|].
    apply Z.mod_pos_bound. lia. }
  destruct (Hr n Hn) as [Hq Hi]. destruct (Hr m Hm') as [Hq' Hi'].
  set (b := nth (Z.to_nat (n / 8)) (sc_sys sc) 0).
  eexists. split; [reflexivity|]. split; [|split; [done|split; [done|]]].
  { repeat split; cbn; try done; [by rewrite length_insert|]. apply Forall_insert; [done|].
    apply wrap_range. lia. }
  unfold permits; cbn [sc_sys].
  destruct (decide (m / 8 = n / 8)) as [He|He].
  - rewrite He. rewrite (nth_lookup_Some _ _ _ (wrap8 (Z.lor b (Z.shiftl 1 (n mod 8)))))
      by (apply list_lookup_insert_eq; lia).
    unfold wrap. rewrite Z.mod_pow2_bits_low by lia. rewrite Z.lor_spec, Z.shiftl_1_l.
    fold b. destruct (Z.eqb_spec m n) as [->|Hne].
    + rewrite Z.pow2_bits_true by lia. apply orb_true_r.
    + rewrite Z.pow2_bits_false; [apply orb_false_r|].
      intros Heq. apply Hne. pose proof (Z_div_mod_eq_full m 8). pose proof (Z_div_mod_eq_full n 8). lia.
  - destruct (Z.eqb_spec m n) as [->|_]; [done|]. cbn [orb]. f_equal.
    rewrite !nth_lookup. rewrite list_lookup_insert_ne by lia. done.
Qed.
