(* ===== verification/PolicyProps.v ===== *)
(** What the policies of sthreads and their memory tags guarantee. *)

From stdpp Require Import base numbers list option.
From S2P Require Import Prelude Platform Policy.

(** ** Tables *)

(** The used part [es] of an array of eight slots; the rest is zero. *)
Definition table (l es : list Z) : Prop :=
  l = es ++ replicate (8 - length es) 0 /\ (length es <= 8)%nat /\ Forall (fun f => 0 < f < 2 ^ 31) es.

Lemma first_zero_app es l : Forall (fun f => 0 < f < 2 ^ 31) es -> first_zero (es ++ 0 :: l) = Some (length es).
Proof.
  induction 1 as [|f es Hf Hes IH]; cbn; [done|]. destruct (Z.eqb_spec f 0); [lia|]. by rewrite IH.
Qed.

Lemma first_zero_none es : Forall (fun f => 0 < f < 2 ^ 31) es -> first_zero es = None.
Proof.
  induction 1 as [|f es Hf Hes IH]; cbn; [done|]. destruct (Z.eqb_spec f 0); [lia|]. by rewrite IH.
Qed.

Lemma table_push l es f :
  table l es -> (length es < 8)%nat -> 0 < f < 2 ^ 31 -> table (<[length es := f]> l) (es ++ [f]).
Proof.
  intros (-> & _ & He) Hl Hf. split; [|split; [rewrite length_app; cbn; lia|]].
  - replace (8 - length es)%nat with (S (8 - length (es ++ [f]))) by (rewrite length_app; cbn; lia).
    cbn [replicate]. rewrite insert_app_r_alt, Nat.sub_diag by lia. cbn. by rewrite <- app_assoc.
  - apply Forall_app. split; [done|]. constructor; [exact Hf|constructor].
Qed.

Lemma free_slot_table l es behind :
  table l es ->
  free_slot l behind = if (length es <? 8)%nat then Ret (length es)
                       else match first_zero behind with Some _ => Exit 1 | None => UB end.
Proof.
  intros (-> & Hl & He). unfold free_slot. destruct (Nat.ltb_spec (length es) 8) as [H|H].
  - destruct (8 - length es)%nat as [|k] eqn:Hk; [lia|]. cbn [replicate]. by rewrite first_zero_app.
  - replace (8 - length es)%nat with 0%nat by lia. cbn [replicate]. rewrite app_nil_r.
    rewrite first_zero_none by done. done.
Qed.

(** ** Descriptors *)

(** What the used entries say about a descriptor: the first that names it. *)
Fixpoint fd_grant (es : list Z) (fd : Z) : option Z :=
  match es with
  | [] => None
  | f :: es => if Z.shiftr f 8 =? fd then Some (Z.land f 0xf) else fd_grant es fd
  end.

Lemma to_int_id x : 0 <= x < 2 ^ 31 -> to_int x = x.
Proof.
  intros. unfold to_int. rewrite Z.mod_small by lia. destruct (Z.ltb_spec x (2 ^ 31)); lia.
Qed.

Lemma fd_perm_grant l es fd perm :
  table l es -> fd_perm l fd perm = match fd_grant es fd with Some p => truthy (Z.land p perm) | None => false end.
Proof.
  intros (-> & _ & He). induction He as [|f es Hf He IH].
  - cbn [app length]. by replace (8 - 0)%nat with 8%nat by lia.
  - cbn [fd_grant app fd_perm length]. rewrite to_int_id by lia.
    destruct (Z.eqb_spec f 0); [lia|]. destruct (Z.shiftr f 8 =? fd); [done|].
    rewrite <- IH. clear. revert es. 
    assert (Hz : forall k, fd_perm (replicate k 0) fd perm = false) by (by intros []).
    intros es. generalize (8 - S (length es))%nat (8 - length es)%nat. intros n m.
    induction es as [|g es IH]; cbn [app fd_perm]; [by rewrite !Hz|].
    destruct (to_int g =? 0); [done|]. destruct (Z.shiftr (to_int g) 8 =? fd); [done|apply IH].
Qed.

Lemma fd_grant_app es f fd :
  fd_grant (es ++ [f]) fd
  = match fd_grant es fd with
    | Some p => Some p
    | None => if Z.shiftr f 8 =? fd then Some (Z.land f 0xf) else None
    end.
Proof. induction es as [|g es IH]; cbn; [done|]. destruct (Z.shiftr g 8 =? fd); auto. Qed.

(** The encoding of an entry. *)
Lemma fd_encode fd prot :
  0 <= fd < 2 ^ 23 -> 0 <= prot < 16 ->
  Z.lor (Z.shiftl fd 8) prot = 256 * fd + prot
  /\ Z.shiftr (256 * fd + prot) 8 = fd /\ Z.land (256 * fd + prot) 0xf = prot.
Proof.
  intros Hfd Hp.
  assert (Hs : Z.shiftr (256 * fd + prot) 8 = fd).
  { rewrite Z.shiftr_div_pow2 by lia. change (2 ^ 8) with 256.
    rewrite Z.add_comm, Z.mul_comm, Z.div_add, Z.div_small by lia. lia. }
  split; [|split; [done|]].
  - rewrite Z.shiftl_mul_pow2 by lia. change (2 ^ 8) with 256.
    assert (Hl : Z.land (fd * 256) prot = 0); [|pose proof (Z.add_lor_land (fd * 256) prot); lia].
    apply Z.bits_inj'. intros i Hi. rewrite Z.land_spec, Z.bits_0.
    change 256 with (2 ^ 8). destruct (Z_lt_le_dec i 8).
    + rewrite Z.mul_pow2_bits_low by lia. done.
    + rewrite <- (Z.mod_small prot (2 ^ 8)) by lia. rewrite Z.mod_pow2_bits_high by lia.
      apply andb_false_r.
  - change 0xf with (2 ^ 4 - 1). rewrite land_ones_mod by lia. change (2 ^ 4) with 16.
    replace (256 * fd + prot) with (prot + (16 * fd) * 16) by lia. rewrite Z.mod_add by lia.
    apply Z.mod_small. lia.
Qed.

(** With room in the table, a grant adds its entry at the end. *)
Lemma sc_fd_add_room sc es fd prot :
  sc_ok sc -> table (sc_fd sc) es -> (length es < 8)%nat -> 0 <= fd < 2 ^ 23 -> 0 < prot < 16 ->
  exists sc', sc_fd_add sc fd prot = Ret sc'
    /\ sc_ok sc' /\ sc_mem sc' = sc_mem sc /\ sc_sys sc' = sc_sys sc
    /\ table (sc_fd sc') (es ++ [256 * fd + prot])
    /\ forall fd' perm, has_fd_perm sc' fd' perm
         = match fd_grant es fd' with
           | Some p => has_fd_perm sc fd' perm
           | None => (fd' =? fd) && truthy (Z.land prot perm)
           end.
Proof.
  intros Hok Ht Hlt Hfd Hp. unfold sc_fd_add. rewrite (free_slot_table _ es) by done.
  destruct (Nat.ltb_spec (length es) 8) as [_|?]; [|lia].
  destruct (fd_encode fd prot) as (He & Hs & Hm); [lia..|].
  rewrite He, to_int_id, (wrap64_small (256 * fd + prot)), Hs, Hm by mlia.
  rewrite !wrap64_small, !Z.eqb_refl by mlia. cbn [negb].
  assert (Ht' : table (<[length es := 256 * fd + prot]> (sc_fd sc)) (es ++ [256 * fd + prot]))
    by (apply table_push; [done|done|lia]).
  destruct Hok as (H1 & H2 & H3 & H4). eexists. split; [reflexivity|].
  split; [repeat split; cbn; auto; by rewrite length_insert|].
  do 2 (split; [done|]). split; [done|]. intros fd' perm. unfold has_fd_perm at 1. cbn [sc_fd].
  rewrite (fd_perm_grant _ _ _ _ Ht'), fd_grant_app. unfold has_fd_perm.
  rewrite (fd_perm_grant _ _ _ _ Ht). destruct (fd_grant es fd'); [done|].
  rewrite Hs, Hm, Z.eqb_sym. by destruct (fd' =? fd).
Qed.

(** C28. Granting a descriptor: with room in the table, [sc_fd_add] changes the
    answer of [has_fd_perm] for that descriptor alone, to exactly the granted
    permissions, and only when no earlier grant names it, which otherwise keeps
    deciding; with a full table it does not return. *)
Theorem sc_fd_add_exact sc es fd prot :
  sc_ok sc -> table (sc_fd sc) es -> 0 <= fd < 2 ^ 23 -> 0 < prot < 16 ->
  match sc_fd_add sc fd prot with
  | Ret sc' =>
      sc_ok sc' /\ sc_mem sc' = sc_mem sc /\ sc_sys sc' = sc_sys sc /\ (length es < 8)%nat
      /\ table (sc_fd sc') (es ++ [256 * fd + prot])
      /\ forall fd' perm, has_fd_perm sc' fd' perm
           = match fd_grant es fd' with
             | Some p => has_fd_perm sc fd' perm
             | None => (fd' =? fd) && truthy (Z.land prot perm)
             end
  | Exit n => n = 1 /\ length es = 8%nat
  | Abort | Leave _ => False
  | UB => length es = 8%nat
  end.
Proof.
  intros Hok Ht Hfd Hp. pose proof Ht as (_ & Hl & _). destruct (Nat.ltb_spec (length es) 8) as [Hlt|Hge].
  - destruct (sc_fd_add_room sc es fd prot) as (sc' & -> & ?); [done..|]. naive_solver.
  - unfold sc_fd_add. rewrite (free_slot_table _ es) by done. destruct (Nat.ltb_spec (length es) 8); [lia|].
    destruct (first_zero (sys_words (sc_sys sc))); [split; [done|lia]|lia].
Qed.

Lemma sc_fd_add_exact_witness :
  exists sc', sc_fd_add sc_init 5 PROT_READ = Ret sc' /\ has_fd_perm sc' 5 PROT_READ = true
    /\ has_fd_perm sc' 5 PROT_WRITE = false.
Proof.
  pose proof (sc_fd_add_exact sc_init [] 5 PROT_READ sc_init_ok) as H.
  destruct (sc_fd_add sc_init 5 PROT_READ) as [sc'| | | |] eqn:He; try discriminate He.
  exists sc'. destruct H as (_ & _ & _ & _ & _ & Hf);
    [split; [reflexivity|split; [cbn; lia|constructor]]|lia|unfold PROT_READ; lia|].
  split; [reflexivity|]. rewrite !Hf. split; reflexivity.
Defined.

(** C29. Granting a system call, for the calls the table can hold (0 to 127):
    [sc_sys_add] succeeds and [can_do_sys] then allows exactly one call more,
    besides read and write, which it always allows. Outside the table: 128 to
    135 pass the bound test and touch the byte behind the array, and any higher
    number ends the process in the grant, and in the query as well, except for
    666, the exit of an sthread, which the query always allows. *)
Theorem sc_sys_add_exact sc n :
  sc_ok sc ->
  (0 <= n < 128 -> exists sc', sc_sys_add sc n = Ret sc' /\ sc_ok sc' /\ sc_mem sc' = sc_mem sc
     /\ sc_fd sc' = sc_fd sc
     /\ forall m, 0 <= m < 128 -> exists v v', can_do_sys sc m = Ret v /\ can_do_sys sc' m = Ret v'
          /\ truthy v' = (m =? n) || truthy v)
  /\ (128 <= n < 136 -> sc_sys_add sc n = UB /\ can_do_sys sc n = UB)
  /\ (136 <= n -> sc_sys_add sc n = Exit 1
        /\ can_do_sys sc n = if n =? 666 then Ret 1 else Exit 1).
Proof.
  intros Hok. split; [|split].
  - intros Hn. destruct (permits_add sc n 0 Hok Hn ltac:(lia)) as (sc' & He & Hok' & Hm & Hf & _).
    exists sc'. do 4 (split; [done|]). intros m Hm'.
    destruct (permits_add sc n m Hok Hn Hm') as (sc'' & He' & _ & _ & _ & Hp).
    rewrite He in He'. injection He' as <-.
    destruct (can_do_sys_permits sc m Hm') as (v & Hv & Hvt).
    destruct (can_do_sys_permits sc' m Hm') as (v' & Hv' & Hvt').
    exists v, v'. do 2 (split; [done|]). rewrite Hvt', Hvt, Hp.
    by destruct (m =? SYS_read), (m =? SYS_write), (m =? n).
  - intros Hn. assert (Hp : sys_pos n = UB).
    { unfold sys_pos. rewrite Z.quot_div_nonneg by lia.
      replace (n / 8) with 16 by (apply Z.div_unique with (n - 128); lia). done. }
    unfold sc_sys_add, can_do_sys. rewrite Hp. split; [done|].
    destruct (Z.eqb_spec n SYS_sthread_exit), (Z.eqb_spec n SYS_read), (Z.eqb_spec n SYS_write);
      unfold SYS_sthread_exit, SYS_read, SYS_write in *; cbn; lia || done.
  - intros Hn. assert (Hp : sys_pos n = Exit 1).
    { unfold sys_pos. rewrite Z.quot_div_nonneg by lia.
      assert (17 <= n / 8) by (apply Z.div_le_lower_bound; lia).
      destruct (Z.ltb_spec (n / 8) 0), (Z.ltb_spec 16 (n / 8)); cbn; lia || done. }
    unfold sc_sys_add, can_do_sys. rewrite Hp. split; [done|].
    unfold SYS_sthread_exit, SYS_read, SYS_write.
    destruct (Z.eqb_spec n 666), (Z.eqb_spec n 0), (Z.eqb_spec n 1); cbn; lia || done.
Qed.

Lemma sc_sys_add_exact_witness :
  (exists sc', sc_sys_add sc_init 2 = Ret sc' /\ exists v, can_do_sys sc' 2 = Ret v /\ truthy v = true)
  /\ can_do_sys sc_init 257 = Exit 1.
Proof.
  destruct (sc_sys_add_exact sc_init 2 sc_init_ok) as (H & _ & _). split.
  - destruct (H ltac:(lia)) as (sc' & He & _ & _ & _ & Hm). exists sc'. split; [exact He|].
    destruct (Hm 2 ltac:(lia)) as (v & v' & _ & Hv' & Ht). exists v'. split; [exact Hv'|].
    rewrite Ht. reflexivity.
  - destruct (sc_sys_add_exact sc_init 257 sc_init_ok) as (_ & _ & H'). apply H'. lia.
Defined.

(** ** Tagged memory *)

Definition tag_ok (t : tag) : Prop :=
  0 <= t_buf t /\ t_buf t <= t_p t <= t_buf t + t_len t /\ t_len t = TAG_SIZE /\ t_buf t + t_len t < 2 ^ 64.

Definition apart (a alen b blen : Z) : Prop := a + alen <= b \/ b + blen <= a.

(** A block handed out: its tag, address and size. *)
Definition block : Type := Z * Z * Z.

(** Histories of the allocator. mmap returns areas apart from those it has
    returned; a request is one whose end can be computed. *)
Inductive heap : list tag -> Z -> list block -> Prop :=
  | heap_init : heap [] 0 []
  | heap_tag tags next bs buf id tags' next' :
      heap tags next bs -> 0 <= buf -> buf + TAG_SIZE < 2 ^ 64 ->
      Forall (fun t => apart buf TAG_SIZE (t_buf t) TAG_SIZE) tags ->
      tag_new tags next (Some buf) = Ret (id, tags', next') -> heap tags' next' bs
  | heap_alloc tags next bs tid sz r tags' :
      heap tags next bs -> 0 <= sz -> sz + TAG_SIZE < 2 ^ 64 -> smalloc tags tid sz = (r, tags') ->
      heap tags' next (match r with Some p => (tid, p, sz) :: bs | None => bs end).

Lemma smalloc_spec tags tid sz r tags' :
  Forall tag_ok tags -> 0 <= sz -> sz + TAG_SIZE < 2 ^ 64 -> smalloc tags tid sz = (r, tags') ->
  (r = None /\ tags' = tags)
  \/ exists pre t post, tags = pre ++ t :: post /\ t_id t = tid /\ r = Some (t_p t)
       /\ t_p t + sz <= t_buf t + t_len t
       /\ tags' = pre ++ Tag (t_id t) (t_buf t) (t_p t + sz) (t_len t) :: post.
Proof.
  intros Hok Hsz Hw. revert r tags'. induction Hok as [|t tags Ht Hok IH]; intros r tags'; cbn [smalloc].
  { intros [= <- <-]. by left. }
  destruct (Z.eqb_spec (t_id t) tid) as [<-|Hne].
  - destruct Ht as (Hb & Hp & Hl & He). unfold TAG_SIZE in *.
    rewrite (wrap64_small (t_p t - t_buf t)), (wrap64_small (_ + sz)) by mlia.
    destruct (Z.ltb_spec (t_len t) (t_p t - t_buf t + sz)) as [Hf|Hf]; intros [= <- <-]; [by left|right].
    exists [], t, tags. rewrite wrap64_small by mlia. repeat split; lia.
  - destruct (smalloc tags tid sz) as [p ts] eqn:He. intros [= <- <-].
    destruct (IH _ _ eq_refl) as [[-> ->]|(pre & t' & post & -> & ? & ? & ? & ->)]; [by left|right].
    exists (t :: pre), t', post. done.
Qed.

(** The blocks of a tag lie between its start and its fill pointer. *)
Definition heap_inv (tags : list tag) (next : Z) (bs : list block) : Prop :=
  Forall tag_ok tags /\ Forall (fun t => t_id t < next) tags /\ NoDup (t_id <$> tags)
  /\ (forall i j a b, (t_buf <$> tags) !! i = Some a -> (t_buf <$> tags) !! j = Some b -> i <> j ->
        apart a TAG_SIZE b TAG_SIZE)
  /\ Forall (fun '(tid, p, sz) => 0 <= sz /\ exists t, t ∈ tags /\ t_id t = tid /\ t_buf t <= p
                                  /\ p + sz <= t_p t) bs
  /\ (forall i j b b', bs !! i = Some b -> bs !! j = Some b' -> i <> j ->
        apart b.1.2 b.2 b'.1.2 b'.2).

Lemma heap_inv_tag tags next bs buf :
  heap_inv tags next bs -> 0 <= buf -> buf + TAG_SIZE < 2 ^ 64 ->
  Forall (fun t => apart buf TAG_SIZE (t_buf t) TAG_SIZE) tags ->
  heap_inv (Tag next buf buf TAG_SIZE :: tags) (next + 1) bs.
Proof.
  intros (H1 & H2 & H3 & H4 & H5 & H6) Hb Hw Ha. split; [|split; [|split; [|split; [|split]]]].
  - constructor; [|done]. unfold tag_ok, TAG_SIZE in *; cbn. lia.
  - constructor; [cbn; lia|]. eapply List.Forall_impl; [|exact H2]. cbn. lia.
  - cbn. constructor; [|done]. rewrite list_elem_of_fmap. intros (t & He & Ht).
    rewrite List.Forall_forall in H2. apply list_elem_of_In, H2 in Ht. lia.
  - assert (Ha' : Forall (fun a => apart buf TAG_SIZE a TAG_SIZE) (t_buf <$> tags)) by (by apply Forall_fmap).
    intros [|i] [|j] a b Hi Hj Hne; cbn in *; [done| | |eapply (H4 i j); eauto].
    + injection Hi as <-. apply (Forall_lookup_1 _ _ _ _ Ha' Hj).
    + injection Hj as <-. pose proof (Forall_lookup_1 _ _ _ _ Ha' Hi). unfold apart in *. cbn in *. lia.
  - eapply List.Forall_impl; [|exact H5]. intros [[tid p] sz] (Hs & t & Ht & Hr). split; [done|].
    exists t. split; [by apply list_elem_of_further|done].
  - done.
Qed.

Lemma heap_inv_alloc pre t post next bs sz :
  heap_inv (pre ++ t :: post) next bs -> 0 <= sz -> t_p t + sz <= t_buf t + t_len t ->
  heap_inv (pre ++ Tag (t_id t) (t_buf t) (t_p t + sz) (t_len t) :: post) next ((t_id t, t_p t, sz) :: bs).
Proof.
  intros (H1 & H2 & H3 & H4 & H5 & H6) Hsz Hfit. set (t' := Tag _ _ _ _).
  pose proof H1 as H1'. apply Forall_app in H1' as [_ Hok%List.Forall_cons_iff]. destruct Hok as [Hok _].
  assert (Hbuf : forall x, x ∈ pre ++ t :: post -> x = t \/ apart (t_buf x) TAG_SIZE (t_buf t) TAG_SIZE).
  { intros x (i & Hi)%list_elem_of_lookup. destruct (decide (i = length pre)) as [->|Hne].
    - rewrite list_lookup_middle in Hi by done. injection Hi as <-. by left.
    - right. apply (H4 i (length pre)); [by rewrite list_lookup_fmap, Hi| |done].
      by rewrite list_lookup_fmap, list_lookup_middle. }
  assert (Hmem : forall x, x ∈ pre ++ t :: post -> exists y, y ∈ pre ++ t' :: post /\ t_id y = t_id x
            /\ t_buf y = t_buf x /\ t_p x <= t_p y).
  { intros x Hx. rewrite elem_of_app, elem_of_cons in Hx. destruct Hx as [Hx|[->|Hx]].
    - exists x. rewrite elem_of_app. split; [by left|]. split; [done|]. split; [done|lia].
    - exists t'. rewrite elem_of_app, elem_of_cons. split; [auto|]. cbn. lia.
    - exists x. rewrite elem_of_app, elem_of_cons. split; [auto|]. split; [done|]. split; [done|lia]. }
  split; [|split; [|split; [|split; [|split]]]].
  - apply Forall_app in H1 as [? H1]. apply List.Forall_cons_iff in H1 as [? ?].
    apply Forall_app. split; [done|]. constructor; [|done]. unfold tag_ok in *; cbn. lia.
  - apply Forall_app in H2 as [? H2]. apply List.Forall_cons_iff in H2 as [? ?].
    apply Forall_app. split; [done|]. by constructor.
  - by rewrite fmap_app in *.
  - by rewrite fmap_app in *.
  - constructor.
    + split; [done|]. exists t'. rewrite elem_of_app, elem_of_cons. split; [auto|]. unfold tag_ok in Hok. cbn. lia.
    + eapply List.Forall_impl; [|exact H5]. intros [[tid p] n] (Hn & x & Hx & Hid & Hb & Hp).
      split; [done|]. destruct (Hmem x Hx) as (y & Hy & Hyid & Hyb & Hyp). exists y. split; [done|]. lia.
  - assert (Hnew : forall i b, bs !! i = Some b -> apart (t_p t) sz b.1.2 b.2).
    { intros i [[tid p] n] Hi. pose proof (Forall_lookup_1 _ _ _ _ H5 Hi) as (Hn & x & Hx & _ & Hb & Hp).
      cbn. unfold apart. destruct (Hbuf x Hx) as [->|Ha]; [lia|].
      rewrite List.Forall_forall in H1. apply list_elem_of_In, H1 in Hx. unfold tag_ok, apart in *. lia. }
    intros [|i] [|j] b b' Hi Hj Hne; cbn in *; [done| | |apply (H6 i j); auto].
    + injection Hi as <-. apply (Hnew _ _ Hj).
    + injection Hj as <-. pose proof (Hnew _ _ Hi). unfold apart in *. cbn in *. lia.
Qed.

Lemma heap_reach_inv tags next bs : heap tags next bs -> heap_inv tags next bs.
Proof.
  induction 1 as [|tags next bs buf id tags' next' Hh IH Hb Hw Ha He|tags next bs tid sz r tags' Hh IH Hs Hw He].
  - unfold heap_inv. do 3 (split; [constructor|]). split; [by intros [|i] j a b|].
    split; [constructor|by intros [|i] j a b].
  - unfold tag_new in He. destruct (next =? 2 ^ 31 - 1); [discriminate|].
    injection He as _ <- <-. by apply heap_inv_tag.
  - destruct (smalloc_spec tags tid sz r tags') as [[-> ->]|(pre & t & post & -> & <- & -> & Hfit & ->)];
      [apply IH|done..| |]; [done|]. by apply heap_inv_alloc.
Qed.

(** C27. The allocator of tagged memory: whatever tags are created, on areas
    that do not overlap, and whatever blocks are requested, of sizes that with
    TAG_SIZE added stay below 2^64, the tags have distinct identifiers, every
    block handed out lies inside the area of its tag, and no two blocks
    overlap. (For larger sizes the bound test wraps around.) *)
Theorem smalloc_blocks_disjoint tags next bs :
  heap tags next bs ->
  NoDup (t_id <$> tags)
  /\ Forall (fun '(tid, p, sz) => exists t, t ∈ tags /\ t_id t = tid /\ t_buf t <= p
                                  /\ p + sz <= t_buf t + TAG_SIZE) bs
  /\ forall i j b b', bs !! i = Some b -> bs !! j = Some b' -> i <> j -> apart b.1.2 b.2 b'.1.2 b'.2.
Proof.
  intros (H1 & _ & H3 & _ & H5 & H6)%heap_reach_inv. split; [done|]. split; [|done].
  eapply List.Forall_impl; [|exact H5]. intros [[tid p] sz] (_ & t & Ht & Hid & Hb & Hp).
  exists t. rewrite List.Forall_forall in H1. pose proof (H1 t ltac:(by apply list_elem_of_In)) as Hok.
  unfold tag_ok in Hok. split; [done|]. lia.
Qed.

Lemma smalloc_blocks_disjoint_witness :
  heap [Tag 0 0x10000 0x10018 TAG_SIZE] 1 [(0, 0x10010, 8); (0, 0x10000, 16)]
  /\ apart 0x10010 8 0x10000 16.
Proof.
  assert (H : heap [Tag 0 0x10000 0x10018 TAG_SIZE] 1 [(0, 0x10010, 8); (0, 0x10000, 16)]).
  { refine (heap_alloc [Tag 0 0x10000 0x10010 TAG_SIZE] 1 [(0, 0x10000, 16)] 0 8 (Some 0x10010) _ _ _ _ _);
      [|lia|unfold TAG_SIZE; lia|reflexivity].
    refine (heap_alloc [Tag 0 0x10000 0x10000 TAG_SIZE] 1 [] 0 16 (Some 0x10000) _ _ _ _ _);
      [|lia|unfold TAG_SIZE; lia|reflexivity].
    refine (heap_tag [] 0 [] 0x10000 0 _ 1 heap_init _ _ _ _);
      [lia|unfold TAG_SIZE; lia|constructor|reflexivity]. }
  split; [exact H|].
  destruct (smalloc_blocks_disjoint _ _ _ H) as (_ & _ & Hd).
  exact (Hd 0%nat 1%nat _ _ eq_refl eq_refl ltac:(discriminate)).
Defined.

(** A request so large that its end wraps around is granted: the fill
    pointer moves back by [k], so that the next block overlaps memory already
    handed out. *)
Theorem smalloc_wraps t tags k :
  tag_ok t -> 0 < k <= t_p t - t_buf t ->
  smalloc (t :: tags) (t_id t) (2 ^ 64 - k)
  = (Some (t_p t), Tag (t_id t) (t_buf t) (t_p t - k) (t_len t) :: tags).
Proof.
  intros (Hb & Hp & Hl & He) Hk. cbn [smalloc]. rewrite Z.eqb_refl.
  rewrite (wrap64_small (t_p t - t_buf t)) by mlia.
  destruct (wrap_cases 64 (t_p t - t_buf t + (2 ^ 64 - k))) as [[_ ?]|[-> _]]; [lia|lia|lia|].
  destruct (wrap_cases 64 (t_p t + (2 ^ 64 - k))) as [[_ ?]|[-> _]]; [lia|lia|lia|].
  destruct (Z.ltb_spec (t_len t) (t_p t - t_buf t + (2 ^ 64 - k) - 2 ^ 64)); [lia|]. do 3 f_equal. lia.
Qed.

Lemma smalloc_wraps_witness :
  smalloc [Tag 0 0x10000 0x10010 TAG_SIZE] 0 (2 ^ 64 - 16)
  = (Some 0x10010, [Tag 0 0x10000 0x10000 TAG_SIZE]).
Proof.
  apply (smalloc_wraps (Tag 0 0x10000 0x10010 TAG_SIZE) [] 16); [|cbn; lia].
  unfold tag_ok, TAG_SIZE; cbn. lia.
Defined.
