(* ===== verification/Sthread.v ===== *)
(** The sthread kernel of Wedge (wedge/src/sthread.c): compartments that run
    on their own page tables with a private copy of the writable memory of the
    process, a policy of tags, descriptors and system calls, and a handler
    that enforces it.

    Not in the repository, and parameters here: the walk over a page table,
    the copy of a page table and the physical address of a page, all of
    libdune; the answers of the kernel ([oracle], to the history of calls and
    the call); and what user code does to the kernel's state between a jump
    and its return ([run_user]). A page table is the list of its entries, a
    page address with its entry. *)

From stdpp Require Import base numbers list option strings.
From S2P Require Import Prelude Platform CString Policy.

(** ** Data *)

Inductive st_status : Type := ST_RUNNING | ST_ZOMBIE | ST_DEAD.

#[export] Instance st_status_eq_dec : EqDecision st_status.
Proof. solve_decision. Defined.

(** The registers of [struct pt_regs] the code uses; [rarg3] is the one the
    macro [ARG3] names. *)
Record pt_regs := PtRegs {
  rrax : Z; rrdi : Z; rrsi : Z; rrdx : Z; rarg3 : Z; rrip : Z; rrsp : Z; reflags : Z;
}.

#[export] Instance pt_regs_eq_dec : EqDecision pt_regs.
Proof. solve_decision. Defined.

Definition zero_regs : pt_regs := PtRegs 0 0 0 0 0 0 0 0.
Definition set_rrax (v : Z) (tf : pt_regs) : pt_regs :=
  PtRegs v (rrdi tf) (rrsi tf) (rrdx tf) (rarg3 tf) (rrip tf) (rrsp tf) (reflags tf).
Definition set_rrdi (v : Z) (tf : pt_regs) : pt_regs :=
  PtRegs (rrax tf) v (rrsi tf) (rrdx tf) (rarg3 tf) (rrip tf) (rrsp tf) (reflags tf).
Definition set_rrsi (v : Z) (tf : pt_regs) : pt_regs :=
  PtRegs (rrax tf) (rrdi tf) v (rrdx tf) (rarg3 tf) (rrip tf) (rrsp tf) (reflags tf).

Definition pagetable : Type := list (Z * Z).

(** [struct sthread]; the link [st_next] is the list the sthread is in. *)
Record sthread := MkSthread {
  st_id : Z;
  st_state : st_status;
  st_ret : Z;
  st_stack : Z;
  st_pgroot : pagetable;
  st_tf : pt_regs;
  st_sc : sc_t;
  st_writable : Z;
  st_walk : Z;
}.

Definition set_state (v : st_status) (s : sthread) : sthread :=
  MkSthread (st_id s) v (st_ret s) (st_stack s) (st_pgroot s) (st_tf s) (st_sc s) (st_writable s) (st_walk s).
Definition set_ret (v : Z) (s : sthread) : sthread :=
  MkSthread (st_id s) (st_state s) v (st_stack s) (st_pgroot s) (st_tf s) (st_sc s) (st_writable s) (st_walk s).
Definition set_pgroot (v : pagetable) (s : sthread) : sthread :=
  MkSthread (st_id s) (st_state s) (st_ret s) (st_stack s) v (st_tf s) (st_sc s) (st_writable s) (st_walk s).
Definition set_tf (v : pt_regs) (s : sthread) : sthread :=
  MkSthread (st_id s) (st_state s) (st_ret s) (st_stack s) (st_pgroot s) v (st_sc s) (st_writable s) (st_walk s).
Definition set_sc (v : sc_t) (s : sthread) : sthread :=
  MkSthread (st_id s) (st_state s) (st_ret s) (st_stack s) (st_pgroot s) (st_tf s) v (st_writable s) (st_walk s).
Definition set_walk (v : Z) (s : sthread) : sthread :=
  MkSthread (st_id s) (st_state s) (st_ret s) (st_stack s) (st_pgroot s) (st_tf s) (st_sc s) (st_writable s) v.

(** [struct segment]; [s_txt] is never read. *)
Record segment := Segment { s_start : Z; s_end : Z; s_len : Z; s_flags : Z }.

#[export] Instance segment_eq_dec : EqDecision segment.
Proof. solve_decision. Defined.

(** The calls that leave the code; a root is an sthread's or the master's. *)
Inductive kcall : Type :=
  | KMalloc (sz : Z)
  | KMmap (len : Z)
  | KOpenMaps
  | KReadMaps (fd len : Z)
  | KClose (fd : Z)
  | KDuneInitAndEnter
  | KRegisterHandler
  | KLoadCr3 (root : option Z)
  | KJump (tf : pt_regs)
  | KPassthrough (tf : pt_regs)
  | KOpen (path flags mode extra : Z).

#[export] Instance kcall_eq_dec : EqDecision kcall.
Proof. solve_decision. Defined.

(** The static variables of sthread.c, the page table of the master, the
    memory, and the history of calls with their answers. *)
Record kern := Kern {
  k_segments : list segment;
  k_ckmem : Z;              (* _checkpointed_mem *)
  k_cksize : Z;             (* _checkpointed_size *)
  k_tags : list tag;
  k_tag_id : Z;
  k_tag : Z;                (* the static _tag of kmalloc *)
  k_sthread_id : Z;
  k_sthreads : list sthread;
  k_current : option Z;     (* the st_id of ks_current *)
  k_pgroot : pagetable;
  k_mem : Z -> Z;
  k_log : list (kcall * Z);
}.

Definition with_segments v k := Kern v (k_ckmem k) (k_cksize k) (k_tags k) (k_tag_id k) (k_tag k)
  (k_sthread_id k) (k_sthreads k) (k_current k) (k_pgroot k) (k_mem k) (k_log k).
Definition with_ck m z k := Kern (k_segments k) m z (k_tags k) (k_tag_id k) (k_tag k)
  (k_sthread_id k) (k_sthreads k) (k_current k) (k_pgroot k) (k_mem k) (k_log k).
Definition with_tags v n k := Kern (k_segments k) (k_ckmem k) (k_cksize k) v n (k_tag k)
  (k_sthread_id k) (k_sthreads k) (k_current k) (k_pgroot k) (k_mem k) (k_log k).
Definition with_tag v k := Kern (k_segments k) (k_ckmem k) (k_cksize k) (k_tags k) (k_tag_id k) v
  (k_sthread_id k) (k_sthreads k) (k_current k) (k_pgroot k) (k_mem k) (k_log k).
Definition with_id v k := Kern (k_segments k) (k_ckmem k) (k_cksize k) (k_tags k) (k_tag_id k) (k_tag k)
  v (k_sthreads k) (k_current k) (k_pgroot k) (k_mem k) (k_log k).
Definition with_sthreads v k := Kern (k_segments k) (k_ckmem k) (k_cksize k) (k_tags k) (k_tag_id k) (k_tag k)
  (k_sthread_id k) v (k_current k) (k_pgroot k) (k_mem k) (k_log k).
Definition with_current v k := Kern (k_segments k) (k_ckmem k) (k_cksize k) (k_tags k) (k_tag_id k) (k_tag k)
  (k_sthread_id k) (k_sthreads k) v (k_pgroot k) (k_mem k) (k_log k).
Definition with_mem v k := Kern (k_segments k) (k_ckmem k) (k_cksize k) (k_tags k) (k_tag_id k) (k_tag k)
  (k_sthread_id k) (k_sthreads k) (k_current k) (k_pgroot k) v (k_log k).
Definition with_log v k := Kern (k_segments k) (k_ckmem k) (k_cksize k) (k_tags k) (k_tag_id k) (k_tag k)
  (k_sthread_id k) (k_sthreads k) (k_current k) (k_pgroot k) (k_mem k) v.

Abbreviation K := (M kern).

(** memcpy and memset on the memory. *)
Definition blit (m : Z -> Z) (dst src n : Z) (b : Z) : Z :=
  if (dst <=? b) && (b <? dst + n) then m (b - dst + src) else m b.
Definition fill (m : Z -> Z) (dst v n : Z) (b : Z) : Z :=
  if (dst <=? b) && (b <? dst + n) then v else m b.

(** ** Page-table walks *)

(** A callback sees the page and its entry, and its own state; it gives a
    result, the entry it leaves and the new state. *)
Definition walk_cb (S : Type) : Type := Z -> Z -> S -> Z * Z * S.

(** A walk over the pages from [lo] to [hi], both included. *)
Definition walker : Type := forall S, walk_cb S -> Z -> Z -> pagetable -> S -> Z * pagetable * S.

(** The walk the code relies on: the entries of the range in order, up to the
    first that gives a nonzero result. *)
Fixpoint walk_entries {S} (cb : walk_cb S) (lo hi : Z) (pt : pagetable) (st : S) : Z * pagetable * S :=
  match pt with
  | [] => (0, [], st)
  | (va, pte) :: pt =>
      if (align_down 4096 lo <=? va) && (va <=? hi) then
        let '(rc, pte', st') := cb va pte st in
        if rc =? 0 then
          let '(rc, pt', st'') := walk_entries cb lo hi pt st' in (rc, (va, pte') :: pt', st'')
        else (rc, (va, pte') :: pt, st')
      else
        let '(rc, pt', st') := walk_entries cb lo hi pt st in (rc, (va, pte) :: pt', st')
  end.

Class walker_ok (dune_vm_page_walk : walker) : Prop := {
  walk_spec S (cb : walk_cb S) lo hi pt st :
    dune_vm_page_walk S cb lo hi pt st = walk_entries cb lo hi pt st;
}.

(** The walk itself satisfies it. *)
Definition list_walker : walker := fun S => @walk_entries S.

#[export] Instance list_walker_ok : walker_ok list_walker.
Proof. by split. Qed.

Section sthreads.
Context (D : dune_abi) (CONFIG_DUNE_BOOT : bool).
Context (dune_vm_page_walk : walker) (dune_vm_clone : pagetable -> pagetable) (dune_va_to_pa : Z -> Z).
Context (sizeof_kstate sizeof_sthread : Z).
Context (oracle : list (kcall * Z) -> kcall -> Z) (run_user : pt_regs -> kern -> kern).

Definition kext (c : kcall) : K Z := fun k =>
  let r := oracle (k_log k) c in (Ret r, with_log (k_log k ++ [(c, r)]) k).

(** dune_jump_to_user: user code runs, and comes back. *)
Definition jump (tf : pt_regs) : K unit :=
  _ ← kext (KJump tf);
  modify (run_user tf).

Definition lift {A} (o : outcome A) : K A := stop o.

(** mmap: [None] for MAP_FAILED. *)
Definition mmap (len : Z) : K (option Z) :=
  r ← kext (KMmap len);
  mret (if r =? 2 ^ 64 - 1 then None else Some r).

Definition require {A} (code : Z) (o : option A) : K A :=
  match o with Some a => mret a | None => stop (Exit code) end.

Definition xmalloc (sz : Z) : K Z :=
  x ← kext (KMalloc sz);
  if x =? 0 then stop (Exit 1) else mret x.

Definition sizeof_tag : Z := 40.

Definition k_tag_new : K Z :=
  _ ← xmalloc sizeof_tag;
  b ← mmap TAG_SIZE;
  k ← get;
  r ← lift (tag_new (k_tags k) (k_tag_id k) b);
  let '(id, tags, next) := r in
  _ ← modify (with_tags tags next);
  mret id.

Definition k_smalloc (tid sz : Z) : K (option Z) :=
  k ← get;
  let '(p, tags) := smalloc (k_tags k) tid sz in
  _ ← modify (with_tags tags (k_tag_id k));
  mret p.

Definition kmalloc (sz : Z) : K Z :=
  k ← get;
  _ ← (if k_tag k =? -1 then t ← k_tag_new; modify (with_tag t) else mret tt);
  t ← gets k_tag;
  x ← k_smalloc t (wrap64 sz);
  require 1 x.

(** ** The sthread list *)

Definition get_st (id : Z) : K (option sthread) :=
  gets (fun k => List.find (fun s => st_id s =? id) (k_sthreads k)).

Definition upd_st (id : Z) (f : sthread -> sthread) : K unit :=
  modify (fun k => with_sthreads (map (fun s => if st_id s =? id then f s else s) (k_sthreads k)) k).

(** ** Recycling *)

Definition walk_recycle (writable ckmem : Z) : walk_cb (Z * (Z -> Z)) := fun va pte '(w, m) =>
  if has_bits pte (PTE_D D)
  then (0, Z.ldiff pte (PTE_D D), (wrap64 (w + 4096), blit m (writable + w) (ckmem + w) 4096))
  else (0, pte, (wrap64 (w + 4096), m)).

(** The dirty bit of the stack is left set. *)
Definition walk_recycle_stack (stack : Z) : walk_cb (Z * (Z -> Z)) := fun va pte '(w, m) =>
  if has_bits pte (PTE_D D) then (0, pte, (wrap64 (w + 4096), fill m (stack + w) 0 4096))
  else (0, pte, (wrap64 (w + 4096), m)).

Definition is_writable (seg : segment) : bool := has_bits (s_flags seg) PROT_WRITE.

(** The loop over the writable segments with one callback. *)
Fixpoint walk_segments {S} (cb : walk_cb S) (segs : list segment) (pt : pagetable) (st : S) : pagetable * S :=
  match segs with
  | [] => (pt, st)
  | seg :: segs =>
      if is_writable seg then
        let '(_, pt, st) := dune_vm_page_walk S cb (s_start seg) (s_end seg - 4096) pt st in
        walk_segments cb segs pt st
      else walk_segments cb segs pt st
  end.

Definition recycle (k : kern) (s : sthread) : sthread * (Z -> Z) :=
  let '(pt, (_, m)) := walk_segments (walk_recycle (st_writable s) (k_ckmem k)) (k_segments k)
                         (st_pgroot s) (0, k_mem k) in
  let '(_, pt, (w, m)) := dune_vm_page_walk _ (walk_recycle_stack (st_stack s)) (st_stack s)
                            (st_stack s + STACK_SIZE - 4096) pt (0, m) in
  (set_walk w (set_pgroot pt s), m).

(** ** Scheduling *)

Definition runnable (current : option Z) (s : sthread) : bool :=
  negb (bool_decide (current = Some (st_id s))) && bool_decide (st_state s = ST_RUNNING).

(** The passthrough of a saved frame stores its result there. *)
Definition resume (s : sthread) : K unit :=
  _ ← modify (with_current (Some (st_id s)));
  _ ← kext (KLoadCr3 (Some (st_id s)));
  r ← kext (KPassthrough (st_tf s));
  let tf := set_rrax (wrap64 r) (st_tf s) in
  _ ← upd_st (st_id s) (set_tf tf);
  _ ← jump tf;
  _ ← kext (KLoadCr3 None);
  modify (with_current None).

(** schedule; [from_trap] tells whether [tf] is not NULL. *)
Definition schedule (from_trap : bool) : K unit :=
  k ← get;
  match List.find (runnable (k_current k)) (k_sthreads k) with
  | Some s => resume s
  | None => if from_trap then stop (Leave (-1)) else stop Abort
  end.

(** ** Memory permissions *)

Definition walk_check_perm : walk_cb Z := fun va pte w =>
  if negb (has_bits pte (PTE_U D)) then (1, pte, w)
  else if negb (has_bits pte (PTE_P D)) then (1, pte, w)
  else if negb (has_bits pte (PTE_W D)) then (1, pte, w)
  else if w =? 0 then
    let addr := PTE_ADDR D pte in
    let addr := if CONFIG_DUNE_BOOT && (0x400000000 <=? addr)
                then wrap64 (addr + mmap_base D - 0x400000000) else addr in
    (0, pte, addr)
  else (0, pte, w).

Definition has_mem_perm (s : sthread) (ptr len : Z) : bool * sthread :=
  let '(rc, pt, w) := dune_vm_page_walk _ walk_check_perm ptr (wrap64 (ptr + len)) (st_pgroot s) 0 in
  (rc =? 0, set_walk w (set_pgroot pt s)).

(** ** The system-call handler *)

(** The descriptor check: the permission and the descriptor, for the calls
    that have one. *)
Definition fd_check (sysno : Z) (tf : pt_regs) : option (Z * Z) :=
  if sysno =? SYS_read then Some (PROT_READ, to_int (rrdi tf))
  else if sysno =? SYS_write then Some (PROT_WRITE, to_int (rrdi tf))
  else if sysno =? SYS_close then Some (PROT_WRITE, to_int (rrdi tf))
  else None.

(** The memory check: the pointer, the length ([None] when the string has no
    end) and how to replace the pointer. *)
Definition mem_check (m : Z -> Z) (sysno : Z) (tf : pt_regs) : option (Z * option Z * (Z -> pt_regs)) :=
  if sysno =? SYS_open then
    Some (rrdi tf, (fun e => wrap64 (e - rrdi tf)) <$> memchr m (rrdi tf) 0 (2 ^ 64),
          fun v => set_rrdi v tf)
  else if (sysno =? SYS_write) || (sysno =? SYS_read) then
    Some (rrsi tf, Some (rrdx tf), fun v => set_rrsi v tf)
  else None.

Definition blocked (tf : pt_regs) : pt_regs := set_rrax (wrap64 (-22)) tf.

(** What follows the checks, on the frame with its pointer replaced. *)
Definition perform (cur sysno : Z) (tf : pt_regs) : K pt_regs :=
  if sysno =? SYS_sthread_exit then
    k ← get;
    s ← get_st cur;
    match s with
    | None => stop UB
    | Some s =>
        let '(s', m) := recycle k (set_ret (rrdi tf) s) in
        _ ← upd_st cur (fun _ => set_state ST_ZOMBIE s');
        _ ← modify (with_mem m);
        stop (Leave (to_int (rrdi tf)))
    end
  else if sysno =? SYS_read then
    _ ← upd_st cur (set_tf tf);
    _ ← schedule true;
    mret tf
  else if sysno =? SYS_open then
    r ← kext (KOpen (rrdi tf) (rrsi tf) (rrdx tf) (rarg3 tf));
    let rc := to_int r in
    s ← get_st cur;
    match s with
    | None => stop UB
    | Some s =>
        _ ← (if 0 <=? rc then
               sc ← lift (sc_fd_add (st_sc s) rc (Z.lor PROT_READ PROT_WRITE));
               upd_st cur (set_sc sc)
             else mret tt);
        mret (set_rrax (wrap64 rc) tf)
    end
  else
    r ← kext (KPassthrough tf);
    mret (set_rrax (wrap64 r) tf).

Definition syscall_handler (tf : pt_regs) : K pt_regs :=
  let sysno := to_int (rrax tf) in
  k ← get;
  match k_current k with
  | None => stop UB
  | Some cur =>
      s ← get_st cur;
      match s with
      | None => stop UB
      | Some s =>
          v ← lift (can_do_sys (st_sc s) sysno);
          if v =? 0 then mret (blocked tf) else
          let fd_ok := match fd_check sysno tf with
                       | Some (perm, fd) => has_fd_perm (st_sc s) fd perm
                       | None => true
                       end in
          if negb fd_ok then mret (blocked tf) else
          match mem_check (k_mem k) sysno tf with
          | None => perform cur sysno tf
          | Some (_, None, _) => stop UB
          | Some (ptr, Some len, set) =>
              if st_walk s =? 0 then stop Abort else
              let '(ok, s') := has_mem_perm s ptr len in
              _ ← upd_st cur (fun _ => s');
              if negb ok then mret (blocked tf)
              else perform cur sysno (set (wrap64 (st_walk s' + Z.land ptr 0xfff)))
          end
      end
  end.

(** ** The memory map of the process *)

(** A hexadecimal number as the conversion [%lx] reads it. *)
Definition scan_hex (l : list Z) : option (Z * list Z) :=
  match skip_space l with
  | c :: _ as l =>
      match digit_of 16 c with
      | Some _ => Some (let '(v, rest) := take_digits 16 0 l in (Z.min v (2 ^ 64 - 1), rest))
      | None => None
      end
  | [] => None
  end.

(** sscanf(p, "%lx-%lx %s ", &start, &end, perm): [None] when fewer than three
    conversions succeed. *)
Definition scan_maps_line (perm line : list Z) : outcome (option (Z * Z * list Z)) :=
  match scan_hex line with
  | Some (start, 45 :: rest) =>
      match scan_hex rest with
      | Some (stop, rest) =>
          match scan_s perm rest with
          | Ret (perm, Some _) => Ret (Some (start, stop, perm))
          | Ret (_, None) => Ret None
          | _ => UB
          end
      | None => Ret None
      end
  | _ => Ret None
  end.

(** strstr(line, sub) != NULL *)
Fixpoint contains (sub line : list Z) : bool :=
  starts_with sub line || match line with [] => false | _ :: line => contains sub line end.

Definition STACK_WORD : list Z := Eval cbv in bytes "stack".

(** The segment of a line. *)
Definition make_segment (start stop : Z) (perm : list Z) : segment :=
  let flags := if nth 1 perm 0 =? 119 then PROT_WRITE else 0 in
  let flags := if nth 0 perm 0 =? 114 then Z.lor flags PROT_READ else flags in
  let flags := if nth 3 perm 0 =? 120 then Z.lor flags PROT_EXEC else flags in
  Segment start stop (wrap64 (stop - start)) flags.

(** The line up to the newline that strchr finds, and what follows. *)
Fixpoint split_line (l : list Z) : option (list Z * list Z) :=
  match l with
  | [] => None
  | c :: l => if c =? 0 then None
              else if c =? 10 then Some ([], l)
              else match split_line l with
                   | Some (line, rest) => Some (c :: line, rest)
                   | None => None
                   end
  end.

(** One iteration of the parser: the segments so far, the writable size (an
    [int]) and the text left. [perm] is the array of the loop body. *)
Definition maps_step (perm : list Z) (st : list segment * Z * list Z) :
    (list segment * Z * list Z) + outcome (list segment * Z) :=
  let '(segs, writable, p) := st in
  match p with
  | [] => inr (Ret (segs, writable))
  | c :: _ =>
      if c =? 0 then inr (Ret (segs, writable)) else
      match split_line p with
      | None => inr UB
      | Some (line, rest) =>
          match scan_maps_line perm line with
          | Ret (Some (start, stop, perm')) =>
              if contains STACK_WORD line then inl (segs, writable, rest)
              else
                let s := make_segment start stop perm' in
                inl (segs ++ [s],
                     if is_writable s then to_int (writable + s_len s) else writable, rest)
          | Ret None => inr (Exit 1)
          | _ => inr UB
          end
      end
  end.

Definition parse_maps (perm buf : list Z) : outcome (list segment * Z) :=
  match iter_nat (maps_step perm) (S (length buf)) ([], 0, buf) with
  | inr r => r
  | inl _ => Abort
  end.

Definition MAPS_BUF : Z := 4096 * 2.

(** checkpoint_prepare, for the contents of /proc/self/maps. *)
Definition checkpoint_prepare (perm maps : list Z) : K unit :=
  fd ← kext KOpenMaps;
  if fd =? -1 then stop (Exit 1) else
  _ ← kext (KReadMaps fd (MAPS_BUF - 1));
  let buf := take (Z.to_nat (MAPS_BUF - 1)) maps in
  if bool_decide (buf = []) then stop (Exit 1) else
  _ ← kext (KClose fd);
  r ← lift (parse_maps perm buf);
  let '(segs, writable) := r in
  _ ← modify (with_segments segs);
  m ← mmap (wrap64 writable);
  m ← require 1 m;
  modify (with_ck m writable).

(** The copies of checkpoint_do. *)
Fixpoint copy_segments (segs : list segment) (c : Z) (m : Z -> Z) : Z -> Z :=
  match segs with
  | [] => m
  | seg :: segs =>
      if is_writable seg then copy_segments segs (c + s_len seg) (blit m c (s_start seg) (s_len seg))
      else copy_segments segs c m
  end.

Definition checkpoint_do : K unit :=
  modify (fun k => with_mem (copy_segments (k_segments k) (k_ckmem k) (k_mem k)) k).

Definition sthread_init (perm maps : list Z) : K Z :=
  _ ← checkpoint_prepare perm maps;
  r ← kext KDuneInitAndEnter;
  if truthy r then mret (-1) else
  _ ← kext KRegisterHandler;
  _ ← kmalloc sizeof_kstate;
  _ ← checkpoint_do;
  mret 0.

(** ** Creating sthreads *)

Definition walk_remap (writable : Z) : walk_cb Z := fun va pte w =>
  (0, Z.lor (Z.lor (Z.lor (dune_va_to_pa (writable + w)) (PTE_P D)) (PTE_W D)) (PTE_U D), wrap64 (w + 4096)).

(** The loop over the tags of a policy. *)
Fixpoint protect_tags (tags : list Z) (addr pte : Z) : Z :=
  match tags with
  | [] => pte
  | tag :: tags =>
      if tag =? 0 then pte
      else
        let a := Z.land tag TAG_MASK in
        if (a <=? addr) && (addr <? a + TAG_SIZE) then
          let pte := Z.lor pte (PTE_U D) in
          if has_bits tag PROT_WRITE then pte else Z.ldiff pte (PTE_W D)
        else protect_tags tags addr pte
  end.

(** walk_protect, as the new entry. *)
Definition protect (segs : list segment) (s : sthread) (addr pte : Z) : Z :=
  let pte := Z.ldiff pte (PTE_U D) in
  match List.find (fun seg => (s_start seg <=? addr) && (addr <? s_end seg)) segs with
  | Some seg => if is_writable seg then pte else Z.lor pte (PTE_U D)
  | None =>
      let pte := if (st_stack s <=? addr) && (addr <? st_stack s + STACK_SIZE)
                 then Z.lor pte (PTE_U D) else pte in
      protect_tags (sc_mem (st_sc s)) addr pte
  end.

Definition walk_protect (segs : list segment) (s : sthread) : walk_cb unit := fun va pte _ =>
  (0, protect segs s va pte, tt).

(** The new sthread with its page table: a copy of the master's, protected,
    and with the writable segments mapped to the private copy. *)
Definition build_sthread (segs : list segment) (master : pagetable) (id : Z) (sc : sc_t)
    (stack writable : Z) : sthread :=
  let s := MkSthread id ST_RUNNING 0 stack (dune_vm_clone master) zero_regs sc writable 0 in
  let '(_, pt, _) := dune_vm_page_walk _ (walk_protect segs s) (VA_START D) (VA_END D) (st_pgroot s) tt in
  let '(pt, w) := walk_segments (walk_remap writable) segs pt 0 in
  set_walk w (set_pgroot pt s).

(** create_new_sthread. In the code the new sthread is at the head of the list
    before the calls that can fail; those end the process. *)
Definition create_new_sthread (sc : sc_t) : K sthread :=
  _ ← kmalloc sizeof_sthread;
  id ← gets (fun k => to_int (k_sthread_id k + 1));
  _ ← modify (with_id id);
  _ ← c_assert (0 <=? id);
  stack ← mmap STACK_SIZE;
  stack ← require 1 stack;
  size ← gets (fun k => wrap64 (k_cksize k));
  writable ← mmap size;
  writable ← require 1 writable;
  _ ← modify (fun k => with_mem (blit (k_mem k) writable (k_ckmem k) size) k);
  s ← gets (fun k => build_sthread (k_segments k) (k_pgroot k) id sc stack writable);
  _ ← modify (fun k => with_sthreads (s :: k_sthreads k) k);
  mret s.

(** launch_sthread, with the address of [sthread_trampoline]. *)
Definition launch_sthread (trampoline : Z) (s : sthread) (cb arg : Z) : K Z :=
  let tf := PtRegs 0 cb arg 0 0 trampoline (wrap64 (st_stack s + STACK_SIZE - 8)) 0x02 in
  _ ← upd_st (st_id s) (set_state ST_RUNNING);
  _ ← modify (with_current (Some (st_id s)));
  _ ← kext (KLoadCr3 (Some (st_id s)));
  _ ← jump tf;
  _ ← kext (KLoadCr3 None);
  _ ← modify (with_current None);
  mret 0.

(** A dead sthread whose memory policy is the one asked for. *)
Definition reusable (sc : sc_t) (s : sthread) : bool :=
  bool_decide (st_state s = ST_DEAD) && bool_decide (sc_mem sc = sc_mem (st_sc s)).

(** sthread_create: the return value and [*st]. *)
Definition sthread_create (trampoline : Z) (sc : sc_t) (cb arg : Z) : K (Z * Z) :=
  k ← get;
  s ← match List.find (reusable sc) (k_sthreads k) with
      | Some s => _ ← upd_st (st_id s) (set_sc sc); mret (set_sc sc s)
      | None => create_new_sthread sc
      end;
  r ← launch_sthread trampoline s cb arg;
  mret (r, st_id s).

(** The wait of sthread_join, for at most [n] turns. *)
Fixpoint wait_zombie (n : nat) (id : Z) : K bool :=
  s ← get_st id;
  match s with
  | None => stop UB
  | Some s =>
      if bool_decide (st_state s = ST_ZOMBIE) then mret true
      else match n with
           | O => mret false
           | S n => _ ← schedule false; wait_zombie n id
           end
  end.

(** sthread_join: the return value and [*ret]; [None] when the wait has not
    ended after [n] turns. *)
Definition sthread_join (n : nat) (id : Z) : K (option (Z * Z)) :=
  s ← get_st id;
  match s with
  | None => mret (Some (-1, 0))
  | Some _ =>
      ok ← wait_zombie n id;
      if negb ok then mret None else
      s ← get_st id;
      match s with
      | None => stop UB
      | Some s =>
          _ ← upd_st id (set_state ST_DEAD);
          mret (Some (0, st_ret s))
      end
  end.
End sthreads.
