(* ===== verification/SthreadProps.v ===== *)
(** What the sthread kernel guarantees: which memory an sthread can reach,
    that recycling restores it, that the handler mediates every call, and
    where scheduling loses track of the running sthread. *)

From stdpp Require Import base numbers list option.
From S2P Require Import Prelude Platform CString Policy Sthread.

(** ** Page-table entries *)

(** The bits are bits, and different ones. *)
Class pte_ok (D : dune_abi) : Prop := {
  pte_U_pos : 0 < PTE_U D;
  pte_W_nonneg : 0 <= PTE_W D;
  pte_UW : Z.land (PTE_U D) (PTE_W D) = 0;
}.

#[export] Instance pte_x86_ok : pte_ok dune_x86.
Proof. by split. Qed.

Section isolation.
Context (D : dune_abi) (CONFIG_DUNE_BOOT : bool).
Context (dune_vm_page_walk : walker) (dune_vm_clone : pagetable -> pagetable) (dune_va_to_pa : Z -> Z).
Context (sizeof_kstate sizeof_sthread : Z).
Context (oracle : list (kcall * Z) -> kcall -> Z) (run_user : pt_regs -> kern -> kern).
Context `{!pte_ok D} `{!walker_ok dune_vm_page_walk}.

Abbreviation create_new_sthread :=
  (create_new_sthread D dune_vm_page_walk dune_vm_clone dune_va_to_pa sizeof_sthread oracle).

(** The segment an address lies in, as the loops find it. *)
Definition seg_of (segs : list segment) (addr : Z) : option segment :=
  List.find (fun seg => (s_start seg <=? addr) && (addr <? s_end seg)) segs.

Definition in_stack (s : sthread) (addr : Z) : Prop := st_stack s <= addr < st_stack s + STACK_SIZE.

(** The grant of a policy for an address: the first used slot whose tag holds
    it. *)
Fixpoint tag_grant (tags : list Z) (addr : Z) : option Z :=
  match tags with
  | [] => None
  | tag :: tags =>
      if tag =? 0 then None
      else if (Z.land tag TAG_MASK <=? addr) && (addr <? Z.land tag TAG_MASK + TAG_SIZE) then Some tag
      else tag_grant tags addr
  end.

Lemma protect_tags_grant tags addr pte :
  protect_tags D tags addr pte
  = match tag_grant tags addr with
    | Some tag => let pte := Z.lor pte (PTE_U D) in
                  if has_bits tag PROT_WRITE then pte else Z.ldiff pte (PTE_W D)
    | None => pte
    end.
Proof.
  induction tags as [|tag tags IH]; [done|]. cbn [protect_tags tag_grant].
  destruct (tag =? 0); [done|]. cbv zeta. by destruct (_ && _).
Qed.

(** What [walk_protect] lets user code touch. *)
Definition reachable_page (segs : list segment) (s : sthread) (addr : Z) : Prop :=
  match seg_of segs addr with
  | Some seg => is_writable seg = false
  | None => in_stack s addr \/ is_Some (tag_grant (sc_mem (st_sc s)) addr)
  end.

Lemma U_nonzero : PTE_U D <> 0.
Proof. pose proof pte_U_pos. lia. Qed.

Lemma protect_user segs s addr pte :
  has_bits (protect D segs s addr pte) (PTE_U D) = true <-> reachable_page segs s addr.
Proof.
  unfold protect, reachable_page. fold (seg_of segs addr). pose proof U_nonzero.
  destruct (seg_of segs addr) as [seg|].
  - destruct (is_writable seg); rewrite ?has_bits_ldiff_same, ?has_bits_lor_same by done; done.
  - cbv zeta. rewrite protect_tags_grant. unfold in_stack.
    destruct (tag_grant (sc_mem (st_sc s)) addr) as [tag|].
    + cbv zeta. split; [intros _; right; by exists tag|intros _].
      destruct (has_bits tag PROT_WRITE); rewrite ?has_bits_ldiff_other by apply pte_UW;
        by apply has_bits_lor_same.
    + destruct (Z.leb_spec (st_stack s) addr), (Z.ltb_spec addr (st_stack s + STACK_SIZE)); cbn [andb];
        rewrite ?has_bits_ldiff_same, ?has_bits_lor_same by done; split; try done; try lia.
      all: intros [?|[? ?]]; lia || done.
Qed.

(** A page of a tag granted without PROT_WRITE is not writable. *)
Lemma protect_read_only segs s addr pte tag :
  seg_of segs addr = None -> tag_grant (sc_mem (st_sc s)) addr = Some tag -> has_bits tag PROT_WRITE = false ->
  has_bits (protect D segs s addr pte) (PTE_W D) = false.
Proof.
  intros Hs Ht Hw. unfold protect. fold (seg_of segs addr). rewrite Hs. cbv zeta.
  rewrite protect_tags_grant, Ht, Hw. apply has_bits_ldiff_same.
Qed.

(** ** Walks *)

(** The pages of a range among the addresses of a page table. *)
Definition pages_in (lo hi : Z) (vas : list Z) : nat :=
  length (filter (fun va => align_down 4096 lo <= va <= hi) vas).

Lemma pages_in_cons lo hi va vas :
  pages_in lo hi (va :: vas)
  = if (align_down 4096 lo <=? va) && (va <=? hi) then S (pages_in lo hi vas) else pages_in lo hi vas.
Proof.
  unfold pages_in. destruct (Z.leb_spec (align_down 4096 lo) va), (Z.leb_spec va hi); cbn [andb];
    [by rewrite filter_cons_True by lia|by rewrite filter_cons_False by lia..].
Qed.

(** A walk whose callback never stops visits every entry of the range, in
    order. Its states are numbered: [I n] holds of the state at the [n]-th
    visit. Each entry it leaves is an old one or the result of the callback in
    one of those states. *)
Section numbered.
Context {S : Type} (cb : walk_cb S) (I : nat -> S -> Prop).
Context (Hrc : forall va pte st, (cb va pte st).1.1 = 0).
Context (HI : forall n va pte st, I n st -> I (Datatypes.S n) (cb va pte st).2).

Definition from_walk (lo hi : Z) (n c : nat) (pt : pagetable) (va pte' : Z) : Prop :=
  exists pte, (va, pte) ∈ pt
    /\ ((align_down 4096 lo <= va <= hi
         /\ exists m st', (n <= m < n + c)%nat /\ I m st' /\ pte' = (cb va pte st').1.2)
        \/ (~ (align_down 4096 lo <= va <= hi) /\ pte' = pte)).

Lemma walk_entries_numbered lo hi pt n st :
  I n st ->
  let c := pages_in lo hi (fst <$> pt) in
  let '(_, pt', st') := walk_entries cb lo hi pt st in
  I (n + c) st' /\ fst <$> pt' = fst <$> pt
  /\ forall va pte', (va, pte') ∈ pt' -> from_walk lo hi n c pt va pte'.
Proof.
  cbn zeta. revert n st; induction pt as [|[v p] pt IH]; intros n st Hst; cbn [walk_entries].
  { rewrite Nat.add_0_r. split; [done|]. split; [done|]. intros va pte' Hin. inversion Hin. }
  cbn [fmap list_fmap fst]. rewrite pages_in_cons.
  assert (Hmore : forall n' c c' va pte', (n <= n')%nat -> (n' + c' <= n + c)%nat ->
            from_walk lo hi n' c' pt va pte' -> from_walk lo hi n c ((v, p) :: pt) va pte').
  { intros n' c c' va pte' Hn Hc (pte & Hp & Hcase). exists pte. split; [by apply list_elem_of_further|].
    destruct Hcase as [[Hr (m & st' & Hm & Hs)]|?]; [left|by right].
    split; [done|]. exists m, st'. split; [lia|done]. }
  destruct (Z.leb_spec (align_down 4096 lo) v), (Z.leb_spec v hi); cbn [andb].
  1:{ pose proof (Hrc v p st) as Hz. pose proof (HI n v p st Hst) as Hs.
      destruct (cb v p st) as [[rc p'] st1] eqn:Hcb. cbn in Hz, Hs. subst rc. cbn [Z.eqb].
      specialize (IH (Datatypes.S n) st1 Hs).
      destruct (walk_entries cb lo hi pt st1) as [[rc2 pt2] st2]. destruct IH as (IH1 & IH2 & IH3).
      split; [by rewrite Nat.add_succ_r|]. split; [cbn; by f_equal|]. intros va pte' Hin.
      apply elem_of_cons in Hin as [[= -> ->]|Hin]; [|eapply Hmore; [| |by apply IH3]; lia].
      exists p. split; [apply list_elem_of_here|]. left. split; [lia|]. exists n, st.
      split; [lia|]. by rewrite Hcb. }
  all: specialize (IH n st Hst); destruct (walk_entries cb lo hi pt st) as [[rc2 pt2] st2];
    destruct IH as (IH1 & IH2 & IH3); (split; [done|]); (split; [cbn; by f_equal|]); intros va pte' Hin;
    apply elem_of_cons in Hin as [[= -> ->]|Hin];
    [exists p; split; [apply list_elem_of_here|right; split; [lia|done]]
    |eapply Hmore; [| |by apply IH3]; lia].
Qed.

(** The pages of all the writable segments, as the walks count them. *)
Fixpoint writable_pages (segs : list segment) (vas : list Z) : nat :=
  match segs with
  | [] => O
  | seg :: segs =>
      ((if is_writable seg then pages_in (s_start seg) (s_end seg - 4096) vas else 0) + writable_pages segs vas)%nat
  end.

(** The walks over the writable segments. *)
Lemma walk_segments_numbered segs pt n st va pte' :
  I n st ->
  (va, pte') ∈ (walk_segments dune_vm_page_walk cb segs pt st).1 ->
  (va, pte') ∈ pt
  \/ exists seg pte m st', seg ∈ segs /\ is_writable seg = true
       /\ align_down 4096 (s_start seg) <= va <= s_end seg - 4096
       /\ (n <= m < n + writable_pages segs (fst <$> pt))%nat /\ I m st' /\ pte' = (cb va pte st').1.2.
Proof.
  revert pt n st; induction segs as [|seg segs IH]; intros pt n st Hst Hin; cbn [walk_segments] in Hin.
  { by left. }
  cbn [writable_pages]. destruct (is_writable seg) eqn:Hw.
  2:{ destruct (IH pt n st Hst Hin) as [?|(seg' & pte & m & st2 & Hs & Hr)]; [by left|right].
      exists seg', pte, m, st2. split; [by apply list_elem_of_further|done]. }
  rewrite walk_spec in Hin.
  pose proof (walk_entries_numbered (s_start seg) (s_end seg - 4096) pt n st Hst) as Hwalk.
  cbn zeta in Hwalk. set (c := pages_in _ _ _) in *.
  destruct (walk_entries cb (s_start seg) (s_end seg - 4096) pt st) as [[rc pt1] st1].
  destruct Hwalk as (Hst1 & Hfst & Hent).
  destruct (IH pt1 (n + c)%nat st1 Hst1 Hin) as [Hp|(seg' & pte & m & st2 & Hs & Hwr & Hrg & Hm & Hr)].
  - destruct (Hent va pte' Hp) as (pte & Hpt & [[Hr (m & st' & Hm & Hi & ->)]|[_ ->]]); [right|by left].
    exists seg, pte, m, st'. split; [apply list_elem_of_here|]. split; [done|]. split; [done|]. split; [lia|done].
  - right. rewrite Hfst in Hm. exists seg', pte, m, st2. split; [by apply list_elem_of_further|].
    split; [done|]. split; [done|]. split; [lia|done].
Qed.
End numbered.

(** ** What a new sthread can reach *)

(** The private page at offset [w] of the writable copy. *)
Definition private_pte (s : sthread) (w : Z) : Z :=
  Z.lor (Z.lor (Z.lor (dune_va_to_pa (st_writable s + w)) (PTE_P D)) (PTE_W D)) (PTE_U D).

Ltac peel H := let a := fresh "a" in let k1 := fresh "k" in let H1 := fresh "H" in
  apply bind_inv in H as (a & k1 & H1 & H).

Abbreviation build_sthread := (build_sthread D dune_vm_page_walk dune_vm_clone dune_va_to_pa).

Lemma build_fields segs master id sc stack writable :
  let s := build_sthread segs master id sc stack writable in
  st_id s = id /\ st_sc s = sc /\ st_stack s = stack /\ st_writable s = writable /\ st_state s = ST_RUNNING.
Proof.
  unfold build_sthread. destruct (dune_vm_page_walk _ _ _ _ _ _) as [[rc pt] u].
  by destruct (walk_segments _ _ _ _ _) as [pt' w].
Qed.

(** The offset of the [m]-th page in the private copy. *)
Definition at_page (m : nat) (w : Z) : Prop := w = wrap64 (4096 * Z.of_nat m).

Lemma walk_remap_numbered writable n va pte w :
  at_page n w -> at_page (S n) (walk_remap D dune_va_to_pa writable va pte w).2.
Proof.
  unfold at_page. intros ->. cbn. unfold wrap. rewrite Zplus_mod_idemp_l. f_equal. lia.
Qed.

Lemma build_entry segs master id sc stack writable va pte :
  let s := build_sthread segs master id sc stack writable in
  let pages := writable_pages segs (fst <$> dune_vm_clone master) in
  (forall va pte, (va, pte) ∈ dune_vm_clone master -> align_down 4096 (VA_START D) <= va <= VA_END D) ->
  (va, pte) ∈ st_pgroot s ->
  (exists old, (va, old) ∈ dune_vm_clone master /\ pte = protect D segs s va old)
  \/ exists seg m w, seg ∈ segs /\ is_writable seg = true
       /\ align_down 4096 (s_start seg) <= va <= s_end seg - 4096
       /\ (m < pages)%nat /\ at_page m w /\ pte = private_pte s w.
Proof.
  intros s pages Hva Hin. pose proof (build_fields segs master id sc stack writable) as (_ & Hsc & Hst & Hwr & _).
  fold s in Hsc, Hst, Hwr. unfold private_pte. rewrite Hwr.
  assert (Hprot : forall old s', st_sc s' = st_sc s -> st_stack s' = st_stack s ->
            protect D segs s' va old = protect D segs s va old) by (intros old s' H1 H2; unfold protect; by rewrite H1, H2).
  subst s. unfold build_sthread in Hin. set (s0 := MkSthread _ _ _ _ _ _ _ _ _) in Hin.
  rewrite walk_spec in Hin.
  pose proof (walk_entries_numbered (walk_protect D segs s0) (fun _ _ => True) ltac:(done) ltac:(done)
                (VA_START D) (VA_END D) (st_pgroot s0) 0 tt I) as Hwalk. cbn zeta in Hwalk.
  destruct (walk_entries _ _ _ _ _) as [[rc pt] u]. destruct Hwalk as (_ & Hfst & Hent).
  destruct (walk_segments _ _ _ _ _) as [pt' w] eqn:Hw. cbn [st_pgroot set_walk set_pgroot] in Hin.
  destruct (walk_segments_numbered (walk_remap D dune_va_to_pa writable) at_page ltac:(done)
              (walk_remap_numbered writable) segs pt 0 0 va pte) as [Hp|Hr];
    [done|by rewrite Hw| |right].
  - left. destruct (Hent va pte Hp) as (old & Ho & Hc). exists old. split; [exact Ho|].
    destruct Hc as [[_ (m & st' & _ & _ & ->)]|[Hn _]]; [|by destruct (Hn (Hva _ _ Ho))]. cbn.
    apply Hprot; [by rewrite Hsc|by rewrite Hst].
  - destruct Hr as (seg & old & m & w' & Hs & Hwr' & Hrange & Hm & Hat & ->). exists seg, m, w'.
    rewrite Hfst in Hm. do 3 (split; [done|]). split; [exact (proj2 Hm)|]. done.
Qed.

Lemma mmap_some len r k k' :
  mmap oracle len k = (Ret (Some r), k') -> k' = with_log (k_log k ++ [(KMmap len, r)]) k.
Proof.
  unfold mmap, kext, mbind, M_bind. cbn. destruct (_ =? _); intros Hr; [discriminate Hr|]. by injection Hr as <- <-.
Qed.

Lemma require_some {A} code (o : option A) a k k' :
  require code o k = (Ret a, k') -> o = Some a /\ k' = k.
Proof. destruct o; cbn; [intros [= -> ->]; done|done]. Qed.

Lemma create_inv sc k s k' :
  create_new_sthread sc k = (Ret s, k') ->
  head (k_sthreads k') = Some s
  /\ (exists l, k_log k' = l ++ [(KMmap STACK_SIZE, st_stack s); (KMmap (wrap64 (k_cksize k')), st_writable s)])
  /\ exists id stack writable, s = build_sthread (k_segments k') (k_pgroot k') id sc stack writable.
Proof.
  unfold create_new_sthread. intros H. do 12 peel H.
  repeat match goal with
  | H : gets _ _ = (Ret _, _) |- _ => injection H as <- <-
  | H : modify _ _ = (Ret _, _) |- _ => injection H as <- <-
  | H : mret _ _ = (Ret _, _) |- _ => injection H as <- <-
  | H : require _ _ _ = (Ret _, _) |- _ => apply require_some in H as [-> ->]
  | H : mmap _ _ _ = (Ret (Some _), _) |- _ => apply mmap_some in H as ->
  | H : c_assert ?b _ = (Ret _, _) |- _ => destruct b; [injection H as <- <-|done]
  end.
  split; [reflexivity|]. split; [|cbn; eauto].
  cbn [k_log with_sthreads with_log with_mem with_id k_cksize]. rewrite <- app_assoc. eexists.
  match goal with |- context [Sthread.build_sthread _ _ _ _ ?a ?b ?c ?d ?e ?f] =>
    destruct (build_fields a b c d e f) as (_ & _ & -> & -> & _) end. reflexivity.
Qed.

(** C6. Default deny: in the page table of a new sthread, every page user code
    can touch is a page of a read-only segment, of the sthread's own stack, of
    a tag its policy grants, or a page of a writable segment that is mapped to
    a page of the sthread's private copy: the area of the checkpoint's size
    that was mapped last, for this sthread. A page of a tag granted without
    PROT_WRITE is not writable. The master page table has its pages between
    VA_START and VA_END, and no more of them in the writable segments than the
    checkpoint has. *)
Theorem create_default_deny sc k s k' :
  create_new_sthread sc k = (Ret s, k') ->
  (forall va pte, (va, pte) ∈ dune_vm_clone (k_pgroot k') -> align_down 4096 (VA_START D) <= va <= VA_END D) ->
  4096 * Z.of_nat (writable_pages (k_segments k') (fst <$> dune_vm_clone (k_pgroot k'))) <= k_cksize k' < 2 ^ 31 ->
  st_sc s = sc /\ head (k_sthreads k') = Some s
  /\ (exists l, k_log k' = l ++ [(KMmap STACK_SIZE, st_stack s); (KMmap (k_cksize k'), st_writable s)])
  /\ forall va pte, (va, pte) ∈ st_pgroot s ->
       (has_bits pte (PTE_U D) = true ->
          reachable_page (k_segments k') s va
          \/ exists seg w, seg ∈ k_segments k' /\ is_writable seg = true
               /\ align_down 4096 (s_start seg) <= va <= s_end seg - 4096
               /\ (4096 | w) /\ 0 <= w /\ w + 4096 <= k_cksize k' /\ pte = private_pte s w)
       /\ (forall tag, seg_of (k_segments k') va = None -> tag_grant (sc_mem sc) va = Some tag ->
             has_bits tag PROT_WRITE = false ->
             (forall seg, seg ∈ k_segments k' ->
                ~ (align_down 4096 (s_start seg) <= va <= s_end seg - 4096)) ->
             has_bits pte (PTE_W D) = false).
Proof.
  intros Hc Hva Hsize. destruct (create_inv sc k s k' Hc) as (Hh & Hlog & id & stack & writable & Hs).
  pose proof (build_fields (k_segments k') (k_pgroot k') id sc stack writable) as (_ & Hsc & _).
  rewrite <- Hs in Hsc. split; [done|]. split; [done|].
  split; [rewrite wrap64_small in Hlog by mlia; exact Hlog|]. intros va pte Hin.
  pose proof (build_entry (k_segments k') (k_pgroot k') id sc stack writable va pte Hva) as Hb.
  rewrite <- Hs in Hb. destruct (Hb Hin) as [(old & _ & ->)|(seg & m & w & Hseg & Hw & Hr & Hm & Hat & ->)]; split.
  - intros Hu. left. by apply protect_user in Hu.
  - intros tag Hn Ht Hro _. eapply protect_read_only; [exact Hn| |exact Hro]. by rewrite Hsc.
  - intros _. right. unfold at_page in Hat. rewrite wrap64_small in Hat by mlia.
    exists seg, w. do 3 (split; [done|]). split; [exists (Z.of_nat m); lia|]. split; [lia|]. split; [lia|done].
  - intros tag _ _ _ Hno. by destruct (Hno seg Hseg).
Qed.
End isolation.
