(* ===== verification/Recycle.v ===== *)
(** Recycling an sthread (recycle and its callbacks in wedge/src/sthread.c):
    when the dirty bits of its page table mark every private page that differs
    from the checkpoint, recycling makes the private copy equal to the
    checkpoint again, so that the next compartment that reuses the sthread
    finds nothing of the previous one. *)

From stdpp Require Import base numbers list option.
From S2P Require Import Prelude Platform CString Policy Sthread SthreadProps.

Definition in_range (lo hi va : Z) : bool := (align_down 4096 lo <=? va) && (va <=? hi).

(** The entries a walk visits, and the table with their dirty bits cleared. *)
Definition visited (lo hi : Z) (pt : pagetable) : pagetable := filter (fun e => in_range lo hi e.1 = true) pt.
Definition cleaned (D : dune_abi) (lo hi : Z) (pt : pagetable) : pagetable :=
  (fun e => if in_range lo hi e.1 then (e.1, Z.ldiff e.2 (PTE_D D)) else e) <$> pt.

(** The memory after visiting pages with the entries [ptes], from offset [w]. *)
Fixpoint restore (D : dune_abi) (wr ck : Z) (ptes : list Z) (w : Z) (m : Z -> Z) : Z -> Z :=
  match ptes with
  | [] => m
  | pte :: ptes =>
      restore D wr ck ptes (w + 4096)
        (if has_bits pte (PTE_D D) then blit m (wr + w) (ck + w) 4096 else m)
  end.

(** Private copy and checkpoint agree on the offsets from [a] to [b]. *)
Definition agree (m : Z -> Z) (wr ck a b : Z) : Prop := forall o, a <= o < b -> m (wr + o) = m (ck + o).

Section recycle.
Context (D : dune_abi).

Lemma blit_out m dst src n b : b < dst \/ dst + n <= b -> blit m dst src n b = m b.
Proof.
  intros. unfold blit. destruct (Z.leb_spec dst b), (Z.ltb_spec b (dst + n)); cbn; lia || done.
Qed.

Lemma blit_in m dst src n o : 0 <= o < n -> blit m dst src n (dst + o) = m (src + o).
Proof.
  intros. unfold blit. destruct (Z.leb_spec dst (dst + o)), (Z.ltb_spec (dst + o) (dst + n)); cbn; try lia.
  f_equal. lia.
Qed.

Lemma restore_app wr ck l l' w m :
  restore D wr ck (l ++ l') w m
  = restore D wr ck l' (w + 4096 * Z.of_nat (length l)) (restore D wr ck l w m).
Proof.
  revert w m; induction l as [|p l IH]; intros w m; cbn [app restore length].
  - f_equal. lia.
  - rewrite IH. f_equal. lia.
Qed.

(** Memory outside the private pages visited does not change. *)
Lemma restore_out wr ck l w m b :
  b < wr + w \/ wr + w + 4096 * Z.of_nat (length l) <= b -> restore D wr ck l w m b = m b.
Proof.
  revert w m; induction l as [|p l IH]; intros w m Hb; cbn [restore length] in *; [done|].
  rewrite IH by lia. destruct (has_bits p (PTE_D D)); [|done]. apply blit_out. lia.
Qed.

Lemma restore_agree wr ck l w m :
  let T := w + 4096 * Z.of_nat (length l) in
  wr + T <= ck + w \/ ck + T <= wr + w ->
  (forall i pte, l !! i = Some pte -> has_bits pte (PTE_D D) = false ->
     agree m wr ck (w + 4096 * Z.of_nat i) (w + 4096 * Z.of_nat i + 4096)) ->
  agree (restore D wr ck l w m) wr ck w T.
Proof.
  revert w m; induction l as [|p l IH]; intros w m T Hd Hc; subst T; cbn [length] in *; [intros o; lia|].
  cbn [restore]. set (m1 := if has_bits p (PTE_D D) then blit m (wr + w) (ck + w) 4096 else m).
  assert (Hm1 : forall b, b < wr + w \/ wr + w + 4096 <= b -> m1 b = m b).
  { intros b Hb. subst m1. destruct (has_bits p (PTE_D D)); [by apply blit_out|done]. }
  assert (Hpage : agree m1 wr ck w (w + 4096)).
  { intros o Ho. subst m1. destruct (has_bits p (PTE_D D)) eqn:Hp.
    - replace (wr + o) with (wr + w + (o - w)) by lia. rewrite blit_in by lia.
      rewrite blit_out by lia. f_equal. lia.
    - apply (Hc 0%nat p eq_refl Hp). cbn. lia. }
  assert (Hrest : agree (restore D wr ck l (w + 4096) m1) wr ck (w + 4096)
                    (w + 4096 + 4096 * Z.of_nat (length l))).
  { apply IH; [lia|]. intros i pte Hi Hp o Ho.
    pose proof (lookup_lt_Some _ _ _ Hi). rewrite !Hm1 by lia.
    apply (Hc (S i) pte Hi Hp). lia. }
  intros o Ho. destruct (Z_lt_le_dec o (w + 4096)).
  - rewrite !restore_out by lia. apply Hpage. lia.
  - apply Hrest. lia.
Qed.

Lemma ldiff_clear x m : has_bits x m = false -> Z.ldiff x m = x.
Proof.
  unfold has_bits. intros H. apply negb_false_iff, Z.eqb_eq in H. apply Z.bits_inj'. intros i Hi.
  apply (f_equal (fun z => Z.testbit z i)) in H. rewrite Z.land_spec, Z.bits_0 in H.
  rewrite Z.ldiff_spec. by destruct (Z.testbit x i), (Z.testbit m i).
Qed.

Lemma visited_cons lo hi va pte pt :
  visited lo hi ((va, pte) :: pt) = if in_range lo hi va then (va, pte) :: visited lo hi pt else visited lo hi pt.
Proof.
  unfold visited. destruct (in_range lo hi va) eqn:Hr; [by apply filter_cons_True|].
  apply filter_cons_False. cbn. congruence.
Qed.

(** One walk with [walk_recycle]. *)
Lemma walk_recycle_entries wr ck lo hi pt w m :
  0 <= w -> w + 4096 * Z.of_nat (length (visited lo hi pt)) < 2 ^ 64 ->
  walk_entries (walk_recycle D wr ck) lo hi pt (w, m)
  = (0, cleaned D lo hi pt,
     (w + 4096 * Z.of_nat (length (visited lo hi pt)), restore D wr ck (snd <$> visited lo hi pt) w m)).
Proof.
  revert w m; induction pt as [|[va pte] pt IH]; intros w m Hw Hb; cbn [walk_entries].
  { cbn. do 2 f_equal. lia. }
  rewrite visited_cons in Hb |- *. fold (in_range lo hi va).
  change (cleaned D lo hi ((va, pte) :: pt))
    with ((if in_range lo hi va then (va, Z.ldiff pte (PTE_D D)) else (va, pte)) :: cleaned D lo hi pt).
  destruct (in_range lo hi va); [|by rewrite IH by lia].
  cbn [length fmap list_fmap restore snd] in *. unfold walk_recycle at 1. rewrite wrap64_small by mlia.
  destruct (has_bits pte (PTE_D D)) eqn:Hd; cbn [Z.eqb]; rewrite IH by lia.
  - do 2 f_equal. lia.
  - rewrite ldiff_clear by done. do 2 f_equal. lia.
Qed.

(** ** All writable segments *)

Context (dune_vm_page_walk : walker) `{!walker_ok dune_vm_page_walk}.

(** Two segments have no page in common. *)
Definition seg_range (seg : segment) (va : Z) : bool := in_range (s_start seg) (s_end seg - 4096) va.
Definition separate (a b : segment) : Prop := forall va, seg_range a va = true -> seg_range b va = true -> False.

Fixpoint all_separate (segs : list segment) : Prop :=
  match segs with
  | [] => True
  | seg :: segs => Forall (separate seg) segs /\ all_separate segs
  end.

(** The entries of the writable segments, in the order of the walks. *)
Fixpoint visits (segs : list segment) (pt : pagetable) : pagetable :=
  match segs with
  | [] => []
  | seg :: segs =>
      if is_writable seg then visited (s_start seg) (s_end seg - 4096) pt ++ visits segs pt
      else visits segs pt
  end.

Fixpoint clean_all (segs : list segment) (pt : pagetable) : pagetable :=
  match segs with
  | [] => pt
  | seg :: segs =>
      clean_all segs (if is_writable seg then cleaned D (s_start seg) (s_end seg - 4096) pt else pt)
  end.

Lemma visited_cleaned lo hi lo' hi' pt :
  (forall va, in_range lo hi va = true -> in_range lo' hi' va = true -> False) ->
  visited lo hi (cleaned D lo' hi' pt) = visited lo hi pt.
Proof.
  intros Hd. induction pt as [|[va pte] pt IH]; [done|].
  change (cleaned D lo' hi' ((va, pte) :: pt))
    with ((if in_range lo' hi' va then (va, Z.ldiff pte (PTE_D D)) else (va, pte)) :: cleaned D lo' hi' pt).
  destruct (in_range lo' hi' va) eqn:H'; rewrite !visited_cons, IH;
    destruct (in_range lo hi va) eqn:H; try done. by destruct (Hd va).
Qed.

Lemma visits_cleaned seg segs pt :
  Forall (separate seg) segs -> visits segs (cleaned D (s_start seg) (s_end seg - 4096) pt) = visits segs pt.
Proof.
  induction 1 as [|seg' segs Hs Hsegs IH]; cbn [visits]; [done|].
  destruct (is_writable seg'); [|done]. rewrite IH, visited_cleaned; [done|].
  intros va H1 H2. by apply (Hs va).
Qed.

Lemma walk_segments_recycle wr ck segs pt w m :
  all_separate segs -> 0 <= w -> w + 4096 * Z.of_nat (length (visits segs pt)) < 2 ^ 64 ->
  walk_segments dune_vm_page_walk (walk_recycle D wr ck) segs pt (w, m)
  = (clean_all segs pt,
     (w + 4096 * Z.of_nat (length (visits segs pt)), restore D wr ck (snd <$> visits segs pt) w m)).
Proof.
  revert pt w m; induction segs as [|seg segs IH]; intros pt w m Hs Hw Hb.
  { cbn. do 2 f_equal. lia. }
  destruct Hs as [Hs Hsegs]. cbn [walk_segments visits clean_all] in *.
  destruct (is_writable seg); [|by apply IH]. rewrite length_app in Hb.
  rewrite walk_spec, walk_recycle_entries by lia.
  rewrite IH, visits_cleaned by (done || rewrite ?visits_cleaned by done; lia).
  rewrite fmap_app, restore_app, length_app, length_fmap. do 2 f_equal. lia.
Qed.

(** The walk over the stack only writes there. *)
Lemma walk_stack_out stack lo hi pt w m b :
  0 <= w -> w + 4096 * Z.of_nat (length (visited lo hi pt)) < 2 ^ 64 ->
  b < stack + w \/ stack + w + 4096 * Z.of_nat (length (visited lo hi pt)) <= b ->
  (walk_entries (walk_recycle_stack D stack) lo hi pt (w, m)).2.2 b = m b.
Proof.
  revert w m; induction pt as [|[va pte] pt IH]; intros w m Hw Hb Ho; cbn [walk_entries]; [done|].
  rewrite visited_cons in Hb, Ho. fold (in_range lo hi va). destruct (in_range lo hi va).
  - cbn [length] in *. unfold walk_recycle_stack at 1. rewrite wrap64_small by mlia.
    destruct (has_bits pte (PTE_D D)); cbn [Z.eqb].
    + specialize (IH (w + 4096) (fill m (stack + w) 0 4096)).
      destruct (walk_entries _ lo hi pt _) as [[rc pt'] [w' m']]. cbn in *. rewrite IH by lia.
      unfold fill. destruct (Z.leb_spec (stack + w) b), (Z.ltb_spec b (stack + w + 4096)); cbn; lia || done.
    + specialize (IH (w + 4096) m). destruct (walk_entries _ lo hi pt _) as [[rc pt'] [w' m']].
      cbn in *. apply IH; lia.
  - specialize (IH w m). destruct (walk_entries _ lo hi pt _) as [[rc pt'] [w' m']]. cbn in *. apply IH; lia.
Qed.

(** C7. Recycling restores the checkpoint: if every page of the private copy
    whose entry is not marked dirty still equals the checkpoint (what the
    processor's dirty bits give), then after [recycle] the whole private copy
    equals the checkpoint, and no memory outside the private copy and the
    stack has changed. *)
Theorem recycle_restores k s :
  let vs := visits (k_segments k) (st_pgroot s) in
  let T := 4096 * Z.of_nat (length vs) in
  let stack_pages := visited (st_stack s) (st_stack s + STACK_SIZE - 4096)
                       (clean_all (k_segments k) (st_pgroot s)) in
  let S := 4096 * Z.of_nat (length stack_pages) in
  all_separate (k_segments k) -> T < 2 ^ 64 -> S < 2 ^ 64 ->
  st_writable s + T <= k_ckmem k \/ k_ckmem k + T <= st_writable s ->
  st_writable s + T <= st_stack s \/ st_stack s + S <= st_writable s ->
  k_ckmem k + T <= st_stack s \/ st_stack s + S <= k_ckmem k ->
  (forall i va pte, vs !! i = Some (va, pte) -> has_bits pte (PTE_D D) = false ->
     agree (k_mem k) (st_writable s) (k_ckmem k) (4096 * Z.of_nat i) (4096 * Z.of_nat i + 4096)) ->
  let '(s', m) := recycle D dune_vm_page_walk k s in
  agree m (st_writable s) (k_ckmem k) 0 T
  /\ (forall b, (b < st_writable s \/ st_writable s + T <= b) -> (b < st_stack s \/ st_stack s + S <= b) ->
        m b = k_mem k b)
  /\ st_sc s' = st_sc s /\ st_id s' = st_id s.
Proof.
  intros vs T stack_pages S Hsep HT HS Hd1 Hd2 Hd3 Hclean. unfold recycle.
  rewrite walk_segments_recycle by (done || lia). fold vs. rewrite walk_spec.
  set (m1 := restore D (st_writable s) (k_ckmem k) (snd <$> vs) 0 (k_mem k)).
  pose proof (fun b => walk_stack_out (st_stack s) (st_stack s) (st_stack s + STACK_SIZE - 4096)
                (clean_all (k_segments k) (st_pgroot s)) 0 m1 b (Z.le_refl 0) HS) as Hst.
  fold stack_pages in Hst.
  destruct (walk_entries _ _ _ _ _) as [[rc pt] [w m]]. cbn in Hst.
  assert (Hlen : length (snd <$> vs) = length vs) by apply length_fmap.
  assert (Hag : agree m1 (st_writable s) (k_ckmem k) 0 T).
  { assert (HT0 : T = 0 + 4096 * Z.of_nat (length (snd <$> vs))) by (rewrite Hlen; reflexivity).
    subst m1. rewrite HT0. apply restore_agree; [rewrite <- HT0; lia|]. intros i pte Hi Hp.
    rewrite list_lookup_fmap in Hi. apply fmap_Some in Hi as ([va p] & Hvi & ->).
    exact (Hclean i va p Hvi Hp). }
  split; [|split; [|done]].
  - intros o Ho. rewrite !Hst by (subst S T; lia). by apply Hag.
  - intros b Hb1 Hb2. rewrite Hst by (subst S; lia). subst m1. apply restore_out. rewrite Hlen. lia.
Qed.
End recycle.

(** ** Witness: one writable page, dirty, whose first byte was changed. *)

Definition dirty_st : sthread :=
  MkSthread 1 ST_RUNNING 0 0x70000 [(0x4000, 0x40047)] zero_regs sc_init 0x40000 0.
Definition dirty_kern : kern :=
  Kern [Segment 0x4000 0x5000 0x1000 3] 0x80000 4096 [] 0 (-1) 1 [dirty_st] (Some 1) []
       (fun b => if b =? 0x40000 then 7 else 0) [].

Lemma recycle_restores_witness :
  agree (recycle dune_x86 list_walker dirty_kern dirty_st).2 0x40000 0x80000 0 4096.
Proof.
  pose proof (recycle_restores dune_x86 list_walker dirty_kern dirty_st) as H.
  destruct (recycle dune_x86 list_walker dirty_kern dirty_st) as [s' m].
  apply H.
  - split; [apply List.Forall_nil; exact I|exact I].
  - vm_compute. reflexivity.
  - vm_compute. reflexivity.
  - left. vm_compute. discriminate.
  - left. vm_compute. discriminate.
  - right. vm_compute. discriminate.
  - intros [|i] va pte; [|intros Hi; destruct i; discriminate Hi].
    intros [= <- <-] Hd. vm_compute in Hd. discriminate Hd.
Defined.
