(* ===== verification/Mediation.v ===== *)
(** The system-call handler of the sthread kernel: what it lets through, and
    the two ways in which it loses the sthread it works for. *)

From stdpp Require Import base numbers list option.
From S2P Require Import Prelude Platform CString Policy Sthread SthreadProps.

Section mediation.
Context (D : dune_abi) (CONFIG_DUNE_BOOT : bool).
Context (dune_vm_page_walk : walker).
Context (oracle : list (kcall * Z) -> kcall -> Z) (run_user : pt_regs -> kern -> kern).
Context `{!walker_ok dune_vm_page_walk}.

Abbreviation handler := (syscall_handler D CONFIG_DUNE_BOOT dune_vm_page_walk oracle run_user).
Abbreviation perform := (perform D dune_vm_page_walk oracle run_user).
Abbreviation mem_perm := (has_mem_perm D CONFIG_DUNE_BOOT dune_vm_page_walk).

Definition find_st (k : kern) (id : Z) : option sthread :=
  List.find (fun s => st_id s =? id) (k_sthreads k).

(** The state with one sthread replaced. *)
Definition put_st (id : Z) (s : sthread) (k : kern) : kern :=
  with_sthreads (map (fun s0 => if st_id s0 =? id then s else s0) (k_sthreads k)) k.

Lemma find_put id s s0 k : find_st k id = Some s0 -> st_id s = id -> find_st (put_st id s k) id = Some s.
Proof.
  unfold find_st, put_st. cbn [k_sthreads with_sthreads]. intros Hf Hid. revert Hf.
  induction (k_sthreads k) as [|x l IH]; [done|]. cbn.
  destruct (st_id x =? id) eqn:Hx.
  - intros _. by rewrite Hid, Z.eqb_refl.
  - rewrite Hx. exact IH.
Qed.

(** ** Memory checks *)

Lemma walk_check_all lo hi pt w :
  (walk_entries (walk_check_perm D CONFIG_DUNE_BOOT) lo hi pt w).1.2 = pt
  /\ ((walk_entries (walk_check_perm D CONFIG_DUNE_BOOT) lo hi pt w).1.1 = 0 ->
      Forall (fun e => align_down 4096 lo <= e.1 <= hi ->
                has_bits e.2 (PTE_U D) = true /\ has_bits e.2 (PTE_P D) = true
                /\ has_bits e.2 (PTE_W D) = true) pt).
Proof.
  revert w; induction pt as [|[va pte] pt IH]; intros w; cbn [walk_entries]; [split; [done|constructor]|].
  assert (Hskip : forall w', ~ (align_down 4096 lo <= va <= hi) \/
            (has_bits pte (PTE_U D) = true /\ has_bits pte (PTE_P D) = true /\ has_bits pte (PTE_W D) = true) ->
            let '(rc, pt', st') := walk_entries (walk_check_perm D CONFIG_DUNE_BOOT) lo hi pt w' in
            (va, pte) :: pt' = (va, pte) :: pt
            /\ (rc = 0 -> Forall (fun e => align_down 4096 lo <= e.1 <= hi ->
                  has_bits e.2 (PTE_U D) = true /\ has_bits e.2 (PTE_P D) = true
                  /\ has_bits e.2 (PTE_W D) = true) ((va, pte) :: pt))).
  { intros w' Hc. destruct (IH w') as [Hp Hf].
    destruct (walk_entries _ lo hi pt w') as [[rc pt'] st']. cbn in *. split; [by rewrite Hp|].
    intros Hrc. constructor; [cbn; tauto|by apply Hf]. }
  destruct (Z.leb_spec (align_down 4096 lo) va), (Z.leb_spec va hi); cbn [andb].
  2,3,4: specialize (Hskip w ltac:(left; lia)); destruct (walk_entries _ lo hi pt w) as [[rc pt'] st']; done.
  unfold walk_check_perm at 1 3.
  destruct (has_bits pte (PTE_U D)) eqn:HU; cbn [negb]; [|split; [done|intros [=]]].
  destruct (has_bits pte (PTE_P D)) eqn:HP; cbn [negb]; [|split; [done|intros [=]]].
  destruct (has_bits pte (PTE_W D)) eqn:HW; cbn [negb]; [|split; [done|intros [=]]].
  destruct (w =? 0); cbn [Z.eqb];
    match goal with |- context [walk_entries _ lo hi pt ?w'] => specialize (Hskip w' ltac:(right; done));
      destruct (walk_entries _ lo hi pt w') as [[rc pt'] st'] end; done.
Qed.

Lemma mem_perm_sound s ptr len :
  (mem_perm s ptr len).1 = true ->
  Forall (fun e => align_down 4096 ptr <= e.1 <= wrap64 (ptr + len) ->
            has_bits e.2 (PTE_U D) = true /\ has_bits e.2 (PTE_P D) = true
            /\ has_bits e.2 (PTE_W D) = true) (st_pgroot s).
Proof.
  unfold has_mem_perm. rewrite walk_spec.
  destruct (walk_check_all ptr (wrap64 (ptr + len)) (st_pgroot s) 0) as [_ H].
  destruct (walk_entries _ _ _ _ _) as [[rc pt] w]. cbn in *. intros Hrc. apply H. by apply Z.eqb_eq.
Qed.

Lemma mem_perm_id s ptr len : st_id (mem_perm s ptr len).2 = st_id s /\ st_sc (mem_perm s ptr len).2 = st_sc s.
Proof. unfold has_mem_perm. by destruct (dune_vm_page_walk _ _ _ _ _ _) as [[rc pt] w]. Qed.

(** The frame an entry of the page table names, as the kernel addresses it. *)
Definition frame_of (pte : Z) : Z :=
  let addr := PTE_ADDR D pte in
  if CONFIG_DUNE_BOOT && (0x400000000 <=? addr) then wrap64 (addr + mmap_base D - 0x400000000) else addr.

(** The walk leaves the frame of an entry of the range, or 0. *)
Lemma walk_check_frame lo hi pt w :
  let w' := (walk_entries (walk_check_perm D CONFIG_DUNE_BOOT) lo hi pt w).2 in
  w' = w \/ exists e, e ∈ pt /\ align_down 4096 lo <= e.1 <= hi /\ w' = frame_of e.2.
Proof.
  cbn zeta. revert w; induction pt as [|[va pte] pt IH]; intros w; [by left|].
  set (Q := fun w' => w' = w \/ exists e, e ∈ (va, pte) :: pt /\ align_down 4096 lo <= e.1 <= hi
                                        /\ w' = frame_of e.2).
  assert (Hrest : forall w' pte', (w' = w \/ align_down 4096 lo <= va <= hi /\ w' = frame_of pte) ->
    Q (let '(rc, pt', st') := walk_entries (walk_check_perm D CONFIG_DUNE_BOOT) lo hi pt w'
       in (rc, (va, pte') :: pt', st')).2).
  { intros w' pte' Hw'. unfold Q. specialize (IH w').
    destruct (walk_entries _ lo hi pt w') as [[rc pt'] w'']. cbn in *. destruct IH as [->|(e & He & Hr & Hw)].
    - destruct Hw' as [->|[Hr Hw']]; [by left|]. right. exists (va, pte). split; [apply list_elem_of_here|done].
    - right. exists e. split; [by apply list_elem_of_further|done]. }
  match goal with |- ?w' = w \/ _ => change (Q w') end. cbn [walk_entries].
  destruct (Z.leb_spec (align_down 4096 lo) va), (Z.leb_spec va hi); cbn [andb];
    [|apply Hrest; by left..].
  unfold walk_check_perm at 1.
  destruct (negb (has_bits pte (PTE_U D))); [by left|].
  destruct (negb (has_bits pte (PTE_P D))); [by left|].
  destruct (negb (has_bits pte (PTE_W D))); [by left|]. fold (frame_of pte).
  destruct (w =? 0); cbn [Z.eqb]; apply Hrest; [right; split; [lia|done]|by left].
Qed.

(** A buffer of [len] bytes at [ptr] that the sthread may hand to the kernel:
    every entry of its page table in the range is present, writable and open
    to user code, and [w] is the frame of such an entry, or 0 when the range
    has none. *)
Definition buffer_ok (s : sthread) (ptr len w : Z) : Prop :=
  let in_range (e : Z * Z) := align_down 4096 ptr <= e.1 <= wrap64 (ptr + len) in
  Forall (fun e => in_range e ->
            has_bits e.2 (PTE_U D) = true /\ has_bits e.2 (PTE_P D) = true
            /\ has_bits e.2 (PTE_W D) = true) (st_pgroot s)
  /\ (w = 0 \/ exists e, e ∈ st_pgroot s /\ in_range e /\ w = frame_of e.2).

Lemma mem_perm_ok s ptr len s' :
  mem_perm s ptr len = (true, s') ->
  buffer_ok s ptr len (st_walk s') /\ s' = set_walk (st_walk s') s.
Proof.
  intros Hm. pose proof (mem_perm_sound s ptr len) as Hs. rewrite Hm in Hs. specialize (Hs eq_refl).
  unfold has_mem_perm in Hm. rewrite walk_spec in Hm.
  destruct (walk_check_all ptr (wrap64 (ptr + len)) (st_pgroot s) 0) as [Hpt _].
  pose proof (walk_check_frame ptr (wrap64 (ptr + len)) (st_pgroot s) 0) as Hw.
  destruct (walk_entries _ _ _ _ _) as [[rc pt] w]. cbn in Hpt, Hw. injection Hm as _ <-. subst pt.
  split; [by split|by destruct s].
Qed.

(** ** Mediation *)

(** The checks a call of the current sthread has passed, and the frame on
    which it is performed. *)
Inductive passed (k : kern) (tf : pt_regs) (cur : Z) : kern -> pt_regs -> Prop :=
  | passed_plain s v :
      find_st k cur = Some s -> can_do_sys (st_sc s) (to_int (rrax tf)) = Ret v -> v <> 0 ->
      (forall perm fd, fd_check (to_int (rrax tf)) tf = Some (perm, fd) -> has_fd_perm (st_sc s) fd perm = true) ->
      mem_check (k_mem k) (to_int (rrax tf)) tf = None ->
      passed k tf cur k tf
  | passed_mem s v ptr len set s' :
      find_st k cur = Some s -> can_do_sys (st_sc s) (to_int (rrax tf)) = Ret v -> v <> 0 ->
      (forall perm fd, fd_check (to_int (rrax tf)) tf = Some (perm, fd) -> has_fd_perm (st_sc s) fd perm = true) ->
      mem_check (k_mem k) (to_int (rrax tf)) tf = Some (ptr, Some len, set) ->
      mem_perm s ptr len = (true, s') ->
      passed k tf cur (put_st cur s' k) (set (wrap64 (st_walk s' + Z.land ptr 0xfff))).

Lemma mem_check_cases m n tf ptr len set :
  mem_check m n tf = Some (ptr, Some len, set) ->
  (n = 2 /\ ptr = rrdi tf /\ set = (fun v => set_rrdi v tf)
     /\ exists e, memchr m (rrdi tf) 0 (2 ^ 64) = Some e /\ len = wrap64 (e - rrdi tf))
  \/ ((n = 0 \/ n = 1) /\ ptr = rrsi tf /\ set = (fun v => set_rrsi v tf) /\ len = rrdx tf).
Proof.
  unfold mem_check. destruct (Z.eqb_spec n SYS_open) as [->|_].
  - destruct (memchr m (rrdi tf) 0 (2 ^ 64)) as [e|]; cbn [fmap option_fmap option_map]; intros [= <- <- <-].
    left. split; [done|]. split; [done|]. split; [done|]. by exists e.
  - destruct (Z.eqb_spec n SYS_write) as [->|_]; cbn [orb];
      [|destruct (Z.eqb_spec n SYS_read) as [->|_]; [|discriminate]]; intros [= <- <- <-]; right; auto.
Qed.

Lemma mem_check_none m n tf : mem_check m n tf = None -> n <> 0 /\ n <> 1 /\ n <> 2.
Proof.
  unfold mem_check. destruct (Z.eqb_spec n SYS_open) as [|H2]; [discriminate|].
  destruct (Z.eqb_spec n SYS_write) as [|H1]; cbn [orb]; [discriminate|].
  destruct (Z.eqb_spec n SYS_read) as [|H0]; [discriminate|]. done.
Qed.

Lemma sthread_handler_cases tf k :
  (k_log (handler tf k).2 = k_log k /\ ((handler tf k).1 = Ret (blocked tf) \/ (handler tf k).1 = Abort
       \/ (handler tf k).1 = UB \/ (handler tf k).1 = Exit 1))
  \/ exists cur k1 tf1, k_current k = Some cur /\ passed k tf cur k1 tf1
       /\ handler tf k = perform cur (to_int (rrax tf)) tf1 k1.
Proof.
  destruct (handler tf k) as [o k'] eqn:Hh. cbn [fst snd]. revert Hh. unfold syscall_handler. exec.
  destruct (k_current k) as [cur|] eqn:Hcur; [|intros Hx; inversion Hx; subst o k'; clear Hx; left; auto 6].
  unfold get_st. exec. fold (find_st k cur).
  destruct (find_st k cur) as [s|] eqn:Hs; [|intros Hx; inversion Hx; subst o k'; clear Hx; left; auto 6].
  assert (Hcan : (exists v, can_do_sys (st_sc s) (to_int (rrax tf)) = Ret v)
                 \/ can_do_sys (st_sc s) (to_int (rrax tf)) = Exit 1
                 \/ can_do_sys (st_sc s) (to_int (rrax tf)) = UB).
  { unfold can_do_sys, sys_pos. repeat match goal with |- context [if ?b then _ else _] => destruct b end; eauto. }
  unfold lift. destruct Hcan as [[v Hv]|[Hv|Hv]]; rewrite Hv; [exec|intros Hx; inversion Hx; subst o k'; clear Hx; left; auto 6..].
  destruct (Z.eqb_spec v 0) as [Hv0|Hv0]; [intros Hx; inversion Hx; subst o k'; clear Hx; left; auto|].
  match goal with |- context [negb ?b] => destruct b eqn:Hfd; cbn [negb] end; [|intros Hx; inversion Hx; subst o k'; clear Hx; left; auto].
  assert (Hfdok : forall perm fd, fd_check (to_int (rrax tf)) tf = Some (perm, fd) ->
            has_fd_perm (st_sc s) fd perm = true).
  { intros perm fd He. by rewrite He in Hfd. }
  destruct (mem_check (k_mem k) (to_int (rrax tf)) tf) as [[[ptr [len|]] set]|] eqn:Hm.
  2: intros Hx; inversion Hx; subst o k'; clear Hx; left; auto 6.
  2:{ intros <-. right. exists cur, k, tf. split; [done|]. split; [|done]. by eapply passed_plain. }
  destruct (Z.eqb_spec (st_walk s) 0); [intros Hx; inversion Hx; subst o k'; clear Hx; left; auto 6|].
  destruct (mem_perm s ptr len) as [ok s'] eqn:Hmp. unfold upd_st. exec. destruct ok; cbn [negb].
  - intros <-. right. exists cur, (put_st cur s' k), (set (wrap64 (st_walk s' + Z.land ptr 0xfff))).
    split; [done|]. split; [|done]. by eapply passed_mem.
  - intros Hx; inversion Hx; subst o k'; clear Hx. left. auto.
Qed.


(** The handler on a call whose number and descriptor the policy allows. *)
Lemma handler_checked k cur s tf v :
  k_current k = Some cur -> find_st k cur = Some s ->
  can_do_sys (st_sc s) (to_int (rrax tf)) = Ret v -> v <> 0 ->
  (forall perm fd, fd_check (to_int (rrax tf)) tf = Some (perm, fd) -> has_fd_perm (st_sc s) fd perm = true) ->
  handler tf k
  = match mem_check (k_mem k) (to_int (rrax tf)) tf with
    | None => perform cur (to_int (rrax tf)) tf k
    | Some (_, None, _) => (UB, k)
    | Some (ptr, Some len, set) =>
        if st_walk s =? 0 then (Abort, k)
        else if (mem_perm s ptr len).1
        then perform cur (to_int (rrax tf)) (set (wrap64 (st_walk (mem_perm s ptr len).2 + Z.land ptr 0xfff)))
               (put_st cur (mem_perm s ptr len).2 k)
        else (Ret (blocked tf), put_st cur (mem_perm s ptr len).2 k)
    end.
Proof.
  intros Hc Hf Hv Hv0 Hfd. unfold syscall_handler. exec. rewrite Hc. unfold get_st. exec.
  fold (find_st k cur). rewrite Hf. unfold lift. rewrite Hv. exec. apply Z.eqb_neq in Hv0. rewrite Hv0.
  assert (Hok : match fd_check (to_int (rrax tf)) tf with
                | Some (perm, fd) => has_fd_perm (st_sc s) fd perm
                | None => true
                end = true).
  { destruct (fd_check _ tf) as [[perm fd]|]; [by apply Hfd|done]. }
  rewrite Hok. cbn [negb]. destruct (mem_check _ _ tf) as [[[ptr [len|]] set]|]; [|done..].
  destruct (st_walk s =? 0); [done|]. destruct (mem_perm s ptr len) as [ok s']. unfold upd_st. exec. by destruct ok.
Qed.

(** ** Lost sthreads *)

(** A read or write of the current sthread on a descriptor it may use. *)
Definition io_call (k : kern) (cur : Z) (s : sthread) (tf : pt_regs) (perm : Z) : Prop :=
  k_current k = Some cur /\ find_st k cur = Some s
  /\ (to_int (rrax tf) = SYS_read /\ perm = PROT_READ \/ to_int (rrax tf) = SYS_write /\ perm = PROT_WRITE)
  /\ has_fd_perm (st_sc s) (to_int (rrdi tf)) perm = true.

Lemma handler_io k cur s tf perm :
  io_call k cur s tf perm ->
  handler tf k
  = if st_walk s =? 0 then (Abort, k)
    else if (mem_perm s (rrsi tf) (rrdx tf)).1
    then perform cur (to_int (rrax tf))
           (set_rrsi (wrap64 (st_walk (mem_perm s (rrsi tf) (rrdx tf)).2 + Z.land (rrsi tf) 0xfff)) tf)
           (put_st cur (mem_perm s (rrsi tf) (rrdx tf)).2 k)
    else (Ret (blocked tf), put_st cur (mem_perm s (rrsi tf) (rrdx tf)).2 k).
Proof.
  intros (Hc & Hf & Hsys & Hfd).
  rewrite (handler_checked k cur s tf 1) by
    (done || destruct Hsys as [[-> ->]|[-> ->]]; done || (intros perm' fd' [= <- <-]; done)).
  by destruct Hsys as [[-> _]|[-> _]].
Qed.

(** A refused buffer poisons the sthread: after a read or write that is
    refused on its first page, the walk address is left 0, and the next read
    or write of the sthread, however well-formed, fails the assertion and
    brings the process down. *)
Theorem refused_buffer_poisons k cur s tf tf2 perm perm2 :
  io_call k cur s tf perm -> st_walk s <> 0 ->
  (mem_perm s (rrsi tf) (rrdx tf)).1 = false -> st_walk (mem_perm s (rrsi tf) (rrdx tf)).2 = 0 ->
  io_call k cur s tf2 perm2 -> st_id s = cur ->
  exists k1, handler tf k = (Ret (blocked tf), k1) /\ handler tf2 k1 = (Abort, k1).
Proof.
  intros Hio Hw Hno Hw0 Hio2 Hid. set (s' := (mem_perm s (rrsi tf) (rrdx tf)).2) in *.
  exists (put_st cur s' k). rewrite (handler_io k cur s tf perm Hio). apply Z.eqb_neq in Hw.
  rewrite Hw, Hno. split; [done|].
  destruct (mem_perm_id s (rrsi tf) (rrdx tf)) as [Hid' Hsc]. fold s' in Hid', Hsc.
  destruct Hio2 as (Hc & Hf & Hs2 & Hfd2).
  rewrite (handler_io (put_st cur s' k) cur s' tf2 perm2); [by rewrite Hw0|].
  split; [done|]. split; [apply (find_put _ _ s); congruence|]. split; [done|]. by rewrite Hsc.
Qed.

(** [schedule] returns only without a current sthread. *)
Lemma schedule_current b k k' :
  schedule oracle run_user b k = (Ret tt, k') -> k_current k' = None.
Proof.
  unfold schedule. exec. destruct (List.find _ _) as [s|]; [|by destruct b].
  unfold resume, upd_st, jump. unfold kext. unfold mbind, M_bind. cbn. by intros [= <-].
Qed.

(** A read that comes back has lost its sthread: a call of read that
    passes its checks gives the processor to another sthread, and when control
    returns to the caller the kernel has no current sthread, so that its next
    system call, whatever it is, dereferences NULL. *)
Theorem read_loses_sthread k cur s tf tf' k' :
  io_call k cur s tf PROT_READ -> to_int (rrax tf) = SYS_read ->
  (mem_perm s (rrsi tf) (rrdx tf)).1 = true -> handler tf k = (Ret tf', k') ->
  k_current k' = None /\ forall tf2, handler tf2 k' = (UB, k').
Proof.
  intros Hio Hr Hok Hh. rewrite (handler_io k cur s tf _ Hio), Hok, Hr in Hh.
  destruct (st_walk s =? 0); [done|]. unfold perform in Hh. cbn [SYS_read SYS_sthread_exit Z.eqb] in Hh.
  apply bind_inv in Hh as (u & k1 & _ & Hh). apply bind_inv in Hh as ([] & k2 & Hs & Hh).
  apply schedule_current in Hs. injection Hh as _ <-. split; [done|].
  intros tf2. unfold syscall_handler. exec. by rewrite Hs.
Qed.
End mediation.

(** ** Witnesses *)

(** Two sthreads with descriptor 5 for reading; 1 is current. Its page 0x1000
    is open to it, 0x5000 is not. *)
Definition demo_sc : sc_t := Sc (replicate 8 0) ([0x503] ++ replicate 7 0) (replicate 16 0).
Definition demo_st (id : Z) : sthread :=
  MkSthread id ST_RUNNING 0 0x70000 [(0x1000, 0x9007); (0x5000, 0x9003)] zero_regs demo_sc 0x40000 4096.
Definition demo_kern (sts : list sthread) (tags : list tag) (segs : list segment) (pt : pagetable) : kern :=
  Kern segs 0x80000 8192 tags 0 (-1) 2 sts (Some 1) pt (fun _ => 0) [].
Definition demo_k : kern := demo_kern [demo_st 2; demo_st 1] [] [] [].
Definition io_frame (sys buf : Z) : pt_regs := PtRegs sys 5 buf 16 0 0 0 0.
Definition demo_oracle (log : list (kcall * Z)) (c : kcall) : Z :=
  match c with KMmap _ => 0x200000 + 0x100000 * Z.of_nat (length log) | KMalloc _ => 0x9000 | _ => 0 end.


Lemma refused_buffer_poisons_witness :
  exists k1, syscall_handler dune_x86 false list_walker demo_oracle (fun _ k => k)
               (io_frame SYS_write 0x5000) demo_k = (Ret (blocked (io_frame SYS_write 0x5000)), k1)
    /\ syscall_handler dune_x86 false list_walker demo_oracle (fun _ k => k)
         (io_frame SYS_write 0x1008) k1 = (Abort, k1).
Proof.
  apply (refused_buffer_poisons dune_x86 false list_walker demo_oracle (fun _ k => k) demo_k 1 (demo_st 1)
           (io_frame SYS_write 0x5000) (io_frame SYS_write 0x1008) PROT_WRITE PROT_WRITE);
    [|vm_compute; discriminate|reflexivity|reflexivity| |reflexivity].
  all: split; [reflexivity|split; [reflexivity|split; [right; split; reflexivity|reflexivity]]].
Defined.

Lemma read_loses_sthread_witness :
  exists k', syscall_handler dune_x86 false list_walker demo_oracle (fun _ k => k)
               (io_frame SYS_read 0x1008) demo_k = (Ret (set_rrsi 0x9008 (io_frame SYS_read 0x1008)), k')
    /\ k_current k' = None.
Proof.
  eexists. split; [vm_compute; reflexivity|].
  eapply (read_loses_sthread dune_x86 false list_walker demo_oracle (fun _ k => k) demo_k 1 (demo_st 1)
            (io_frame SYS_read 0x1008));
    [|reflexivity|reflexivity|vm_compute; reflexivity].
  split; [reflexivity|split; [reflexivity|split; [left; split; reflexivity|reflexivity]]].
Defined.

(** A process with a read-only and a writable segment, and a tag at 0x10000. *)
Definition demo_pt : pagetable := [(0x1000, 0x1007); (0x4000, 0x4007); (0x10000, 0x10007)].
Definition demo_segs : list segment := [Segment 0x1000 0x2000 0x1000 PROT_READ; Segment 0x4000 0x5000 0x1000 3].
Definition demo_start : kern := demo_kern [] [] demo_segs demo_pt.
Definition demo_policy : sc_t := Sc (0x10001 :: replicate 7 0) (replicate 8 0) (replicate 16 0).

Abbreviation demo_created :=
  (create_new_sthread dune_x86 list_walker (fun pt => pt) (fun va => va) 552 demo_oracle demo_policy demo_start).

Definition demo_new : sthread := match demo_created.1 with Ret s => s | _ => demo_st 0 end.

Lemma create_default_deny_witness :
  demo_created = (Ret demo_new, demo_created.2) /\ st_sc demo_new = demo_policy
  /\ forall pte, (0x10000, pte) ∈ st_pgroot demo_new -> has_bits pte 2 = false.
Proof.
  assert (Hc : demo_created = (Ret demo_new, demo_created.2)).
  { rewrite (surjective_pairing demo_created) at 1. by f_equal. }
  assert (Hpt : k_pgroot demo_created.2 = demo_pt) by (vm_compute; reflexivity).
  assert (Hseg : k_segments demo_created.2 = demo_segs) by (vm_compute; reflexivity).
  split; [exact Hc|].
  destruct (create_default_deny dune_x86 list_walker (fun pt => pt) (fun va => va) 552 demo_oracle
              demo_policy demo_start demo_new demo_created.2 Hc) as (Hsc & _ & _ & Hdeny).
  - rewrite Hpt. intros va pte Hin.
    repeat (apply elem_of_cons in Hin as [[= -> ->]|Hin]; [vm_compute; split; discriminate|]). inversion Hin.
  - vm_compute. split; [discriminate|reflexivity].
  - split; [exact Hsc|]. intros pte Hin. rewrite Hseg in Hdeny.
    refine (proj2 (Hdeny _ _ Hin) 0x10001 _ _ _ _); [reflexivity..|].
    intros seg Hs Hr.
    repeat (apply elem_of_cons in Hs as [->|Hs]; [vm_compute in Hr; destruct Hr as [_ Hr]; apply Hr; reflexivity|]).
    inversion Hs.
Defined.
