(* ===== verification/SthreadWf.v ===== *)
(** The state of the sthread kernel is well formed: identifiers are distinct
    and below the counter, and the current sthread is one of the list. Every
    operation keeps it so, whatever user code runs in between. *)

From stdpp Require Import base numbers list option.
From S2P Require Import Prelude Platform CString Policy Sthread Mediation.

(** ** Computations that keep a property while the process lives *)

Definition lives {A} (o : outcome A) : bool := match o with Ret _ | Leave _ => true | _ => false end.

Definition keeps {S A} (P : S -> Prop) (c : M S A) : Prop :=
  forall s, P s -> lives (c s).1 = true -> P (c s).2.

Section keeps.
Context {S : Type} (P : S -> Prop).

Lemma keeps_pure {A} (c : M S A) : (forall s, (c s).2 = s) -> keeps P c.
Proof. intros Hc s Hs _. by rewrite Hc. Qed.

Lemma keeps_modify f : (forall s, P s -> P (f s)) -> keeps P (modify f).
Proof. intros Hf s Hs _. by apply Hf. Qed.

Lemma keeps_bind {A B} (c : M S A) (k : A -> M S B) : keeps P c -> (forall a, keeps P (k a)) -> keeps P (c ≫= k).
Proof.
  intros Hc Hk s Hs. specialize (Hc s Hs). unfold mbind, M_bind.
  destruct (c s) as [[a| | | |] s']; cbn in *; try done. intros. apply Hk; [by apply Hc|done].
Qed.

Lemma keeps_returned {A} (c : M S A) s a s' : keeps P c -> P s -> c s = (Ret a, s') -> P s'.
Proof. intros Hc Hs E. specialize (Hc s Hs). rewrite E in Hc. by apply Hc. Qed.

(** The first part of a computation tells something of the state. *)
Lemma keeps_get {B} (k : S -> M S B) : (forall s, P s -> keeps P (k s)) -> keeps P (get ≫= k).
Proof. intros Hk s Hs. rewrite bind_get. by apply Hk. Qed.

Lemma keeps_gets {A B} (f : S -> A) (k : A -> M S B) : (forall s, P s -> keeps P (k (f s))) -> keeps P (gets f ≫= k).
Proof. intros Hk s Hs. rewrite bind_gets. by apply Hk. Qed.
End keeps.

Create HintDb keeps.
#[export] Hint Resolve keeps_bind : keeps.
#[export] Hint Extern 1 (keeps _ (mret _)) => by apply keeps_pure : keeps.
#[export] Hint Extern 1 (keeps _ (stop _)) => by apply keeps_pure : keeps.
#[export] Hint Extern 1 (keeps _ (gets _)) => by apply keeps_pure : keeps.
#[export] Hint Extern 1 (keeps _ get) => by apply keeps_pure : keeps.
#[export] Hint Extern 1 (keeps _ (c_assert _)) => by apply keeps_pure : keeps.
#[export] Hint Extern 2 (keeps _ (if ?b then _ else _)) => destruct b : keeps.

(** ** Well-formed kernel states *)

Definition kern_ids (k : kern) : list Z := map st_id (k_sthreads k).

Record kern_wf (k : kern) : Prop := KernWf {
  wf_distinct : NoDup (kern_ids k);
  wf_ids : Forall (fun id => 0 < id <= k_sthread_id k) (kern_ids k);
  wf_next : 0 <= k_sthread_id k < 2 ^ 31;
  wf_current c : k_current k = Some c -> c ∈ kern_ids k;
}.

(** Well formed, with the sthreads [l]. *)
Definition wf_at (l : list Z) (k : kern) : Prop := kern_wf k /\ kern_ids k = l.

(** Well formed but for the identifier [id] that is being given out. *)
Record giving (l : list Z) (id : Z) (k : kern) : Prop := Giving {
  gv_distinct : NoDup l;
  gv_ids : Forall (fun i => 0 < i < id) l;
  gv_range : 0 <= id < 2 ^ 31;
  gv_list : kern_ids k = l;
  gv_next : k_sthread_id k = id;
  gv_current c : k_current k = Some c -> c ∈ l;
}.

(** Properties of the list of sthreads, the counter and the current sthread. *)
Class quiet (P : kern -> Prop) : Prop :=
  quiet_mono k k' : P k -> kern_ids k' = kern_ids k -> k_sthread_id k' = k_sthread_id k ->
    k_current k' = k_current k -> P k'.

#[export] Instance wf_quiet l : quiet (wf_at l).
Proof. intros k k' [[] <-] E1 E2 E3. split; [|done]. split; rewrite ?E1, ?E2, ?E3; auto. Qed.

#[export] Instance giving_quiet l id : quiet (giving l id).
Proof. intros k k' [] E1 E2 E3. split; rewrite ?E1, ?E2, ?E3; auto. Qed.

Lemma find_in k id s : List.find (fun s => st_id s =? id) (k_sthreads k) = Some s -> st_id s = id /\ id ∈ kern_ids k.
Proof.
  intros Hf. apply find_some in Hf as [Hin He]. apply Z.eqb_eq in He. split; [done|]. subst id.
  unfold kern_ids. apply list_elem_of_In, in_map, Hin.
Qed.

Section wf.
Context (D : dune_abi) (CONFIG_DUNE_BOOT : bool).
Context (dune_vm_page_walk : walker) (dune_vm_clone : pagetable -> pagetable) (dune_va_to_pa : Z -> Z).
Context (sizeof_kstate sizeof_sthread : Z) (oracle : list (kcall * Z) -> kcall -> Z).

Lemma keeps_kext P `{!quiet P} c : keeps P (kext oracle c).
Proof. intros k Hk _. by eapply quiet_mono. Qed.

Lemma keeps_quiet P `{!quiet P} f :
  (forall k, kern_ids (f k) = kern_ids k /\ k_sthread_id (f k) = k_sthread_id k /\ k_current (f k) = k_current k) ->
  keeps P (modify f).
Proof. intros Hf. apply keeps_modify. intros k Hk. destruct (Hf k) as (? & ? & ?). by eapply quiet_mono. Qed.

Lemma keeps_current l o : (forall c, o = Some c -> c ∈ l) -> keeps (wf_at l) (modify (with_current o)).
Proof. intros Ho. apply keeps_modify. intros k [[] Hl]. split; [|done]. split; try done. cbn. rewrite <- Hl in Ho. exact Ho. Qed.

Lemma ids_upd id f (l : list sthread) :
  (forall s, st_id s = id -> st_id (f s) = id) ->
  map st_id (map (fun s => if st_id s =? id then f s else s) l) = map st_id l.
Proof.
  intros Hf. induction l as [|s l IH]; [done|]. cbn. rewrite IH. f_equal.
  destruct (Z.eqb_spec (st_id s) id); [|done]. rewrite Hf; done.
Qed.

Lemma keeps_upd P `{!quiet P} id f : (forall s, st_id s = id -> st_id (f s) = id) -> keeps P (upd_st id f).
Proof. intros Hf. apply (keeps_quiet P). intros k. split; [by apply ids_upd|done]. Qed.
End wf.

#[export] Hint Extern 1 (keeps ?P (kext _ _)) => apply (keeps_kext _ P) : keeps.
#[export] Hint Extern 2 (keeps ?P (upd_st _ _)) => apply (keeps_upd P); intros; done : keeps.
#[export] Hint Extern 2 (keeps _ (modify (with_current None))) => apply keeps_current; intros; done : keeps.
#[export] Hint Extern 3 (keeps ?P (modify _)) => by apply (keeps_quiet P) : keeps.

(** Walks over a computation and leaves what needs an argument. *)
Ltac kwalk := repeat first
  [ progress intros
  | solve [auto with keeps]
  | match goal with
    | |- keeps _ (jump _ _ _) => fail 1
    | |- keeps _ (mbind _ _) => apply keeps_bind
    | |- keeps _ (if ?b then _ else _) => destruct b
    | |- keeps _ (match ?x with _ => _ end) => destruct x
    end ].

(** ** The operations, for user code that keeps the kernel well formed *)

Section operations.
Context (D : dune_abi) (CONFIG_DUNE_BOOT : bool).
Context (dune_vm_page_walk : walker) (dune_vm_clone : pagetable -> pagetable) (dune_va_to_pa : Z -> Z).
Context (sizeof_kstate sizeof_sthread : Z) (oracle : list (kcall * Z) -> kcall -> Z).
Context (run_user : pt_regs -> kern -> kern).

Abbreviation handler := (syscall_handler D CONFIG_DUNE_BOOT dune_vm_page_walk oracle run_user).

Definition user_keeps : Prop := forall l tf k, wf_at l k -> wf_at l (run_user tf k).
Context (Hru : user_keeps).

Lemma keeps_jump l tf : keeps (wf_at l) (jump oracle run_user tf).
Proof. unfold jump. apply keeps_bind; [apply (keeps_kext oracle (wf_at l)); apply _|intros _].
  apply (keeps_modify (wf_at l)). intros k. apply Hru. Qed.

Lemma keeps_schedule l b : keeps (wf_at l) (schedule oracle run_user b).
Proof.
  unfold schedule. apply keeps_get. intros k [_ Hl]. destruct (List.find _ _) as [s|] eqn:Hf; [|kwalk].
  apply find_some in Hf as [Hin _]. unfold resume.
  apply keeps_bind; [apply keeps_current; intros c [= <-]; subst l; by apply list_elem_of_In, in_map|intros _].
  kwalk. apply keeps_jump.
Qed.

Lemma recycle_id k s : st_id (recycle D dune_vm_page_walk k s).1 = st_id s.
Proof.
  unfold recycle. destruct (walk_segments _ _ _ _ _) as [pt [w m]].
  by destruct (dune_vm_page_walk _ _ _ _ _ _) as [[rc pt'] [w' m']].
Qed.

Lemma keeps_perform l cur sysno tf : keeps (wf_at l) (perform D dune_vm_page_walk oracle run_user cur sysno tf).
Proof.
  unfold perform. destruct (sysno =? SYS_sthread_exit).
  { apply keeps_get. intros k0 _. apply keeps_gets. intros k _. destruct (List.find _ _) as [s|] eqn:Hf; [|kwalk].
    apply find_in in Hf as [Hid _]. pose proof (recycle_id k0 (set_ret (rrdi tf) s)) as Hr.
    destruct (recycle _ _ k0 _) as [s' m]. cbn in Hr.
    apply keeps_bind; [apply (keeps_upd (wf_at l)); intros; cbn; congruence|kwalk]. }
  destruct (sysno =? SYS_read).
  { apply keeps_bind; [auto with keeps|intros _]. apply keeps_bind; [apply keeps_schedule|auto with keeps]. }
  destruct (sysno =? SYS_open); [|auto with keeps].
  apply keeps_bind; [auto with keeps|intros r]. apply keeps_bind; [unfold get_st; auto with keeps|intros [s|]]; [|auto with keeps].
  apply keeps_bind; [|auto with keeps]. destruct (0 <=? to_int r); [|auto with keeps].
  apply keeps_bind; [unfold lift; auto with keeps|intros sc]. auto with keeps.
Qed.

Lemma mem_perm_keeps_id s ptr len : st_id (has_mem_perm D CONFIG_DUNE_BOOT dune_vm_page_walk s ptr len).2 = st_id s.
Proof. unfold has_mem_perm. by destruct (dune_vm_page_walk _ _ _ _ _ _) as [[rc pt] w]. Qed.

Lemma keeps_handler l tf : keeps (wf_at l) (handler tf).
Proof.
  unfold syscall_handler. apply keeps_get. intros k _. destruct (k_current k) as [cur|]; [|kwalk].
  apply keeps_gets. intros k' _. destruct (List.find _ _) as [s|] eqn:Hf; [|kwalk]. apply find_in in Hf as [Hid _].
  apply keeps_bind; [unfold lift; kwalk|intros v].
  destruct (v =? 0); [kwalk|]. destruct (negb _); [kwalk|].
  destruct (mem_check (k_mem k) _ tf) as [[[ptr [len|]] set]|]; [|kwalk|apply keeps_perform].
  destruct (st_walk s =? 0); [kwalk|]. pose proof (mem_perm_keeps_id s ptr len) as Hp.
  destruct (has_mem_perm _ _ _ s ptr len) as [ok s']. cbn in Hp.
  apply keeps_bind; [apply (keeps_upd (wf_at l)); intros; congruence|intros _]. destruct (negb ok); [kwalk|apply keeps_perform].
Qed.

Lemma keeps_kmalloc P `{!quiet P} sz : keeps P (kmalloc oracle sz).
Proof.
  unfold kmalloc, k_smalloc, k_tag_new, xmalloc, mmap, require, lift. kwalk.
Qed.

Lemma keeps_mmap P `{!quiet P} len : keeps P (mmap oracle len).
Proof. unfold mmap. kwalk. Qed.

Lemma keeps_require P {A} code (o : option A) : keeps P (require code o : M kern A).
Proof. unfold require. kwalk. Qed.

(** The counter after it is advanced and found not to have wrapped. *)
Lemma next_id l k id :
  wf_at l k -> id = to_int (k_sthread_id k + 1) -> 0 <= id -> giving l id (with_id id k).
Proof.
  intros [[Hd Hi Hn Hc] Hl] -> Hid. assert (Hid' : to_int (k_sthread_id k + 1) = k_sthread_id k + 1 /\ k_sthread_id k + 1 < 2 ^ 31).
  { unfold to_int in *. rewrite Z.mod_small in * by lia. destruct (Z.ltb_spec (k_sthread_id k + 1) (2 ^ 31)); lia. }
  destruct Hid' as [-> Hlt]. subst l. split; try done; [|lia]. eapply List.Forall_impl; [|exact Hi]. cbn. lia.
Qed.

(** The new sthread enters the list. *)
Lemma given l id k s : giving l id k -> 0 < id -> st_id s = id -> wf_at (id :: l) (with_sthreads (s :: k_sthreads k) k) /\ id ∉ l.
Proof.
  intros [G1 G2 G3 G4 G5 G6] Hpos Hs. assert (Hfresh : id ∉ l).
  { intros Hin. apply list_elem_of_In in Hin. rewrite List.Forall_forall in G2. specialize (G2 id Hin). lia. }
  split; [|done]. split; [|unfold kern_ids in *; cbn; by rewrite Hs, G4].
  split; unfold kern_ids in *; cbn; rewrite ?Hs, ?G4, ?G5.
  - by constructor.
  - constructor; [lia|]. eapply List.Forall_impl; [|exact G2]. cbn. lia.
  - done.
  - intros c Hc'. apply list_elem_of_further. by apply G6.
Qed.

Lemma build_id segs master id sc stack writable :
  st_id (build_sthread D dune_vm_page_walk dune_vm_clone dune_va_to_pa segs master id sc stack writable) = id.
Proof.
  unfold build_sthread. destruct (dune_vm_page_walk _ _ _ _ _ _) as [[rc pt] u].
  by destruct (walk_segments _ _ _ _ _) as [pt' w].
Qed.

(** A new sthread gets an identifier no other has. *)
Lemma create_gives l sc k s k' :
  wf_at l k -> create_new_sthread D dune_vm_page_walk dune_vm_clone dune_va_to_pa sizeof_sthread oracle sc k = (Ret s, k') ->
  wf_at (st_id s :: l) k' /\ st_id s ∉ l.
Proof.
  intros Hk E. unfold create_new_sthread in E. apply bind_inv in E as (p & k1 & E1 & E).
  pose proof (keeps_returned _ _ _ _ _ (keeps_kmalloc (wf_at l) _) Hk E1) as Hw.
  rewrite bind_gets, bind_modify in E. set (id := to_int (k_sthread_id k1 + 1)) in E.
  unfold c_assert in E. apply bind_inv in E as ([] & k2 & E2 & E). injection E2 as E2 <-.
  destruct (Z.leb_spec 0 id) as [Hid|]; [|done]. pose proof (next_id l k1 id Hw eq_refl Hid) as Hg.
  assert (Hpos : 0 < id).
  { destruct Hw as [[_ _ Hn _] _]. unfold id, to_int in *. rewrite Z.mod_small in * by lia.
    destruct (Z.ltb_spec (k_sthread_id k1 + 1) (2 ^ 31)); lia. }
  apply bind_inv in E as (st & k3 & E3 & E). pose proof (keeps_returned _ _ _ _ _ (keeps_mmap _ _) Hg E3) as Hg3.
  apply bind_inv in E as (st' & k4 & E4 & E). pose proof (keeps_returned _ _ _ _ _ (keeps_require _ _ _) Hg3 E4) as Hg4.
  rewrite bind_gets in E.
  apply bind_inv in E as (wr & k5 & E5 & E). pose proof (keeps_returned _ _ _ _ _ (keeps_mmap _ _) Hg4 E5) as Hg5.
  apply bind_inv in E as (wr' & k6 & E6 & E). pose proof (keeps_returned _ _ _ _ _ (keeps_require _ _ _) Hg5 E6) as Hg6.
  rewrite bind_modify, bind_gets, bind_modify in E. injection E as <- <-. rewrite build_id.
  apply (given l id (with_mem _ k6)); [|done|apply build_id].
  by eapply quiet_mono.
Qed.

(** ** The interface of sthread.h *)

Lemma launch_keeps l tr s cb arg : st_id s ∈ l -> keeps (wf_at l) (launch_sthread oracle run_user tr s cb arg).
Proof.
  intros Hin. unfold launch_sthread. apply keeps_bind; [kwalk|intros _].
  apply keeps_bind; [apply keeps_current; by intros c [= <-]|intros _]. kwalk. apply keeps_jump.
Qed.

Lemma launch_clears tr s cb arg k r k' :
  launch_sthread oracle run_user tr s cb arg k = (Ret r, k') -> r = 0 /\ k_current k' = None.
Proof. unfold launch_sthread, jump, kext, upd_st. intros [= <- <-]. done. Qed.

Lemma create_sthread_wf l tr sc cb arg k r id k' :
  wf_at l k ->
  sthread_create D dune_vm_page_walk dune_vm_clone dune_va_to_pa sizeof_sthread oracle run_user tr sc cb arg k = (Ret (r, id), k') ->
  r = 0 /\ k_current k' = None /\ (wf_at l k' /\ id ∈ l \/ wf_at (id :: l) k' /\ id ∉ l).
Proof.
  intros Hk E. unfold sthread_create in E. rewrite bind_get in E. apply bind_inv in E as (s & k1 & E1 & E).
  apply bind_inv in E as (r0 & k2 & E2 & E). injection E as <- <- <-. destruct (launch_clears _ _ _ _ _ _ _ E2) as [-> Hc].
  split; [done|]. split; [done|]. destruct (List.find (reusable sc) _) as [s0|] eqn:Hf.
  - left. unfold upd_st in E1. rewrite bind_modify in E1. injection E1 as <- <-. apply find_some in Hf as [Hin _].
    assert (Hin' : st_id s0 ∈ l) by (destruct Hk as [_ <-]; by apply list_elem_of_In, in_map).
    split; [|done]. eapply (keeps_returned (wf_at l)); [by apply (launch_keeps l)| |exact E2].
    eapply quiet_mono; [exact Hk|by apply ids_upd|done..].
  - right. destruct (create_gives l sc k s k1 Hk E1) as [Hw Hfresh]. split; [|done].
    eapply (keeps_returned (wf_at (st_id s :: l))); [|exact Hw|exact E2]. apply launch_keeps, list_elem_of_here.
Qed.

Lemma keeps_join l n id : keeps (wf_at l) (sthread_join oracle run_user n id).
Proof.
  assert (Hw : keeps (wf_at l) (wait_zombie oracle run_user n id)).
  { induction n as [|n IH]; cbn [wait_zombie]; unfold get_st; kwalk. apply keeps_schedule. }
  unfold sthread_join, get_st. kwalk.
Qed.
End operations.

(** ** User code *)

Section user_code.
Context (D : dune_abi) (CONFIG_DUNE_BOOT : bool).
Context (dune_vm_page_walk : walker) (dune_vm_clone : pagetable -> pagetable) (dune_va_to_pa : Z -> Z).
Context (sizeof_sthread : Z) (oracle : list (kcall * Z) -> kcall -> Z).

Abbreviation handler := (syscall_handler D CONFIG_DUNE_BOOT dune_vm_page_walk oracle).

(** What user code does to the kernel: it stores to memory and makes system
    calls, whose handler runs the user code [ru] of other sthreads. *)
Inductive user_seq (ru : pt_regs -> kern -> kern) : kern -> kern -> Prop :=
  | user_nil k : user_seq ru k k
  | user_store m k k' : user_seq ru (with_mem m k) k' -> user_seq ru k k'
  | user_call tf o k k1 k' : handler ru tf k = (o, k1) -> lives o = true -> user_seq ru k1 k' -> user_seq ru k k'.

(** User code whose system calls schedule other sthreads at most [n] deep. *)
Fixpoint nested (n : nat) (ru : pt_regs -> kern -> kern) : Prop :=
  match n with
  | O => forall tf k, exists m, ru tf k = with_mem m k
  | S n => exists ru', nested n ru' /\ forall tf k, user_seq ru' k (ru tf k)
  end.

Lemma nested_keeps n ru : nested n ru -> user_keeps ru.
Proof.
  revert ru. induction n as [|n IH]; intros ru Hn l tf k Hk.
  - destruct (Hn tf k) as [m ->]. by eapply quiet_mono.
  - destruct Hn as (ru' & Hru' & Hseq). specialize (Hseq tf k).
    induction Hseq as [k|m k k' _ IHs|tf' o k k1 k' E Ho _ IHs]; [done|apply IHs; by eapply quiet_mono|].
    apply IHs. pose proof (keeps_handler D CONFIG_DUNE_BOOT dune_vm_page_walk oracle ru' (IH ru' Hru') l tf' k Hk) as H.
    rewrite E in H. by apply H.
Qed.

(** C11. The sthread kernel keeps its state well formed: identifiers distinct,
    positive and below the counter, and the current sthread one of the list.
    Whatever the sthreads run does with stores and system calls, to any depth
    of scheduling, sthread_create answers 0 with either the identifier of a
    sthread it reuses, the list unchanged, or a fresh one added to it, and
    leaves no current sthread; sthread_join and the system-call handler change
    no identifier. *)
Theorem sthread_kernel_well_formed n ru l k :
  nested n ru -> wf_at l k ->
  (forall tr sc cb arg r id k',
     sthread_create D dune_vm_page_walk dune_vm_clone dune_va_to_pa sizeof_sthread oracle ru tr sc cb arg k = (Ret (r, id), k') ->
     r = 0 /\ k_current k' = None /\ (wf_at l k' /\ id ∈ l \/ wf_at (id :: l) k' /\ id ∉ l))
  /\ (forall m id o k', sthread_join oracle ru m id k = (o, k') -> lives o = true -> wf_at l k')
  /\ (forall tf o k', handler ru tf k = (o, k') -> lives o = true -> wf_at l k').
Proof.
  intros Hn Hk. pose proof (nested_keeps n ru Hn) as Hru. split; [|split].
  - intros tr sc cb arg r id k'. by apply create_sthread_wf.
  - intros m id o k' E Ho. pose proof (keeps_join oracle ru Hru l m id k Hk) as H. rewrite E in H. by apply H.
  - intros tf o k' E Ho.
    pose proof (keeps_handler D CONFIG_DUNE_BOOT dune_vm_page_walk oracle ru Hru l tf k Hk) as H.
    rewrite E in H. by apply H.
Qed.
End user_code.

(** A kernel with one sthread, about to create another. *)
Definition wf_start : kern := Kern demo_segs 0x80000 8192 [] 0 (-1) 1 [demo_st 1] None demo_pt (fun _ => 0) [].

Abbreviation wf_created := (sthread_create dune_x86 list_walker (fun pt => pt) (fun va => va) 552 demo_oracle
  (fun _ k => k) 0x4000 demo_policy 0x1000 0 wf_start).

Lemma sthread_kernel_well_formed_witness :
  wf_created = (Ret (0, 2), wf_created.2) /\ k_current wf_created.2 = None /\ wf_at [2; 1] wf_created.2.
Proof.
  assert (E : wf_created = (Ret (0, 2), wf_created.2)).
  { rewrite (surjective_pairing wf_created) at 1. by f_equal. }
  split; [exact E|].
  destruct (sthread_kernel_well_formed dune_x86 false list_walker (fun pt => pt) (fun va => va) 552 demo_oracle
    0 (fun _ k => k) [1] wf_start) as [H _].
  - intros tf k. exists (k_mem k). by destruct k.
  - split; [|reflexivity]. split; cbn; [|by repeat constructor|lia|done]. apply NoDup_singleton.
  - destruct (H _ _ _ _ _ _ _ E) as (_ & Hc & [[_ Hin]|[Hw _]]); [|split; [exact Hc|exact Hw]].
    apply list_elem_of_singleton in Hin. discriminate Hin.
Defined.
