(* ===== verification/Firewall.v ===== *)
(** The user-space firewall (ufirewall/src/firewall.c): the parser of the rule
    file, the decision functions for bind and connect, and the policy it
    registers with the sandbox.

    The list [rules] is the state; it is written by [firewall_parse] through
    SLIST_INSERT_HEAD and read by the decision functions.  The C library
    functions the parser uses (fgets, sscanf with [%s], atoi, inet_aton) are
    defined here as the C standard and their manual pages describe them.
    Messages printed by the parser are not modelled, and malloc is taken to
    succeed, as the code takes it to. *)

From stdpp Require Import base numbers list option strings.
From S2P Require Import Prelude Platform AddrSpace Syscalls Trap CString.

(** ** Rules *)

Definition FW_TYPE_BIND_ALLOW : Z := 1.
Definition FW_TYPE_CONNECT_ALLOW : Z := 2.
Definition FW_TYPE_CONNECT_DENY : Z := 3.
Definition FW_PORT_ANY : Z := 0.

Record fw_rule := FwRule { type : Z; port : Z; ip : Z; mask : Z }.

#[export] Instance fw_rule_eq_dec : EqDecision fw_rule.
Proof. solve_decision. Defined.

(** ** Keywords *)

Definition STR_COMMENT : list Z := Eval cbv in bytes "#".
Definition STR_ALLOW_BIND : list Z := Eval cbv in bytes "allow bind".
Definition STR_ALLOW_CONNECT : list Z := Eval cbv in bytes "allow connect".
Definition STR_DENY_CONNECT : list Z := Eval cbv in bytes "deny connect".

(** ** Addresses *)

(** A number in C notation: 0x is hexadecimal, 0 octal, else decimal. *)
Definition parse_num (l : list Z) : option (Z * list Z) :=
  match l with
  | c :: l' =>
      match digit_of 10 c with
      | None => None
      | Some _ =>
          if c =? 48 then
            match l' with
            | x :: h :: _ =>
                if ((x =? 120) || (x =? 88)) && bool_decide (is_Some (digit_of 16 h))
                then Some (take_digits 16 0 (drop 1 l')) else Some (take_digits 8 0 l)
            | _ => Some (take_digits 8 0 l)
            end
          else Some (take_digits 10 0 l)
      end
  | [] => None
  end.

(** The parts of an address: [left] more dots are allowed; the last part fills
    the bytes that remain. The result is [s_addr] on a little-endian machine. *)
Fixpoint aton_parts (left : nat) (pos acc : Z) (l : list Z) : option Z :=
  match parse_num l with
  | None => None
  | Some (v, rest) =>
      match rest, left with
      | 46 :: rest', S left' =>
          if 255 <? v then None else aton_parts left' (pos + 1) (acc + v * 256 ^ pos) rest'
      | _, _ =>
          if match rest with [] => true | c :: _ => isspace c end && (v <? 256 ^ (4 - pos))
          then Some (acc + 256 ^ pos * foldl (fun a i => a * 256 + (v / 256 ^ i) mod 256) 0
                                            (seqZ 0 (4 - pos)))
          else None
      end
  end.

Definition inet_aton (s : list Z) : option Z := aton_parts 3 0 0 s.

(** ** The parser *)

(** fgets with a buffer of [S n] bytes on the unread part of a file: the line,
    the part left, and whether the end of the file was met. *)
Fixpoint fgets (n : nat) (data : list Z) : list Z * list Z * bool :=
  match n, data with
  | O, _ => ([], data, false)
  | _, [] => ([], [], true)
  | S n, c :: data =>
      if c =? 10 then ([c], data, false)
      else let '(l, rest, e) := fgets n data in (c :: l, rest, e)
  end.

(** The local variables of [firewall_parse]; the three arrays keep their
    contents from one line to the next. *)
Record locals := Locals { l_port : list Z; l_ip : list Z; l_mask : list Z; l_inp : Z }.

(** r->port from the array [port]. An array without NUL is read past its end. *)
Definition parse_port (buf : list Z) : outcome Z :=
  if bool_decide (0 ∈ buf) then
    Ret (if bool_decide (cstr buf = [42]) then FW_PORT_ANY else wrap16 (atoi (cstr buf)))
  else UB.

(** inet_aton(buf, &inp): it returns 0 on an invalid address, never a negative
    number, and then leaves [inp] alone. *)
Definition parse_addr (buf : list Z) (inp : Z) : outcome Z :=
  if bool_decide (0 ∈ buf) then Ret (default inp (inet_aton (cstr buf))) else UB.

Abbreviation F := (M (list fw_rule)).

(** The body of a bind rule, after its keyword; [r] is the block malloc
    returned. *)
Definition parse_bind (str : list Z) (r : fw_rule) (v : locals) : outcome (fw_rule * locals) :=
  match scan_s (l_port v) (drop (length STR_ALLOW_BIND) str) with
  | Ret (pbuf, _) =>
      match parse_port pbuf with
      | Ret p => Ret (FwRule FW_TYPE_BIND_ALLOW p (ip r) (mask r),
                      Locals pbuf (l_ip v) (l_mask v) (l_inp v))
      | _ => UB
      end
  | _ => UB
  end.

(** The three conversions of a connect rule; the first that finds nothing
    stops the scan. *)
Definition scan3 (l : list Z) (v : locals) : outcome locals :=
  match scan_s (l_port v) l with
  | Ret (p, None) => Ret (Locals p (l_ip v) (l_mask v) (l_inp v))
  | Ret (p, Some l) =>
      match scan_s (l_ip v) l with
      | Ret (i, None) => Ret (Locals p i (l_mask v) (l_inp v))
      | Ret (i, Some l) =>
          match scan_s (l_mask v) l with
          | Ret (m, _) => Ret (Locals p i m (l_inp v))
          | _ => UB
          end
      | _ => UB
      end
  | _ => UB
  end.

(** The body of a connect rule, for the keyword [kw] and the rule type [t]. *)
Definition parse_connect (kw : list Z) (t : Z) (str : list Z) (v : locals) : outcome (fw_rule * locals) :=
  match scan3 (drop (length kw) str) v with
  | Ret v =>
      match parse_port (l_port v), parse_addr (l_ip v) (l_inp v) with
      | Ret p, Ret a =>
          match parse_addr (l_mask v) a with
          | Ret m => Ret (FwRule t p a m, Locals (l_port v) (l_ip v) (l_mask v) m)
          | _ => UB
          end
      | _, _ => UB
      end
  | _ => UB
  end.

(** What one line does: nothing, a rule to insert, or the end of the parse. *)
Inductive line_result : Type :=
  | Skip
  | Insert (r : fw_rule) (v : locals)
  | Unknown
  | Undefined.

Definition insert (o : outcome (fw_rule * locals)) : line_result :=
  match o with Ret (r, v) => Insert r v | _ => Undefined end.

Definition parse_line (str : list Z) (r : fw_rule) (v : locals) : line_result :=
  if starts_with STR_COMMENT str then Skip
  else if bool_decide (str = [10]) then Skip
  else if starts_with STR_ALLOW_BIND str then insert (parse_bind str r v)
  else if starts_with STR_ALLOW_CONNECT str
  then insert (parse_connect STR_ALLOW_CONNECT FW_TYPE_CONNECT_ALLOW str v)
  else if starts_with STR_DENY_CONNECT str
  then insert (parse_connect STR_DENY_CONNECT FW_TYPE_CONNECT_DENY str v)
  else Unknown.

(** The state of the loop: the unread part of the file, its end-of-file flag,
    the locals and the rule list. *)
Record loop := Loop { l_data : list Z; l_eof : bool; l_vars : locals; l_rules : list fw_rule }.

(** One iteration; [fresh] is the contents of a block malloc returns. *)
Definition parse_step (fresh : fw_rule) (s : loop) : loop + (outcome Z * list fw_rule) :=
  if l_eof s then inr (Ret 0, l_rules s) else
  let '(buf, rest, e) := fgets 99 (l_data s) in
  match buf with
  | [] => inr (Ret 0, l_rules s)
  | _ =>
      match parse_line (cstr buf) fresh (l_vars s) with
      | Skip => inl (Loop rest e (l_vars s) (l_rules s))
      | Insert r v => inl (Loop rest e v (r :: l_rules s))
      | Unknown => inr (Ret (-1), l_rules s)
      | Undefined => inr (UB, l_rules s)
      end
  end.

(** Iterations that are enough for a file: each one but the last two reads at
    least a byte. *)
Definition parse_fuel (data : list Z) : nat := length data + 2.

(** firewall_parse on the file with contents [file] ([None]: fopen fails),
    with the initial contents [v] of the locals. *)
Definition firewall_parse (file : option (list Z)) (fresh : fw_rule) (v : locals) : F Z := fun rules =>
  match file with
  | None => (Ret (-1), rules)
  | Some data =>
      match iter_nat (parse_step fresh) (parse_fuel data) (Loop data false v rules) with
      | inr r => r
      | inl s => (Abort, l_rules s)
      end
  end.

(** firewall_init *)
Definition firewall_init (file : option (list Z)) (fresh : fw_rule) (v : locals) : F Z :=
  _ ← modify (fun _ => []);
  r ← firewall_parse file fresh v;
  if r <? 0 then mret (-1) else mret 0.

(** ** Decisions *)

Fixpoint firewall_check_bind (rules : list fw_rule) (p : Z) : bool :=
  match rules with
  | [] => false
  | r :: rules =>
      if (type r =? FW_TYPE_BIND_ALLOW) && ((port r =? FW_PORT_ANY) || (port r =? p)) then true
      else firewall_check_bind rules p
  end.

(** The address test of a connect rule, [(ip & p->ip) == (ip & p->mask)], and
    its port test. *)
Definition addr_match (r : fw_rule) (a : Z) : bool := Z.land a (ip r) =? Z.land a (mask r).
Definition port_match (r : fw_rule) (p : Z) : bool := (port r =? FW_PORT_ANY) || (port r =? p).

Fixpoint firewall_check_connect (rules : list fw_rule) (p a : Z) : bool :=
  match rules with
  | [] => false
  | r :: rules =>
      if (type r =? FW_TYPE_CONNECT_ALLOW) && addr_match r a && port_match r p then true
      else if (type r =? FW_TYPE_CONNECT_DENY) && addr_match r a && port_match r p then false
      else firewall_check_connect rules p a
  end.

(** ** The policy *)

Definition AF_INET : Z := 2.
Definition sizeof_sockaddr_in : Z := 16.

(** ntohs on a little-endian machine. *)
Definition ntohs (x : Z) : Z := wrap16 (Z.lor (Z.shiftl x 8) (Z.shiftr x 8)).

Section policy.
Context (ld : Z -> Z) (rules : list fw_rule).

(** The fields of the [sockaddr_in] at [a]. *)
Definition sin_family (a : Z) : Z := load_word ld 2 a.
Definition sin_port (a : Z) : Z := load_word ld 2 (wrap64 (a + 2)).
Definition sin_addr (a : Z) : Z := load_word ld 4 (wrap64 (a + 4)).

Definition check_bind (addr len : Z) : Z :=
  if (len =? sizeof_sockaddr_in) && (sin_family addr =? AF_INET)
     && negb (firewall_check_bind rules (ntohs (sin_port addr))) then 0 else 1.

Definition check_connect (addr len : Z) : Z :=
  if (len =? sizeof_sockaddr_in) && (sin_family addr =? AF_INET)
     && negb (firewall_check_connect rules (ntohs (sin_port addr)) (sin_addr addr)) then 0 else 1.

(** The verdict of [syscall_monitor] on a frame. *)
Definition fw_status (tf : dune_tf) : Z :=
  match sysno_of (rax tf) with
  | SYS_bind => check_bind (arg1 tf) (wrap32 (arg2 tf))
  | SYS_connect => check_connect (arg1 tf) (wrap32 (arg2 tf))
  | _ => 1
  end.
End policy.

(** syscall_monitor *)
Definition fw_monitor {W} (P : platform W) (rules : list fw_rule) : monitor W := fun tf s =>
  let status := fw_status (memory P s) rules tf in
  (Ret (status, if status =? 0 then set_rax (ulong_of_int (- EPERM)) tf else tf), s).

#[export] Instance fw_monitor_ok {W} (P : platform W) rules : MonitorOk (fw_monitor P rules).
Proof.
  split. intros tf s. unfold fw_monitor.
  destruct (Z.eqb_spec (fw_status (memory P s) rules tf) 0) as [->|Hn]; [by right|].
  left. eauto.
Qed.
