(* ===== verification/FirewallParse.v ===== *)
(** The rule files of the firewall: how a policy is written, that the parser
    of firewall.c reads back what was written whatever the uninitialised
    memory holds, that it ends on every file, and what it does with files
    nobody should write. *)

From stdpp Require Import base numbers list option strings.
From S2P Require Import Prelude Platform AddrSpace Syscalls Trap CString Firewall.

(** ** Writing rules *)

(** Decimal notation, in at most [fuel] digits. *)
Fixpoint dec (fuel : nat) (n : Z) : list Z :=
  match fuel with
  | O => []
  | S f => if n <? 10 then [48 + n] else dec f (n / 10) ++ [48 + n mod 10]
  end.

Definition print_port (p : Z) : list Z := if p =? 0 then [42] else dec 5 p.

(** The dotted quad of an address held in network byte order. *)
Definition print_addr (a : Z) : list Z :=
  dec 3 (a mod 256) ++ 46 :: dec 3 (a / 256 mod 256) ++ 46 ::
  dec 3 (a / 256 / 256 mod 256) ++ 46 :: dec 3 (a / 256 / 256 / 256 mod 256).

Definition print_connect (kw : list Z) (r : fw_rule) : list Z :=
  kw ++ 32 :: print_port (port r) ++ 32 :: print_addr (ip r) ++ 32 :: print_addr (mask r).

Definition print_rule (r : fw_rule) : list Z :=
  if type r =? FW_TYPE_BIND_ALLOW then STR_ALLOW_BIND ++ 32 :: print_port (port r)
  else if type r =? FW_TYPE_CONNECT_ALLOW then print_connect STR_ALLOW_CONNECT r
  else print_connect STR_DENY_CONNECT r.

(** A line of a rule file. *)
Inductive entry : Type := EComment (text : list Z) | EBlank | ERule (r : fw_rule).

Definition print_entry (e : entry) : list Z :=
  match e with
  | EComment text => STR_COMMENT ++ text
  | EBlank => []
  | ERule r => print_rule r
  end.

Definition print_policy (es : list entry) : list Z := mjoin ((fun e => print_entry e ++ [10]) <$> es).

Definition rule_ok (r : fw_rule) : Prop :=
  (type r = FW_TYPE_BIND_ALLOW \/ type r = FW_TYPE_CONNECT_ALLOW \/ type r = FW_TYPE_CONNECT_DENY)
  /\ u16 (port r) /\ u32 (ip r) /\ u32 (mask r).

(** A comment must fit the line buffer with its newline and NUL. *)
Definition entry_ok (e : entry) : Prop :=
  match e with
  | EComment text => (length text <= 97)%nat /\ Forall (fun c => c <> 10) text
  | EBlank => True
  | ERule r => rule_ok r
  end.

(** The rule an entry puts into the list: a bind rule keeps the address and
    mask fields of the block malloc returned. *)
Definition loaded (fresh : fw_rule) (e : entry) : option fw_rule :=
  match e with
  | ERule r => Some (if type r =? FW_TYPE_BIND_ALLOW
                     then FwRule (type r) (port r) (ip fresh) (mask fresh) else r)
  | _ => None
  end.

Definition sizes_ok (v : locals) : Prop :=
  length (l_port v) = 8%nat /\ length (l_ip v) = 20%nat /\ length (l_mask v) = 20%nat.

(** ** Decimal notation *)

(** Characters of the words of a rule. *)
Definition graph (c : Z) : Prop := 33 <= c <= 126.

Lemma graph_not_space c : graph c -> isspace c = false.
Proof.
  unfold graph, isspace. intros. destruct (Z.eqb_spec c 32), (Z.leb_spec 9 c), (Z.leb_spec c 13); cbn; lia.
Qed.

Lemma dec_length f n : (length (dec f n) <= f)%nat.
Proof.
  revert n; induction f as [|f IH]; intros n; cbn; [lia|].
  destruct (n <? 10); cbn; [lia|]. rewrite length_app. specialize (IH (n / 10)). cbn. lia.
Qed.

Lemma dec_graph f n : 0 <= n -> Forall graph (dec f n).
Proof.
  revert n; induction f as [|f IH]; intros n Hn; cbn; [constructor|].
  destruct (Z.ltb_spec n 10).
  - repeat constructor; lia.
  - apply Forall_app. split; [apply IH; apply Z.div_pos; lia|].
    pose proof (Z.mod_pos_bound n 10). repeat constructor; lia.
Qed.

Lemma digit_of_dec n : 0 <= n < 10 -> digit_of 10 (48 + n) = Some n.
Proof.
  intros Hn. unfold digit_of.
  destruct (Z.leb_spec 48 (48 + n)), (Z.leb_spec (48 + n) 57); try lia. cbn.
  destruct (Z.ltb_spec (48 + n - 48) 10); [f_equal; lia|lia].
Qed.

Lemma take_digits_dec f n rest :
  0 <= n < 10 ^ Z.of_nat f -> take_digits 10 0 (dec f n ++ rest) = take_digits 10 n rest.
Proof.
  revert n rest; induction f as [|f IH]; intros n rest Hn.
  - replace n with 0 by lia. reflexivity.
  - cbn [dec]. destruct (Z.ltb_spec n 10).
    + cbn [app take_digits]. rewrite digit_of_dec by lia. reflexivity.
    + rewrite <- app_assoc, IH.
      * cbn [app take_digits]. pose proof (Z.mod_pos_bound n 10).
        rewrite digit_of_dec by lia. f_equal. pose proof (Z_div_mod_eq_full n 10). lia.
      * rewrite Nat2Z.inj_succ, Z.pow_succ_r in Hn by lia.
        split; [apply Z.div_pos; lia|]. apply Z.div_lt_upper_bound; lia.
Qed.

(** A positive number does not start with 0. *)
Lemma dec_head f n :
  0 < n < 10 ^ Z.of_nat f -> exists c l, dec f n = c :: l /\ 49 <= c <= 57.
Proof.
  revert n; induction f as [|f IH]; intros n Hn; [lia|]. cbn [dec].
  destruct (Z.ltb_spec n 10); [exists (48 + n), []; split; [done|lia]|].
  rewrite Nat2Z.inj_succ, Z.pow_succ_r in Hn by lia.
  destruct (IH (n / 10)) as (c & l & -> & Hc).
  - split; [apply Z.div_str_pos; lia|]. apply Z.div_lt_upper_bound; lia.
  - exists c, (l ++ [48 + n mod 10]). done.
Qed.

Lemma atoi_unsigned c l :
  graph c -> c <> 45 -> c <> 43 ->
  atoi (c :: l) = to_int (Z.max (- 2 ^ 63) (Z.min (2 ^ 63 - 1) (1 * (take_digits 10 0 (c :: l)).1))).
Proof.
  intros Hc H45 H43. unfold atoi. cbn [skip_space]. rewrite (graph_not_space c Hc).
  destruct (Z.eqb_spec c 45), (Z.eqb_spec c 43); try done.
Qed.

Lemma to_int_small x : 0 <= x < 2 ^ 31 -> to_int x = x.
Proof.
  intros. unfold to_int. rewrite Z.mod_small by lia. destruct (Z.ltb_spec x (2 ^ 31)); lia.
Qed.

Lemma atoi_dec p : 0 < p < 65536 -> atoi (dec 5 p) = p.
Proof.
  intros Hp. destruct (dec_head 5 p) as (c & l & Hd & Hc); [cbn; lia|].
  pose proof (take_digits_dec 5 p [] ltac:(cbn; lia)) as Ht. rewrite app_nil_r in Ht.
  rewrite Hd in *. rewrite atoi_unsigned, Ht by (unfold graph; lia). cbn [take_digits fst].
  rewrite to_int_small; lia.
Qed.

(** ** Addresses *)

(** The end of a number: nothing, a dot or white space. *)
Definition stops (rest : list Z) : Prop :=
  match rest with [] => True | c :: _ => c = 46 \/ c = 10 \/ c = 32 end.

Lemma take_digits_stops b acc rest :
  b = 8 \/ b = 10 -> stops rest -> take_digits b acc rest = (acc, rest).
Proof.
  intros Hb Hs. destruct rest as [|c rest]; [done|]. cbn in Hs.
  destruct Hs as [->|[->| ->]], Hb as [->| ->]; reflexivity.
Qed.

Lemma parse_num_dec b rest :
  0 <= b < 256 -> stops rest -> parse_num (dec 3 b ++ rest) = Some (b, rest).
Proof.
  intros Hb Hs. destruct (decide (b = 0)) as [->|Hn].
  - change (dec 3 0 ++ rest) with (48 :: rest).
    assert (Hz : parse_num (48 :: rest) = Some (take_digits 8 0 (48 :: rest))).
    { destruct rest as [|x [|h l]]; [done..|]. destruct Hs as [->|[->| ->]]; done. }
    rewrite Hz. change (take_digits 8 0 (48 :: rest)) with (take_digits 8 0 rest).
    rewrite take_digits_stops; auto.
  - pose proof (take_digits_dec 3 b rest ltac:(cbn; lia)) as Ht.
    destruct (dec_head 3 b) as (c & l & Hd & Hc); [cbn; lia|]. rewrite Hd in *.
    rewrite <- app_comm_cons in *. cbn [parse_num].
    replace c with (48 + (c - 48)) at 1 by lia. rewrite digit_of_dec by lia.
    destruct (Z.eqb_spec c 48); [lia|]. rewrite Ht, take_digits_stops; auto.
Qed.

Lemma aton_dot left pos acc b rest :
  0 <= b < 256 ->
  aton_parts (S left) pos acc (dec 3 b ++ 46 :: rest) = aton_parts left (pos + 1) (acc + b * 256 ^ pos) rest.
Proof.
  intros Hb. cbn [aton_parts]. rewrite parse_num_dec by (done || (left; done)).
  destruct (Z.ltb_spec 255 b); [lia|done].
Qed.

Lemma aton_last acc b : 0 <= b < 256 -> aton_parts 0 3 acc (dec 3 b) = Some (acc + b * 256 ^ 3).
Proof.
  intros Hb. rewrite <- (app_nil_r (dec 3 b)). cbn [aton_parts].
  rewrite parse_num_dec by done. change (seqZ 0 (4 - 3)) with [0]. cbn [foldl andb].
  destruct (Z.ltb_spec b (256 ^ (4 - 3))); [|lia].
  rewrite Z.pow_0_r, Z.div_1_r, Z.mod_small by lia. f_equal. lia.
Qed.

Lemma inet_aton_print a : u32 a -> inet_aton (print_addr a) = Some a.
Proof.
  intros Ha. unfold inet_aton, print_addr.
  assert (H : forall x, 0 <= x mod 256 < 256) by (intros; apply Z.mod_pos_bound; lia).
  rewrite !aton_dot, aton_last by apply H. f_equal.
  rewrite (Z.mod_small (a / 256 / 256 / 256)).
  2:{ rewrite !Z.div_div by lia. split; [apply Z.div_pos; mlia|apply Z.div_lt_upper_bound; mlia]. }
  pose proof (Z_div_mod_eq_full a 256). pose proof (Z_div_mod_eq_full (a / 256) 256).
  pose proof (Z_div_mod_eq_full (a / 256 / 256) 256). lia.
Qed.

Lemma print_addr_graph a : Forall graph (print_addr a).
Proof.
  assert (H : forall x, Forall graph (dec 3 (x mod 256)))
    by (intros; apply dec_graph, Z.mod_pos_bound; lia).
  unfold print_addr. repeat (apply Forall_app; split; [apply H|]; constructor; [split; lia|]). apply H.
Qed.

Lemma print_addr_length a : (length (print_addr a) <= 15)%nat.
Proof.
  unfold print_addr. repeat (rewrite length_app; cbn [length]).
  pose proof (dec_length 3 (a mod 256)). pose proof (dec_length 3 (a / 256 mod 256)).
  pose proof (dec_length 3 (a / 256 / 256 mod 256)).
  pose proof (dec_length 3 (a / 256 / 256 / 256 mod 256)). lia.
Qed.

Lemma dec_nonempty f n : dec (S f) n <> [].
Proof. cbn. destruct (n <? 10); [done|]. intros H. by apply app_eq_nil in H as [_ ?]. Qed.

Lemma print_addr_nonempty a : print_addr a <> [].
Proof. unfold print_addr. intros H. apply app_eq_nil in H as [_ H]. done. Qed.

Lemma print_port_graph p : 0 <= p -> Forall graph (print_port p).
Proof.
  intros. unfold print_port. destruct (p =? 0); [|by apply dec_graph].
  repeat constructor; lia.
Qed.

Lemma print_port_length p : (length (print_port p) <= 5)%nat.
Proof. unfold print_port. destruct (p =? 0); [cbn; lia|apply dec_length]. Qed.

Lemma print_port_nonempty p : print_port p <> [].
Proof. unfold print_port. destruct (p =? 0); [done|apply dec_nonempty]. Qed.

(** ** Words and lines *)

Lemma word_graph w s rest :
  Forall graph w -> isspace s = true -> word (w ++ s :: rest) = (w, s :: rest).
Proof.
  intros Hw Hs. induction Hw as [|c w Hc Hw IH]; cbn; [by rewrite Hs|].
  rewrite (graph_not_space c Hc), IH. done.
Qed.

Lemma skip_space_graph w rest : w <> [] -> Forall graph w -> skip_space (32 :: w ++ rest) = w ++ rest.
Proof.
  intros Hn Hw. destruct Hw as [|c w Hc Hw]; [done|]. cbn. by rewrite (graph_not_space c Hc).
Qed.

Lemma cstr_graph w rest : Forall graph w -> cstr (w ++ 0 :: rest) = w.
Proof.
  induction 1 as [|c w Hc Hw IH]; cbn; [done|].
  destruct (Z.eqb_spec c 0); [unfold graph in Hc; lia|]. by rewrite IH.
Qed.

(** A word that fits is stored with its NUL; the array keeps its size. *)
Definition stored (w buf : list Z) : list Z := w ++ 0 :: drop (S (length w)) buf.

Lemma stored_length w buf : (length w < length buf)%nat -> length (stored w buf) = length buf.
Proof. intros. unfold stored. rewrite length_app. cbn. rewrite length_drop. lia. Qed.

Lemma scan_s_word buf w s rest :
  w <> [] -> Forall graph w -> isspace s = true -> (length w < length buf)%nat ->
  scan_s buf (32 :: w ++ s :: rest) = Ret (stored w buf, Some (s :: rest)).
Proof.
  intros Hn Hw Hs Hl. unfold scan_s. rewrite skip_space_graph, word_graph by done.
  destruct w as [|c w]; [done|]. apply Nat.ltb_lt in Hl. by rewrite Hl.
Qed.

Lemma stored_zero w buf : bool_decide (0 ∈ stored w buf) = true.
Proof. apply bool_decide_eq_true_2. apply elem_of_app. right. apply list_elem_of_here. Qed.

Lemma parse_port_print p buf : u16 p -> parse_port (stored (print_port p) buf) = Ret p.
Proof.
  intros Hp. unfold parse_port. rewrite stored_zero. unfold stored.
  rewrite cstr_graph by (apply print_port_graph; mlia). unfold print_port.
  destruct (Z.eqb_spec p 0) as [->|Hn]; [done|]. f_equal.
  rewrite bool_decide_eq_false_2, atoi_dec by (mlia || (
    destruct (dec_head 5 p) as (c & l & -> & ?); [cbn; mlia|intros [= ->]; lia])).
  apply wrap_small. exact Hp.
Qed.

Lemma parse_addr_print a inp buf : u32 a -> parse_addr (stored (print_addr a) buf) inp = Ret a.
Proof.
  intros Ha. unfold parse_addr. rewrite stored_zero. unfold stored.
  by rewrite cstr_graph, inet_aton_print by (apply print_addr_graph || done).
Qed.

Lemma parse_bind_print r fresh v :
  u16 (port r) -> sizes_ok v ->
  parse_bind (STR_ALLOW_BIND ++ 32 :: print_port (port r) ++ [10]) fresh v
  = Ret (FwRule FW_TYPE_BIND_ALLOW (port r) (ip fresh) (mask fresh),
         Locals (stored (print_port (port r)) (l_port v)) (l_ip v) (l_mask v) (l_inp v)).
Proof.
  intros Hp (H8 & _). unfold parse_bind. rewrite drop_app_length, scan_s_word.
  - by rewrite parse_port_print.
  - apply print_port_nonempty.
  - apply print_port_graph. mlia.
  - done.
  - pose proof (print_port_length (port r)). lia.
Qed.

Lemma parse_connect_print kw t r v :
  u16 (port r) -> u32 (ip r) -> u32 (mask r) -> sizes_ok v ->
  parse_connect kw t (print_connect kw r ++ [10]) v
  = Ret (FwRule t (port r) (ip r) (mask r),
         Locals (stored (print_port (port r)) (l_port v)) (stored (print_addr (ip r)) (l_ip v))
                (stored (print_addr (mask r)) (l_mask v)) (mask r)).
Proof.
  intros Hp Hi Hm (H8 & H20 & H20'). unfold parse_connect, print_connect.
  rewrite <- app_assoc, drop_app_length. unfold scan3.
  pose proof (print_port_length (port r)). pose proof (print_addr_length (ip r)).
  pose proof (print_addr_length (mask r)).
  rewrite <- app_comm_cons, <- app_assoc, <- app_comm_cons, <- app_assoc, <- app_comm_cons.
  rewrite scan_s_word by (apply print_port_nonempty || (apply print_port_graph; mlia) || done || lia).
  rewrite !scan_s_word by (apply print_addr_nonempty || apply print_addr_graph || done || lia).
  cbn [l_port l_ip l_mask l_inp]. by rewrite parse_port_print, !parse_addr_print.
Qed.

Lemma stored_sizes r v a b i :
  sizes_ok v -> (length a <= 15)%nat -> (length b <= 15)%nat ->
  sizes_ok (Locals (stored (print_port (port r)) (l_port v)) (stored a (l_ip v)) (stored b (l_mask v)) i)
  /\ sizes_ok (Locals (stored (print_port (port r)) (l_port v)) (l_ip v) (l_mask v) i).
Proof.
  intros (H8 & H20 & H20') Ha Hb. pose proof (print_port_length (port r)).
  unfold sizes_ok; cbn. rewrite !stored_length by lia. done.
Qed.

(** A line of the file: the parser reads it whole, as a C string. *)
Lemma fgets_line n l rest :
  Forall (fun c => c <> 10) l -> (length l < n)%nat -> fgets n (l ++ 10 :: rest) = (l ++ [10], rest, false).
Proof.
  intros Hl. revert n. induction Hl as [|c l Hc Hl IH]; intros [|n] Hn; cbn in *; try lia; [done|].
  destruct (Z.eqb_spec c 10); [done|]. rewrite IH by lia. done.
Qed.

Lemma cstr_id l : Forall (fun c => c <> 0) l -> cstr l = l.
Proof.
  induction 1 as [|c l Hc Hl IH]; cbn; [done|]. destruct (Z.eqb_spec c 0); [done|]. by rewrite IH.
Qed.

(** Characters of a printed rule: no NUL and no newline. *)
Definition plain (c : Z) : Prop := 32 <= c <= 126.

Lemma graph_plain l : Forall graph l -> Forall plain l.
Proof. apply List.Forall_impl. unfold graph, plain. lia. Qed.

Lemma print_rule_plain r : rule_ok r -> Forall plain (print_rule r).
Proof.
  intros (_ & Hp & _ & _).
  assert (Hc : forall kw, Forall plain kw -> Forall plain (print_connect kw r)).
  { intros kw Hkw. unfold print_connect. apply Forall_app. split; [done|]. constructor; [split; lia|].
    apply Forall_app. split; [apply graph_plain, print_port_graph; mlia|]. constructor; [split; lia|].
    apply Forall_app. split; [apply graph_plain, print_addr_graph|]. constructor; [split; lia|].
    apply graph_plain, print_addr_graph. }
  unfold print_rule. destruct (type r =? FW_TYPE_BIND_ALLOW).
  - apply Forall_app. split; [repeat constructor; lia|]. constructor; [split; lia|].
    apply graph_plain, print_port_graph. mlia.
  - destruct (type r =? FW_TYPE_CONNECT_ALLOW); apply Hc; repeat constructor; lia.
Qed.

Lemma print_rule_length r : (length (print_rule r) <= 52)%nat.
Proof.
  pose proof (print_port_length (port r)). pose proof (print_addr_length (ip r)).
  pose proof (print_addr_length (mask r)). unfold print_rule, print_connect.
  destruct (type r =? FW_TYPE_BIND_ALLOW), (type r =? FW_TYPE_CONNECT_ALLOW);
    repeat (rewrite length_app || cbn [length]);
    unfold STR_ALLOW_BIND, STR_ALLOW_CONNECT, STR_DENY_CONNECT; cbn [length]; lia.
Qed.

Lemma print_entry_line e :
  entry_ok e -> Forall (fun c => c <> 10) (print_entry e) /\ (length (print_entry e) < 99)%nat.
Proof.
  destruct e as [text| |r]; cbn [entry_ok print_entry].
  - intros [Hl Ht]. split; [|cbn; lia]. constructor; done.
  - intros _. split; [constructor|cbn; lia].
  - intros Hr. split.
    + eapply List.Forall_impl; [|by apply print_rule_plain]. unfold plain. intros; cbn in *; lia.
    + pose proof (print_rule_length r). lia.
Qed.

Lemma starts_with_app p s : starts_with p (p ++ s) = true.
Proof. induction p as [|c p IH]; cbn; [done|]. by rewrite Z.eqb_refl. Qed.

(** What a well-formed line does. *)
Lemma parse_line_entry e fresh v :
  entry_ok e -> sizes_ok v ->
  match loaded fresh e with
  | None => parse_line (cstr (print_entry e ++ [10])) fresh v = Skip
  | Some r => exists v', parse_line (cstr (print_entry e ++ [10])) fresh v = Insert r v' /\ sizes_ok v'
  end.
Proof.
  destruct e as [text| |r]; cbn [entry_ok loaded print_entry]; intros He Hv; [reflexivity..|].
  rewrite cstr_id.
  2:{ apply Forall_app. split; [|by repeat constructor].
      eapply List.Forall_impl; [|by apply print_rule_plain]. unfold plain. cbn. lia. }
  destruct He as (Ht & Hp & Hi & Hm).
  destruct (stored_sizes r v (print_addr (ip r)) (print_addr (mask r)) (mask r) Hv
              (print_addr_length _) (print_addr_length _)) as [Hs _].
  destruct (stored_sizes r v (print_addr (ip r)) (print_addr (mask r)) (l_inp v) Hv
              (print_addr_length _) (print_addr_length _)) as [_ Hs'].
  assert (Hr : FwRule (type r) (port r) (ip r) (mask r) = r) by (by destruct r).
  unfold print_rule. destruct Ht as [Ht|[Ht|Ht]]; rewrite Ht; rewrite Ht in Hr;
    cbn [Z.eqb FW_TYPE_BIND_ALLOW FW_TYPE_CONNECT_ALLOW FW_TYPE_CONNECT_DENY Pos.eqb].
  - eexists. split; [|exact Hs']. rewrite <- app_assoc, <- app_comm_cons. unfold parse_line.
    rewrite parse_bind_print, starts_with_app by done. reflexivity.
  - eexists. split; [|exact Hs]. unfold parse_line.
    rewrite parse_connect_print, Hr by done. unfold print_connect.
    rewrite <- app_assoc, starts_with_app. reflexivity.
  - eexists. split; [|exact Hs]. unfold parse_line.
    rewrite (parse_connect_print STR_DENY_CONNECT), Hr by done. unfold print_connect.
    rewrite <- app_assoc, starts_with_app. reflexivity.
Qed.

(** ** The loop *)

Lemma print_policy_cons e es : print_policy (e :: es) = print_entry e ++ 10 :: print_policy es.
Proof. unfold print_policy. cbn. by rewrite <- app_assoc. Qed.

Lemma print_policy_length es : (length es <= length (print_policy es))%nat.
Proof.
  induction es as [|e es IH]; [cbn; lia|]. rewrite print_policy_cons, length_app. cbn. lia.
Qed.

(** One iteration on a file that starts with a line that was read whole. *)
Lemma parse_step_line fresh l rest v rules :
  Forall (fun c => c <> 10) l -> (length l < 99)%nat ->
  parse_step fresh (Loop (l ++ 10 :: rest) false v rules)
  = match parse_line (cstr (l ++ [10])) fresh v with
    | Skip => inl (Loop rest false v rules)
    | Insert r v' => inl (Loop rest false v' (r :: rules))
    | Unknown => inr (Ret (-1), rules)
    | Undefined => inr (UB, rules)
    end.
Proof.
  intros Hl Hn. unfold parse_step; cbn [l_eof l_data l_vars l_rules]. rewrite fgets_line by done.
  destruct l; reflexivity.
Qed.

Lemma parse_policy_loop fresh es v rules k :
  Forall entry_ok es -> sizes_ok v -> (length es < k)%nat ->
  iter_nat (parse_step fresh) k (Loop (print_policy es) false v rules)
  = inr (Ret 0, rev (omap (loaded fresh) es) ++ rules).
Proof.
  intros Hes. revert v rules k. induction Hes as [|e es He Hes IH]; intros v rules [|k] Hv Hk;
    cbn [length] in Hk; try lia; [reflexivity|].
  destruct (print_entry_line e He) as [Hl Hn].
  cbn [iter_nat]. rewrite print_policy_cons, parse_step_line by done.
  pose proof (parse_line_entry e fresh v He Hv) as Hp. cbn [omap list_omap].
  destruct (loaded fresh e) as [r|].
  - destruct Hp as (v' & -> & Hv'). rewrite IH by (done || lia). cbn. by rewrite <- app_assoc.
  - rewrite Hp, IH by (done || lia). done.
Qed.

(** A policy in front of more text is read line by line. *)
Lemma parse_policy_prefix fresh es rest v rules k :
  Forall entry_ok es -> sizes_ok v ->
  exists v' rules', sizes_ok v'
    /\ iter_nat (parse_step fresh) (length es + k) (Loop (print_policy es ++ rest) false v rules)
       = iter_nat (parse_step fresh) k (Loop rest false v' rules').
Proof.
  intros Hes. revert v rules. induction Hes as [|e es He Hes IH]; intros v rules Hv.
  { by exists v, rules. }
  destruct (print_entry_line e He) as [Hl Hn].
  cbn [length Nat.add iter_nat]. rewrite print_policy_cons, <- app_assoc, <- app_comm_cons, parse_step_line by done.
  pose proof (parse_line_entry e fresh v He Hv) as Hp. destruct (loaded fresh e) as [r|].
  - destruct Hp as (v' & -> & Hv'). by apply IH.
  - rewrite Hp. by apply IH.
Qed.

(** A line that is neither blank nor starts like a comment or a rule. *)
Definition unknown_line (l : list Z) : Prop :=
  l <> [] /\ (length l < 99)%nat /\ Forall (fun c => c <> 10 /\ c <> 0) l
  /\ forall kw, kw ∈ [STR_COMMENT; STR_ALLOW_BIND; STR_ALLOW_CONNECT; STR_DENY_CONNECT] -> ~ kw `prefix_of` l.

Lemma starts_with_line kw l : 10 ∉ kw -> ~ kw `prefix_of` l -> starts_with kw (l ++ [10]) = false.
Proof.
  revert l; induction kw as [|c kw IH]; intros l Hn Hp; [destruct Hp; apply prefix_nil|].
  destruct l as [|d l]; cbn [app starts_with].
  - destruct (Z.eqb_spec c 10) as [->|]; [|done]. destruct Hn. apply list_elem_of_here.
  - destruct (Z.eqb_spec c d) as [->|]; [|done]. cbn [andb]. apply IH.
    + intros Hin. apply Hn. by apply list_elem_of_further.
    + intros Hk. apply Hp. by apply prefix_cons.
Qed.

Lemma parse_line_unknown l fresh v : unknown_line l -> parse_line (cstr (l ++ [10])) fresh v = Unknown.
Proof.
  intros (Hne & _ & Hl & Hkw). rewrite cstr_id.
  2:{ apply Forall_app. split; [|by repeat constructor]. eapply List.Forall_impl; [|exact Hl]. by intros c [_ ?]. }
  assert (Hno : forall kw, kw ∈ [STR_COMMENT; STR_ALLOW_BIND; STR_ALLOW_CONNECT; STR_DENY_CONNECT] ->
            starts_with kw (l ++ [10]) = false).
  { intros kw Hin. apply starts_with_line; [|by apply Hkw].
    repeat (apply elem_of_cons in Hin as [->|Hin]; [by apply (bool_decide_unpack _)|]). by apply elem_of_nil in Hin. }
  unfold parse_line. rewrite !Hno by (repeat (apply list_elem_of_here || apply list_elem_of_further)).
  rewrite bool_decide_eq_false_2; [done|]. by destruct l as [|c [|d l]].
Qed.

(** A file with such a line after any well-formed ones is refused. *)
Lemma unknown_line_refused es l rest fresh v rules :
  Forall entry_ok es -> sizes_ok v -> unknown_line l ->
  exists rules', firewall_parse (Some (print_policy es ++ l ++ 10 :: rest)) fresh v rules = (Ret (-1), rules').
Proof.
  intros He Hv Hl. destruct (parse_policy_prefix fresh es (l ++ 10 :: rest) v rules 1 He Hv) as (v' & rules' & _ & Hi).
  assert (H1 : iter_nat (parse_step fresh) 1 (Loop (l ++ 10 :: rest) false v' rules') = inr (Ret (-1), rules')).
  { cbn [iter_nat]. destruct Hl as (? & Hn & Hc & ?).
    rewrite parse_step_line by (done || (eapply List.Forall_impl; [|exact Hc]; by intros c [? _])).
    by rewrite parse_line_unknown. }
  exists rules'. rewrite H1 in Hi. unfold firewall_parse.
  eapply iter_nat_mono in Hi; [by rewrite Hi|]. unfold parse_fuel. rewrite length_app.
  pose proof (print_policy_length es). lia.
Qed.

Lemma fgets_split n data :
  match fgets n data with (l, rest, e) => data = l ++ rest /\ (e = true -> rest = []) end.
Proof.
  revert data; induction n as [|n IH]; intros [|c data]; cbn; try done.
  destruct (c =? 10); [done|]. specialize (IH data). destruct (fgets n data) as [[l rest] e].
  destruct IH as [-> ?]. done.
Qed.

(** Each iteration ends the parse or reads at least a byte. *)
Lemma parse_step_progress fresh s :
  match parse_step fresh s with
  | inl s' => (length (l_data s') < length (l_data s))%nat
              /\ exists new, l_rules s' = new ++ l_rules s
  | inr (o, rules) => (o = Ret 0 \/ o = Ret (-1) \/ o = UB) /\ rules = l_rules s
  end.
Proof.
  unfold parse_step. destruct (l_eof s); [auto|].
  pose proof (fgets_split 99 (l_data s)) as Hf. destruct (fgets 99 (l_data s)) as [[buf rest] e].
  destruct Hf as [Hd _]. destruct buf as [|c buf]; [auto|].
  rewrite Hd. destruct (parse_line (cstr (c :: buf)) fresh (l_vars s)) as [|r v| |]; cbn; auto.
  - rewrite length_app. split; [lia|by exists []].
  - rewrite length_app. split; [lia|by exists [r]].
Qed.

Lemma parse_loop_ends fresh k s :
  (length (l_data s) < k)%nat ->
  exists o new, iter_nat (parse_step fresh) k s = inr (o, new ++ l_rules s)
                /\ (o = Ret 0 \/ o = Ret (-1) \/ o = UB).
Proof.
  revert s; induction k as [|k IH]; intros s Hk; [lia|]. cbn [iter_nat].
  pose proof (parse_step_progress fresh s) as Hp. destruct (parse_step fresh s) as [s'|[o rules]].
  - destruct Hp as [Hl [new Hn]]. destruct (IH s' ltac:(lia)) as (o & new' & -> & Ho).
    exists o, (new' ++ new). rewrite Hn, app_assoc. auto.
  - destruct Hp as [Ho ->]. by exists o, [].
Qed.

(** ** Properties *)

(** [firewall_parse] always gives a result. *)
Lemma parse_ends file fresh v rules :
  exists o new, firewall_parse file fresh v rules = (o, new ++ rules)
                /\ (o = Ret 0 \/ o = Ret (-1) \/ o = UB).
Proof.
  destruct file as [data|]; [|exists (Ret (-1)), []; auto]. unfold firewall_parse.
  destruct (parse_loop_ends fresh (parse_fuel data) (Loop data false v rules)) as (o & new & -> & Ho).
  - unfold parse_fuel. cbn. lia.
  - by exists o, new.
Qed.

(** C23. The parser ends on every file: any number of iterations greater than
    the length of the file is enough, the result does not depend on the number
    chosen, it is 0, -1 or an undefined access, and in every case the parser
    has only put rules in front of the list. *)
Theorem firewall_parse_total data fresh v rules k :
  (length data < k)%nat ->
  exists o new, iter_nat (parse_step fresh) k (Loop data false v rules) = inr (o, new ++ rules)
    /\ (o = Ret 0 \/ o = Ret (-1) \/ o = UB)
    /\ firewall_parse (Some data) fresh v rules = (o, new ++ rules).
Proof.
  intros Hk. destruct (parse_loop_ends fresh k (Loop data false v rules) Hk) as (o & new & He & Ho).
  exists o, new. split; [done|]. split; [done|]. unfold firewall_parse.
  destruct (parse_loop_ends fresh (parse_fuel data) (Loop data false v rules)) as (o' & new' & He' & Ho');
    [unfold parse_fuel; cbn; lia|].
  rewrite He'. cbn [l_rules] in *. destruct (Nat.le_ge_cases k (parse_fuel data)) as [Hle|Hle].
  - rewrite (iter_nat_mono _ _ _ _ _ Hle He) in He'. congruence.
  - rewrite (iter_nat_mono _ _ _ _ _ Hle He') in He. congruence.
Qed.


Lemma fgets_full l rest : Forall (fun c => c <> 10) l -> fgets (length l) (l ++ rest) = (l, rest, false).
Proof.
  induction 1 as [|c l Hc Hl IH]; cbn; [by destruct rest|].
  destruct (Z.eqb_spec c 10); [done|]. by rewrite IH.
Qed.

(** A comment longer than the line buffer is not a comment to its end: the
    text from its hundredth character on is read as a line of its own, so a
    rule written there is put into the list. *)
Theorem long_comment_becomes_rule text r fresh v rules :
  length text = 98%nat -> Forall (fun c => c <> 10) text -> rule_ok r -> sizes_ok v ->
  firewall_parse (Some (STR_COMMENT ++ text ++ print_rule r ++ [10])) fresh v rules
  = (Ret 0, rev (omap (loaded fresh) [ERule r]) ++ rules).
Proof.
  intros Hlen Ht Hr Hv. unfold firewall_parse.
  replace (parse_fuel _) with (S (98 + length (print_rule r) + 3)).
  2:{ unfold parse_fuel. cbn [STR_COMMENT app length]. rewrite !length_app. cbn. lia. }
  cbn [iter_nat]. rewrite app_assoc.
  assert (Hs : parse_step fresh (Loop ((STR_COMMENT ++ text) ++ print_rule r ++ [10]) false v rules)
               = inl (Loop (print_policy [ERule r]) false v rules)).
  { unfold parse_step; cbn [l_eof l_data l_vars l_rules].
    replace 99%nat with (length (STR_COMMENT ++ text)) by (rewrite length_app; cbn; lia).
    rewrite fgets_full by (constructor; done). unfold print_policy. cbn -[print_rule app].
    by rewrite app_nil_r. }
  rewrite Hs, parse_policy_loop; [done|constructor; [exact Hr|constructor]|done|cbn; lia].
Qed.

(** A word that does not start like a number reads as port 0. *)
Lemma parse_port_word c w buf :
  58 <= c <= 126 \/ c = 47 -> Forall graph (c :: w) -> parse_port (stored (c :: w) buf) = Ret 0.
Proof.
  intros Hc Hg. unfold parse_port. rewrite stored_zero. unfold stored. rewrite cstr_graph by done.
  rewrite bool_decide_eq_false_2 by (intros [= ->]; lia). f_equal.
  rewrite atoi_unsigned by (unfold graph; lia). cbn [take_digits].
  replace (digit_of 10 c) with (@None Z); [done|]. unfold digit_of.
  destruct (Z.leb_spec 48 c), (Z.leb_spec c 57), (Z.leb_spec 97 c), (Z.leb_spec c 102),
    (Z.leb_spec 65 c), (Z.leb_spec c 70); cbn; try lia; try done;
    match goal with |- context [?x <? 10] => destruct (Z.ltb_spec x 10); [lia|done] end.
Qed.

(** A bind rule whose port is not a number opens every port: atoi reads 0,
    which is FW_PORT_ANY. *)
Theorem word_port_opens_all c w fresh v rules :
  (58 <= c <= 126 \/ c = 47) -> Forall graph w -> (length w <= 6)%nat -> sizes_ok v ->
  exists r, firewall_parse (Some (STR_ALLOW_BIND ++ 32 :: (c :: w) ++ [10])) fresh v rules = (Ret 0, r :: rules)
            /\ forall p, firewall_check_bind (r :: rules) p = true.
Proof.
  intros Hc Hw Hl Hv. exists (FwRule FW_TYPE_BIND_ALLOW 0 (ip fresh) (mask fresh)). split; [|done].
  assert (Hg : Forall graph (c :: w)) by (constructor; [unfold graph; lia|done]).
  assert (Hplain : Forall plain (STR_ALLOW_BIND ++ 32 :: c :: w)).
  { apply Forall_app. split; [repeat constructor; lia|]. constructor; [split; lia|by apply graph_plain]. }
  replace (STR_ALLOW_BIND ++ 32 :: (c :: w) ++ [10]) with ((STR_ALLOW_BIND ++ 32 :: c :: w) ++ [10])
    by (by rewrite <- app_assoc).
  unfold firewall_parse, parse_fuel. rewrite length_app.
  replace (_ + _ + 2)%nat with (S (S (length (STR_ALLOW_BIND ++ 32 :: c :: w) + 1))) by (cbn; lia).
  cbn [iter_nat]. rewrite parse_step_line.
  - unfold parse_line. rewrite cstr_id.
    2:{ apply Forall_app. split; [|by repeat constructor].
        eapply List.Forall_impl; [|exact Hplain]. unfold plain. cbn. lia. }
    rewrite <- app_assoc, starts_with_app. unfold parse_bind. rewrite drop_app_length.
    rewrite <- app_comm_cons, scan_s_word by (done || (destruct Hv; cbn; lia)).
    rewrite parse_port_word by done. reflexivity.
  - eapply List.Forall_impl; [|exact Hplain]. unfold plain. cbn. lia.
  - rewrite length_app. cbn. lia.
Qed.

(** ** Witnesses *)

Definition demo_rule : fw_rule := FwRule FW_TYPE_CONNECT_ALLOW 8080 0x090342ab 0x00ffffff.
Definition demo_fresh : fw_rule := FwRule 7 7 7 7.
Definition demo_locals : locals := Locals (replicate 8 1) (replicate 20 1) (replicate 20 1) 5.

Lemma demo_rule_ok : rule_ok demo_rule.
Proof. unfold rule_ok, u16, u32; cbn. unfold FW_TYPE_CONNECT_ALLOW. lia. Qed.

Lemma firewall_parse_total_witness :
  exists o new, firewall_parse (Some (bytes "allow")) demo_fresh demo_locals [] = (o, new ++ []).
Proof.
  destruct (firewall_parse_total (bytes "allow") demo_fresh demo_locals [] 6) as (o & new & _ & _ & H);
    [cbn; lia|]. exists o, new. exact H.
Defined.


Lemma long_comment_becomes_rule_witness :
  firewall_parse (Some (STR_COMMENT ++ replicate 98 32 ++ print_rule demo_rule ++ [10]))
    demo_fresh demo_locals [] = (Ret 0, [demo_rule]).
Proof.
  apply (long_comment_becomes_rule (replicate 98 32) demo_rule demo_fresh demo_locals []);
    [done| |exact demo_rule_ok|done].
  apply List.Forall_forall. intros x Hx. apply list_elem_of_In, elem_of_replicate in Hx as [-> _]. done.
Defined.

Lemma word_port_opens_all_witness :
  exists r, firewall_parse (Some (STR_ALLOW_BIND ++ 32 :: bytes "http" ++ [10])) demo_fresh demo_locals []
            = (Ret 0, [r]) /\ forall p, firewall_check_bind [r] p = true.
Proof.
  apply (word_port_opens_all 104 [116; 116; 112] demo_fresh demo_locals []); [lia| |cbn; lia|done].
  repeat (apply List.Forall_cons; [split; lia|]). apply List.Forall_nil.
Defined.
