(* ===== verification/FirewallProps.v ===== *)
(** What the firewall decides: which rules apply to a connection, the order in
    which they win, the address test of a connect rule compared with the
    netmask test it stands for, the decisions of the shipped rule file, and the end-to-end effect of a denied
    call through the sandbox's handler. *)

From stdpp Require Import base numbers list option strings.
From S2P Require Import Prelude Platform AddrSpace Syscalls Trap TrapProps CString Firewall FirewallParse.

(** ** Decisions as specifications *)

(** The addresses a connect rule covers: each bit set in the address is set in
    the rule's address exactly when it is set in its mask. For a rule whose
    address lies in its mask these are the addresses whose network part has no
    bit outside the rule's; the network the rule names is among them. *)
Definition covers (r : fw_rule) (a : Z) : Prop :=
  forall i, 0 <= i < 32 -> Z.testbit a i = true -> Z.testbit (ip r) i = Z.testbit (mask r) i.

(** The ports it covers: one, or all. *)
Definition covers_port (r : fw_rule) (p : Z) : Prop := port r = 0 \/ port r = p.

Lemma covers_all r a :
  Forall (fun i => Z.testbit a i = true -> Z.testbit (ip r) i = Z.testbit (mask r) i) (seqZ 0 32) <-> covers r a.
Proof.
  unfold covers. rewrite Forall_forall. split; intros H i.
  - intros Hi. apply H, elem_of_seqZ. lia.
  - intros Hi%elem_of_seqZ. apply H. lia.
Qed.

#[export] Instance covers_dec r a : Decision (covers r a).
Proof.
  refine (cast_if (decide (Forall (fun i => Z.testbit a i = true -> Z.testbit (ip r) i = Z.testbit (mask r) i) (seqZ 0 32))));
    by rewrite <- covers_all.
Defined.

#[export] Instance covers_port_dec r p : Decision (covers_port r p).
Proof. unfold covers_port. apply _. Defined.

(** A connect rule that applies to a connection. *)
Definition applies (p a : Z) (r : fw_rule) : Prop :=
  (type r = FW_TYPE_CONNECT_ALLOW \/ type r = FW_TYPE_CONNECT_DENY) /\ covers r a /\ covers_port r p.

#[export] Instance applies_dec p a r : Decision (applies p a r).
Proof. unfold applies. apply _. Defined.

(** The rules of a file, in the order of its lines. *)
Definition rules_of (es : list entry) : list fw_rule :=
  omap (fun e => match e with ERule r => Some r | _ => None end) es.

(** The connect policy of a file: the last line that applies decides; without
    one the connection is refused. *)
Definition policy_connect (p a : Z) (es : list entry) : bool :=
  match List.find (fun r => bool_decide (applies p a r)) (rev (rules_of es)) with
  | Some r => type r =? FW_TYPE_CONNECT_ALLOW
  | None => false
  end.

(** The bind policy of a file: some bind line names the port or every port. *)
Definition policy_bind (p : Z) (es : list entry) : Prop :=
  exists r, ERule r ∈ es /\ type r = FW_TYPE_BIND_ALLOW /\ covers_port r p.

(** The tests of the code decide these. *)
Lemma addr_match_covers r a : u32 a -> addr_match r a = bool_decide (covers r a).
Proof.
  intros Ha. unfold addr_match. apply eq_true_iff_eq. rewrite Z.eqb_eq, bool_decide_eq_true. split.
  - intros H i Hi Hb. apply (f_equal (fun z => Z.testbit z i)) in H. by rewrite !Z.land_spec, Hb in H.
  - intros H. apply Z.bits_inj'. intros i Hi. rewrite !Z.land_spec.
    destruct (Z.testbit a i) eqn:Hb; [cbn|done]. destruct (Z_lt_le_dec i 32) as [|Hge]; [by apply H|].
    destruct (Z.eq_dec a 0) as [->|]; [by rewrite Z.bits_0 in Hb|].
    rewrite Z.bits_above_log2 in Hb; [done|mlia|]. apply Z.log2_lt_pow2; [mlia|].
    pose proof (Z.pow_le_mono_r 2 32 i ltac:(lia) Hge). mlia.
Qed.

Lemma port_match_covers r p : port_match r p = bool_decide (covers_port r p).
Proof.
  unfold port_match, covers_port, FW_PORT_ANY. apply eq_true_iff_eq.
  by rewrite orb_true_iff, !Z.eqb_eq, bool_decide_eq_true.
Qed.

Lemma check_connect_step r rules p a :
  u32 a -> firewall_check_connect (r :: rules) p a
  = if bool_decide (applies p a r) then type r =? FW_TYPE_CONNECT_ALLOW
    else firewall_check_connect rules p a.
Proof.
  intros Hu. cbn [firewall_check_connect]. rewrite addr_match_covers, port_match_covers by done.
  destruct (bool_decide (applies p a r)) eqn:Hb.
  - apply bool_decide_eq_true in Hb as (Ht & Ha & Hp). rewrite !bool_decide_eq_true_2, !andb_true_r by done.
    destruct Ht as [-> | ->]; reflexivity.
  - apply bool_decide_eq_false in Hb. unfold applies in Hb.
    destruct (Z.eqb_spec (type r) FW_TYPE_CONNECT_ALLOW), (Z.eqb_spec (type r) FW_TYPE_CONNECT_DENY),
      (bool_decide_reflect (covers r a)), (bool_decide_reflect (covers_port r p)); cbn; tauto.
Qed.

Lemma check_connect_find rules p a :
  u32 a -> firewall_check_connect rules p a
  = match List.find (fun r => bool_decide (applies p a r)) rules with
    | Some r => type r =? FW_TYPE_CONNECT_ALLOW
    | None => false
    end.
Proof.
  intros Hu. induction rules as [|r rules IH]; [done|]. rewrite check_connect_step by done. cbn [List.find].
  by destruct (bool_decide (applies p a r)).
Qed.

Lemma check_bind_exists rules p :
  firewall_check_bind rules p = true
  <-> exists r, r ∈ rules /\ type r = FW_TYPE_BIND_ALLOW /\ covers_port r p.
Proof.
  induction rules as [|r rules IH]; cbn [firewall_check_bind].
  { split; [done|]. intros (r & Hr & _). by apply elem_of_nil in Hr. }
  fold (port_match r p). rewrite port_match_covers.
  destruct (Z.eqb_spec (type r) FW_TYPE_BIND_ALLOW) as [Ht|Ht], (bool_decide_reflect (covers_port r p)) as [Hp|Hp]; cbn [andb].
  1:{ split; [|done]. intros _. exists r. split; [apply list_elem_of_here|done]. }
  all: rewrite IH; split; intros (r' & Hr & ? & ?);
    [exists r'; split; [by apply list_elem_of_further|done]|].
  all: apply elem_of_cons in Hr as [->|Hr]; [done|eauto].
Qed.

(** Loading a bind rule only changes fields no decision reads. *)
Definition norm (fresh r : fw_rule) : fw_rule :=
  if type r =? FW_TYPE_BIND_ALLOW then FwRule (type r) (port r) (ip fresh) (mask fresh) else r.

Lemma loaded_norm fresh es : omap (loaded fresh) es = map (norm fresh) (rules_of es).
Proof. induction es as [|[| |r] es IH]; cbn; [done..|]. by rewrite IH. Qed.

Lemma norm_type fresh r : type (norm fresh r) = type r.
Proof. unfold norm. by destruct (type r =? FW_TYPE_BIND_ALLOW). Qed.

Lemma norm_port fresh r : port (norm fresh r) = port r.
Proof. unfold norm. by destruct (type r =? FW_TYPE_BIND_ALLOW). Qed.

Lemma check_connect_norm fresh rules p a :
  firewall_check_connect (map (norm fresh) rules) p a = firewall_check_connect rules p a.
Proof.
  induction rules as [|r rules IH]; [done|]. cbn [map firewall_check_connect].
  rewrite norm_type, IH. unfold norm. destruct (Z.eqb_spec (type r) FW_TYPE_BIND_ALLOW) as [->|]; done.
Qed.

Lemma rules_of_elem es r : r ∈ rules_of es <-> ERule r ∈ es.
Proof.
  unfold rules_of. rewrite list_elem_of_omap. split.
  - intros ([| |r'] & He & Hr); simplify_eq. done.
  - intros He. by exists (ERule r).
Qed.

Lemma loaded_policy_decides es fresh v :
  Forall entry_ok es -> sizes_ok v ->
  exists rules, firewall_init (Some (print_policy es)) fresh v [] = (Ret 0, rules)
    /\ (forall p a, u32 a -> firewall_check_connect rules p a = policy_connect p a es)
    /\ (forall p, firewall_check_bind rules p = true <-> policy_bind p es).
Proof.
  intros He Hv. exists (rev (map (norm fresh) (rules_of es))).
  split; [|split; [intros p a Hu|intros p]].
  - unfold firewall_init. exec. unfold mbind, M_bind, firewall_parse.
    pose proof (print_policy_length es).
    rewrite parse_policy_loop by (done || (unfold parse_fuel; lia)). cbn.
    by rewrite app_nil_r, loaded_norm.
  - rewrite <- map_rev, check_connect_norm. by apply check_connect_find.
  - rewrite check_bind_exists. unfold policy_bind. split.
    + intros (r & Hr & Ht & Hp). rewrite <- map_rev, list_elem_of_In, in_map_iff in Hr.
      destruct Hr as (r' & <- & Hr'). apply in_rev, list_elem_of_In, rules_of_elem in Hr'.
      exists r'. unfold covers_port in *. rewrite norm_type, norm_port in *. done.
    + intros (r & Hr & Ht & Hp). exists (norm fresh r).
      unfold covers_port in *. rewrite norm_type, norm_port. split; [|done].
      rewrite <- map_rev. apply list_elem_of_In, in_map, in_rev. rewrite rev_involutive.
      by apply list_elem_of_In, rules_of_elem.
Qed.

(** ** The address test *)

(** The address test of a connect rule and the network it names: for a
    rule whose address has no bits outside its mask, every address of the
    network matches; but the test as written matches exactly the addresses
    whose network part is a subset of the rule's bits, so it also matches
    addresses outside the network. *)
Theorem addr_match_exact r a :
  Z.land (ip r) (mask r) = ip r ->
  (Z.land a (mask r) = ip r -> addr_match r a = true)
  /\ (addr_match r a = true <-> Z.land (Z.land a (mask r)) (ip r) = Z.land a (mask r)).
Proof.
  intros Hr. unfold addr_match. rewrite Z.eqb_eq. split.
  - intros <-. by rewrite Z.land_assoc, Z.land_diag.
  - rewrite <- Z.land_assoc, (Z.land_comm (mask r)), Hr. done.
Qed.

(** 171.0.0.0/255.0.0.0 and the address 1.2.3.4. *)
Lemma addr_match_exact_witness :
  addr_match (FwRule FW_TYPE_CONNECT_ALLOW 0 171 255) 0x04030201 = true
  /\ Z.land 0x04030201 255 <> 171.
Proof.
  split; [|done].
  apply (addr_match_exact (FwRule FW_TYPE_CONNECT_ALLOW 0 171 255) 0x04030201); reflexivity.
Defined.

(** ** The shipped rule file (ufirewall/ufw.rules) *)

Definition ufw_rules : list Z :=
  bytes "allow bind 1234" ++ [10] ++ bytes "allow connect * 171.0.0.0 255.0.0.0" ++ [10]
  ++ bytes "deny connect 22 0.0.0.0 0.0.0.0" ++ [10; 10] ++ bytes "# default rules:" ++ [10]
  ++ bytes "#" ++ [10] ++ bytes "# deny bind *" ++ [10] ++ bytes "# deny connect * *" ++ [10].

Definition ufw_list (fresh : fw_rule) : list fw_rule :=
  [FwRule FW_TYPE_CONNECT_DENY 22 0 0; FwRule FW_TYPE_CONNECT_ALLOW 0 171 255;
   FwRule FW_TYPE_BIND_ALLOW 1234 (ip fresh) (mask fresh)].

Lemma ufw_parse fresh v :
  sizes_ok v -> firewall_init (Some ufw_rules) fresh v [] = (Ret 0, ufw_list fresh).
Proof.
  intros Hv. set (es := [ERule (FwRule 1 1234 0 0); ERule (FwRule 2 0 171 255); ERule (FwRule 3 22 0 0);
    EBlank; EComment (bytes " default rules:"); EComment []; EComment (bytes " deny bind *");
    EComment (bytes " deny connect * *")]).
  assert (He : Forall entry_ok es).
  { repeat (apply List.Forall_cons; [|]); try apply List.Forall_nil; cbn;
      try (split; [cbn; lia|]; repeat (constructor; [lia|]); constructor);
      try (unfold rule_ok, u16, u32; cbn; unfold FW_TYPE_BIND_ALLOW, FW_TYPE_CONNECT_ALLOW, FW_TYPE_CONNECT_DENY; lia). }
  unfold firewall_init. exec. unfold mbind, M_bind, firewall_parse.
  replace ufw_rules with (print_policy es) by (vm_compute; reflexivity).
  pose proof (print_policy_length es).
  rewrite parse_policy_loop; [reflexivity|exact He|exact Hv|unfold parse_fuel; lia].
Qed.

(** What the shipped rule file permits: binding to port 1234 and no other;
    no connection to port 22; and to every other port, the connections to the
    addresses whose first byte has no bit outside 171. These are the
    addresses of 171.0.0.0/8 that the file names, and 31 further networks,
    1.0.0.0/8 among them. *)
Theorem ufw_rules_decide fresh v :
  sizes_ok v ->
  exists rules, firewall_init (Some ufw_rules) fresh v [] = (Ret 0, rules)
  /\ (forall p, firewall_check_bind rules p = (1234 =? p))
  /\ (forall p a, firewall_check_connect rules p a
        = negb (22 =? p) && (Z.land (a mod 256) 171 =? a mod 256))
  /\ length (List.filter (fun b => Z.land b 171 =? b) (seqZ 0 256)) = 32%nat.
Proof.
  intros Hv. exists (ufw_list fresh). split; [by apply ufw_parse|]. split; [|split; [|reflexivity]].
  - intros p. change (firewall_check_bind (ufw_list fresh) p) with (if 1234 =? p then true else false).
    by destruct (1234 =? p).
  - intros p a. remember (22 =? p) as q eqn:Hq. unfold ufw_list. cbn [firewall_check_connect type Z.eqb FW_TYPE_CONNECT_DENY
      FW_TYPE_CONNECT_ALLOW FW_TYPE_BIND_ALLOW Pos.eqb andb].
    unfold addr_match, port_match; cbn [ip mask port]. rewrite Z.eqb_refl.
    replace (Z.land a 171) with (Z.land (Z.land a 255) 171) by (by rewrite <- Z.land_assoc).
    change 255 with (2 ^ 8 - 1). rewrite (land_ones_mod a 8) by lia. change (2 ^ 8) with 256.
    change (22 =? FW_PORT_ANY) with false. change (0 =? FW_PORT_ANY) with true.
    rewrite <- Hq. destruct q; [done|]. cbn [andb orb negb]. rewrite andb_true_r.
    by destruct (Z.land (a mod 256) 171 =? a mod 256).
Qed.

Lemma ufw_rules_decide_witness :
  exists rules, firewall_init (Some ufw_rules) demo_fresh demo_locals [] = (Ret 0, rules)
    /\ firewall_check_connect rules 80 0x090342ab = true      (* 171.66.3.9:80 *)
    /\ firewall_check_connect rules 22 0x0a0342ab = false     (* 171.66.3.10:22 *)
    /\ firewall_check_connect rules 80 0x04030201 = true      (* 1.2.3.4:80 *)
    /\ firewall_check_bind rules 4321 = false.
Proof.
  destruct (ufw_rules_decide demo_fresh demo_locals) as (rules & Hp & Hb & Hc & _); [done|].
  exists rules. split; [exact Hp|]. rewrite !Hc, Hb. repeat split; reflexivity.
Defined.

(** ** Through the sandbox *)

Section enforcement.
Context {W : Type} (P : platform W) (D : dune_abi) (DUNE : bool) (buf : list Z).

(** An IPv4 connection attempt, with the address in the memory of [s]. *)
Definition connects (tf : dune_tf) (s : sandbox W) (p a : Z) : Prop :=
  sysno_of (rax tf) = SYS_connect /\ wrap32 (arg2 tf) = sizeof_sockaddr_in
  /\ sin_family (memory P s) (arg1 tf) = AF_INET
  /\ ntohs (sin_port (memory P s) (arg1 tf)) = p /\ sin_addr (memory P s) (arg1 tf) = a.

(** An IPv4 bind. *)
Definition binds (tf : dune_tf) (s : sandbox W) (p : Z) : Prop :=
  sysno_of (rax tf) = SYS_bind /\ wrap32 (arg2 tf) = sizeof_sockaddr_in
  /\ sin_family (memory P s) (arg1 tf) = AF_INET
  /\ ntohs (sin_port (memory P s) (arg1 tf)) = p.

Lemma fw_status_connect rules tf s p a :
  connects tf s p a -> fw_status (memory P s) rules tf = if firewall_check_connect rules p a then 1 else 0.
Proof.
  intros (Hn & Hl & Hf & <- & <-). unfold fw_status, check_connect. rewrite Hn, Hl, Hf.
  destruct (firewall_check_connect _ _ _); reflexivity.
Qed.

Lemma fw_status_bind rules tf s p :
  binds tf s p -> fw_status (memory P s) rules tf = if firewall_check_bind rules p then 1 else 0.
Proof.
  intros (Hn & Hl & Hf & <-). unfold fw_status, check_bind. rewrite Hn, Hl, Hf.
  destruct (firewall_check_bind _ _); reflexivity.
Qed.

(** A frame the firewall refuses changes nothing but [rax]. *)
Lemma refused_no_effect rules tf s :
  sysno_of (rax tf) = SYS_connect \/ sysno_of (rax tf) = SYS_bind ->
  fw_status (memory P s) rules tf = 0 ->
  exists v, syscall_handler P D DUNE buf (Some (fw_monitor P rules)) tf s = (Ret (set_rax v tf), s).
Proof.
  intros Hn Hst. destruct (handler_cases P D DUNE buf (fw_monitor P rules) tf s)
    as [(v & Hv & _)|[[_ (Ha & _)]|(_ & _ & (v & Hv & Hnz) & _)]].
  - by exists v.
  - destruct Hn; congruence.
  - unfold fw_monitor in Hv. rewrite Hst in Hv. injection Hv as <- _. done.
Qed.

(** A connect or bind whose buffer is acceptable: the firewall's verdict is
    what happens. *)
Lemma handler_follows_status rules tf s :
  sysno_of (rax tf) = SYS_connect \/ sysno_of (rax tf) = SYS_bind ->
  check_extent D DUNE (arg1 tf) (arg2 tf) = 0 ->
  syscall_handler P D DUNE buf (Some (fw_monitor P rules)) tf s
  = if fw_status (memory P s) rules tf =? 0
    then (Ret (set_rax (ulong_of_int (- EPERM)) tf), s)
    else (Ret (set_rax (ulong_of_int (reply P (Passthrough tf) s)) tf), after P (Passthrough tf) s).
Proof.
  intros Hn Hx.
  assert (Hc : syscall_check_params D DUNE (memory P s) tf = Ret (0, tf)).
  { unfold syscall_check_params, syscall_switch, check_refs.
    destruct Hn as [-> | ->]; rewrite Hx, andb_false_r; reflexivity. }
  unfold syscall_handler. exec. rewrite Hc. unfold stop, mbind at 1, M_bind at 1. cbn [Z.eqb].
  unfold syscall_allow, fw_monitor, mbind at 1, M_bind at 1. cbv beta zeta.
  destruct (fw_status (memory P s) rules tf =? 0); [reflexivity|]. unfold syscall_do, needs_lock, syscall_do_foreal.
  destruct Hn as [-> | ->]; exec; change (truthy 0) with false; cbv iota; exec; reflexivity.
Qed.

Lemma load_word_range ld n a :
  (forall x, 0 <= ld x < 256) -> 0 <= load_word ld n a < 256 ^ Z.of_nat n.
Proof.
  intros Hl. revert a. induction n as [|n IH]; intros a; cbn [load_word]; [lia|].
  specialize (IH (wrap64 (a + 1))). specialize (Hl a).
  rewrite Nat2Z.inj_succ, Z.pow_succ_r by lia. lia.
Qed.

(** C4. The firewall enforces the rules of its file as the code reads them.
    Once the parser has loaded a file, a connect or bind with an IPv4 address
    of exactly 16 bytes is decided by it: for connect by the last line whose
    port is the one asked for or 0 and whose address covers the one asked for
    (each bit set in the address asked for is set in the line's address exactly
    when it is in its mask, which holds for the network the line names and for
    some others), and refused without one; for bind by the existence of a line
    with the port or with 0. What is refused ends in the handler with the
    machine exactly as it was and only the result register changed; what is
    allowed, with an acceptable buffer, is handed to the kernel unchanged. *)
Theorem firewall_enforces_policy `{!platform_ok P} es fresh v rules tf s p allowed :
  Forall entry_ok es -> sizes_ok v ->
  firewall_init (Some (print_policy es)) fresh v [] = (Ret 0, rules) ->
  (exists a, connects tf s p a /\ policy_connect p a es = allowed)
  \/ (binds tf s p /\ (allowed = true <-> policy_bind p es)) ->
  if allowed then
    check_extent D DUNE (arg1 tf) (arg2 tf) = 0 ->
    syscall_handler P D DUNE buf (Some (fw_monitor P rules)) tf s
    = (Ret (set_rax (ulong_of_int (reply P (Passthrough tf) s)) tf), after P (Passthrough tf) s)
  else
    exists r, syscall_handler P D DUNE buf (Some (fw_monitor P rules)) tf s = (Ret (set_rax r tf), s).
Proof.
  intros He Hv Hi Hcase.
  destruct (loaded_policy_decides es fresh v He Hv) as (rules' & Hi' & Hc & Hb).
  rewrite Hi in Hi'. injection Hi' as <-.
  assert (Hst : fw_status (memory P s) rules tf = if allowed then 1 else 0).
  { destruct Hcase as [(a & Hcon & <-)|(Hbind & Hp)].
    - rewrite (fw_status_connect _ _ _ _ _ Hcon), Hc; [done|]. destruct Hcon as (_ & _ & _ & _ & <-).
      apply (load_word_range _ 4). intros x. apply pf_byte.
    - rewrite (fw_status_bind _ _ _ _ Hbind). rewrite <- Hb in Hp.
      by destruct (firewall_check_bind rules p), allowed; try tauto; naive_solver. }
  assert (Hn : sysno_of (rax tf) = SYS_connect \/ sysno_of (rax tf) = SYS_bind)
    by (destruct Hcase as [(a & (? & _) & _)|((? & _) & _)]; auto).
  destruct allowed; [intros Hx; by rewrite handler_follows_status, Hst|by apply (refused_no_effect rules)].
Qed.

(** The firewall looks only at addresses of exactly 16 bytes: a connect or
    bind whose length is anything else is passed to the kernel whatever the
    rules are, as soon as its buffer lies in the application's memory; the
    kernel accepts longer buffers for an IPv4 address. *)
Theorem other_lengths_pass rules tf s :
  sysno_of (rax tf) = SYS_connect \/ sysno_of (rax tf) = SYS_bind ->
  wrap32 (arg2 tf) <> sizeof_sockaddr_in ->
  check_extent D DUNE (arg1 tf) (arg2 tf) = 0 ->
  syscall_handler P D DUNE buf (Some (fw_monitor P rules)) tf s
  = (Ret (set_rax (ulong_of_int (reply P (Passthrough tf) s)) tf), after P (Passthrough tf) s).
Proof.
  intros Hn Hl Hx. rewrite handler_follows_status by done.
  replace (fw_status (memory P s) rules tf) with 1; [done|].
  unfold fw_status, check_connect, check_bind. apply Z.eqb_neq in Hl.
  by destruct Hn as [-> | ->]; rewrite Hl.
Qed.
End enforcement.

(** A memory with the address 8.8.8.8:53 at 0x10000, and the calls
    connect(3, 0x10000, 16) and connect(3, 0x10000, 17). *)
Definition demo_memory : sandbox (Z -> Z) :=
  Sandbox 0 0 0 (fun x => nth (Z.to_nat (x - 0x10000)) [2; 0; 0; 53; 8; 8; 8; 8] 0) [].
Definition connect_frame (len : Z) : dune_tf := frame 42 3 0x10000 len.

Lemma firewall_enforces_policy_witness :
  connects obliging (connect_frame 16) demo_memory 53 0x08080808
  /\ exists r, syscall_handler obliging dune_x86 true [] (Some (fw_monitor obliging [demo_rule]))
         (connect_frame 16) demo_memory = (Ret (set_rax r (connect_frame 16)), demo_memory).
Proof.
  split; [done|].
  apply (firewall_enforces_policy obliging dune_x86 true [] [ERule demo_rule] demo_fresh demo_locals
           [demo_rule] (connect_frame 16) demo_memory 53 false);
    [apply List.Forall_cons; [exact demo_rule_ok|apply List.Forall_nil]|done|vm_compute; reflexivity|].
  left. exists 0x08080808. done.
Defined.

Lemma other_lengths_pass_witness :
  syscall_handler obliging dune_x86 true [] (Some (fw_monitor obliging [])) (connect_frame 17) demo_memory
  = (Ret (set_rax 0 (connect_frame 17)), after obliging (Passthrough (connect_frame 17)) demo_memory).
Proof.
  apply (other_lengths_pass obliging dune_x86 true [] [] (connect_frame 17) demo_memory);
    [left; done|done|done].
Defined.
