(* ===== verification/Apps.v ===== *)
(** The two programs built on the sandbox: the plain sandbox
    (sandbox/src/nullsandbox.c) and the firewall (ufirewall/src/firewall.c).
    Each registers its policy and calls [boxer_main]. The state of a program is
    the sandbox with the variable [_syscall_monitor] of trap.c, which the
    registration writes and the system-call handler reads, for every system
    call of the application that [boxer_main] starts. *)

From stdpp Require Import base numbers list option.
From S2P Require Import Prelude Platform AddrSpace Trap TrapProps Loader LoaderProps CString Firewall.
From S2P Require Import FirewallParse FirewallProps.

Section apps.
Context {W : Type} (P : platform W) (D : dune_abi) (E : elf_lib W) (DUNE : bool) (buf : list Z).
Abbreviation C := (M (sandbox W)).

Record app := App { a_box : sandbox W; a_monitor : option (monitor W) }.

Abbreviation A := (M app).

Definition on_box {T} (c : C T) : A T := fun a =>
  let '(o, s) := c (a_box a) in (o, App s (a_monitor a)).

Definition register (cb : option (monitor W)) : A unit :=
  modify (fun a => App (a_box a) (boxer_register_syscall_monitor cb)).

(** The application, as the system calls it makes: each enters the handler,
    which consults the policy registered at that time. *)
Fixpoint app_syscalls (calls : list dune_tf) : A unit :=
  match calls with
  | [] => mret tt
  | tf :: calls =>
      mon ← gets a_monitor;
      _ ← on_box (syscall_handler P D DUNE buf mon tf);
      app_syscalls calls
  end.

(** The last of the calls entered the application. *)
Definition jumped (l : list (oscall * Z)) : bool :=
  match rev l with (JumpToUser _, _) :: _ => true | _ => false end.

(** boxer_main with the application it starts, if it does. *)
Definition run_boxer (calls : list dune_tf) (argc argv environ : Z) : A Z :=
  before ← gets (fun a => length (trace (a_box a)));
  r ← on_box (boxer_main P D E argc argv environ);
  l ← gets (fun a => drop before (trace (a_box a)));
  _ ← (if jumped l then app_syscalls calls else mret tt);
  mret r.

(** main of nullsandbox.c *)
Definition null_main (calls : list dune_tf) (argc argv environ : Z) : A Z :=
  _ ← register (Some null_monitor);
  run_boxer calls argc argv environ.

(** main of firewall.c, for the contents of the rule file and of the memory
    its parser does not initialise. *)
Definition fw_main (file : option (list Z)) (fresh : fw_rule) (v : locals) (calls : list dune_tf)
    (argc argv environ : Z) : A Z :=
  match firewall_init file fresh v [] with
  | (Ret r, rules) =>
      if negb (r =? 0) then mret 1
      else
        _ ← register (Some (fw_monitor P rules));
        run_boxer calls argc argv environ
  | _ => stop UB
  end.

(** ** The specification: one policy for the whole run *)

(** The application's calls under a fixed policy, and the program with it. *)
Fixpoint served (cb : monitor W) (calls : list dune_tf) : C unit :=
  match calls with
  | [] => mret tt
  | tf :: calls => _ ← syscall_handler P D DUNE buf (Some cb) tf; served cb calls
  end.

Definition guarded_by (cb : monitor W) (calls : list dune_tf) (argc argv environ : Z) : C Z :=
  before ← gets (fun s => length (trace s));
  r ← boxer_main P D E argc argv environ;
  l ← gets (fun s => drop before (trace s));
  _ ← (if jumped l then served cb calls else mret tt);
  mret r.

Lemma app_syscalls_served cb calls s :
  app_syscalls calls (App s (Some cb)) = on_box (served cb calls) (App s (Some cb)).
Proof.
  revert s; induction calls as [|tf calls IH]; intros s; [done|]. cbn [app_syscalls served]. rewrite bind_gets.
  unfold on_box at 1, mbind, M_bind. cbn [a_box a_monitor]. unfold on_box. cbn [a_box a_monitor].
  destruct (syscall_handler P D DUNE buf (Some cb) tf s) as [[tf'| | | |] s']; [apply IH|done..].
Qed.

(** With its policy in place, the program is the one of the specification,
    and the policy stays. *)
Lemma run_boxer_guarded cb calls argc argv environ s :
  run_boxer calls argc argv environ (App s (Some cb))
  = on_box (guarded_by cb calls argc argv environ) (App s (Some cb)).
Proof.
  unfold run_boxer, guarded_by. rewrite bind_gets. unfold on_box, gets, get, mbind, M_bind. cbn [a_box a_monitor].
  destruct (boxer_main P D E argc argv environ s) as [[r| | | |] s1]; try done. cbn.
  destruct (jumped _); [|done]. rewrite app_syscalls_served. unfold on_box. cbn.
  by destruct (served cb calls s1) as [[u| | | |] s2].
Qed.

Context (phs : Z -> list elf_phdr) `{!elf_lib_ok E phs}.

(** What a program passes through: only calls its policy allowed. *)
Lemma served_passes cb `{!MonitorOk cb} calls s t r :
  (Passthrough t, r) ∈ trace (served cb calls s).2 ->
  (Passthrough t, r) ∈ trace s \/ t ∈ calls /\ exists s0, allows cb t s0.
Proof.
  revert s; induction calls as [|tf calls IH]; intros s Hin; [by left|]. cbn [served] in Hin.
  unfold mbind, M_bind in Hin.
  destruct (syscall_handler P D DUNE buf (Some cb) tf s) as [o s1] eqn:Hh.
  assert (H1 : (Passthrough t, r) ∈ trace s1 ->
    (Passthrough t, r) ∈ trace s \/ t ∈ tf :: calls /\ exists s0, allows cb t s0).
  { intros H. destruct (handler_passthrough P D DUNE buf cb tf s o s1 t r Hh H) as [?|(-> & _ & Ha & _)]; [by left|].
    right. split; [apply list_elem_of_here|by exists s]. }
  destruct o as [tf'| | | |]; try (by apply H1).
  destruct (IH s1 Hin) as [H|[H Ha]]; [by apply H1|]. right. split; [by apply list_elem_of_further|done].
Qed.

Lemma guarded_by_passes cb `{!MonitorOk cb} calls argc argv environ s t r :
  (Passthrough t, r) ∈ trace (guarded_by cb calls argc argv environ s).2 ->
  (Passthrough t, r) ∈ trace s \/ t ∈ calls /\ exists s0, allows cb t s0.
Proof.
  unfold guarded_by. rewrite bind_gets. unfold gets, get, mbind, M_bind.
  destruct (boxer_main P D E argc argv environ s) as [o s1] eqn:Hb.
  assert (H1 : (Passthrough t, r) ∈ trace s1 -> (Passthrough t, r) ∈ trace s).
  { intros H. destruct (emits_In _ _ s o s1 _ (emits_boxer_main P D E phs argc argv environ) Hb H) as [?|[]]. done. }
  destruct o as [v| | | |]; cbn; try (by auto).
  destruct (jumped _); cbn; [|by auto].
  pose proof (served_passes cb calls s1 t r) as H2.
  destruct (served cb calls s1) as [[u| | | |] s2]; cbn in *; intros H; destruct (H2 H) as [?|?]; auto.
Qed.

(** C39. The firewall fails closed. One of three things happens. The rule file
    is read to its end: then the rules it holds are the policy in place from
    before the application starts, for every system call it makes, and the only
    calls passed through to the kernel in that run are calls of the application
    that this policy allows. Or the parser refuses the file: then the program
    ends with status 1 and nothing was called, started or registered. Or the
    parser runs into its undefined access before anything was called. A file
    that cannot be opened and a file with an unknown line after any
    well-formed lines are refused. *)
Theorem fw_main_fails_closed file fresh v calls argc argv environ a :
  let run := fw_main file fresh v calls argc argv environ a in
  ((exists rules, firewall_parse file fresh v [] = (Ret 0, rules)
      /\ run = on_box (guarded_by (fw_monitor P rules) calls argc argv environ)
                 (App (a_box a) (Some (fw_monitor P rules)))
      /\ forall t r, (Passthrough t, r) ∈ trace (a_box run.2) ->
           (Passthrough t, r) ∈ trace (a_box a)
           \/ t ∈ calls /\ exists s0, allows (fw_monitor P rules) t s0)
   \/ (exists rules, firewall_parse file fresh v [] = (Ret (-1), rules) /\ run = (Ret 1, a))
   \/ (exists rules, firewall_parse file fresh v [] = (UB, rules) /\ run = (UB, a)))
  /\ (file = None -> run = (Ret 1, a))
  /\ (forall es l rest, file = Some (print_policy es ++ l ++ 10 :: rest) ->
        Forall entry_ok es -> unknown_line l -> sizes_ok v -> run = (Ret 1, a)).
Proof.
  cbn zeta. destruct (parse_ends file fresh v []) as (o & new & Hp & Ho).
  assert (Hi : firewall_init file fresh v [] = (o, new ++ [])).
  { unfold firewall_init. exec. unfold mbind, M_bind. rewrite Hp. by destruct Ho as [->|[->| ->]]. }
  assert (Hrefused : o = Ret (-1) -> fw_main file fresh v calls argc argv environ a = (Ret 1, a)).
  { intros ->. unfold fw_main. by rewrite Hi. }
  split; [|split].
  - rewrite Hp. destruct Ho as [->|[->| ->]].
    + left. exists (new ++ []). split; [done|]. set (cb := fw_monitor P (new ++ [])).
      assert (Hrun : fw_main file fresh v calls argc argv environ a
                     = on_box (guarded_by cb calls argc argv environ) (App (a_box a) (Some cb))).
      { unfold fw_main. rewrite Hi. cbn [Z.eqb negb]. unfold register. rewrite bind_modify. apply run_boxer_guarded. }
      split; [done|]. intros t r. rewrite Hrun. unfold on_box. cbn [a_box a_monitor].
      pose proof (guarded_by_passes cb calls argc argv environ (a_box a) t r) as Hg.
      by destruct (guarded_by cb calls argc argv environ (a_box a)) as [o' s'].
    + right. left. eexists. split; [reflexivity|]. by apply Hrefused.
    + right. right. eexists. split; [reflexivity|]. unfold fw_main. by rewrite Hi.
  - intros ->. cbn in Hp. injection Hp as <- _. by apply Hrefused.
  - intros es l rest -> He Hl Hv. destruct (unknown_line_refused es l rest fresh v [] He Hv Hl) as (rules & Hr).
    rewrite Hr in Hp. injection Hp as <- _. by apply Hrefused.
Qed.
End apps.

Arguments App {W}.

(** A rule file whose second line, [deny], is no rule. *)
Lemma fw_main_fails_closed_witness :
  let file := print_policy [ERule demo_rule] ++ [100; 101; 110; 121] ++ 10 :: [] in
  fw_main obliging dune_x86 demo_elf true [] (Some file) demo_fresh demo_locals [write_frame] 2 0x2000 0x3000
    (App (demo_launch long_path) None) = (Ret 1, App (demo_launch long_path) None).
Proof.
  intros file.
  destruct (fw_main_fails_closed obliging dune_x86 demo_elf true [] (fun _ => [demo_ph]) (Some file) demo_fresh
              demo_locals [write_frame] 2 0x2000 0x3000 (App (demo_launch long_path) None)) as (_ & _ & H).
  apply (H [ERule demo_rule] [100; 101; 110; 121] []); [reflexivity| | |repeat split].
  - constructor; [exact demo_rule_ok|constructor].
  - split; [discriminate|]. split; [cbn; lia|]. split; [repeat constructor; lia|].
    intros kw Hin Hp. repeat (apply elem_of_cons in Hin as [->|Hin];
      [revert Hp; apply (bool_decide_unpack _); reflexivity|]). inversion Hin.
Defined.
