(* ===== verification/Httpd.v ===== *)
(** The web server of Wedge (wedge/src/httpd.c): one request handler,
    [do_handle_dude], run for each connection in one of four ways: directly,
    in a thread, in a child process, or in an sthread with a policy.

    The kernel is a parameter that answers each call with a return value and
    the bytes a read delivers; the uninitialised contents of the buffer are
    an argument. The sthread functions are reached through the class
    [sthreads], whose instance is the model of sthread.c. Messages are not
    modelled. *)

From stdpp Require Import base numbers list option strings.
From S2P Require Import Prelude Platform CString Policy Sthread.

(** ** The interface of sthread.h the programs of Wedge use *)

Class sthreads := {
  sthread_init_op : K Z;
  sthread_create_op : sc_t -> Z -> Z -> K (Z * Z);
  sthread_join_op : Z -> K (option (Z * Z));
}.

(** sthread.c as an instance, for the memory map of the process, the address
    of the trampoline and the number of turns a join waits. *)
Section wedge.
Context (D : dune_abi) (CONFIG_DUNE_BOOT : bool).
Context (dune_vm_page_walk : walker) (dune_vm_clone : pagetable -> pagetable) (dune_va_to_pa : Z -> Z).
Context (sizeof_kstate sizeof_sthread : Z).
Context (oracle : list (kcall * Z) -> kcall -> Z) (run_user : pt_regs -> kern -> kern).
Context (perm maps : list Z) (trampoline : Z) (turns : nat).

Definition wedge_sthreads : sthreads := {|
  sthread_init_op := sthread_init sizeof_kstate oracle perm maps;
  sthread_create_op := sthread_create D dune_vm_page_walk dune_vm_clone dune_va_to_pa sizeof_sthread
                         oracle run_user trampoline;
  sthread_join_op := sthread_join oracle run_user turns;
|}.
End wedge.

(** ** Calls *)

Inductive hcall : Type :=
  | HRead (fd len : Z)
  | HWrite (fd : Z) (data : list Z)
  | HOpen (path : list Z) (flags : Z)
  | HClose (fd : Z)
  | HPthreadCreate
  | HPthreadJoin
  | HFork
  | HWait
  | HSocket
  | HSetReuse (s : Z)
  | HBind (s port : Z)
  | HListen (s backlog : Z)
  | HAccept (s : Z).

#[export] Instance hcall_eq_dec : EqDecision hcall.
Proof. solve_decision. Defined.

(** A call with its return value and the bytes it delivered. *)
Record event := Event { e_call : hcall; e_ret : Z; e_data : list Z }.

Record httpd (W : Type) := Httpd { h_world : W; h_trace : list event; h_kern : kern }.
Global Arguments Httpd {W} _ _ _.
Global Arguments h_world {W} _.
Global Arguments h_trace {W} _.
Global Arguments h_kern {W} _.

(** The kernel answers a call with a return value, the bytes delivered and its
    new state. *)
Definition kernel (W : Type) : Type := hcall -> W -> Z * list Z * W.

(** Return values are those of the C functions, -1 or a nonnegative number;
    read(2) fails with -1 or delivers as many bytes as it returns, at most as
    many as were asked for. *)
Class kernel_ok {W} (os : kernel W) : Prop := {
  os_ret c w : -1 <= (os c w).1.1 < 2 ^ 31;
  os_read fd len w : 0 <= len -> let '(r, d, _) := os (HRead fd len) w in
                     r = -1 /\ d = [] \/ r = Z.of_nat (length d) /\ r <= len;
}.

(** ** C strings in a buffer *)

(** strchr on an array: the index; [UB] when neither the character nor the
    NUL is in it. *)
Fixpoint strchr (buf : list Z) (c : Z) : outcome (option nat) :=
  match buf with
  | [] => UB
  | x :: buf =>
      if x =? c then Ret (Some O)
      else if x =? 0 then Ret None
      else match strchr buf c with
           | Ret r => Ret (S <$> r)
           | _ => UB
           end
  end.

(** buf[i] = 0 *)
Definition put_nul (buf : list Z) (i : nat) : outcome (list Z) :=
  if (i <? length buf)%nat then Ret (<[i := 0]> buf) else UB.

(** p = strchr(buf, c); if (p) *p = 0; *)
Definition cut_at (buf : list Z) (c : Z) : outcome (list Z) :=
  match strchr buf c with
  | Ret (Some i) => put_nul buf i
  | Ret None => Ret buf
  | _ => UB
  end.

Definition GET : list Z := Eval cbv in bytes "GET / HTTP/".
Definition NL : string := String.String (Ascii.ascii_of_nat 10) String.EmptyString.
Definition HEADER : list Z :=
  Eval cbv in bytes ("HTTP/1.0 200 OK" +:+ NL +:+ "Content-Type: text/html" +:+ NL +:+ NL).

Definition INDEX : list Z := Eval cbv in bytes "index.html".
Definition O_RDONLY : Z := 0.

Definition BUF_SIZE : Z := 4096.

Section httpd.
Context {W : Type} (os : kernel W) {ST : sthreads} (pthread_addr : Z).
Abbreviation H := (M (httpd W)).

Definition hext (c : hcall) : H (Z * list Z) := fun st =>
  let '(r, d, w) := os c (h_world st) in
  (Ret (r, d), Httpd w (h_trace st ++ [Event c r d]) (h_kern st)).

Definition hcall_ (c : hcall) : H Z := r ← hext c; mret r.1.

Definition hlift {A} (o : outcome A) : H A := stop o.

(** A call into sthread.c. *)
Definition hkern {A} (c : K A) : H A := fun st =>
  let '(o, k) := c (h_kern st) in (o, Httpd (h_world st) (h_trace st) k).

(** The bytes delivered at the start of the buffer. *)
Definition fill_buf (buf d : list Z) : list Z := take (length buf) (d ++ drop (length d) buf).

(** The loop that sends the file: [false] when the fuel is used up. *)
Fixpoint send_file (n : nat) (s fd : Z) (buf : list Z) : H bool :=
  match n with
  | O => mret false
  | S n =>
      a ← hext (HRead fd BUF_SIZE);
      let '(rc, d) := a in
      if 0 <? rc then
        let buf := fill_buf buf d in
        let out := take (Z.to_nat rc) buf in
        w ← hcall_ (HWrite s out);
        if negb (w =? rc) then _ ← hcall_ (HClose fd); mret true
        else send_file n s fd buf
      else
        _ ← hcall_ (HClose fd);
        mret true
  end.

Definition do_handle_dude (n : nat) (buf : list Z) (s : Z) : H bool :=
  a ← hext (HRead s (BUF_SIZE - 1));
  let '(rc, d) := a in
  if rc <=? 0 then mret true else
  let buf := fill_buf buf d in
  buf ← hlift (put_nul buf (Z.to_nat rc));
  buf ← hlift (cut_at buf 13);
  buf ← hlift (cut_at buf 10);
  if negb (starts_with GET (cstr buf)) then mret true else
  let buf := HEADER ++ 0 :: drop (S (length HEADER)) buf in
  let out := cstr buf in
  w ← hcall_ (HWrite s out);
  if negb (wrap64 w =? Z.of_nat (length out)) then mret true else
  fd ← hcall_ (HOpen INDEX O_RDONLY);
  if fd =? -1 then mret true else
  send_file n s fd buf.

(** The thread function: [s] is cut out of the pointer. *)
Definition pthread (n : nat) (buf : list Z) (arg : Z) : H bool := do_handle_dude n buf (to_int arg).

(** The policy of the sthread that serves a connection. *)
Definition dude_policy (s : Z) : outcome sc_t :=
  match sc_fd_add sc_init s (Z.lor PROT_READ PROT_WRITE) with
  | Ret sc =>
      match sc_sys_add sc SYS_open with
      | Ret sc => sc_sys_add sc SYS_close
      | o => o
      end
  | o => o
  end.

(** A joined thread has run to its end, and nothing else ran besides it. A
    child process does its work and exits; its parent waits. *)
Definition handle_dude (imp : Z) (n : nat) (buf : list Z) (s : Z) : H bool :=
  if imp =? 0 then do_handle_dude n buf s
  else if imp =? 1 then
    r ← hcall_ HPthreadCreate;
    if truthy r then stop (Exit 1) else
    b ← pthread n buf (wrap64 s);
    if negb b then mret false else
    r ← hcall_ HPthreadJoin;
    if truthy r then stop (Exit 1) else mret true
  else if imp =? 2 then
    pid ← hcall_ HFork;
    if pid =? 0 then
      b ← do_handle_dude n buf s;
      if negb b then mret false else stop (Exit 0)
    else _ ← hcall_ HWait; mret true
  else if imp =? 3 then
    sc ← hlift (dude_policy s);
    r ← (hkern (sthread_create_op sc pthread_addr (wrap64 s)) : H (Z * Z));
    if truthy r.1 then stop (Exit 1) else
    j ← hkern (sthread_join_op r.2);
    match j with
    | None => mret false
    | Some (rc, _) => if truthy rc then stop (Exit 1) else mret true
    end
  else mret true.

(** The accept loop of pwn, for at most [m] connections: [false] when the fuel
    is used up. *)
Fixpoint accept_loop (m : nat) (imp : Z) (n : nat) (buf : list Z) (s : Z) : H bool :=
  match m with
  | O => mret false
  | S m =>
      dude ← hcall_ (HAccept s);
      if dude =? -1 then stop (Exit 1) else
      b ← handle_dude imp n buf dude;
      if negb b then mret false else
      _ ← hcall_ (HClose dude);
      accept_loop m imp n buf s
  end.

Definition PORT : Z := 18880.

Definition pwn (m : nat) (imp : Z) (n : nat) (buf : list Z) : H bool :=
  s ← hcall_ HSocket;
  if s =? -1 then stop (Exit 1) else
  r ← hcall_ (HSetReuse s);
  if r =? -1 then stop (Exit 1) else
  r ← hcall_ (HBind s PORT);
  if r =? -1 then stop (Exit 1) else
  r ← hcall_ (HListen s 5);
  if r =? -1 then stop (Exit 1) else
  accept_loop m imp n buf s.

(** main, for the arguments after the name of the program. *)
Definition httpd_main (args : list (list Z)) (m n : nat) (buf : list Z) : H bool :=
  let imp := match args with a :: _ => atoi a | [] => 0 end in
  r ← (if imp =? 3 then hkern sthread_init_op else mret 0);
  if truthy r then stop (Exit 1) else
  pwn m imp n buf.
End httpd.
