(* ===== verification/HttpdProps.v ===== *)
(** What the web server of Wedge does on a connection: the calls it makes
    and the response it sends. *)

From stdpp Require Import base numbers list option strings.
From S2P Require Import Prelude Platform CString Policy PolicyProps Sthread Httpd.

(** ** Cutting a buffer at a character *)

(** The part of a text before the first [c]. *)
Fixpoint before (c : Z) (l : list Z) : list Z :=
  match l with
  | [] => []
  | x :: l => if x =? c then [] else x :: before c l
  end.

Lemma starts_with_before c p l :
  Forall (fun x => x <> c) p -> starts_with p (before c l) = starts_with p l.
Proof.
  intros Hp. revert l. induction Hp as [|x p Hx Hp IH]; intros l; [done|].
  destruct l as [|y l]; [done|]. cbn. destruct (Z.eqb_spec y c) as [->|Hy]; cbn.
  - by destruct (Z.eqb_spec x c).
  - by rewrite IH.
Qed.

Lemma cstr_before l : cstr l = before 0 l.
Proof. induction l as [|x l IH]; cbn; [done|]. by rewrite IH. Qed.

Lemma cstr_nul d l : cstr (d ++ 0 :: l) = cstr d.
Proof. induction d as [|x d IH]; cbn; [done|]. destruct (x =? 0); [done|]. by rewrite IH. Qed.

Lemma cut_at_cons x buf c buf' :
  x <> c -> x <> 0 -> cut_at buf c = Ret buf' -> cut_at (x :: buf) c = Ret (x :: buf').
Proof.
  intros Hc H0. unfold cut_at. cbn [strchr]. destruct (Z.eqb_spec x c); [done|].
  destruct (Z.eqb_spec x 0); [done|]. destruct (strchr buf c) as [[i|]| | | |]; try discriminate; cbn.
  - unfold put_nul. cbn [length]. change (S i <? S (length buf))%nat with (i <? length buf)%nat.
    destruct (i <? length buf)%nat; [|discriminate]. by intros [= <-].
  - by intros [= <-].
Qed.

(** In a buffer with a NUL the cut never leaves the buffer, and it shortens
    the string to what comes before the character. *)
Lemma cut_at_spec buf c :
  0 ∈ buf -> exists buf', cut_at buf c = Ret buf' /\ 0 ∈ buf' /\ cstr buf' = before c (cstr buf).
Proof.
  induction buf as [|x buf IH]; intros Hin; [by apply elem_of_nil in Hin|].
  destruct (decide (x = c)) as [->|Hc]; [|destruct (decide (x = 0)) as [->|H0]].
  - exists (0 :: buf). split; [unfold cut_at, put_nul; cbn; by rewrite Z.eqb_refl|].
    split; [apply list_elem_of_here|]. cbn. destruct (Z.eqb_spec c 0) as [|]; [done|]. cbn.
    by rewrite Z.eqb_refl.
  - exists (0 :: buf). split; [unfold cut_at; cbn [strchr]; by destruct (Z.eqb_spec 0 c)|].
    split; [apply list_elem_of_here|done].
  - apply elem_of_cons in Hin as [?|Hin]; [done|]. destruct (IH Hin) as (buf' & He & Hn & Hs).
    exists (x :: buf'). split; [by apply cut_at_cons|]. split; [by apply list_elem_of_further|].
    cbn. destruct (Z.eqb_spec x 0); [done|]. cbn. destruct (Z.eqb_spec x c); [done|]. by rewrite Hs.
Qed.

(** ** The calls of a connection *)

(** The loop over the file: the file is read in pieces, each is sent, and the
    descriptor is closed at the end, [true], or the fuel is used up. *)
Inductive copied (s fd : Z) : bool -> list event -> Prop :=
  | copied_fuel : copied s fd false []
  | copied_end r d r' d' :
      r <= 0 -> copied s fd true [Event (HRead fd BUF_SIZE) r d; Event (HClose fd) r' d']
  | copied_fail d w d' r' d'' :
      0 < Z.of_nat (length d) <= BUF_SIZE -> w <> Z.of_nat (length d) ->
      copied s fd true [Event (HRead fd BUF_SIZE) (Z.of_nat (length d)) d;
                        Event (HWrite s d) w d'; Event (HClose fd) r' d'']
  | copied_piece d d' b l :
      0 < Z.of_nat (length d) <= BUF_SIZE -> copied s fd b l ->
      copied s fd b (Event (HRead fd BUF_SIZE) (Z.of_nat (length d)) d
                     :: Event (HWrite s d) (Z.of_nat (length d)) d' :: l).

(** A connection: nothing is sent unless the request begins with [GET], and
    then the header before anything else. *)
Inductive session (s : Z) : bool -> list event -> Prop :=
  | session_eof r d : r <= 0 -> session s true [Event (HRead s (BUF_SIZE - 1)) r d]
  | session_other d :
      starts_with GET d = false -> session s true [Event (HRead s (BUF_SIZE - 1)) (Z.of_nat (length d)) d]
  | session_short d w d' :
      starts_with GET d = true -> w <> Z.of_nat (length HEADER) ->
      session s true [Event (HRead s (BUF_SIZE - 1)) (Z.of_nat (length d)) d; Event (HWrite s HEADER) w d']
  | session_no_index d d' d'' :
      starts_with GET d = true ->
      session s true [Event (HRead s (BUF_SIZE - 1)) (Z.of_nat (length d)) d;
                      Event (HWrite s HEADER) (Z.of_nat (length HEADER)) d'; Event (HOpen INDEX O_RDONLY) (-1) d'']
  | session_served d d' fd d'' b l :
      starts_with GET d = true -> fd <> -1 -> copied s fd b l ->
      session s b (Event (HRead s (BUF_SIZE - 1)) (Z.of_nat (length d)) d
                   :: Event (HWrite s HEADER) (Z.of_nat (length HEADER)) d'
                   :: Event (HOpen INDEX O_RDONLY) fd d'' :: l).

Section connection.
Context {W : Type} (os : kernel W) {Hos : kernel_ok os}.

(** The state after a call. *)
Definition step_to (c : hcall) (st : httpd W) : httpd W :=
  let '(r, d, w) := os c (h_world st) in Httpd w (h_trace st ++ [Event c r d]) (h_kern st).
Definition ret_of (c : hcall) (st : httpd W) : Z := (os c (h_world st)).1.1.
Definition data_of (c : hcall) (st : httpd W) : list Z := (os c (h_world st)).1.2.

Lemma bind_hext {B} c (k : Z * list Z -> M (httpd W) B) st :
  (hext os c ≫= k) st = k (ret_of c st, data_of c st) (step_to c st).
Proof. unfold mbind, M_bind, hext, ret_of, data_of, step_to. by destruct (os c (h_world st)) as [[r d] w]. Qed.

Lemma bind_hcall {B} c (k : Z -> M (httpd W) B) st :
  (hcall_ os c ≫= k) st = k (ret_of c st) (step_to c st).
Proof.
  unfold hcall_. rewrite bind_assoc, bind_hext. reflexivity.
Qed.

Lemma step_trace c st : h_trace (step_to c st) = h_trace st ++ [Event c (ret_of c st) (data_of c st)].
Proof. unfold step_to, ret_of, data_of. by destruct (os c (h_world st)) as [[r d] w]. Qed.

Lemma step_kern c st : h_kern (step_to c st) = h_kern st.
Proof. unfold step_to. by destruct (os c (h_world st)) as [[r d] w]. Qed.

Lemma read_value fd len st :
  0 <= len ->
  ret_of (HRead fd len) st = -1 /\ data_of (HRead fd len) st = []
  \/ ret_of (HRead fd len) st = Z.of_nat (length (data_of (HRead fd len) st))
     /\ Z.of_nat (length (data_of (HRead fd len) st)) <= len.
Proof.
  intros Hl. unfold ret_of, data_of. pose proof (os_read fd len (h_world st) Hl) as H.
  destruct (os (HRead fd len) (h_world st)) as [[r d] w]. cbn. destruct H as [H|[-> H]]; [by left|by right].
Qed.

Lemma read_fits fd len st : 0 <= len -> Z.of_nat (length (data_of (HRead fd len) st)) <= len.
Proof. intros Hl. destruct (read_value fd len st Hl) as [[_ ->]|[_ ?]]; cbn; lia. Qed.

Lemma read_positive fd len st :
  0 <= len -> 0 < ret_of (HRead fd len) st ->
  ret_of (HRead fd len) st = Z.of_nat (length (data_of (HRead fd len) st))
  /\ Z.of_nat (length (data_of (HRead fd len) st)) <= len.
Proof. intros Hl Hr. destruct (read_value fd len st Hl) as [[H _]|H]; [lia|done]. Qed.

(** What a read leaves in a buffer that is large enough. *)
Lemma fill_buf_spec buf d :
  (length d <= length buf)%nat -> fill_buf buf d = d ++ drop (length d) buf.
Proof.
  intros Hd. unfold fill_buf. apply take_ge. rewrite length_app, length_drop. lia.
Qed.

(** A computation that only appends to the trace, with what it appends. *)
Definition runs {A} (c : M (httpd W) A) (Q : A -> list event -> Prop) : Prop :=
  forall st, exists a st' l, c st = (Ret a, st') /\ h_trace st' = h_trace st ++ l
    /\ h_kern st' = h_kern st /\ Q a l.

Lemma runs_ret {A} (a : A) (Q : A -> list event -> Prop) : Q a [] -> runs (mret a) Q.
Proof. intros HQ st. exists a, st, []. by rewrite app_nil_r. Qed.

Lemma runs_hext {A} c (k : Z * list Z -> M (httpd W) A) (Q : A -> list event -> Prop) :
  (forall r d, (exists st, r = ret_of c st /\ d = data_of c st) ->
     runs (k (r, d)) (fun a l => Q a (Event c r d :: l))) ->
  runs (hext os c ≫= k) Q.
Proof.
  intros Hk st. rewrite bind_hext.
  destruct (Hk (ret_of c st) (data_of c st) ltac:(by exists st) (step_to c st)) as (a & st' & l & He & Ht & Hkn & HQ).
  exists a, st', (Event c (ret_of c st) (data_of c st) :: l). split; [done|].
  rewrite Ht, step_trace, <- app_assoc. split; [done|]. split; [|done]. by rewrite Hkn, step_kern.
Qed.

Lemma runs_hcall {A} c (k : Z -> M (httpd W) A) (Q : A -> list event -> Prop) :
  (forall r d, -1 <= r < 2 ^ 31 -> runs (k r) (fun a l => Q a (Event c r d :: l))) ->
  runs (hcall_ os c ≫= k) Q.
Proof.
  intros Hk st. unfold hcall_. rewrite bind_assoc. revert st. apply runs_hext.
  intros r d (st0 & -> & _) st. rewrite bind_ret_l. apply Hk. apply os_ret.
Qed.

Lemma send_file_runs n s fd buf :
  Z.of_nat (length buf) = BUF_SIZE -> runs (send_file os n s fd buf) (copied s fd).
Proof.
  revert buf. induction n as [|n IH]; intros buf Hb; [apply runs_ret; constructor|].
  cbn [send_file]. apply runs_hext. intros r d (st & -> & ->). cbn beta iota.
  destruct (Z.ltb_spec 0 (ret_of (HRead fd BUF_SIZE) st)) as [Hr|Hr].
  - destruct (read_positive fd BUF_SIZE st ltac:(done) Hr) as [He Hl]. rewrite He in *.
    set (d := data_of (HRead fd BUF_SIZE) st) in *.
    rewrite fill_buf_spec by lia. rewrite Nat2Z.id, take_app_length.
    apply runs_hcall. intros w d' _. destruct (Z.eqb_spec w (Z.of_nat (length d))) as [->|Hw]; cbn [negb].
    + intros st'. edestruct (IH (d ++ drop (length d) buf)) as (a & st'' & l & H1 & H2 & H3 & H4).
      { rewrite length_app, length_drop. lia. }
      exists a, st'', l. do 3 (split; [done|]). by constructor.
    + apply runs_hcall. intros r' d'' _. apply runs_ret. by constructor.
  - apply runs_hcall. intros r' d' _. apply runs_ret. by constructor.
Qed.

(** The request in the buffer: the three cuts stay inside it and do not
    change the answer to the test for [GET]. *)
Lemma request_line buf d :
  Z.of_nat (length buf) = BUF_SIZE -> Z.of_nat (length d) <= BUF_SIZE - 1 ->
  exists b1 b2 b3, put_nul (fill_buf buf d) (length d) = Ret b1 /\ cut_at b1 13 = Ret b2
    /\ cut_at b2 10 = Ret b3 /\ length b1 = length buf
    /\ starts_with GET (cstr b3) = starts_with GET d.
Proof.
  intros Hb Hd. assert (Hl : (length d < length buf)%nat) by lia.
  rewrite fill_buf_spec by lia. unfold put_nul.
  assert (Hlen : length (d ++ drop (length d) buf) = length buf)
    by (rewrite length_app, length_drop; lia).
  destruct (Nat.ltb_spec (length d) (length (d ++ drop (length d) buf))); [|lia].
  destruct (drop (length d) buf) as [|x rest] eqn:Hr.
  { apply (f_equal length) in Hr. rewrite length_drop in Hr. cbn in Hr. lia. }
  rewrite insert_app_r_alt, Nat.sub_diag by lia. cbn [insert list_insert].
  destruct (cut_at_spec (d ++ 0 :: rest) 13) as (b2 & H2 & Hn2 & Hs2);
    [apply elem_of_app; right; apply list_elem_of_here|].
  destruct (cut_at_spec b2 10 Hn2) as (b3 & H3 & _ & Hs3).
  exists (d ++ 0 :: rest), b2, b3. do 3 (split; [done|]).
  split; [rewrite <- Hlen, !length_app; done|].
  rewrite Hs3, Hs2, cstr_nul, cstr_before, !starts_with_before; [done|..];
    unfold GET; repeat (constructor; [discriminate|]); constructor.
Qed.

Lemma length_cut buf c buf' : cut_at buf c = Ret buf' -> length buf' = length buf.
Proof.
  unfold cut_at, put_nul. destruct (strchr buf c) as [[i|]| | | |]; try discriminate.
  - destruct (i <? length buf)%nat; [|discriminate]. intros [= <-]. by rewrite length_insert.
  - by intros [= <-].
Qed.

Lemma header_in_buf (l : list Z) : cstr (HEADER ++ 0 :: l) = HEADER.
Proof. reflexivity. Qed.

Lemma header_fits buf :
  Z.of_nat (length buf) = BUF_SIZE ->
  Z.of_nat (length (HEADER ++ 0 :: drop (S (length HEADER)) buf)) = BUF_SIZE.
Proof. unfold BUF_SIZE. intros H. rewrite length_app. cbn -[drop]. rewrite length_drop. lia. Qed.

(** The comparison of a return value with a size, as unsigned numbers. *)
Lemma wrap_ret w x : -1 <= w < 2 ^ 31 -> 0 <= x < 2 ^ 31 -> wrap64 w = x -> w = x.
Proof.
  intros Hw Hx. destruct (decide (w = -1)) as [->|]; [vm_compute (wrap64 (-1)); lia|].
  rewrite wrap64_small by mlia. done.
Qed.

(** C18. On every connection, whatever the kernel answers, the request handler
    returns without leaving its buffer and makes exactly the calls of
    [session]: it reads once; it sends nothing unless the bytes read begin
    with [GET / HTTP/]; it sends the header first, then every piece it reads
    from index.html as it was read, to the connection and nowhere else; and
    the file it opened is closed on every path, unless the fuel of the loop is
    used up, which the result [false] tells. *)
Theorem do_handle_dude_protocol n buf s :
  Z.of_nat (length buf) = BUF_SIZE -> runs (do_handle_dude os n buf s) (session s).
Proof.
  intros Hb. unfold do_handle_dude. apply runs_hext. intros r d (st & -> & ->). cbn beta iota.
  destruct (Z.leb_spec (ret_of (HRead s (BUF_SIZE - 1)) st) 0) as [Hr|Hr];
    [apply runs_ret; by constructor|].
  destruct (read_positive s (BUF_SIZE - 1) st ltac:(done) Hr) as [He Hl]. rewrite He.
  set (d := data_of (HRead s (BUF_SIZE - 1)) st) in *.
  destruct (request_line buf d Hb Hl) as (b1 & b2 & b3 & H1 & H2 & H3 & Hlen & Hg).
  rewrite Nat2Z.id. intros st0. unfold hlift. rewrite H1, bind_stop_ret, H2, bind_stop_ret, H3, bind_stop_ret.
  rewrite Hg. revert st0. destruct (starts_with GET d) eqn:Hd; cbn [negb];
    [|apply runs_ret; by constructor].
  rewrite header_in_buf. apply runs_hcall. intros w d' Hwr.
  destruct (Z.eqb_spec (wrap64 w) (Z.of_nat (length HEADER))) as [Hw|Hw]; cbn [negb].
  2:{ apply runs_ret. apply session_short; [done|]. intros ->. by apply Hw. }
  assert (w = Z.of_nat (length HEADER)) as ->.
  { apply wrap_ret; [done|cbn; lia|done]. }
  apply runs_hcall. intros fd d'' _. destruct (Z.eqb_spec fd (-1)) as [->|Hfd];
    [apply runs_ret; by constructor|].
  intros st0. edestruct (send_file_runs n s fd (HEADER ++ 0 :: drop (S (length HEADER)) b3))
    as (a & st1 & l & Hc & Ht & Hk & HQ).
  { apply header_fits. by rewrite (length_cut _ _ _ H3), (length_cut _ _ _ H2), Hlen. }
  exists a, st1, l. do 3 (split; [done|]). by constructor.
Qed.
End connection.

(** ** The response *)

(** What a list of calls sends to [s]. *)
Definition sent (s : Z) (l : list event) : list Z :=
  concat (map (fun e => match e_call e with
                        | HWrite s' d => if s' =? s then d else []
                        | _ => []
                        end) l).

(** A kernel that has index.html with its [content]: it opens it as [fd],
    reads deliver what is left of it piece by piece, and writes are complete.
    [left] is the part of the file that has not been read. *)
Class file_server {W} (os : kernel W) (fd : Z) (content : list Z) (left : W -> list Z) : Prop := {
  fs_open w : ret_of os (HOpen INDEX O_RDONLY) w = fd /\ left (h_world (step_to os (HOpen INDEX O_RDONLY) w)) = content;
  fs_fd : 0 <= fd;
  fs_read w len : 0 < len ->
    let d := data_of os (HRead fd len) w in
    ret_of os (HRead fd len) w = Z.of_nat (length d)
    /\ left (h_world w) = d ++ left (h_world (step_to os (HRead fd len) w))
    /\ (d = [] -> left (h_world w) = []);
  fs_write w s d : Z.of_nat (length d) <= BUF_SIZE ->
    ret_of os (HWrite s d) w = Z.of_nat (length d)
    /\ left (h_world (step_to os (HWrite s d) w)) = left (h_world w);
}.

Section serving.
Context {W : Type} (os : kernel W) {Hos : kernel_ok os}.
Context (fd : Z) (content : list Z) (left : W -> list Z) {Hfs : file_server os fd content left}.

Lemma sent_app s l l' : sent s (l ++ l') = sent s l ++ sent s l'.
Proof. unfold sent. by rewrite map_app, concat_app. Qed.

Lemma sent_write s d r x : sent s [Event (HWrite s d) r x] = d.
Proof. unfold sent. cbn. rewrite Z.eqb_refl. apply app_nil_r. Qed.

(** The loop ends after at most one turn more than the file has bytes, having
    sent all that was left of it. *)
Lemma send_file_all n s buf st :
  Z.of_nat (length buf) = BUF_SIZE -> (length (left (h_world st)) < n)%nat ->
  exists st' l, send_file os n s fd buf st = (Ret true, st') /\ h_trace st' = h_trace st ++ l
    /\ sent s l = left (h_world st).
Proof.
  revert buf st. induction n as [|n IH]; intros buf st Hb Hn; [lia|]. cbn [send_file].
  rewrite bind_hext. cbn beta iota.
  destruct (fs_read st BUF_SIZE ltac:(done)) as (Hr & Hleft & Hend).
  pose proof (read_fits os fd BUF_SIZE st ltac:(done)) as Hd.
  set (d := data_of os (HRead fd BUF_SIZE) st) in *. set (st1 := step_to os (HRead fd BUF_SIZE) st) in *.
  rewrite Hr. destruct (Z.ltb_spec 0 (Z.of_nat (length d))) as [Hpos|Hzero].
  - rewrite fill_buf_spec, Nat2Z.id, take_app_length by lia. rewrite bind_hcall.
    destruct (fs_write st1 s d Hd) as [Hw Hl]. rewrite Hw, Z.eqb_refl. cbn [negb].
    destruct (IH (d ++ drop (length d) buf) (step_to os (HWrite s d) st1)) as (st' & l & He & Ht & Hs).
    { rewrite length_app, length_drop. lia. }
    { rewrite Hl. rewrite Hleft, length_app in Hn. lia. }
    exists st', ([Event (HRead fd BUF_SIZE) (Z.of_nat (length d)) d;
                  Event (HWrite s d) (ret_of os (HWrite s d) st1) (data_of os (HWrite s d) st1)] ++ l).
    split; [done|]. split; [rewrite Ht; unfold st1; rewrite !step_trace, Hr, <- !app_assoc; reflexivity|].
    rewrite sent_app, Hs, Hl, Hleft. f_equal. unfold sent. cbn. by rewrite Z.eqb_refl, app_nil_r.
  - assert (d = []) as Hnil by (destruct d; [done|cbn in Hzero; lia]). rewrite bind_hcall.
    eexists _, [_; _]. split; [reflexivity|].
    split; [unfold st1; rewrite !step_trace, <- app_assoc; reflexivity|]. unfold sent. cbn. symmetry. by apply Hend.
Qed.

(** C20. A request is answered: when the bytes read from the connection begin
    with [GET / HTTP/] and the kernel serves index.html, the handler returns,
    for any fuel above the size of the file, and the response it has sent is
    the header followed by the whole file. *)
Theorem do_handle_dude_serves n buf s st req :
  Z.of_nat (length buf) = BUF_SIZE -> (length content < n)%nat ->
  data_of os (HRead s (BUF_SIZE - 1)) st = req -> starts_with GET req = true ->
  exists st' l, do_handle_dude os n buf s st = (Ret true, st') /\ h_trace st' = h_trace st ++ l
    /\ sent s l = HEADER ++ content.
Proof.
  intros Hb Hn Hreq Hget. unfold do_handle_dude. rewrite bind_hext. cbn beta iota.
  pose proof (read_value os s (BUF_SIZE - 1) st ltac:(done)) as Hv. rewrite Hreq in Hv |- *.
  destruct Hv as [[_ ->]|[Hr Hl]]; [discriminate Hget|]. rewrite Hr.
  destruct (Z.leb_spec (Z.of_nat (length req)) 0) as [H0|_];
    [destruct req; [discriminate Hget|cbn in H0; lia]|].
  destruct (request_line buf req Hb Hl) as (b1 & b2 & b3 & H1 & H2 & H3 & Hlen & Hg).
  rewrite Nat2Z.id. unfold hlift. rewrite H1, bind_stop_ret, H2, bind_stop_ret, H3, bind_stop_ret.
  rewrite Hg, Hget. cbn [negb]. rewrite header_in_buf, bind_hcall.
  set (st1 := step_to os (HRead s (BUF_SIZE - 1)) st). destruct (fs_write st1 s HEADER ltac:(done)) as [Hw _].
  rewrite Hw. change (wrap64 (Z.of_nat (length HEADER)) =? Z.of_nat (length HEADER)) with true. cbn [negb].
  rewrite bind_hcall. set (st2 := step_to os (HWrite s HEADER) st1).
  destruct (fs_open st2) as [Ho Hc]. pose proof (fs_fd (os := os)). rewrite Ho.
  destruct (Z.eqb_spec fd (-1)); [lia|].
  destruct (send_file_all n s (HEADER ++ 0 :: drop (S (length HEADER)) b3) (step_to os (HOpen INDEX O_RDONLY) st2))
    as (st' & l & He & Ht & Hs).
  { apply header_fits. by rewrite (length_cut _ _ _ H3), (length_cut _ _ _ H2), Hlen. }
  { by rewrite Hc. }
  exists st'. eexists ([_; _; _] ++ l). split; [exact He|].
  split; [rewrite Ht; unfold st2, st1; rewrite !step_trace, <- !app_assoc; reflexivity|].
  rewrite sent_app, Hs, Hc. f_equal. unfold sent. cbn [map e_call concat]. rewrite Z.eqb_refl.
  by rewrite app_nil_r.
Qed.
End serving.

(** ** A concrete kernel *)

(** The request on descriptor 4, index.html as descriptor 5, read by pieces of
    at most seven bytes; the state is the part of the file not yet read. *)
Definition demo_request : list Z := Eval cbv in bytes "GET / HTTP/1.0".
Definition demo_page : list Z := Eval cbv in bytes "<html>hello</html>".

Definition demo_os : kernel (list Z) := fun c w =>
  match c with
  | HRead fd len =>
      let n := Z.to_nat (Z.min 7 len) in
      if fd =? 4 then
        if len <? 14 then (-1, [], w) else (14, demo_request, w)
      else (Z.of_nat (length (take n w)), take n w, drop n w)
  | HWrite _ d => (if Z.of_nat (length d) <=? BUF_SIZE then Z.of_nat (length d) else -1, [], w)
  | HOpen _ _ => (5, [], demo_page)
  | _ => (0, [], w)
  end.

#[export] Instance demo_os_ok : kernel_ok demo_os.
Proof.
  split.
  - intros c w. destruct c as [fd len|fd d| | | | | | | | | | |]; try (unfold demo_os; cbn; lia).
    + unfold demo_os. destruct (fd =? 4); [destruct (len <? 14); cbn; lia|].
      cbn [fst]. rewrite length_take. lia.
    + unfold demo_os. cbn [fst]. unfold BUF_SIZE. destruct (Z.leb_spec (Z.of_nat (length d)) 4096); lia.
  - intros fd len w Hl. unfold demo_os. destruct (fd =? 4).
    + destruct (Z.ltb_spec len 14); [by left|right]. split; [done|lia].
    + right. split; [done|]. rewrite length_take. lia.
Qed.

#[export] Instance demo_file_server : file_server demo_os 5 demo_page id.
Proof.
  split.
  - intros w. split; reflexivity.
  - done.
  - intros w len Hl. unfold ret_of, data_of, step_to, demo_os. cbn [fst snd Z.eqb Pos.eqb h_world].
    split; [done|]. split; [symmetry; apply take_drop|]. intros Hd. unfold id.
    destruct (h_world w) as [|x l]; [done|]. destruct (Z.to_nat (Z.min 7 len)) eqn:E; [lia|discriminate Hd].
  - intros w s d Hd. unfold ret_of, step_to, demo_os. cbn [fst h_world].
    destruct (Z.leb_spec (Z.of_nat (length d)) BUF_SIZE); [done|lia].
Qed.

Definition demo_state : httpd (list Z) :=
  Httpd [] [] (Kern [] 0 0 [] 0 (-1) 0 [] None [] (fun _ => 0) []).

Lemma do_handle_dude_protocol_witness :
  Z.of_nat (length (replicate 4096 0)) = BUF_SIZE
  /\ exists b st' l, do_handle_dude demo_os 10 (replicate 4096 0) 4 demo_state = (Ret b, st')
       /\ h_trace st' = l /\ session 4 b l.
Proof.
  split; [reflexivity|].
  destruct (do_handle_dude_protocol demo_os 10 (replicate 4096 0) 4 ltac:(reflexivity) demo_state)
    as (b & st' & l & He & Ht & _ & Hs).
  exists b, st', l. split; [exact He|]. split; [exact Ht|exact Hs].
Defined.

Lemma do_handle_dude_serves_witness :
  exists st' l, do_handle_dude demo_os 20 (replicate 4096 0) 4 demo_state = (Ret true, st')
    /\ h_trace st' = l /\ sent 4 l = HEADER ++ demo_page.
Proof.
  apply (do_handle_dude_serves demo_os 5 demo_page id 20 (replicate 4096 0) 4 demo_state demo_request);
    [reflexivity|cbn; lia|reflexivity|reflexivity].
Defined.
