(* ===== verification/HttpdPolicy.v ===== *)
(** The policy of the sthread that serves a connection, against the
    system-call handler of sthread.c: the policy is the one the work needs, and
    the handler lets every call of every connection through, given the memory
    the calls name. *)

From stdpp Require Import base numbers list option strings.
From S2P Require Import Prelude Platform CString Stack Policy PolicyProps Sthread SthreadProps Mediation Httpd HttpdProps.

(** ** What the policy allows *)

(** The policy after a call: the handler adds the descriptors it opens. *)
Definition policy_after (sc : sc_t) (e : event) : outcome sc_t :=
  match e_call e with
  | HOpen _ _ => if 0 <=? e_ret e then sc_fd_add sc (e_ret e) (Z.lor PROT_READ PROT_WRITE) else Ret sc
  | _ => Ret sc
  end.

Definition may_use (sc : sc_t) (fd : Z) : Prop :=
  has_fd_perm sc fd PROT_READ = true /\ has_fd_perm sc fd PROT_WRITE = true.

Definition may_call (sc : sc_t) (n : Z) : Prop := exists v, can_do_sys sc n = Ret v /\ truthy v = true.

(** The policy allows the number and the descriptor of a call. *)
Definition allowed (sc : sc_t) (c : hcall) : Prop :=
  match c with
  | HRead fd _ => has_fd_perm sc fd PROT_READ = true
  | HWrite fd _ => has_fd_perm sc fd PROT_WRITE = true
  | HOpen path _ => may_call sc SYS_open /\ string_bytes path
  | HClose fd => may_call sc SYS_close /\ has_fd_perm sc fd PROT_WRITE = true
  | _ => False
  end.

(** ** The handler *)

Section policy.
Context (D : dune_abi) (CONFIG_DUNE_BOOT : bool).
Context (dune_vm_page_walk : walker).
Context (oracle : list (kcall * Z) -> kcall -> Z) (run_user : pt_regs -> kern -> kern).
Context `{!walker_ok dune_vm_page_walk}.

Abbreviation handler := (syscall_handler D CONFIG_DUNE_BOOT dune_vm_page_walk oracle run_user).
Abbreviation perform := (perform D dune_vm_page_walk oracle run_user).
Abbreviation mem_perm := (has_mem_perm D CONFIG_DUNE_BOOT dune_vm_page_walk).

(** The frame with which a call enters the handler, for the memory [m]. *)
Definition issues (m : Z -> Z) (c : hcall) (tf : pt_regs) : Prop :=
  let n := to_int (rrax tf) in
  match c with
  | HRead fd len => n = SYS_read /\ to_int (rrdi tf) = fd /\ rrdx tf = len
  | HWrite fd d =>
      n = SYS_write /\ to_int (rrdi tf) = fd /\ holds m (rrsi tf) d /\ rrdx tf = Z.of_nat (length d)
  | HOpen path flags =>
      n = SYS_open /\ holds m (rrdi tf) (path ++ [0]) /\ rrsi tf = flags
      /\ 0 <= rrdi tf /\ rrdi tf + Z.of_nat (length path) < 2 ^ 64
  | HClose fd => n = SYS_close /\ to_int (rrdi tf) = fd
  | _ => False
  end.

(** The memory a call hands to the kernel, and the frame with its pointer
    replaced by [v]. *)
Definition argument (c : hcall) (tf : pt_regs) : option (Z * Z) :=
  match c with
  | HRead _ _ | HWrite _ _ => Some (rrsi tf, rrdx tf)
  | HOpen path _ => Some (rrdi tf, Z.of_nat (length path))
  | _ => None
  end.

Definition replaced (c : hcall) (tf : pt_regs) (v : Z) : pt_regs :=
  match c with HOpen _ _ => set_rrdi v tf | _ => set_rrsi v tf end.

(** The pages of the range are present, writable and open to the sthread. *)
Definition pages_open (s : sthread) (ptr len : Z) : Prop :=
  Forall (fun e => align_down 4096 ptr <= e.1 <= wrap64 (ptr + len) ->
            has_bits e.2 (PTE_U D) = true /\ has_bits e.2 (PTE_P D) = true
            /\ has_bits e.2 (PTE_W D) = true) (st_pgroot s).

(** The memory of a call is open to the sthread, and the walk address that the
    handler asserts is not 0. *)
Definition memory_ok (s : sthread) (c : hcall) (tf : pt_regs) : Prop :=
  forall ptr len, argument c tf = Some (ptr, len) -> st_walk s <> 0 /\ pages_open s ptr len.

(** The handler lets a call of an sthread with the policy [sc] through: it
    performs the call, on the frame whose pointer, if it has one, is replaced
    by the address of the page found; and a call of open the kernel answers
    with [e_ret e] returns that to the sthread, which then has the policy
    [sc']. *)
Definition let_through (sc : sc_t) (e : event) (sc' : sc_t) : Prop :=
  let c := e_call e in
  forall k cur s tf, k_current k = Some cur -> find_st k cur = Some s -> st_sc s = sc ->
    issues (k_mem k) c tf -> memory_ok s c tf ->
    exists tf1 s1 k1, k_log k1 = k_log k /\ find_st k1 cur = Some s1 /\ st_sc s1 = sc
      /\ tf1 = match argument c tf with
               | Some (ptr, _) => replaced c tf (wrap64 (st_walk s1 + Z.land ptr 0xfff))
               | None => tf
               end
      /\ handler tf k = perform cur (to_int (rrax tf)) tf1 k1
      /\ match c with
         | HOpen _ _ =>
             to_int (oracle (k_log k) (KOpen (rrdi tf1) (rrsi tf1) (rrdx tf1) (rarg3 tf1))) = e_ret e ->
             exists k' s', handler tf k = (Ret (set_rrax (wrap64 (e_ret e)) tf1), k')
               /\ find_st k' cur = Some s' /\ st_sc s' = sc'
         | HRead _ _ | HWrite _ _ | HClose _ => sc' = sc
         | _ => False
         end.

(** A list of calls, one after the other. *)
Fixpoint passes (sc : sc_t) (l : list event) : Prop :=
  match l with
  | [] => True
  | e :: l => exists sc', policy_after sc e = Ret sc' /\ let_through sc e sc' /\ passes sc' l
  end.

(** The memory check accepts open pages. *)
Lemma walk_check_open lo hi pt w :
  Forall (fun e => align_down 4096 lo <= e.1 <= hi ->
            has_bits e.2 (PTE_U D) = true /\ has_bits e.2 (PTE_P D) = true
            /\ has_bits e.2 (PTE_W D) = true) pt ->
  (walk_entries (walk_check_perm D CONFIG_DUNE_BOOT) lo hi pt w).1.1 = 0.
Proof.
  intros Hall. revert w. induction Hall as [|[va pte] pt Hx Hall IH]; intros w; [done|]. cbn [walk_entries].
  assert (Hnext : forall w' pte', (let '(rc, pt', st') := walk_entries (walk_check_perm D CONFIG_DUNE_BOOT) lo hi pt w'
                                   in (rc, (va, pte') :: pt', st')).1.1 = 0).
  { intros w' pte'. specialize (IH w'). by destruct (walk_entries _ lo hi pt w') as [[rc pt'] st']. }
  destruct (Z.leb_spec (align_down 4096 lo) va), (Z.leb_spec va hi); cbn [andb]; try apply Hnext.
  destruct Hx as (HU & HP & HW); [cbn; lia|]. cbn in HU, HP, HW. unfold walk_check_perm at 1. rewrite HU, HP, HW. cbn [negb].
  destruct (w =? 0); cbn [Z.eqb]; apply Hnext.
Qed.

Lemma mem_perm_open s ptr len : pages_open s ptr len -> (mem_perm s ptr len).1 = true.
Proof.
  intros Ho. unfold has_mem_perm. rewrite walk_spec.
  pose proof (walk_check_open ptr (wrap64 (ptr + len)) (st_pgroot s) 0 Ho) as Hw.
  destruct (walk_entries _ _ _ _ _) as [[rc pt] w]. cbn in *. by rewrite Hw.
Qed.

Lemma mem_check_path m path flags tf :
  holds m (rrdi tf) (path ++ [0]) -> string_bytes path -> 0 <= rrdi tf ->
  rrdi tf + Z.of_nat (length path) < 2 ^ 64 ->
  mem_check m SYS_open tf = Some (rrdi tf, Some (Z.of_nat (length path)), replaced (HOpen path flags) tf).
Proof.
  intros Hh Hs H0 Hr. unfold mem_check. rewrite Z.eqb_refl.
  rewrite (memchr_string m (rrdi tf) path Hh Hs H0 Hr). cbn [fmap option_fmap option_map].
  replace (rrdi tf + Z.of_nat (length path) - rrdi tf) with (Z.of_nat (length path)) by lia.
  rewrite wrap64_small by mlia. reflexivity.
Qed.

(** The handler's own view of the calls: the number, the descriptor check and
    the memory check. *)
Lemma issues_checks sc m c tf :
  allowed sc c -> issues m c tf ->
  (exists v, can_do_sys sc (to_int (rrax tf)) = Ret v /\ v <> 0)
  /\ (forall perm fd, fd_check (to_int (rrax tf)) tf = Some (perm, fd) -> has_fd_perm sc fd perm = true)
  /\ mem_check m (to_int (rrax tf)) tf
     = match argument c tf with Some (ptr, len) => Some (ptr, Some len, replaced c tf) | None => None end.
Proof.
  assert (Hcall : forall n, may_call sc n -> exists v, can_do_sys sc n = Ret v /\ v <> 0).
  { intros n (v & Hv & Ht). exists v. split; [done|]. intros ->. discriminate Ht. }
  destruct c as [fd len|fd d|path flags|fd| | | | | | | | |]; try done; cbn [allowed].
  - intros Ha (-> & <- & _). split; [by exists 1|]. split; [intros perm fd [= <- <-]; done|done].
  - intros Ha (-> & <- & _). split; [by exists 1|]. split; [intros perm fd [= <- <-]; done|done].
  - intros [Ha Hs] (-> & Hh & _ & H0 & Hr). split; [by apply Hcall|]. split; [done|].
    by apply mem_check_path.
  - intros [Ha Hf] (-> & <-). split; [by apply Hcall|]. split; [intros perm fd [= <- <-]; done|done].
Qed.

Lemma find_st_id k id s : find_st k id = Some s -> st_id s = id.
Proof. intros Hf. apply find_some in Hf as [_ He]. by apply Z.eqb_eq. Qed.

(** What open does with an answer of the kernel. *)
Lemma perform_open cur s tf k sc' :
  let rc := to_int (oracle (k_log k) (KOpen (rrdi tf) (rrsi tf) (rrdx tf) (rarg3 tf))) in
  find_st k cur = Some s ->
  (if 0 <=? rc then sc_fd_add (st_sc s) rc (Z.lor PROT_READ PROT_WRITE) else Ret (st_sc s)) = Ret sc' ->
  exists k' s', perform cur SYS_open tf k = (Ret (set_rrax (wrap64 rc) tf), k')
    /\ find_st k' cur = Some s' /\ st_sc s' = sc'.
Proof.
  cbn zeta. intros Hf Hsc. pose proof (find_st_id _ _ _ Hf) as Hid. unfold Sthread.perform.
  cbn [SYS_open SYS_read SYS_sthread_exit Z.eqb Pos.eqb]. unfold kext at 1. unfold mbind at 1, M_bind at 1.
  set (r := oracle (k_log k) _) in *.
  set (k1 := with_log (k_log k ++ [(KOpen (rrdi tf) (rrsi tf) (rrdx tf) (rarg3 tf), r)]) k).
  unfold get_st. exec. change (List.find _ (k_sthreads k1)) with (find_st k cur). rewrite Hf.
  destruct (0 <=? to_int r).
  - unfold lift. rewrite Hsc. unfold upd_st. exec. eexists _, (set_sc sc' s). split; [reflexivity|]. split; [|done].
    unfold find_st in *. cbn [k_sthreads with_sthreads with_log k1]. clear Hsc. revert Hf.
    induction (k_sthreads k) as [|x l IH]; [done|]. cbn. destruct (st_id x =? cur) eqn:Hx.
    + intros [= ->]. cbn. by rewrite Hx.
    + rewrite Hx. exact IH.
  - exec. eexists _, s. split; [reflexivity|]. split; [exact Hf|]. by injection Hsc.
Qed.

Lemma allowed_let_through sc e sc' :
  allowed sc (e_call e) -> policy_after sc e = Ret sc' -> let_through sc e sc'.
Proof.
  intros Ha Hp k cur s tf Hc Hf Hsc Hi Hm. subst sc. pose proof (find_st_id _ _ _ Hf) as Hid.
  destruct (issues_checks (st_sc s) (k_mem k) (e_call e) tf Ha Hi) as ((v & Hv & Hv0) & Hfd & Hmc).
  pose proof (handler_checked D CONFIG_DUNE_BOOT dune_vm_page_walk oracle run_user k cur s tf v Hc Hf Hv Hv0 Hfd) as Hh.
  rewrite Hmc in Hh.
  assert (Hgo : exists tf1 s1 k1, k_log k1 = k_log k /\ find_st k1 cur = Some s1 /\ st_sc s1 = st_sc s
      /\ tf1 = match argument (e_call e) tf with
               | Some (ptr, _) => replaced (e_call e) tf (wrap64 (st_walk s1 + Z.land ptr 0xfff))
               | None => tf
               end
      /\ handler tf k = perform cur (to_int (rrax tf)) tf1 k1).
  { destruct (argument (e_call e) tf) as [[ptr len]|] eqn:Harg; [|by exists tf, s, k].
    destruct (Hm ptr len Harg) as [Hw Ho]. apply Z.eqb_neq in Hw. rewrite Hw, (mem_perm_open s ptr len Ho) in Hh.
    destruct (mem_perm_id D CONFIG_DUNE_BOOT dune_vm_page_walk s ptr len) as [Hid' Hsc'].
    eexists _, _, _. split; [|split; [|split; [|split; [reflexivity|exact Hh]]]]; [done| |done].
    apply (find_put _ _ s); [done|congruence]. }
  destruct Hgo as (tf1 & s1 & k1 & Hlog & Hf1 & Hs1 & Htf & He). exists tf1, s1, k1. do 5 (split; [done|]).
  unfold policy_after in Hp. destruct (e_call e) eqn:Hcall; try done; try (by injection Hp).
  intros Hret. rewrite He. destruct Hi as [Hn _]. rewrite Hn, <- Hret, <- Hlog. rewrite <- Hret, <- Hlog, <- Hs1 in Hp.
  exact (perform_open cur s1 tf1 k1 sc' Hf1 Hp).
Qed.

(** The descriptors a list of calls was given are ones a policy can name. *)
Definition small_fds (l : list event) : Prop :=
  Forall (fun e => (exists path flags, e_call e = HOpen path flags) -> -1 <= e_ret e < 2 ^ 23) l.

Lemma passes_cons sc e l :
  allowed sc (e_call e) -> policy_after sc e = Ret sc -> passes sc l -> passes sc (e :: l).
Proof. intros Ha Hp Hl. exists sc. split; [done|]. split; [by apply allowed_let_through|done]. Qed.

Lemma passes_copied sc s fd b l :
  may_call sc SYS_close -> may_use sc s -> may_use sc fd -> copied s fd b l -> passes sc l.
Proof.
  intros Hcl [_ Hs] [Hr Hw] Hc. induction Hc as [| | |d d' b l Hd Hc IH]; [done|..];
    repeat (apply passes_cons; [by try split|done|]); done.
Qed.

Lemma may_call_permits sc n : 0 <= n < 128 -> permits sc n = true -> may_call sc n.
Proof.
  intros Hn Hp. destruct (can_do_sys_permits sc n Hn) as (v & Hv & Ht). exists v. split; [done|].
  rewrite Ht, Hp. apply orb_true_r.
Qed.

Lemma permits_sys sc sc' n : sc_sys sc' = sc_sys sc -> permits sc' n = permits sc n.
Proof. unfold permits. by intros ->. Qed.

Definition dude_policy_of (sc : sc_t) (s : Z) : Prop :=
  sc_ok sc /\ table (sc_fd sc) [256 * s + 3]
  /\ (forall m, 0 <= m < 128 -> permits sc m = (m =? SYS_open) || (m =? SYS_close))
  /\ (forall fd perm, has_fd_perm sc fd perm = (fd =? s) && truthy (Z.land 3 perm)).

Lemma dude_policy_built s :
  0 <= s < 2 ^ 23 -> exists sc, dude_policy s = Ret sc /\ dude_policy_of sc s.
Proof.
  intros Hs. unfold dude_policy. change (Z.lor PROT_READ PROT_WRITE) with 3.
  destruct (sc_fd_add_room sc_init [] s 3) as (sc & -> & Hok & _ & Hsys & Ht & Hf);
    [apply sc_init_ok|split; [reflexivity|split; [cbn; lia|constructor]]|cbn; lia|done|done|].
  assert (Hp : forall m, 0 <= m < 128 -> exists sc1 sc2, sc_sys_add sc SYS_open = Ret sc1
            /\ sc_sys_add sc1 SYS_close = Ret sc2 /\ sc_ok sc2 /\ sc_fd sc2 = sc_fd sc
            /\ permits sc2 m = (m =? SYS_open) || (m =? SYS_close)).
  { intros m Hm.
    destruct (permits_add sc SYS_open m Hok ltac:(done) Hm) as (sc1 & H1 & Hok1 & _ & Hf1 & Hp1).
    destruct (permits_add sc1 SYS_close m Hok1 ltac:(done) Hm) as (sc2 & H2 & Hok2 & _ & Hf2 & Hp2).
    exists sc1, sc2. do 3 (split; [done|]). split; [congruence|].
    rewrite Hp2, Hp1, (permits_sys sc_init sc m Hsys).
    assert (permits sc_init m = false) as ->.
    { unfold permits, sc_init. cbn [sc_sys]. rewrite nth_lookup.
      destruct (replicate 16 0 !! Z.to_nat (m / 8)) as [x|] eqn:Hx;
        [apply lookup_replicate in Hx as [-> _]|]; apply Z.bits_0. }
    destruct (m =? SYS_open), (m =? SYS_close); done. }
  destruct (Hp 0 ltac:(done)) as (sc1 & sc2 & H1 & H2 & Hok2 & Hf2 & _).
  exists sc2. rewrite H1, H2. split; [done|]. split; [done|].
  split; [by rewrite Hf2|]. split.
  - intros m Hm. destruct (Hp m Hm) as (sc1' & sc2' & H1' & H2' & _ & _ & Hpm).
    rewrite H1 in H1'. injection H1' as <-. rewrite H2 in H2'. injection H2' as <-. done.
  - intros fd perm. unfold has_fd_perm. rewrite Hf2. exact (Hf fd perm).
Qed.

Lemma session_passes sc s b l :
  0 <= s < 2 ^ 23 -> dude_policy_of sc s -> session s b l -> small_fds l -> passes sc l.
Proof.
  intros Hs (Hok & Ht & Hp & Hf) Hse Hsm.
  assert (Hr : has_fd_perm sc s PROT_READ = true) by (by rewrite Hf, Z.eqb_refl).
  assert (Hw : has_fd_perm sc s PROT_WRITE = true) by (by rewrite Hf, Z.eqb_refl).
  assert (Ho : may_call sc SYS_open /\ string_bytes INDEX).
  { split; [apply may_call_permits; [done|]; by rewrite Hp|]. unfold INDEX. repeat (constructor; [lia|]). constructor. }
  destruct Hse as [| | | |d d' fd d'' b l Hg Hfd Hc]; repeat (apply passes_cons; [done|done|]); try done.
  assert (Hfd2 : -1 <= fd < 2 ^ 23).
  { unfold small_fds in Hsm. apply List.Forall_cons_iff in Hsm as [_ Hsm].
    apply List.Forall_cons_iff in Hsm as [_ Hsm]. apply List.Forall_cons_iff in Hsm as [Hsm _].
    apply Hsm. by eexists _, _. }
  destruct (sc_fd_add_room sc [256 * s + 3] fd 3) as (sc' & Hadd & Hok' & _ & Hsys & _ & Hf');
    [done|done|cbn; lia|lia|done|].
  destruct (fd_encode s 3) as (_ & Hs8 & _); [lia..|].
  assert (Huse : forall g, g = s \/ g = fd -> may_use sc' g).
  { intros g Hgf. unfold may_use. rewrite !Hf'. cbn [fd_grant]. rewrite Hs8, !Hf.
    destruct (Z.eqb_spec s g) as [->|Hne]; [rewrite Z.eqb_refl; done|].
    destruct Hgf as [->| ->]; [done|]. rewrite Z.eqb_refl. done. }
  assert (Hpa : policy_after sc (Event (HOpen INDEX O_RDONLY) fd d'') = Ret sc').
  { unfold policy_after. cbn [e_call e_ret]. destruct (Z.leb_spec 0 fd); [exact Hadd|lia]. }
  exists sc'. split; [exact Hpa|]. split; [by apply allowed_let_through|].
  apply (passes_copied sc' s fd b l); [|apply Huse; by left|apply Huse; by right|exact Hc].
  apply may_call_permits; [done|]. rewrite (permits_sys sc sc' _ Hsys). by rewrite Hp.
Qed.

(** C19. The sthread that serves a connection runs with the policy its work
    needs. For a descriptor below 2^23 the policy is built without an error; of
    the numbers below 128 it allows read, write, open and close and no other
    (666, the exit of an sthread, is always allowed), and on descriptors the
    one of the connection and no other. And the handler of sthread.c lets the
    calls of every connection through, one after the other, with the policy
    that grows with the file that is opened: when the current sthread has the
    policy at that point, the buffer or path of the call lies on pages that
    are present, writable and open to it, and its walk address is not 0, the
    handler performs the call; and after an open answered with a descriptor,
    the sthread has the policy for the next call. The descriptors the kernel
    gives are below 2^23. *)
Theorem dude_policy_suffices s :
  0 <= s < 2 ^ 23 ->
  exists sc, dude_policy s = Ret sc
    /\ (forall n, 0 <= n < 128 \/ n = 666 -> exists v, can_do_sys sc n = Ret v
          /\ truthy v = bool_decide (n ∈ [0; 1; 2; 3; 666]))
    /\ (forall fd perm, has_fd_perm sc fd perm = (fd =? s) && truthy (Z.land 3 perm))
    /\ forall b l, session s b l -> small_fds l -> passes sc l.
Proof.
  intros Hs. destruct (dude_policy_built s Hs) as (sc & He & Hsc). exists sc. split; [done|].
  pose proof Hsc as (_ & _ & Hp & Hf). split; [|split; [done|]].
  - intros n [Hn| ->]; [|by exists 1]. destruct (can_do_sys_permits sc n Hn) as (v & Hv & Ht). exists v.
    split; [done|]. rewrite Ht, (Hp n Hn). apply eq_bool_prop_intro.
    rewrite bool_decide_spec, !elem_of_cons, elem_of_nil, !Is_true_true, !orb_true_iff, !Z.eqb_eq.
    unfold SYS_open, SYS_close, SYS_read, SYS_write. lia.
  - intros b l Hse Hsm. by eapply session_passes.
Qed.
End policy.

(** ** A concrete connection *)

(** A kernel that opens every file as descriptor 5. *)
Definition open_oracle (log : list (kcall * Z)) (c : kcall) : Z :=
  match c with KOpen _ _ _ _ => 5 | _ => 0 end.

(** The sthread with the policy [sc] calls open, with the path at 0x1010. *)
Definition path_mem (a : Z) : Z := nth (Z.to_nat (a - 0x1010)) INDEX 0.
Definition open_kern (sc : sc_t) : kern := with_mem path_mem (demo_kern [set_sc sc (demo_st 1)] [] [] []).
Definition open_frame : pt_regs := PtRegs SYS_open 0x1010 O_RDONLY 0 0 0 0 0.

Definition demo_session : list event :=
  [Event (HRead 4 4095) 14 demo_request; Event (HWrite 4 HEADER) (Z.of_nat (length HEADER)) [];
   Event (HOpen INDEX O_RDONLY) 5 []; Event (HRead 5 4096) 0 []; Event (HClose 5) 0 []].

Lemma dude_policy_suffices_witness :
  exists sc sc' k' s' tf1, dude_policy 4 = Ret sc /\ has_fd_perm sc 4 PROT_READ = true
    /\ has_fd_perm sc 5 PROT_READ = false /\ sc_fd_add sc 5 3 = Ret sc'
    /\ syscall_handler dune_x86 false list_walker open_oracle (fun _ k => k) open_frame (open_kern sc)
       = (Ret (set_rrax 5 tf1), k')
    /\ find_st k' 1 = Some s' /\ st_sc s' = sc'.
Proof.
  destruct (dude_policy_suffices dune_x86 false list_walker open_oracle (fun _ k => k) 4 ltac:(lia))
    as (sc & He & _ & Hf & Hp).
  assert (Hses : session 4 true demo_session).
  { apply (session_served 4 demo_request [] 5 []); [reflexivity|done|]. by apply copied_end. }
  destruct (Hp true demo_session Hses) as (sc1 & [= <-] & _ & sc2 & [= <-] & _ & sc' & Hadd & Hgo & _).
  { unfold small_fds, demo_session. repeat (constructor; [cbn; intros; lia|]). constructor. }
  destruct (Hgo (open_kern sc) 1 (set_sc sc (demo_st 1)) open_frame) as (tf1 & s1 & k1 & _ & _ & _ & _ & _ & Hopen);
    [reflexivity..| | |].
  - split; [reflexivity|]. split; [|split; [reflexivity|cbn; lia]].
    intros i v Hi. do 11 (destruct i as [|i]; [injection Hi as <-; reflexivity|]). by destruct i.
  - intros ptr len [= <- <-]. split; [done|]. unfold pages_open. cbn [st_pgroot set_sc demo_st].
    repeat (constructor; [vm_compute; intros [Hlo Hhi]; repeat split; by destruct Hhi|]). constructor.
  - destruct (Hopen eq_refl) as (k' & s' & Hh & Hf' & Hs').
    exists sc, sc', k', s', tf1. split; [exact He|]. split; [by rewrite Hf|]. split; [by rewrite Hf|].
    split; [exact Hadd|]. split; [exact Hh|]. by split.
Defined.
