(* ===== verification/WedgeBench.v ===== *)
(** The benchmark program of Wedge (wedge/src/bench.c): the timing harness
    [benchmark_latency], the thread benchmarks, and the address-space switch
    benchmark, which checks with assertions that one physical page is seen
    through two page tables.

    The kernel is a parameter that answers each call with two numbers (the
    second is used by gettimeofday alone); page faults are answered by
    [page_fault], which is libdune's and the kernel's. An access goes through
    the page table loaded last; the translation cache is not modelled.
    Messages are not modelled. *)

From stdpp Require Import base numbers list option strings.
From S2P Require Import Prelude Platform CString Policy Sthread Httpd Firewall.

Definition NR_REP : nat := 100.

(** ** Times and averages *)

Record timeval := Timeval { tv_sec : Z; tv_usec : Z }.

(** The elapsed time of the harness, in unsigned long. *)
Definition elapsed (a b : timeval) : Z :=
  let t := wrap64 (tv_sec b - tv_sec a) in
  if t =? 0 then wrap64 (tv_usec b - tv_usec a)
  else
    let t := wrap64 (t - 1) in
    let t := wrap64 (t * (1000 * 1000)) in
    let t := wrap64 (t + tv_usec b) in
    wrap64 (t + (1000 * 1000 - tv_usec a)).

(** Binary floating point with 53 bits, as the code uses it: numbers that are
    not negative, far from overflow and from underflow. A double is a fraction;
    [round_frac p q] is the one nearest to [p/q], ties to even. *)
Definition round_even (n d : Z) : Z :=
  let k := n / d in
  let r := n mod d in
  if 2 * r <? d then k
  else if d <? 2 * r then k + 1
  else if Z.even k then k else k + 1.

Definition round_frac (p q : Z) : Z * Z :=
  if p =? 0 then (0, 1)
  else
    let e := Z.log2 p - Z.log2 q in
    let e := if p * 2 ^ Z.max 0 (- e) <? q * 2 ^ Z.max 0 e then e - 1 else e in
    let s := 52 - e in
    if 0 <=? s then (round_even (p * 2 ^ s) q, 2 ^ s)
    else (round_even p (q * 2 ^ (- s)) * 2 ^ (- s), 1).

Definition to_double (x : Z) : Z * Z := round_frac x 1.

Definition div_double (x y : Z * Z) : Z * Z := round_frac (x.1 * y.2) (x.2 * y.1).

(** The conversion to [int] is undefined when the value does not fit. *)
Definition int_of_double (x : Z * Z) : outcome Z :=
  let v := x.1 / x.2 in if v <? 2 ^ 31 then Ret v else UB.

(** ** State *)

Inductive bcall : Type :=
  | BTime (vmcall : bool)
  | BFork
  | BWait
  | BPthreadCreate
  | BPthreadJoin
  | BSocket
  | BConnect (s addr port : Z)
  | BWrite (s : Z) (data : list Z)
  | BRead (s len : Z)
  | BClose (s : Z)
  | BMmap (len : Z)
  | BDuneInitAndEnter
  | BRegisterHandler
  | BPassthrough (tf : pt_regs)
  | BLoadCr3 (second noflush : bool) (pcid : Z).

#[export] Instance bcall_eq_dec : EqDecision bcall.
Proof. solve_decision. Defined.

(** The page tables of the benchmark, the one in use, and physical memory. *)
Record space := Space { sp_second : bool; sp_pg1 : pagetable; sp_pg2 : pagetable; sp_phys : Z -> Z }.

(** The static variables of bench.c, with the kernel and the sthreads. *)
Record bench (W : Type) := Bench {
  b_world : W;
  b_trace : list (bcall * Z);
  b_kern : kern;
  b_use_vmcall : bool;
  b_crap : Z;
  b_crap2 : Z;
  b_crappy : Z;
  b_pages : Z;
  b_space : space;
}.
Global Arguments Bench {W} _ _ _ _ _ _ _ _ _.
Global Arguments b_world {W} _.
Global Arguments b_trace {W} _.
Global Arguments b_kern {W} _.
Global Arguments b_use_vmcall {W} _.
Global Arguments b_crap {W} _.
Global Arguments b_crap2 {W} _.
Global Arguments b_crappy {W} _.
Global Arguments b_pages {W} _.
Global Arguments b_space {W} _.

Definition GET_REQUEST : list Z := Eval cbv in bytes "GET / HTTP/1.0" ++ [13; 10; 13; 10].
Definition LOCALHOST : list Z := Eval cbv in bytes "127.0.0.1".

Section bench.
Context {W : Type} (os : bcall -> W -> Z * Z * W) {ST : sthreads} (D : dune_abi) (thread_addr : Z).
Context (dune_vm_page_walk : walker) (dune_vm_clone : pagetable -> pagetable).
Context (page_fault : Z -> space -> space).
Abbreviation B := (M (bench W)).

Definition bext_full (c : bcall) : B (Z * Z) := fun st =>
  let '(r, x, w) := os c (b_world st) in
  (Ret (r, x), Bench w (b_trace st ++ [(c, r)]) (b_kern st) (b_use_vmcall st) (b_crap st) (b_crap2 st)
                     (b_crappy st) (b_pages st) (b_space st)).
Definition bext (c : bcall) : B Z := a ← bext_full c; mret a.1.

Definition set_vmcall (v : bool) (st : bench W) : bench W :=
  Bench (b_world st) (b_trace st) (b_kern st) v (b_crap st) (b_crap2 st) (b_crappy st) (b_pages st) (b_space st).
Definition set_crap (a : Z) (st : bench W) : bench W :=
  Bench (b_world st) (b_trace st) (b_kern st) (b_use_vmcall st) a (a + 4096) (b_crappy st) (b_pages st) (b_space st).
Definition set_pages (n : Z) (st : bench W) : bench W :=
  Bench (b_world st) (b_trace st) (b_kern st) (b_use_vmcall st) (b_crap st) (b_crap2 st) (b_crappy st) n (b_space st).
Definition set_crappy (a : Z) (st : bench W) : bench W :=
  Bench (b_world st) (b_trace st) (b_kern st) (b_use_vmcall st) (b_crap st) (b_crap2 st) a (b_pages st) (b_space st).
Definition set_space (sp : space) (st : bench W) : bench W :=
  Bench (b_world st) (b_trace st) (b_kern st) (b_use_vmcall st) (b_crap st) (b_crap2 st) (b_crappy st) (b_pages st) sp.
Definition bkern {A} (c : K A) : B A := fun st =>
  let '(o, k) := c (b_kern st) in
  (o, Bench (b_world st) (b_trace st) k (b_use_vmcall st) (b_crap st) (b_crap2 st) (b_crappy st) (b_pages st) (b_space st)).

(** ** The harness *)

(** usm_gettimeofday. The return value, which no caller uses, is uninitialised
    after the system call. *)
Definition usm_gettimeofday : B timeval :=
  v ← gets b_use_vmcall;
  a ← bext_full (BTime v);
  mret (Timeval a.1 a.2).

(** The loop of benchmark_latency from turn [i], for [n] turns. *)
Fixpoint latency_loop (cb : B unit) (n : nat) (i avg num : Z) : B (Z * Z) :=
  match n with
  | O => mret (avg, num)
  | S n =>
      a ← usm_gettimeofday;
      _ ← cb;
      b ← usm_gettimeofday;
      let t := elapsed a b in
      if 4 <? i then latency_loop cb n (i + 1) (wrap64 (avg + t)) (num + 1)
      else latency_loop cb n (i + 1) avg num
  end.

Definition benchmark_latency (cb : B unit) : B Z :=
  r ← latency_loop cb 10 0 0 0;
  let '(avg, num) := r in
  stop (int_of_double (div_double (to_double avg) (to_double num))).

(** ** Threads *)

(** The child's [thread] does nothing. *)
Definition fork_bench : B unit :=
  pid ← bext BFork;
  if pid =? -1 then stop (Exit 1)
  else if pid =? 0 then stop (Exit 0)
  else _ ← bext BWait; mret tt.

Definition pthread_bench : B unit :=
  r ← bext BPthreadCreate;
  if truthy r then stop (Exit 1) else
  r ← bext BPthreadJoin;
  if truthy r then stop (Exit 1) else mret tt.

(** A join that has not come to an end is [Abort] here. *)
Definition sthread_bench : B unit :=
  r ← bkern (sthread_create_op sc_init thread_addr 0);
  if truthy r.1 then stop (Exit 1) else
  j ← bkern (sthread_join_op r.2);
  match j with
  | None => stop Abort
  | Some (rc, _) => if truthy rc then stop (Exit 1) else mret tt
  end.

(** inet_addr *)
Definition inet_addr (s : list Z) : Z := default (2 ^ 32 - 1) (inet_aton s).

Definition http_bench (bench_ip : option (list Z)) : B unit :=
  s ← bext BSocket;
  if s =? -1 then stop (Exit 1) else
  r ← bext (BConnect s (inet_addr (default LOCALHOST bench_ip)) PORT);
  if r =? -1 then stop (Exit 1) else
  r ← bext (BWrite s GET_REQUEST);
  if negb (wrap64 r =? Z.of_nat (length GET_REQUEST)) then stop (Exit 1) else
  r ← bext (BRead s 1024);
  if r <=? 0 then stop (Exit 1) else
  _ ← bext (BClose s);
  mret tt.

Definition bench_http (bench_ip : option (list Z)) : B unit :=
  _ ← benchmark_latency (http_bench bench_ip);
  mret tt.

Definition bench_sthreads : B unit :=
  pid ← bext BFork;
  if pid =? 0 then
    _ ← benchmark_latency fork_bench;
    _ ← benchmark_latency pthread_bench;
    stop (Exit 0)
  else
    _ ← bext BWait;
    _ ← modify (set_vmcall true);
    r ← bkern sthread_init_op;
    if r =? -1 then stop (Exit 1) else
    _ ← benchmark_latency sthread_bench;
    mret tt.

(** ** Address spaces *)

(** The physical address of [va] in a page table. *)
Definition translate (pt : pagetable) (va : Z) : option Z :=
  match List.find (fun e => e.1 =? align_down 4096 va) pt with
  | Some (_, pte) => if has_bits pte (PTE_P D) then Some (PTE_ADDR D pte + va mod 4096) else None
  | None => None
  end.

Definition current_root (sp : space) : pagetable := if sp_second sp then sp_pg2 sp else sp_pg1 sp.

(** An access: a missing page faults once. *)
Definition access (va : Z) : B Z :=
  sp ← gets b_space;
  match translate (current_root sp) va with
  | Some pa => mret pa
  | None =>
      let sp := page_fault va sp in
      _ ← modify (set_space sp);
      match translate (current_root sp) va with
      | Some pa => mret pa
      | None => stop Abort
      end
  end.

Definition load_byte (va : Z) : B Z :=
  pa ← access va;
  gets (fun st => sp_phys (b_space st) pa).

Definition store_byte (va v : Z) : B unit :=
  pa ← access va;
  modify (fun st => let sp := b_space st in
    set_space (Space (sp_second sp) (sp_pg1 sp) (sp_pg2 sp)
                     (fun b => if b =? pa then v else sp_phys sp b)) st).

(** load_cr3, of [_pg1] or [_pg2]. *)
Definition load_cr3 (second noflush : bool) (pcid : Z) : B unit :=
  _ ← bext (BLoadCr3 second noflush pcid);
  modify (fun st => let sp := b_space st in
    set_space (Space second (sp_pg1 sp) (sp_pg2 sp) (sp_phys sp)) st).

Definition set_assert (crap old new : Z) : B unit :=
  v ← load_byte crap;
  _ ← c_assert (v =? old);
  store_byte crap new.

Definition setup_mem_cb : walk_cb unit := fun va pte _ =>
  (0, Z.lor (Z.lor (Z.lor (PTE_ADDR D pte + 4096) (PTE_P D)) (PTE_W D)) (PTE_U D), tt).

Definition setup_mem : B unit :=
  modify (fun st =>
    let sp := b_space st in
    let pg1 := sp_pg1 sp in
    let pg2 := dune_vm_clone pg1 in
    let '(_, pg1, _) := dune_vm_page_walk _ setup_mem_cb (b_crap st) (b_crap st) pg1 tt in
    set_space (Space (sp_second sp) pg1 pg2 (sp_phys sp)) st).

(** A loop of [n] turns. *)
Fixpoint repeat_ (n : nat) (body : B unit) : B unit :=
  match n with
  | O => mret tt
  | S n => _ ← body; repeat_ n body
  end.

Definition no_switch : B unit :=
  st ← get;
  let crap := b_crap st in
  repeat_ NR_REP (
    _ ← store_byte crap 0;
    _ ← set_assert crap 0 1;
    _ ← set_assert crap 1 2;
    _ ← set_assert crap 2 3;
    _ ← set_assert crap 3 4;
    _ ← set_assert crap 4 5;
    set_assert crap 5 6).

Definition with_switch : B unit :=
  st ← get;
  let crap := b_crap st in
  let crap2 := b_crap2 st in
  repeat_ NR_REP (
    _ ← load_cr3 true false 0;
    _ ← store_byte crap2 0;
    _ ← set_assert crap2 0 1;
    _ ← set_assert crap2 1 2;
    _ ← load_cr3 false false 0;
    _ ← set_assert crap 2 3;
    _ ← set_assert crap 3 4;
    _ ← load_cr3 true false 0;
    _ ← set_assert crap2 4 5;
    set_assert crap2 5 6).

Definition with_switch_no_flush : B unit :=
  st ← get;
  let crap := b_crap st in
  let crap2 := b_crap2 st in
  repeat_ NR_REP (
    _ ← load_cr3 true true 1;
    _ ← store_byte crap2 0;
    _ ← set_assert crap2 0 1;
    _ ← set_assert crap2 1 2;
    _ ← load_cr3 false true 0;
    _ ← set_assert crap 2 3;
    _ ← set_assert crap 3 4;
    _ ← load_cr3 true true 1;
    _ ← set_assert crap2 4 5;
    set_assert crap2 5 6).

Definition ctx_switch : B unit :=
  st ← get;
  let crap := b_crap st in
  let crap2 := b_crap2 st in
  _ ← load_cr3 true false 0;
  _ ← set_assert crap2 0 1;
  _ ← set_assert crap2 1 2;
  _ ← load_cr3 false false 0;
  _ ← set_assert crap 2 3;
  _ ← set_assert crap 3 4;
  _ ← load_cr3 true false 0;
  _ ← set_assert crap2 4 5;
  set_assert crap2 5 6.

(** syscall_handler of bench.c *)
Definition bench_syscall_handler (tf : pt_regs) : B pt_regs :=
  r ← bext (BPassthrough tf);
  mret (set_rrax (wrap64 r) tf).

(** One write to every page of [_crappy]. *)
Fixpoint touch_pages (n : nat) (j : Z) : B unit :=
  match n with
  | O => mret tt
  | S n =>
      a ← gets b_crappy;
      _ ← store_byte (wrap64 (a + j * 4096)) 0x69;
      touch_pages n (j + 1)
  end.

Definition do_pages (p : Z) : B unit :=
  st ← get;
  let pages := Z.to_nat (b_pages st) in
  repeat_ NR_REP (
    _ ← (if p =? 0 then mret tt else if p =? 1 then load_cr3 true false 0 else load_cr3 true true 1);
    _ ← touch_pages pages 0;
    _ ← (if p =? 0 then mret tt else if p =? 1 then load_cr3 false false 0 else load_cr3 false true 0);
    touch_pages pages 0).

Definition no_switch_pages : B unit := do_pages 0.
Definition switch_pages : B unit := do_pages 1.
Definition no_flush_switch_pages : B unit := do_pages 2.

(** memset(p, 0, len) *)
Fixpoint clear (n : nat) (va : Z) : B unit :=
  match n with
  | O => mret tt
  | S n => _ ← store_byte va 0; clear n (wrap64 (va + 1))
  end.

(** pwn_pages: the three averages. The size is computed in [int]. *)
Definition pwn_pages (pages : Z) : B (Z * Z * Z) :=
  _ ← modify (set_pages pages);
  let len := 4096 * pages in
  if (len <? - 2 ^ 31) || (2 ^ 31 <=? len) then stop UB else
  a ← bext (BMmap (wrap64 len));
  if a =? 2 ^ 64 - 1 then stop (Exit 1) else
  _ ← modify (set_crappy a);
  _ ← clear (Z.to_nat (wrap64 len)) a;
  x ← benchmark_latency no_switch_pages;
  y ← benchmark_latency switch_pages;
  z ← benchmark_latency no_flush_switch_pages;
  mret (x, y, z).

(** The loop over the numbers of pages. *)
Fixpoint pages_loop (n : nat) (pages : Z) : B unit :=
  match n with
  | O => mret tt
  | S n => _ ← pwn_pages pages; pages_loop n (pages + 1)
  end.

Definition bench_switch (pages pages_end : Z) : B unit :=
  a ← bext (BMmap (4096 * 2));
  if a =? 2 ^ 64 - 1 then stop (Exit 1) else
  _ ← modify (set_crap a);
  r ← bext BDuneInitAndEnter;
  if truthy r then stop (Exit 1) else
  _ ← modify (set_vmcall true);
  _ ← bext BRegisterHandler;
  _ ← setup_mem;
  _ ← ctx_switch;
  _ ← benchmark_latency no_switch;
  _ ← benchmark_latency with_switch;
  _ ← benchmark_latency with_switch_no_flush;
  if truthy pages then
    let pages_end := if pages_end =? 0 then pages else pages_end in
    pages_loop (Z.to_nat (pages_end - pages + 1)) pages
  else mret tt.

(** main, for the arguments after the name of the program; a missing argument
    of [bench_switch] is a NULL that atoi reads. *)
Definition wedge_bench_main (args : list (list Z)) (bench_ip : option (list Z)) : B unit :=
  let bench := match args with a :: _ => atoi a | [] => 0 end in
  _ ← (if bench =? 0 then bench_sthreads
       else if bench =? 1 then bench_http bench_ip
       else if bench =? 2 then
         match args with
         | _ :: p :: e :: _ => bench_switch (atoi p) (atoi e)
         | _ => stop UB
         end
       else mret tt);
  stop (Exit 0).
End bench.
