(* ===== verification/WedgeBenchProps.v ===== *)
(** What the benchmark program of Wedge measures and checks: the harness
    computes the exact mean of its samples, and the assertions of the
    address-space benchmark hold. *)

From stdpp Require Import base numbers list option strings.
From S2P Require Import Prelude Platform CString Policy Sthread Httpd Firewall WedgeBench.

(** ** Times *)

(** A time in microseconds, and the times gettimeofday gives. *)
Definition usec (t : timeval) : Z := tv_sec t * 1000000 + tv_usec t.
Definition time_ok (t : timeval) : Prop := 0 <= tv_sec t < 2 ^ 40 /\ 0 <= tv_usec t < 1000000.

(** The borrow in the code is right: the result is the difference in
    microseconds. *)
Lemma elapsed_exact a b :
  time_ok a -> time_ok b -> usec a <= usec b -> elapsed a b = usec b - usec a.
Proof.
  intros [Ha Hau] [Hb Hbu]. unfold usec, elapsed. intros Hle.
  assert (Hs : tv_sec a <= tv_sec b) by lia.
  rewrite (wrap64_small (tv_sec b - tv_sec a)) by mlia.
  destruct (Z.eqb_spec (tv_sec b - tv_sec a) 0) as [H0|H0].
  - rewrite wrap64_small by mlia. lia.
  - rewrite (wrap64_small (tv_sec b - tv_sec a - 1)) by mlia.
    rewrite (wrap64_small (_ * (1000 * 1000))) by mlia.
    rewrite (wrap64_small (_ + tv_usec b)) by mlia.
    rewrite wrap64_small by mlia. lia.
Qed.

(** ** Division in double precision *)

Lemma round_even_bounds n d : 0 < d -> 2 * n - d <= 2 * d * round_even n d <= 2 * n + d.
Proof.
  intros Hd. unfold round_even. pose proof (Z_div_mod_eq_full n d) as He.
  pose proof (Z.mod_pos_bound n d Hd) as Hr.
  destruct (Z.ltb_spec (2 * (n mod d)) d); [nia|]. destruct (Z.ltb_spec d (2 * (n mod d))); [nia|].
  destruct (Z.even (n / d)); nia.
Qed.

Lemma round_even_exact k d : 0 < d -> round_even (k * d) d = k.
Proof.
  intros Hd. unfold round_even. rewrite Z.div_mul, Z.mod_mul by lia.
  destruct (Z.ltb_spec (2 * 0) d); [done|lia].
Qed.

(** Rounding does not go below an integer lower bound. *)
Lemma round_even_ge k n d : 0 < d -> k * d <= n -> k <= round_even n d.
Proof.
  intros Hd Hk. assert (k <= n / d) by (apply Z.div_le_lower_bound; lia).
  unfold round_even. destruct (_ <? _); [done|]. destruct (_ <? _); [lia|].
  destruct (Z.even _); lia.
Qed.

(** The scale of a rounded fraction below [2 ^ 48]: at least 8, and rounding is
    done at that scale. *)
Lemma round_frac_scale p q :
  0 < p -> 0 < q -> p < q * 2 ^ 48 ->
  exists s, 3 <= s /\ round_frac p q = (round_even (p * 2 ^ s) q, 2 ^ s).
Proof.
  intros Hp Hq Hlt. unfold round_frac. destruct (Z.eqb_spec p 0); [lia|].
  set (e := Z.log2 p - Z.log2 q).
  set (e' := if p * 2 ^ Z.max 0 (- e) <? q * 2 ^ Z.max 0 e then e - 1 else e).
  assert (He : e <= 49).
  { pose proof (Z.log2_le_mono p (q * 2 ^ 48) ltac:(lia)) as Hm.
    rewrite Z.log2_mul_pow2 in Hm by lia. lia. }
  assert (He' : e' <= 49) by (unfold e'; destruct (_ <? _); lia).
  destruct (Z.leb_spec 0 (52 - e')); [|lia]. exists (52 - e'). split; [lia|done].
Qed.

Lemma to_double_exact x :
  0 < x < 2 ^ 48 -> exists d, 0 < d /\ to_double x = (x * d, d).
Proof.
  intros Hx. destruct (round_frac_scale x 1) as (s & Hs & He); [lia..|].
  exists (2 ^ s). split; [apply Z.pow_pos_nonneg; lia|]. unfold to_double. rewrite He. f_equal.
  rewrite <- (Z.mul_1_r (x * 2 ^ s)) at 1. apply round_even_exact. lia.
Qed.

(** A quotient by at most 15 is truncated to the integer quotient. *)
Lemma div_double_floor x y :
  0 <= x < 2 ^ 48 -> 0 < y < 16 ->
  let q := div_double (to_double x) (to_double y) in q.1 / q.2 = x / y.
Proof.
  intros Hx Hy. destruct (to_double_exact y ltac:(lia)) as (dy & Hdy & ->).
  destruct (decide (x = 0)) as [->|Hx0].
  { unfold div_double. cbn [to_double round_frac Z.eqb fst snd]. rewrite Z.mul_0_l. cbn. done. }
  destruct (to_double_exact x ltac:(lia)) as (dx & Hdx & ->).
  unfold div_double. cbn [fst snd].
  destruct (round_frac_scale (x * dx * dy) (dx * (y * dy))) as (s & Hs & He); [nia|nia| |].
  { replace (x * dx * dy) with (x * (dx * dy)) by lia.
    replace (dx * (y * dy) * 2 ^ 48) with (y * 2 ^ 48 * (dx * dy)) by lia.
    apply Z.mul_lt_mono_pos_r; lia. }
  rewrite He. cbn [fst snd]. set (S := 2 ^ s).
  assert (HS : 8 <= S) by (change 8 with (2 ^ 3); apply Z.pow_le_mono_r; lia).
  pose proof (Z_div_mod_eq_full x y) as Hdiv. pose proof (Z.mod_pos_bound x y ltac:(lia)) as Hmod.
  set (k := x / y) in *. set (c := dx * dy). assert (Hc : 0 < c) by (unfold c; nia).
  replace (x * dx * dy * S) with (x * S * c) by (unfold c; lia).
  replace (dx * (y * dy)) with (y * c) by (unfold c; lia).
  assert (Hlo : k * S <= round_even (x * S * c) (y * c)).
  { apply round_even_ge; [nia|]. replace (k * S * (y * c)) with (y * k * S * c) by lia.
    apply Z.mul_le_mono_nonneg_r; [lia|]. nia. }
  assert (Hhi : round_even (x * S * c) (y * c) < (k + 1) * S).
  { destruct (round_even_bounds (x * S * c) (y * c)) as [_ Hup]; [nia|].
    assert (Hx' : x * S <= (k + 1) * S * y - S) by nia.
    assert (Hcc : 2 * y * round_even (x * S * c) (y * c) <= 2 * (x * S) + y).
    { apply (Z.mul_le_mono_pos_r _ _ c Hc). nia. }
    nia. }
  symmetry. apply (Z.div_unique _ _ _ (round_even (x * S * c) (y * c) - k * S)); [|lia].
  left. lia.
Qed.

(** ** The harness *)

Section harness.
Context {W : Type} (os : bcall -> W -> Z * Z * W) (cb : M (bench W) unit).

(** [n] turns of the harness: the callback returns each time, and the clock
    does not run backwards. The list holds the true durations. *)
Inductive timed : nat -> bench W -> list Z -> bench W -> Prop :=
  | timed_O st : timed O st [] st
  | timed_S n st a st1 st2 b st3 ts st4 :
      usm_gettimeofday os st = (Ret a, st1) -> cb st1 = (Ret tt, st2) ->
      usm_gettimeofday os st2 = (Ret b, st3) ->
      time_ok a -> time_ok b -> usec a <= usec b ->
      timed n st3 ts st4 -> timed (S n) st (usec b - usec a :: ts) st4.

Definition sum (ts : list Z) : Z := foldr Z.add 0 ts.

Lemma timed_facts n st ts st' :
  timed n st ts st' -> length ts = n /\ Forall (fun t => 0 <= t) ts.
Proof.
  induction 1 as [|n st a st1 st2 b st3 ts st4 ?????? _ [IH1 IH2]]; [done|].
  split; [cbn; by rewrite IH1|]. constructor; [lia|done].
Qed.

Lemma sum_nonneg ts : Forall (fun t => 0 <= t) ts -> 0 <= sum ts.
Proof. induction 1; cbn; [lia|]. fold (sum l). lia. Qed.

(** The loop adds up the durations from turn 5 on. *)
Lemma latency_loop_sums n st ts st' i avg num :
  timed n st ts st' -> 0 <= i -> 0 <= avg -> avg + sum (drop (Z.to_nat (5 - i)) ts) < 2 ^ 64 ->
  latency_loop os cb n i avg num st
  = (Ret (avg + sum (drop (Z.to_nat (5 - i)) ts), num + Z.of_nat (length (drop (Z.to_nat (5 - i)) ts))), st').
Proof.
  intros Ht. revert i avg num.
  induction Ht as [st|n st a st1 st2 b st3 ts st4 H1 H2 H3 Ha Hb Hle Ht IH]; intros i avg num Hi Hav Hlt.
  - cbn [latency_loop]. rewrite drop_nil in *. cbn. by rewrite !Z.add_0_r.
  - cbn [latency_loop]. rewrite (bind_step _ _ _ _ _ H1), (bind_step _ _ _ _ _ H2), (bind_step _ _ _ _ _ H3).
    cbv zeta. rewrite elapsed_exact by done. destruct (timed_facts _ _ _ _ Ht) as [_ Hpos].
    destruct (Z.ltb_spec 4 i) as [H4|H4].
    + replace (Z.to_nat (5 - i)) with 0%nat in * by lia. rewrite drop_0 in *.
      cbn [sum foldr length] in *. fold (sum ts) in *. pose proof (sum_nonneg ts Hpos).
      rewrite wrap64_small by mlia. rewrite IH; replace (Z.to_nat (5 - (i + 1))) with 0%nat by lia;
        rewrite ?drop_0; try lia. f_equal. f_equal. f_equal; lia.
    + replace (Z.to_nat (5 - i)) with (S (Z.to_nat (5 - (i + 1)))) in * by lia. cbn [drop] in *.
      apply IH; [lia|lia|done].
Qed.

(** C35. The harness reports the exact mean: after ten turns in which the
    callback returns and the clock does not run backwards, the result of
    [benchmark_latency], computed with a borrow between seconds and
    microseconds, in wrapping 64-bit sums and by a double-precision division,
    is the integer mean of the true durations of the last five turns, the first
    five being left out; a mean that does not fit an [int] is undefined. *)
Theorem benchmark_latency_exact st ts st' :
  timed 10 st ts st' -> sum (drop 5 ts) < 2 ^ 48 ->
  benchmark_latency os cb st
  = (if sum (drop 5 ts) / 5 <? 2 ^ 31 then Ret (sum (drop 5 ts) / 5) else UB, st').
Proof.
  intros Ht Hlt. destruct (timed_facts _ _ _ _ Ht) as [Hlen Hpos].
  assert (Hnn : 0 <= sum (drop 5 ts)) by (by apply sum_nonneg, Forall_drop).
  pose proof (latency_loop_sums 10 st ts st' 0 0 0 Ht ltac:(lia) ltac:(lia)) as Hl.
  change (Z.to_nat (5 - 0)) with 5%nat in Hl.
  unfold benchmark_latency. rewrite (bind_step _ _ _ _ _ (Hl ltac:(lia))). cbn beta iota.
  rewrite length_drop, Hlen, !Z.add_0_l. change (Z.of_nat (10 - 5)) with 5.
  unfold stop, int_of_double. cbv zeta. rewrite (div_double_floor (sum (drop 5 ts)) 5) by lia. done.
Qed.
End harness.

(** ** Two page tables, one page *)

(** The frame of a new entry comes back out of it, and the entry is present. *)
Class pte_frame_ok (D : dune_abi) : Prop := {
  pte_frame a : (4096 | a) -> 0 <= a ->
    PTE_ADDR D (Z.lor (Z.lor (Z.lor a (PTE_P D)) (PTE_W D)) (PTE_U D)) = a
    /\ has_bits (Z.lor (Z.lor (Z.lor a (PTE_P D)) (PTE_W D)) (PTE_U D)) (PTE_P D) = true;
  pte_addr_page pte : 0 <= pte -> (4096 | PTE_ADDR D pte) /\ 0 <= PTE_ADDR D pte;
}.

Section switching.
Context {W : Type} (os : bcall -> W -> Z * Z * W) (D : dune_abi) {HD : pte_frame_ok D}.
Context (dune_vm_page_walk : walker) {Hw : walker_ok dune_vm_page_walk}.
Context (dune_vm_clone : pagetable -> pagetable) (page_fault : Z -> space -> space).
Context (crap f g : Z).
Abbreviation B := (M (bench W)).

Definition entry (pt : pagetable) (va : Z) : option Z :=
  match List.find (fun e => e.1 =? va) pt with Some (_, pte) => Some pte | None => None end.

(** The benchmark in the second ([true]) or first page table, with the byte
    [v] in the frame [f] both name. *)
Record sees (second : bool) (v : Z) (st : bench W) : Prop := Sees {
  sees_crap : b_crap st = crap;
  sees_crap2 : b_crap2 st = crap + 4096;
  sees_root : sp_second (b_space st) = second;
  sees_pg1 : translate D (sp_pg1 (b_space st)) crap = Some f;
  sees_pg2 : translate D (sp_pg2 (b_space st)) (crap + 4096) = Some f;
  sees_own : translate D (sp_pg2 (b_space st)) crap = Some g;
  sees_byte : sp_phys (b_space st) f = v;
}.

(** [does P c Q]: from a [P]-state, [c] returns in a [Q]-state. *)
Definition does (P : bench W -> Prop) (c : B unit) (Q : bench W -> Prop) : Prop :=
  forall st, P st -> exists st', c st = (Ret tt, st') /\ Q st'.

Lemma does_bind P Q R c k : does P c Q -> does Q k R -> does P (_ ← c; k) R.
Proof.
  intros Hc Hk st HP. destruct (Hc st HP) as (st1 & He & HQ). destruct (Hk st1 HQ) as (st2 & He2 & HR).
  exists st2. split; [|done]. by rewrite (bind_step _ _ _ _ _ He).
Qed.

Lemma does_repeat P n c : does P c P -> does P (repeat_ n c) P.
Proof.
  intros Hc. induction n as [|n IH]; [intros st HP; by exists st|].
  cbn [repeat_]. by eapply does_bind.
Qed.

Lemma does_load_cr3 s v second noflush pcid :
  does (sees s v) (load_cr3 os second noflush pcid) (sees second v).
Proof.
  intros st []. unfold load_cr3, bext. rewrite bind_assoc. unfold mbind, M_bind at 1, bext_full.
  destruct (os (BLoadCr3 second noflush pcid) (b_world st)) as [[r x] w].
  eexists. split; [reflexivity|]. by split.
Qed.

Lemma access_mapped va pa (st : bench W) :
  translate D (current_root (b_space st)) va = Some pa ->
  access D page_fault va st = (Ret pa, st).
Proof. intros H. unfold access. rewrite bind_gets, H. done. Qed.

Lemma does_store_at s v va new (Q : bench W -> Prop) pa :
  (forall st, sees s v st -> translate D (current_root (b_space st)) va = Some pa) ->
  (forall st, sees s v st -> Q (set_space (Space (sp_second (b_space st)) (sp_pg1 (b_space st)) (sp_pg2 (b_space st))
     (fun b => if b =? pa then new else sp_phys (b_space st) b)) st)) ->
  does (sees s v) (store_byte D page_fault va new) Q.
Proof.
  intros Ht HQ st Hst. unfold store_byte. rewrite (bind_step _ _ _ _ _ (access_mapped _ _ _ (Ht st Hst))).
  eexists. split; [reflexivity|]. by apply HQ.
Qed.

(** The address of the page in each table. *)
Definition view (s : bool) : Z := if s then crap + 4096 else crap.

Lemma view_translates s v st : sees s v st -> translate D (current_root (b_space st)) (view s) = Some f.
Proof. intros []. unfold current_root, view. rewrite sees_root0. by destruct s. Qed.

Lemma does_store s v new : does (sees s v) (store_byte D page_fault (view s) new) (sees s new).
Proof.
  apply (does_store_at s v (view s) new (sees s new) f); [apply view_translates|]. intros st []. split; cbn; try done. by rewrite Z.eqb_refl.
Qed.

Lemma does_assert s old new : does (sees s old) (set_assert D page_fault (view s) old new) (sees s new).
Proof.
  intros st Hst. unfold set_assert, load_byte.
  rewrite bind_assoc, (bind_step _ _ _ _ _ (access_mapped _ _ _ (view_translates _ _ _ Hst))), bind_gets.
  rewrite (sees_byte _ _ _ Hst), Z.eqb_refl. destruct (does_store s old new st Hst) as (st' & He & H').
  exists st'. split; [exact He|done].
Qed.

(** The six assertions, on both sides of the switches. *)
Lemma does_round (nf : bool) (p1 p2 : Z) s :
  does (sees s 0) (
    _ ← load_cr3 os true nf p1;
    _ ← set_assert D page_fault (crap + 4096) 0 1;
    _ ← set_assert D page_fault (crap + 4096) 1 2;
    _ ← load_cr3 os false nf p2;
    _ ← set_assert D page_fault crap 2 3;
    _ ← set_assert D page_fault crap 3 4;
    _ ← load_cr3 os true nf p1;
    _ ← set_assert D page_fault (crap + 4096) 4 5;
    set_assert D page_fault (crap + 4096) 5 6) (sees true 6).
Proof.
  repeat (eapply does_bind; [first [apply does_load_cr3|apply (does_assert true)|apply (does_assert false)]|]).
  apply (does_assert true).
Qed.

Lemma does_six s v (nf : bool) (p1 p2 : Z) :
  does (sees s v) (
    _ ← load_cr3 os true nf p1;
    _ ← store_byte D page_fault (crap + 4096) 0;
    _ ← set_assert D page_fault (crap + 4096) 0 1;
    _ ← set_assert D page_fault (crap + 4096) 1 2;
    _ ← load_cr3 os false nf p2;
    _ ← set_assert D page_fault crap 2 3;
    _ ← set_assert D page_fault crap 3 4;
    _ ← load_cr3 os true nf p1;
    _ ← set_assert D page_fault (crap + 4096) 4 5;
    set_assert D page_fault (crap + 4096) 5 6) (sees true 6).
Proof.
  repeat (eapply does_bind; [first [apply does_load_cr3|apply (does_store true)
                                   |apply (does_assert true)|apply (does_assert false)]|]).
  apply (does_assert true).
Qed.

(** The state between the benchmarks: in the second page table, whatever the
    page holds. *)
Definition ready (st : bench W) : Prop := exists v, sees true v st.

Lemma does_ready c : (forall v, does (sees true v) c ready) -> does ready c ready.
Proof. intros Hc st [v Hv]. by apply (Hc v). Qed.

Lemma does_get (P Q : bench W -> Prop) (k : bench W -> B unit) :
  (forall st, P st -> exists st', k st st = (Ret tt, st') /\ Q st') -> does P (get ≫= k) Q.
Proof. intros Hk st HP. rewrite bind_get. by apply Hk. Qed.

Lemma does_weaken (P Q R : bench W -> Prop) c : does P c Q -> (forall st, Q st -> R st) -> does P c R.
Proof. intros Hc HR st HP. destruct (Hc st HP) as (st' & He & HQ). exists st'. eauto. Qed.

Lemma ready_with_switch : does ready (with_switch os D page_fault) ready.
Proof.
  apply does_get. intros st Hst. pose proof Hst as [v Hv].
  rewrite (sees_crap _ _ _ Hv), (sees_crap2 _ _ _ Hv).
  refine (does_repeat ready NR_REP _ _ st Hst). apply does_ready. intros v'.
  eapply does_weaken; [apply does_six|]. intros st' Hs. by exists 6.
Qed.

Lemma ready_no_flush : does ready (with_switch_no_flush os D page_fault) ready.
Proof.
  apply does_get. intros st Hst. pose proof Hst as [v Hv].
  rewrite (sees_crap _ _ _ Hv), (sees_crap2 _ _ _ Hv).
  refine (does_repeat ready NR_REP _ _ st Hst). apply does_ready. intros v'.
  eapply does_weaken; [apply does_six|]. intros st' Hs. by exists 6.
Qed.

(** The byte at [crap] in the second page table. *)
Definition own (v : Z) (st : bench W) : Prop := ready st /\ sp_phys (b_space st) g = v.

Lemma own_translates v st : own v st -> translate D (current_root (b_space st)) crap = Some g.
Proof. intros [[v' []] _]. unfold current_root. by rewrite sees_root0. Qed.

Lemma own_store v new : does (own v) (store_byte D page_fault crap new) (own new).
Proof.
  intros st Hst. unfold store_byte. rewrite (bind_step _ _ _ _ _ (access_mapped _ _ _ (own_translates _ _ Hst))).
  eexists. split; [reflexivity|]. destruct Hst as [[v' []] _]. split; [|cbn; by rewrite Z.eqb_refl].
  eexists. split; cbn; done.
Qed.

Lemma own_assert old new : does (own old) (set_assert D page_fault crap old new) (own new).
Proof.
  intros st Hst. unfold set_assert, load_byte.
  rewrite bind_assoc, (bind_step _ _ _ _ _ (access_mapped _ _ _ (own_translates _ _ Hst))), bind_gets.
  rewrite (proj2 Hst), Z.eqb_refl. destruct (own_store old new st Hst) as (st' & He & H').
  exists st'. split; [exact He|done].
Qed.

Lemma ready_no_switch : does ready (no_switch D page_fault) ready.
Proof.
  apply does_get. intros st Hst. pose proof Hst as [v Hv]. rewrite (sees_crap _ _ _ Hv).
  refine (does_repeat ready NR_REP _ _ st Hst). intros st0 Hst0.
  assert (Ho : own (sp_phys (b_space st0) g) st0) by done. revert Ho. generalize (sp_phys (b_space st0) g).
  intros v0. revert st0 Hst0. cut (does (own v0) (
    _ ← store_byte D page_fault crap 0;
    _ ← set_assert D page_fault crap 0 1;
    _ ← set_assert D page_fault crap 1 2;
    _ ← set_assert D page_fault crap 2 3;
    _ ← set_assert D page_fault crap 3 4;
    _ ← set_assert D page_fault crap 4 5;
    set_assert D page_fault crap 5 6) ready); [intros Hd st0 _; apply Hd|].
  apply (does_weaken _ (own 6)); [|intros st' [Hr _]; exact Hr].
  repeat (eapply does_bind; [first [apply own_store|apply own_assert]|]). apply own_assert.
Qed.

(** *** Setting up the page tables *)

(** The state in which [setup_mem] is called: two mapped pages whose frames
    follow each other, the second one zeroed. *)
Record fresh (st : bench W) : Prop := Fresh {
  fresh_crap : b_crap st = crap;
  fresh_crap2 : b_crap2 st = crap + 4096;
  fresh_page : crap mod 4096 = 0;
  fresh_root : sp_second (b_space st) = false;
  fresh_entries : exists e1 e2,
    entry (sp_pg1 (b_space st)) crap = Some e1 /\ entry (sp_pg1 (b_space st)) (crap + 4096) = Some e2
    /\ 0 <= e1 /\ has_bits e1 (PTE_P D) = true /\ has_bits e2 (PTE_P D) = true
    /\ PTE_ADDR D e1 = g /\ PTE_ADDR D e2 = f /\ f = g + 4096;
  fresh_zero : sp_phys (b_space st) f = 0;
}.

Lemma translate_entry pt va pte :
  va mod 4096 = 0 -> entry pt va = Some pte -> has_bits pte (PTE_P D) = true ->
  translate D pt va = Some (PTE_ADDR D pte).
Proof.
  intros Hva He Hp. unfold translate, entry in *. unfold align_down. rewrite Hva, Z.sub_0_r.
  destruct (List.find _ pt) as [[x p]|]; [|done]. injection He as ->. by rewrite Hp, Z.add_0_r.
Qed.

(** The walk changes the entry of its page. *)
Lemma walk_one (cb : walk_cb unit) pt va pte :
  va mod 4096 = 0 -> (forall v p, (cb v p tt).1.1 = 0) -> entry pt va = Some pte ->
  entry (walk_entries cb va va pt tt).1.2 va = Some (cb va pte tt).1.2.
Proof.
  intros Hva Hrc. unfold entry. induction pt as [|[v p] pt IH]; [discriminate|]. cbn [List.find walk_entries fst].
  unfold align_down in *. rewrite Hva, Z.sub_0_r in *. destruct (Z.eqb_spec v va) as [->|Hne].
  - intros [= ->]. rewrite Z.leb_refl. cbn [andb]. pose proof (Hrc va pte) as Hz.
    destruct (cb va pte tt) as [[rc p'] []]. cbn in Hz. subst rc. cbn [Z.eqb].
    destruct (walk_entries cb va va pt tt) as [[rc pt'] st']. cbn. by rewrite Z.eqb_refl.
  - intros He. specialize (IH He). destruct (Z.leb_spec va v), (Z.leb_spec v va); cbn [andb]; [lia|..];
      destruct (walk_entries cb va va pt tt) as [[rc pt'] []]; cbn in IH |- *; by destruct (Z.eqb_spec v va).
Qed.

Lemma setup_mem_sees :
  (forall pt, dune_vm_clone pt = pt) ->
  does fresh (setup_mem D dune_vm_page_walk dune_vm_clone) (sees false 0).
Proof.
  intros Hcl st [Hc Hc2 Hpg Hroot (e1 & e2 & H1 & H2 & Hpos & Hp1 & Hp2 & Ha1 & Ha2 & Hfg) Hz].
  assert (Hpg2 : (crap + 4096) mod 4096 = 0).
  { replace (crap + 4096) with (crap + 1 * 4096) by lia. by rewrite Z.mod_add. }
  unfold setup_mem. eexists. split; [reflexivity|]. rewrite walk_spec, Hc.
  destruct (walk_entries (setup_mem_cb D) crap crap (sp_pg1 (b_space st)) tt) as [[rc pg1] u] eqn:Hwalk.
  destruct (pte_addr_page e1 Hpos) as [Hal Hnn].
  destruct (pte_frame (PTE_ADDR D e1 + 4096)) as [Hfr Hpr];
    [apply Z.divide_add_r; [done|by exists 1]|lia|].
  assert (Hnew : entry pg1 crap = Some (setup_mem_cb D crap e1 tt).1.2).
  { pose proof (walk_one (setup_mem_cb D) (sp_pg1 (b_space st)) crap e1 Hpg ltac:(done) H1) as H.
    by rewrite Hwalk in H. }
  split; cbn; try done.
  - rewrite (translate_entry _ _ _ Hpg Hnew Hpr). cbn. rewrite Hfr. f_equal. lia.
  - rewrite Hcl, (translate_entry _ _ _ Hpg2 H2 Hp2). by rewrite Ha2.
  - rewrite Hcl, (translate_entry _ _ _ Hpg H1 Hp1). by rewrite Ha1.
Qed.

(** C34. The assertions of the address-space benchmark hold: when the two pages
    are mapped to frames that follow each other and the second is zero, and a
    clone of a page table has the same entries, [setup_mem] makes the address
    [_crap] in the first table and [_crap2] in the second name one frame; the
    check [ctx_switch] then runs to its end, and from there on so does each of
    the three benchmarks, in any order and any number of times, each write
    being seen through the other address. *)
Theorem switch_assertions_hold :
  (forall pt, dune_vm_clone pt = pt) ->
  does fresh (_ ← setup_mem D dune_vm_page_walk dune_vm_clone; ctx_switch os D page_fault) ready
  /\ does ready (no_switch D page_fault) ready
  /\ does ready (with_switch os D page_fault) ready
  /\ does ready (with_switch_no_flush os D page_fault) ready.
Proof.
  intros Hcl. split; [|split; [apply ready_no_switch|split; [apply ready_with_switch|apply ready_no_flush]]].
  eapply does_bind; [by apply setup_mem_sees|]. apply does_get. intros st Hst.
  rewrite (sees_crap _ _ _ Hst), (sees_crap2 _ _ _ Hst).
  destruct (does_round false 0 0 false st Hst) as (st' & He & H'). exists st'. split; [exact He|by exists 6].
Qed.
End switching.

(** ** Concrete instances *)

#[export] Instance pte_frame_x86 : pte_frame_ok dune_x86.
Proof.
  split.
  - intros a [k ->] Ha. cbn [PTE_P PTE_W PTE_U PTE_ADDR dune_x86]. rewrite <- !Z.lor_assoc.
    change (Z.lor 1 (Z.lor 2 4)) with 7.
    assert (Hl : Z.land (k * 4096) 7 = 0).
    { change 7 with (2 ^ 3 - 1). rewrite land_ones_mod by lia. replace (k * 4096) with (k * 512 * 2 ^ 3) by lia.
      by apply Z.mod_mul. }
    assert (He : Z.lor (k * 4096) 7 = k * 4096 + 7) by (pose proof (Z.add_lor_land (k * 4096) 7); lia).
    split.
    + rewrite He. unfold align_down. replace (k * 4096 + 7) with (7 + k * 4096) by lia.
      rewrite Z.mod_add by lia. change (7 mod 4096) with 7. lia.
    + unfold has_bits. rewrite Z.land_lor_distr_l. change (Z.land 7 1) with 1.
      destruct (Z.eqb_spec (Z.lor (Z.land (k * 4096) 1) 1) 0) as [H|]; [|done].
      apply Z.lor_eq_0_iff in H as [_ H]. discriminate.
  - intros pte Hp. cbn [PTE_ADDR dune_x86]. split; [by apply align_down_divide|].
    unfold align_down. pose proof (Z.mod_le pte 4096). lia.
Qed.

Definition demo_clock : bcall -> Z -> Z * Z * Z := fun c w =>
  match c with
  | BTime _ => (w / 1000000, w mod 1000000, w + 700001)
  | _ => (0, 0, w)
  end.

Definition demo_kern : kern := Kern [] 0 0 [] 0 (-1) 0 [] None [] (fun _ => 0) [].

Definition demo_bench : bench Z :=
  Bench 0 [] demo_kern false 0x10000 0x11000 0 0
    (Space false [(0x10000, 0x5007); (0x11000, 0x6007)] [] (fun _ => 0)).

Lemma switch_assertions_hold_witness :
  exists st', (_ ← setup_mem dune_x86 list_walker id; ctx_switch demo_clock dune_x86 (fun _ sp => sp)) demo_bench
              = (Ret tt, st').
Proof.
  destruct (switch_assertions_hold demo_clock dune_x86 list_walker id (fun _ sp => sp) 0x10000 0x6000 0x5000
              ltac:(reflexivity)) as [Hd _].
  destruct (Hd demo_bench) as (st' & He & _); [|by exists st'].
  split; try reflexivity. exists 0x5007, 0x6007. repeat split; reflexivity || lia.
Defined.

Lemma benchmark_latency_exact_witness :
  exists st', benchmark_latency demo_clock (mret tt) demo_bench = (Ret 700001, st').
Proof.
  assert (Hok : forall w, 0 <= w < 2 ^ 40 -> time_ok (Timeval (w / 1000000) (w mod 1000000))
                /\ usec (Timeval (w / 1000000) (w mod 1000000)) = w).
  { intros w Hw. unfold time_ok, usec. cbn [tv_sec tv_usec].
    pose proof (Z_div_mod_eq_full w 1000000). pose proof (Z.mod_pos_bound w 1000000). lia. }
  assert (Ht : forall n st, 0 <= b_world st -> b_world st + Z.of_nat n * 1400002 < 2 ^ 39 ->
            exists st', timed demo_clock (mret tt) n st (replicate n 700001) st').
  { induction n as [|n IH]; intros st H0 H1; [eexists; constructor|].
    destruct (Hok (b_world st) ltac:(lia)) as [Ha Hau].
    destruct (Hok (b_world st + 700001) ltac:(lia)) as [Hb Hbu].
    edestruct IH as [st' Hst']; [| |exists st'; cbn [replicate];
      replace 700001 with (usec (Timeval ((b_world st + 700001) / 1000000) ((b_world st + 700001) mod 1000000))
                           - usec (Timeval (b_world st / 1000000) (b_world st mod 1000000))) at 1 by lia;
      eapply timed_S; [reflexivity|reflexivity|reflexivity|exact Ha|exact Hb|lia|exact Hst']].
    - cbn. lia.
    - cbn -[Z.mul]. lia. }
  destruct (Ht 10%nat demo_bench) as [st' Hst']; [done|done|].
  exists st'. pose proof (benchmark_latency_exact demo_clock (mret tt) demo_bench _ st' Hst') as H.
  rewrite H by done. reflexivity.
Defined.
