(* ===== verification/Ipi.v ===== *)
(** The interrupt benchmarks (bench/src/bench_dune_ipi.c, posted_ipi.c and
    bench_fork_ipi.c): a sender on one core and a receiver on another play
    ping-pong with posted interrupts and three volatile flags. In the first
    program both are threads that main creates, in the second main itself is
    the sender, in the third they are two processes.

    The actors are the sender, the receiver, the receiver's core with its
    interrupt handler, and main. Accesses to the flags are atomic and
    sequentially consistent. An interrupt names a vector and the APIC of a
    core; at most one is pending, as one bit of the APIC. It is delivered on
    the core of the receiver, if that is the core it names, when a handler is
    registered for its vector and none is running; while the handler runs the
    receiver does not. What libdune and the kernel answer, the cores the
    scheduler chose and the APICs of the cores are the record [answers]; the
    results of pthread_create, which the code does not look at, are taken to be
    success. Messages are not modelled. *)

From stdpp Require Import base numbers list option.
From S2P Require Import Prelude Machines.

Definition THREAD_CORE : Z := 10.
Definition THREAD_2_CORE : Z := 20.
Definition TEST_VECTOR : Z := 0xf2.
Definition NUM_ITERATIONS : nat := Z.to_nat 1000000.

Inductive program : Type := DuneIpi | PostedIpi | ForkIpi.

#[export] Instance program_eq_dec : EqDecision program.
Proof. solve_decision. Defined.

(** The volatile flags. *)
Record globals := Globals { t2_ready : bool; wait : bool; done_ : bool }.

Definition globals_init : globals := Globals false true false.

Definition set_ready (g : globals) : globals := Globals true (wait g) (done_ g).
Definition set_wait (b : bool) (g : globals) : globals := Globals (t2_ready g) b (done_ g).
Definition set_done (g : globals) : globals := Globals (t2_ready g) (wait g) true.

(** t1_start, and the measuring part of main in posted_ipi.c: not started,
    pinning, entering Dune, setting up the APIC, waiting for the receiver,
    measuring the overhead, then for each turn sending, spinning and resetting
    the flag; the result; returned. *)
Inductive sender_pc : Type :=
  | SOff | SPin | SEnter | SApic | SWaitReady | SMeasure
  | SSend (i : nat) | SSpin (i : nat) | SReset (i : nat) | SFinish | SReturn.

#[export] Instance sender_pc_eq_dec : EqDecision sender_pc.
Proof. solve_decision. Defined.

(** t2_start *)
Inductive receiver_pc : Type := ROff | RPin | REnter | RApic | RRegister | RReady | RSpin | RReturn.

#[export] Instance receiver_pc_eq_dec : EqDecision receiver_pc.
Proof. solve_decision. Defined.

(** test_handler on the second core: not running, about to signal the end of
    the interrupt, about to clear the flag. *)
Inductive handler_pc : Type := HIdle | HEoi | HClear.

#[export] Instance handler_pc_eq_dec : EqDecision handler_pc.
Proof. solve_decision. Defined.

(** The steps of main; its state is the list of those left. *)
Inductive main_pc : Type := MPin | MInit | MApic | MCreate1 | MCreate2 | MPin2 | MSleep | MJoin1 | MJoin2.

#[export] Instance main_pc_eq_dec : EqDecision main_pc.
Proof. solve_decision. Defined.

Definition dune_ipi_main : list main_pc := [MInit; MCreate2; MCreate1; MJoin1; MJoin2].
Definition posted_ipi_main : list main_pc := [MPin; MInit; MApic; MCreate2; MPin2; MCreate1; MJoin1; MJoin2].
Definition fork_ipi_main : list main_pc := [MInit; MCreate1; MSleep; MCreate2; MJoin2; MJoin1].

Definition main_path (p : program) : list main_pc :=
  match p with
  | DuneIpi => dune_ipi_main
  | PostedIpi => posted_ipi_main
  | ForkIpi => fork_ipi_main
  end.

(** The check of the affinity in posted_ipi.c, dune_init or
    dune_init_and_enter, dune_enter in each thread, the two forks; the
    affinities of sender and receiver that the code sets without a look at the
    answer, the cores the two run on until then, and dune_apic_id_for_cpu. *)
Record answers := Answers {
  e_pin : Z; e_init : Z; e_enter1 : Z; e_enter2 : Z; e_fork1 : Z; e_fork2 : Z;
  e_affinity1 : Z; e_affinity2 : Z; e_core1 : Z; e_core2 : Z; e_apic : Z -> Z;
}.

(** The sender and the receiver see their own copies of the flags; threads
    share them. A pending interrupt is its vector and the APIC it is for;
    [registered] is the vector that has the handler; [sent] and [handled] count
    the interrupts. *)
Record ipi := Ipi {
  snd_pc : sender_pc;
  rcv_pc : receiver_pc;
  irr : option (Z * Z);
  hnd_pc : handler_pc;
  registered : option Z;
  g_snd : globals;
  g_rcv : globals;
  sent : nat;
  handled : nat;
  main_left : list main_pc;
  exit_code : Z;
  snd_core : Z;
  rcv_core : Z;
}.

Definition ipi_init (p : program) (e : answers) : ipi :=
  Ipi SOff ROff None HIdle None globals_init globals_init 0 0 (main_path p) 0 (e_core1 e) (e_core2 e).

Definition with_snd v s := Ipi v (rcv_pc s) (irr s) (hnd_pc s) (registered s) (g_snd s) (g_rcv s) (sent s) (handled s) (main_left s) (exit_code s) (snd_core s) (rcv_core s).
Definition with_rcv v s := Ipi (snd_pc s) v (irr s) (hnd_pc s) (registered s) (g_snd s) (g_rcv s) (sent s) (handled s) (main_left s) (exit_code s) (snd_core s) (rcv_core s).
Definition with_irr b n s := Ipi (snd_pc s) (rcv_pc s) b (hnd_pc s) (registered s) (g_snd s) (g_rcv s) n (handled s) (main_left s) (exit_code s) (snd_core s) (rcv_core s).
Definition with_hnd v s := Ipi (snd_pc s) (rcv_pc s) (irr s) v (registered s) (g_snd s) (g_rcv s) (sent s) (handled s) (main_left s) (exit_code s) (snd_core s) (rcv_core s).
Definition with_registered vec s := Ipi (snd_pc s) (rcv_pc s) (irr s) (hnd_pc s) (Some vec) (g_snd s) (g_rcv s) (sent s) (handled s) (main_left s) (exit_code s) (snd_core s) (rcv_core s).
Definition with_globals a b s := Ipi (snd_pc s) (rcv_pc s) (irr s) (hnd_pc s) (registered s) a b (sent s) (handled s) (main_left s) (exit_code s) (snd_core s) (rcv_core s).
Definition with_handled n s := Ipi (snd_pc s) (rcv_pc s) (irr s) (hnd_pc s) (registered s) (g_snd s) (g_rcv s) (sent s) n (main_left s) (exit_code s) (snd_core s) (rcv_core s).
Definition with_main l c s := Ipi (snd_pc s) (rcv_pc s) (irr s) (hnd_pc s) (registered s) (g_snd s) (g_rcv s) (sent s) (handled s) l c (snd_core s) (rcv_core s).

Definition with_cores a b s := Ipi (snd_pc s) (rcv_pc s) (irr s) (hnd_pc s) (registered s) (g_snd s) (g_rcv s) (sent s) (handled s) (main_left s) (exit_code s) a b.

Section ipi.
Context (p : program) (n : nat) (e : answers).

(** sched_cpuset, and the calls of pthread_setaffinity_np in posted_ipi.c: a
    call that fails leaves the thread where it is. *)
Definition pin_snd (ret : Z) (s : ipi) : ipi := if ret =? 0 then with_cores THREAD_CORE (rcv_core s) s else s.
Definition pin_rcv (ret : Z) (s : ipi) : ipi := if ret =? 0 then with_cores (snd_core s) THREAD_2_CORE s else s.

(** dune_apic_send_ipi(TEST_VECTOR, dune_apic_id_for_cpu(THREAD_2_CORE, NULL)) *)
Definition test_ipi : Z * Z := (TEST_VECTOR, e_apic e THREAD_2_CORE).
Definition send_ipi (s : ipi) : ipi := with_irr (Some test_ipi) (S (sent s)) s.

Definition shared : bool := negb (bool_decide (p = ForkIpi)).

(** A store to a flag by the sender, and by the receiver's core. *)
Definition put_snd (f : globals -> globals) (s : ipi) : ipi :=
  with_globals (f (g_snd s)) (if shared then f (g_rcv s) else g_rcv s) s.
Definition put_rcv (f : globals -> globals) (s : ipi) : ipi :=
  with_globals (if shared then f (g_snd s) else g_snd s) (f (g_rcv s)) s.

(** t1_start *)
Definition sender_step (s : ipi) : ipi :=
  match snd_pc s with
  | SOff | SReturn => s
  | SPin => with_snd SEnter (pin_snd (e_affinity1 e) s)
  | SEnter => if e_enter1 e =? 0 then with_snd SApic s else with_snd SReturn s
  | SApic => with_snd SWaitReady s
  | SWaitReady => if t2_ready (g_snd s) then with_snd SMeasure s else s
  | SMeasure => with_snd (SSend 0) s
  | SSend i => if (i <? n)%nat then with_snd (SSpin i) (send_ipi s) else with_snd SFinish s
  | SSpin i => if wait (g_snd s) then s else with_snd (SReset i) s
  | SReset i => with_snd (SSend (S i)) (put_snd (set_wait true) s)
  | SFinish => with_snd SReturn (put_snd set_done s)
  end.

(** t2_start; interrupted while the handler runs. *)
Definition receiver_step (s : ipi) : ipi :=
  if negb (bool_decide (hnd_pc s = HIdle)) then s else
  match rcv_pc s with
  | ROff | RReturn => s
  | RPin => with_rcv REnter (pin_rcv (e_affinity2 e) s)
  | REnter => if e_enter2 e =? 0 then with_rcv RApic s else with_rcv RReturn s
  | RApic => with_rcv RRegister s
  | RRegister => with_rcv RReady (with_registered TEST_VECTOR s)
  | RReady => with_rcv RSpin (put_rcv set_ready s)
  | RSpin => if done_ (g_rcv s) then with_rcv RReturn s else s
  end.

(** The receiver's core takes an interrupt: the one pending, if it is for this
    core and its vector has the handler. *)
Definition takes (s : ipi) : bool :=
  match irr s with
  | Some (vec, dest) => (dest =? e_apic e (rcv_core s)) && bool_decide (registered s = Some vec)
  | None => false
  end.

Definition deliver (s : ipi) : ipi := if takes s then with_hnd HEoi (with_irr None (sent s) s) else s.

Definition test_handler (s : ipi) : ipi :=
  match hnd_pc s with
  | HIdle => s
  | HEoi => with_hnd HClear s
  | HClear => with_hnd HIdle (with_handled (S (handled s)) (put_rcv (set_wait false) s))
  end.

Definition core_step (s : ipi) : ipi :=
  match hnd_pc s with HIdle => deliver s | _ => test_handler s end.

(** main *)
Definition main_step (s : ipi) : ipi :=
  match main_left s with
  | [] => s
  | pc :: l =>
      let next s := with_main l 0 s in
      let exit_ c s := with_main [] c s in
      match pc with
      | MPin => if e_pin e =? 0 then next (pin_snd (e_pin e) s) else exit_ 1 s
      | MInit => if e_init e =? 0 then next s else exit_ (e_init e) s
      | MApic | MSleep => next s
      | MPin2 => next (pin_rcv (e_affinity2 e) s)
      | MCreate1 =>
          if bool_decide (p = ForkIpi) && (e_fork1 e =? -1) then exit_ 1 s
          else next (with_snd (if bool_decide (p = PostedIpi) then SWaitReady else SPin) s)
      | MCreate2 =>
          if bool_decide (p = ForkIpi) && (e_fork2 e =? -1) then exit_ 1 (with_snd SReturn s)
          else next (with_rcv (if bool_decide (p = PostedIpi) then REnter else RPin) s)
      | MJoin1 => if bool_decide (snd_pc s = SReturn) then next s else s
      | MJoin2 => if bool_decide (rcv_pc s = RReturn) then next s else s
      end
  end.

Inductive role : Type := Sender | Receiver | Core | Main.

Definition ipi_act (r : role) (s : ipi) : ipi :=
  match r with
  | Sender => sender_step s
  | Receiver => receiver_step s
  | Core => core_step s
  | Main => main_step s
  end.

(** ** The protocol *)

(** The receiver has announced itself. *)
Definition announced (r : receiver_pc) : bool := match r with RSpin | RReturn => true | _ => false end.
Definition has_handler (r : receiver_pc) : bool := match r with RReady | RSpin | RReturn => true | _ => false end.

(** Where the interrupt of turn [i] is: nothing under way. *)
Definition idle (s : ipi) : Prop := irr s = None /\ hnd_pc s = HIdle.

Definition in_flight (i : nat) (s : ipi) : Prop :=
  (irr s = Some test_ipi /\ hnd_pc s = HIdle /\ wait (g_snd s) = true /\ handled s = i)
  \/ (irr s = None /\ hnd_pc s <> HIdle /\ wait (g_snd s) = true /\ handled s = i)
  \/ (idle s /\ wait (g_snd s) = false /\ handled s = S i).

(** What holds at each place of the sender. *)
Definition turn (s : ipi) : Prop :=
  match snd_pc s with
  | SSend i => (i <= n)%nat /\ t2_ready (g_snd s) = true /\ idle s /\ wait (g_snd s) = true
               /\ sent s = i /\ handled s = i
  | SSpin i => (i < n)%nat /\ t2_ready (g_snd s) = true /\ sent s = S i /\ in_flight i s
  | SReset i => (i < n)%nat /\ t2_ready (g_snd s) = true /\ idle s /\ wait (g_snd s) = false
                /\ sent s = S i /\ handled s = S i
  | SFinish | SReturn => t2_ready (g_snd s) = true /\ idle s /\ sent s = n /\ handled s = n
  | SMeasure => t2_ready (g_snd s) = true /\ idle s /\ wait (g_snd s) = true /\ sent s = O /\ handled s = O
  | _ => idle s /\ wait (g_snd s) = true /\ sent s = O /\ handled s = O
  end.

Record ipi_inv (s : ipi) : Prop := IpiInv {
  inv_shared : g_rcv s = g_snd s;
  inv_ready : t2_ready (g_snd s) = announced (rcv_pc s);
  inv_reg : registered s = if has_handler (rcv_pc s) then Some TEST_VECTOR else None;
  inv_done : done_ (g_snd s) = bool_decide (snd_pc s = SReturn);
  inv_end : rcv_pc s = RReturn -> done_ (g_snd s) = true;
  inv_turn : turn s;
}.
End ipi.

(** ** The functions of the programs *)

Definition t1_start (e : answers) : ipi -> ipi := sender_step DuneIpi NUM_ITERATIONS e.
Definition t2_start (e : answers) : ipi -> ipi := receiver_step DuneIpi e.
Definition posted_sender (e : answers) : ipi -> ipi := sender_step PostedIpi NUM_ITERATIONS e.
Definition posted_t2_start (e : answers) : ipi -> ipi := receiver_step PostedIpi e.
Definition posted_test_handler : ipi -> ipi := test_handler PostedIpi.
Definition fork_t1_start (e : answers) : ipi -> ipi := sender_step ForkIpi NUM_ITERATIONS e.
Definition fork_t2_start (e : answers) : ipi -> ipi := receiver_step ForkIpi e.
Definition fork_test_handler : ipi -> ipi := test_handler ForkIpi.
