(* ===== verification/IpiProps.v ===== *)
(** What the interrupt benchmarks guarantee: with threads every interrupt is
    handled exactly once before the next is sent and the program ends; when a
    side cannot enter Dune or the receiver cannot be pinned, or with processes,
    it never does. *)

From stdpp Require Import base numbers list option.
From S2P Require Import Prelude Machines Ipi.

#[local] Arguments Nat.ltb : simpl never.
#[local] Arguments shared : simpl never.

Section threads.
Context (p : program) (n : nat) (e : answers).
Context (Hp : p <> ForkIpi) (Hpin : e_pin e = 0) (Hinit : e_init e = 0)
        (He1 : e_enter1 e = 0) (He2 : e_enter2 e = 0)
        (Ha1 : e_affinity1 e = 0) (Ha2 : e_affinity2 e = 0).

Lemma is_shared : shared p = true.
Proof. unfold shared. by rewrite bool_decide_eq_false_2. Qed.

Ltac pins := unfold pin_snd, pin_rcv; rewrite ?Ha1, ?Ha2, ?Hpin; cbn.

Ltac crush := destruct_and?; split; unfold turn, idle, in_flight; cbn; try done;
  try (rewrite bool_decide_eq_false_2; done);
  repeat match goal with |- _ /\ _ => split end; try done; try lia; try congruence.

Lemma sender_inv s : ipi_inv n e s -> ipi_inv n e (sender_step p n e s).
Proof.
  intros [Hs Hr Hg Hd Hend Ht]. destruct s as [snd rcv ir hnd reg gs gr se ha ml ec sc rc]. cbn in *. subst gr.
  unfold sender_step. cbn. unfold turn, idle, in_flight, idle in Ht; cbn in Ht.
  destruct snd as [| | | | | |i|i|i| |]; cbn in *; try (by split).
  - unfold pin_snd. rewrite Ha1. by split.
  - rewrite He1. by split.
  - destruct (t2_ready gs) eqn:Hready; destruct Ht as ([? ?] & ? & ? & ?); crush.
  - destruct Ht as (Hrd & ? & ? & ? & ?). crush.
  - destruct Ht as (Hi & Hrd & [Hirr Hid] & Hw & Hse & Hha). subst. destruct (Nat.ltb_spec i n) as [Hlt|Hge].
    + crush. left. done.
    + assert (i = n) as -> by lia. crush.
  - destruct Ht as (Hi & Hrd & Hse & Ht). destruct (wait gs) eqn:Hw; [crush; naive_solver|].
    destruct Ht as [(_ & _ & ? & _)|[(_ & _ & ? & _)|(? & _ & ?)]]; [done..|]. crush; tauto.
  - destruct Ht as (Hi & Hrd & [Hirr Hid] & Hw & Hse & Hha). unfold put_snd, put_rcv. rewrite is_shared. crush.
  - unfold put_snd, put_rcv. rewrite is_shared. destruct Ht as (? & ? & ? & ?). crush.
Qed.

Lemma receiver_inv s : ipi_inv n e s -> ipi_inv n e (receiver_step p e s).
Proof.
  intros [Hs Hr Hg Hd Hend Ht]. destruct s as [snd rcv ir hnd reg gs gr se ha ml ec sc rc]. cbn in *. subst gr.
  unfold receiver_step. cbn. destruct (decide (hnd = HIdle)) as [->|Hn];
    [rewrite bool_decide_eq_true_2 by done|rewrite bool_decide_eq_false_2 by done; by split]. cbn.
  destruct rcv; cbn in *; try (by split).
  - unfold pin_rcv. rewrite Ha2. by split.
  - rewrite He2. by split.
  - unfold put_snd, put_rcv. rewrite is_shared. split; cbn; try done. revert Ht. unfold turn; cbn.
    destruct snd as [| | | | | |i|i|i| |]; unfold idle, in_flight, idle; cbn; rewrite ?Hr; naive_solver.
  - destruct (done_ gs) eqn:Hdn; [split; cbn; solve [done|congruence|exact Ht]|split; cbn; solve [done|congruence|exact Ht]].
Qed.

(** The handler runs, or an interrupt is pending, only while the sender spins. *)
Lemma busy_spins s :
  turn n e s -> irr s <> None \/ hnd_pc s <> HIdle -> exists i, snd_pc s = SSpin i.
Proof.
  unfold turn, idle. intros Ht Hb.
  destruct (snd_pc s) as [| | | | | |i|i|i| |]; destruct_and?; destruct Hb; congruence || eauto.
Qed.

Lemma core_inv s : ipi_inv n e s -> ipi_inv n e (core_step p e s).
Proof.
  intros [Hs Hr Hg Hd Hend Ht]. pose proof (busy_spins s Ht) as Hb.
  destruct s as [snd rcv ir hnd reg gs gr se ha ml ec sc rc]. cbn in *. subst gr. unfold core_step.
  destruct hnd; cbn.
  - unfold deliver. destruct (takes e _) eqn:Htk; [|by split]. unfold takes in Htk. cbn in Htk.
    destruct ir as [[vec dest]|]; [|done].
    destruct Hb as [i ->]; [by left|]. destruct Ht as (Hi & Hrd & Hse & Hf). unfold in_flight, idle in Hf; cbn in *.
    destruct Hf as [(_ & _ & ? & ?)|[(? & _)|((? & _) & _)]]; [|done..]. crush. right. left. done.
  - destruct Hb as [i ->]; [by right|]. destruct Ht as (Hi & Hrd & Hse & Hf). unfold in_flight, idle in Hf; cbn in *.
    destruct Hf as [(_ & ? & _)|[(? & _ & ? & ?)|((_ & ?) & _)]]; [done| |done]. crush. right. left. done.
  - destruct Hb as [i ->]; [by right|]. destruct Ht as (Hi & Hrd & Hse & Hf). unfold in_flight, idle in Hf; cbn in *.
    destruct Hf as [(_ & ? & _)|[(? & _ & ? & ?)|((_ & ?) & _)]]; [done| |done].
    unfold put_rcv. rewrite is_shared. crush. right. right. cbn. repeat split; cbn; done || congruence.
Qed.

(** ** main *)

Record main_inv (s : ipi) : Prop := MainInv {
  main_suffix : exists pre, main_path p = pre ++ main_left s;
  main_started1 : snd_pc s = SOff <-> MCreate1 ∈ main_left s;
  main_started2 : rcv_pc s = ROff <-> MCreate2 ∈ main_left s;
  main_joined1 : MJoin1 ∉ main_left s -> snd_pc s = SReturn;
  main_joined2 : MJoin2 ∉ main_left s -> rcv_pc s = RReturn;
}.

Lemma suffix_nodup s pc l : main_inv s -> main_left s = pc :: l -> pc ∉ l.
Proof.
  intros [[pre Hpre] _ _ _ _] Hl. assert (Hnd : NoDup (main_path p)) by (destruct p; by apply (bool_decide_unpack _)).
  rewrite Hpre, Hl in Hnd. apply list.NoDup_app in Hnd as (_ & _ & Hnd). by apply list.NoDup_cons in Hnd as [? _].
Qed.

(** The joins come last. *)
Lemma suffix_joins s l : main_inv s ->
  (main_left s = MJoin1 :: l -> l = [MJoin2]) /\ (main_left s = MJoin2 :: l -> l = []).
Proof.
  intros [[pre Hpre] _ _ _ _]. split; intros Hl; rewrite Hl in Hpre;
    destruct p; [| |done| | |done]; unfold main_path, dune_ipi_main, posted_ipi_main in Hpre;
    repeat (destruct pre as [|? pre]; cbn in Hpre; [congruence|injection Hpre as <- Hpre]);
    destruct pre; discriminate.
Qed.

Lemma main_inv_sender s : main_inv s -> main_inv (sender_step p n e s).
Proof.
  intros [H1 H2 H3 H4 H5]. destruct s as [snd rcv ir hnd reg gs gr se ha ml ec sc rc]. unfold sender_step. cbn in *.
  destruct snd; pins; try (destruct (_ =? _)); try (destruct (t2_ready gs)); try (destruct (_ <? _)%nat);
    try (destruct (wait gs)); split; cbn; try done; try (rewrite <- H2; done); intros Hn; specialize (H4 Hn); done.
Qed.

Lemma main_inv_receiver s : main_inv s -> main_inv (receiver_step p e s).
Proof.
  intros [H1 H2 H3 H4 H5]. destruct s as [snd rcv ir hnd reg gs gr se ha ml ec sc rc]. unfold receiver_step. cbn in *.
  destruct (negb _); [by split|].
  destruct rcv; pins; try (destruct (_ =? _)); try (destruct (done_ gr)); split; cbn; try done;
    try (rewrite <- H3; done); intros Hn; specialize (H5 Hn); done.
Qed.

Lemma main_inv_core s : main_inv s -> main_inv (core_step p e s).
Proof.
  intros [H1 H2 H3 H4 H5]. destruct s as [snd rcv ir hnd reg gs gr se ha ml ec sc rc]. unfold core_step, deliver. cbn in *.
  destruct hnd; [destruct (takes _ _)|..]; by split.
Qed.

(** One step of main, when nothing fails. *)
Lemma main_step_cases s pc l :
  main_left s = pc :: l ->
  main_step p e s = s \/
  main_step p e s
  = with_main l 0 (match pc with
                   | MCreate1 => with_snd (if bool_decide (p = PostedIpi) then SWaitReady else SPin) s
                   | MCreate2 => with_rcv (if bool_decide (p = PostedIpi) then REnter else RPin) s
                   | MPin => with_cores THREAD_CORE (rcv_core s) s
                   | MPin2 => with_cores (snd_core s) THREAD_2_CORE s
                   | _ => s
                   end)
  /\ (pc = MJoin1 -> snd_pc s = SReturn) /\ (pc = MJoin2 -> rcv_pc s = RReturn).
Proof.
  intros Hl. unfold main_step, pin_snd, pin_rcv. rewrite Hl, Ha2.
  destruct pc; rewrite ?Hpin, ?Hinit, ?(bool_decide_eq_false_2 (p = ForkIpi)) by done; cbn; try (by right).
  - destruct (decide (snd_pc s = SReturn)); [rewrite bool_decide_eq_true_2 by done; by right|].
    rewrite bool_decide_eq_false_2 by done. by left.
  - destruct (decide (rcv_pc s = RReturn)); [rewrite bool_decide_eq_true_2 by done; by right|].
    rewrite bool_decide_eq_false_2 by done. by left.
Qed.

Lemma main_inv_main s : main_inv s -> main_inv (main_step p e s).
Proof.
  intros Hm. destruct (main_left s) as [|pc l] eqn:Hl; [unfold main_step; by rewrite Hl|].
  pose proof (suffix_nodup s pc l Hm Hl) as Hnd.
  destruct (main_step_cases s pc l Hl) as [->|(-> & Hj1 & Hj2)]; [done|].
  destruct Hm as [[pre Hpre] H2 H3 H4 H5]. rewrite Hl in *.
  assert (Hmem : forall x, x <> pc -> x ∈ pc :: l <-> x ∈ l).
  { intros x Hx. rewrite elem_of_cons. split; [by intros [?|?]|by right]. }
  split.
  - exists (pre ++ [pc]). cbn. rewrite <- app_assoc. by destruct pc.
  - destruct (decide (pc = MCreate1)) as [->|Hne]; [|rewrite <- (Hmem MCreate1) by done; by destruct pc].
    cbn. split; [by destruct (bool_decide _)|done].
  - destruct (decide (pc = MCreate2)) as [->|Hne]; [|rewrite <- (Hmem MCreate2) by done; by destruct pc].
    cbn. split; [by destruct (bool_decide _)|done].
  - cbn. intros Hn. destruct (decide (pc = MJoin1)) as [->|Hne]; [by apply Hj1|].
    assert (Hr : snd_pc s = SReturn) by (apply H4; by rewrite Hmem).
    destruct pc; try done. exfalso. assert (SReturn = SOff) by (rewrite <- Hr; apply H2, list_elem_of_here). done.
  - cbn. intros Hn. destruct (decide (pc = MJoin2)) as [->|Hne]; [by apply Hj2|].
    assert (Hr : rcv_pc s = RReturn) by (apply H5; by rewrite Hmem).
    destruct pc; try done. exfalso. assert (RReturn = ROff) by (rewrite <- Hr; apply H3, list_elem_of_here). done.
Qed.

Lemma protocol_main s : main_inv s -> ipi_inv n e s -> ipi_inv n e (main_step p e s).
Proof.
  intros Hm Hi. destruct (main_left s) as [|pc l] eqn:Hl; [unfold main_step; by rewrite Hl|].
  destruct (main_step_cases s pc l Hl) as [->|(-> & _ & _)]; [done|].
  destruct Hm as [_ H2 H3 _ _]. rewrite Hl in *. destruct Hi as [Hs Hr Hg Hd Hend Ht].
  destruct pc; try (by split).
  - assert (Hoff : snd_pc s = SOff) by (apply H2, list_elem_of_here).
    unfold turn in Ht. rewrite Hoff in *. destruct (bool_decide (p = PostedIpi)); split; cbn; done.
  - assert (Hoff : rcv_pc s = ROff) by (apply H3, list_elem_of_here). rewrite Hoff in *.
    destruct (bool_decide (p = PostedIpi)); split; cbn; done.
Qed.

(** Where the two threads run, once they are pinned: in bench_dune_ipi each
    pins itself, in posted_ipi main pins both. *)
Record cores_inv (s : ipi) : Prop := CoresInv {
  core1_self : p = DuneIpi -> snd_pc s <> SOff -> snd_pc s <> SPin -> snd_core s = THREAD_CORE;
  core1_main : p = PostedIpi -> MPin ∉ main_left s -> snd_core s = THREAD_CORE;
  core2_self : p = DuneIpi -> rcv_pc s <> ROff -> rcv_pc s <> RPin -> rcv_core s = THREAD_2_CORE;
  core2_main : p = PostedIpi -> MPin2 ∉ main_left s -> rcv_core s = THREAD_2_CORE;
}.

Lemma cores_inv_sender s : cores_inv s -> cores_inv (sender_step p n e s).
Proof.
  intros [H1 H2 H3 H4]. destruct s as [snd rcv ir hnd reg gs gr se ha ml ec sc rc]. unfold sender_step. cbn in *.
  destruct snd; pins; try (destruct (_ =? _)); try (destruct (t2_ready gs)); try (destruct (_ <? _)%nat);
    try (destruct (wait gs)); split; cbn; try done; intros; by apply H1.
Qed.

Lemma cores_inv_receiver s : cores_inv s -> cores_inv (receiver_step p e s).
Proof.
  intros [H1 H2 H3 H4]. destruct s as [snd rcv ir hnd reg gs gr se ha ml ec sc rc]. unfold receiver_step. cbn in *.
  destruct (negb _); [by split|].
  destruct rcv; pins; try (destruct (_ =? _)); try (destruct (done_ gr)); split; cbn; try done;
    intros; by apply H3.
Qed.

Lemma cores_inv_core s : cores_inv s -> cores_inv (core_step p e s).
Proof.
  intros [H1 H2 H3 H4]. destruct s as [snd rcv ir hnd reg gs gr se ha ml ec sc rc]. unfold core_step, deliver. cbn in *.
  destruct hnd; [destruct (takes _ _)|..]; by split.
Qed.

Lemma cores_inv_main s : cores_inv s -> cores_inv (main_step p e s).
Proof.
  intros Hc. destruct (main_left s) as [|pc l] eqn:Hl; [unfold main_step; by rewrite Hl|].
  destruct (main_step_cases s pc l Hl) as [->|(-> & _ & _)]; [done|].
  destruct Hc as [H1 H2 H3 H4]. rewrite Hl in *.
  assert (Hkeep : forall x, x <> pc -> x ∉ l -> x ∉ pc :: l) by (intros x Hx Hn; apply not_elem_of_cons; done).
  destruct pc; split; cbn; try done; intros ->; try (by intros Hn; (apply H2 || apply H4); [done|by apply Hkeep]); auto.
Qed.

Lemma cores_inv_init : cores_inv (ipi_init p e).
Proof.
  split; cbn; try done; intros ->; intros Hn; destruct Hn; cbn;
    repeat first [apply list_elem_of_here | apply list_elem_of_further].
Qed.

Definition all_inv (s : ipi) : Prop := main_inv s /\ ipi_inv n e s /\ cores_inv s.

Lemma all_inv_init : all_inv (ipi_init p e).
Proof.
  assert (H : forall x, x ∈ [MCreate1; MCreate2; MJoin1; MJoin2] -> x ∈ main_path p).
  { intros x Hx. destruct p; [| |done]; cbn;
      repeat (apply elem_of_cons in Hx as [->|Hx];
              [repeat first [apply list_elem_of_here | apply list_elem_of_further]|]); by apply elem_of_nil in Hx. }
  split; [|split; [by split|apply cores_inv_init]].
  split; cbn; [by exists []|..]; try (split; [intros _; apply H|done]); try (intros Hn; destruct Hn; apply H).
  all: repeat first [apply list_elem_of_here | apply list_elem_of_further].
Qed.

Lemma all_inv_step r s : all_inv s -> all_inv (ipi_act p n e r s).
Proof.
  intros (Hm & Hi & Hc). destruct r; cbn; (split; [|split]); auto using sender_inv, receiver_inv, core_inv, protocol_main,
    main_inv_sender, main_inv_receiver, main_inv_core, main_inv_main,
    cores_inv_sender, cores_inv_receiver, cores_inv_core, cores_inv_main.
Qed.

(** main pins the threads of posted_ipi before it sends. *)
Lemma posted_order s : p = PostedIpi -> main_inv s -> MCreate1 ∉ main_left s -> MPin ∉ main_left s /\ MPin2 ∉ main_left s.
Proof.
  intros Hpp [[pre Hpre] _ _ _ _] Hn. rewrite Hpp in Hpre. unfold main_path, posted_ipi_main in Hpre.
  do 6 (destruct pre as [|? pre];
    [cbn in Hpre; rewrite <- Hpre in Hn; destruct Hn; repeat first [apply list_elem_of_here | apply list_elem_of_further]
    |injection Hpre as <- Hpre]).
  assert (Hin : forall x, x ∈ main_left s -> x ∈ [MJoin1; MJoin2]).
  { intros x Hx. rewrite Hpre. apply elem_of_app. by right. }
  split; intros Hx; apply Hin in Hx; rewrite !elem_of_cons, elem_of_nil in Hx; naive_solver.
Qed.

(** An interrupt is sent from THREAD_CORE to the receiver on THREAD_2_CORE. *)
Lemma measured_cores s :
  all_inv s -> snd_pc s <> SOff -> snd_pc s <> SPin -> t2_ready (g_snd s) = true ->
  snd_core s = THREAD_CORE /\ rcv_core s = THREAD_2_CORE.
Proof.
  intros (Hm & Hi & [H1 H2 H3 H4]) Hoff Hpn Hrd. rewrite (inv_ready _ _ _ Hi) in Hrd.
  assert (Hcase : p = DuneIpi \/ p = PostedIpi) by (destruct p; [by left|by right|done]).
  destruct Hcase as [Hd|Hd].
  - split; [by apply H1|]. apply H3; [done|by destruct (rcv_pc s)..].
  - destruct (posted_order s Hd Hm) as [Hx Hy]; [by rewrite <- (main_started1 _ Hm)|]. auto.
Qed.

(** ** Termination *)

Definition snd_rank (c : sender_pc) : nat :=
  match c with
  | SOff => 7 * n + 9 | SPin => 7 * n + 8 | SEnter => 7 * n + 7 | SApic => 7 * n + 6
  | SWaitReady => 7 * n + 5 | SMeasure => 7 * n + 4
  | SSend i => 7 * (n - i) + 3 | SSpin i => 7 * (n - i) - 1 | SReset i => 7 * (n - i) - 2
  | SFinish => 2 | SReturn => 0
  end.

Definition rcv_rank (c : receiver_pc) : nat :=
  match c with
  | ROff => 7 | RPin => 6 | REnter => 5 | RApic => 4 | RRegister => 3 | RReady => 2 | RSpin => 1 | RReturn => 0
  end.

Definition core_rank (s : ipi) : nat :=
  match irr s with Some _ => 3 | None => 0 end + match hnd_pc s with HIdle => 0 | HEoi => 2 | HClear => 1 end.

Definition ipi_rank (s : ipi) : nat :=
  length (main_left s) + snd_rank (snd_pc s) + rcv_rank (rcv_pc s) + core_rank s.

Definition ipi_final (s : ipi) : Prop := main_left s = [].

Lemma sender_rank s :
  ipi_inv n e s -> sender_step p n e s = s \/ (ipi_rank (sender_step p n e s) < ipi_rank s)%nat.
Proof.
  intros [_ _ _ _ _ Ht]. destruct s as [snd rcv ir hnd reg gs gr se ha ml ec sc rc].
  unfold turn, idle in Ht. unfold sender_step, ipi_rank, core_rank. cbn -[Nat.mul Nat.sub] in *.
  destruct snd as [| | | | | |i|i|i| |]; cbn -[Nat.mul Nat.sub] in *; try (by left); try (right; lia).
  - unfold pin_snd. rewrite Ha1. right. cbn -[Nat.mul Nat.sub]. lia.
  - rewrite He1. right. cbn -[Nat.mul Nat.sub]. lia.
  - destruct (t2_ready gs); [right; cbn -[Nat.mul Nat.sub]; lia|by left].
  - right. destruct_and?. subst. destruct (Nat.ltb_spec i n); cbn -[Nat.mul Nat.sub]; lia.
  - destruct_and?. destruct (wait gs); [by left|right]. cbn -[Nat.mul Nat.sub]. lia.
Qed.

Lemma receiver_rank s : receiver_step p e s = s \/ (ipi_rank (receiver_step p e s) < ipi_rank s)%nat.
Proof.
  destruct s as [snd rcv ir hnd reg gs gr se ha ml ec sc rc]. unfold receiver_step, ipi_rank, core_rank.
  cbn -[Nat.mul Nat.sub]. destruct (negb _); [by left|]. destruct rcv; cbn -[Nat.mul Nat.sub]; try (by left); try (right; lia).
  - unfold pin_rcv. rewrite Ha2. right. cbn -[Nat.mul Nat.sub]. lia.
  - rewrite He2. right. cbn -[Nat.mul Nat.sub]. lia.
  - destruct (done_ gr); [right; cbn -[Nat.mul Nat.sub]; lia|by left].
Qed.

Lemma core_rank_step s : core_step p e s = s \/ (ipi_rank (core_step p e s) < ipi_rank s)%nat.
Proof.
  destruct s as [snd rcv ir hnd reg gs gr se ha ml ec sc rc]. unfold core_step, ipi_rank, core_rank.
  cbn -[Nat.mul Nat.sub]. destruct hnd; cbn -[Nat.mul Nat.sub]; try (right; lia).
  unfold deliver, takes. cbn -[Nat.mul Nat.sub]. destruct ir as [[vec dest]|]; [|by left].
  destruct (_ && _); [right; cbn -[Nat.mul Nat.sub]; lia|by left].
Qed.

Lemma main_rank s : main_inv s -> main_step p e s = s \/ (ipi_rank (main_step p e s) < ipi_rank s)%nat.
Proof.
  intros [_ H2 H3 _ _]. destruct (main_left s) as [|pc l] eqn:Hl; [left; unfold main_step; by rewrite Hl|].
  destruct (main_step_cases s pc l Hl) as [->|(-> & _ & _)]; [by left|right].
  unfold ipi_rank. rewrite Hl. destruct pc; cbn -[Nat.mul Nat.sub]; try (unfold core_rank; cbn -[Nat.mul]; lia).
  - rewrite (proj2 H2) by (rewrite ?Hl; apply list_elem_of_here).
    unfold core_rank. destruct (bool_decide _); cbn -[Nat.mul Nat.sub]; lia.
  - rewrite (proj2 H3) by (rewrite ?Hl; apply list_elem_of_here).
    unfold core_rank. destruct (bool_decide _); cbn -[Nat.mul Nat.sub]; lia.
Qed.

(** While the sender is at work, somebody gets on: the sender itself, the
    receiver it waits for, or the core that handles its interrupt. *)
Lemma sender_helped s :
  all_inv s -> snd_pc s <> SOff -> snd_pc s <> SReturn -> rcv_pc s <> ROff ->
  exists r, r <> Main /\ ipi_act p n e r s <> s.
Proof.
  intros Hall Hoff Hret Hroff. pose proof (measured_cores s Hall) as Hcores.
  destruct Hall as (_ & [Hs Hr Hg Hd Hend Ht] & _).
  destruct s as [snd rcv ir hnd reg gs gr se ha ml ec sc rc]. cbn in *. subst gr.
  unfold turn, idle, in_flight, idle in Ht; cbn in Ht.
  destruct snd as [| | | | | |i|i|i| |]; try done;
    try (exists Sender; split; [done|]; cbn; pins; rewrite ?He1; cbn; intros [=]; done).
  - destruct (t2_ready gs) eqn:Hrd; [exists Sender; split; [done|]; cbn; rewrite Hrd; intros [=]|].
    exists Receiver. split; [done|]. destruct_and?. subst hnd. cbn. unfold receiver_step. cbn.
    destruct rcv; cbn in *; try done; pins; rewrite ?He2; cbn; intros [=].
  - exists Sender. split; [done|]. cbn. unfold sender_step. cbn. destruct (i <? n)%nat; intros [=].
  - destruct Ht as (_ & Hrd & _ & Ht). destruct (Hcores ltac:(done) ltac:(done) Hrd) as [_ ->].
    rewrite Hrd in Hr. assert (Hhas : has_handler rcv = true) by (by destruct rcv). rewrite Hhas in Hg. subst reg.
    destruct Ht as [(-> & -> & _)|[(_ & Hn & _)|(_ & Hw & _)]].
    + exists Core. split; [done|]. cbn. unfold core_step, deliver, takes, test_ipi. cbn.
      rewrite Z.eqb_refl, bool_decide_eq_true_2 by done. cbn. intros [=].
    + exists Core. split; [done|]. cbn. unfold core_step. cbn. by destruct hnd; [|intros [=]..].
    + exists Sender. split; [done|]. cbn. unfold sender_step. cbn. rewrite Hw. intros [=].
Qed.

Lemma ipi_helpful s :
  all_inv s -> ~ ipi_final s ->
  exists r, r ∈ [Sender; Receiver; Core; Main] /\ (ipi_rank (ipi_act p n e r s) < ipi_rank s)%nat.
Proof.
  intros Hinv Hn. pose proof Hinv as (Hm & Hi & _).
  assert (Hall : forall r, r ∈ [Sender; Receiver; Core; Main]).
  { intros []; repeat first [apply list_elem_of_here | apply list_elem_of_further]. }
  assert (Hdec : forall r, ipi_act p n e r s <> s -> (ipi_rank (ipi_act p n e r s) < ipi_rank s)%nat).
  { intros r Hne. destruct r; cbn in *.
    - by destruct (sender_rank s Hi).
    - by destruct (receiver_rank s).
    - by destruct (core_rank_step s).
    - by destruct (main_rank s Hm). }
  cut (exists r, ipi_act p n e r s <> s); [intros [r Hr]; exists r; auto|].
  unfold ipi_final in Hn. destruct (main_left s) as [|pc l] eqn:Hl; [done|].
  assert (Hpop : main_step p e s <> s \/ (pc = MJoin1 /\ snd_pc s <> SReturn) \/ (pc = MJoin2 /\ rcv_pc s <> RReturn)).
  { destruct (decide (pc = MJoin1 /\ snd_pc s <> SReturn)); [by right; left|].
    destruct (decide (pc = MJoin2 /\ rcv_pc s <> RReturn)); [by right; right|].
    left. intros He. apply (f_equal (length ∘ main_left)) in He. revert He. unfold main_step, compose, pin_snd, pin_rcv.
    rewrite Hl, Ha2.
    destruct pc; rewrite ?Hpin, ?Hinit, ?(bool_decide_eq_false_2 (p = ForkIpi)) by done; cbn; try lia.
    - rewrite bool_decide_eq_true_2 by (destruct (decide (snd_pc s = SReturn)); tauto). cbn. lia.
    - rewrite bool_decide_eq_true_2 by (destruct (decide (rcv_pc s = RReturn)); tauto). cbn. lia. }
  pose proof Hm as [_ H2 H3 H4 _]. rewrite Hl in *.
  destruct Hpop as [Hpop|[[-> Hne]|[-> Hne]]]; [by exists Main|..].
  - pose proof (proj1 (suffix_joins s l Hm) Hl) as ->.
    destruct (sender_helped s Hinv) as (r & _ & Hr); [..|by exists r].
    + rewrite H2, !elem_of_cons, elem_of_nil. naive_solver.
    + done.
    + rewrite H3, !elem_of_cons, elem_of_nil. naive_solver.
  - pose proof (proj2 (suffix_joins s l Hm) Hl) as ->. exists Receiver.
    assert (Hret : snd_pc s = SReturn) by (apply H4; rewrite !elem_of_cons, elem_of_nil; naive_solver).
    assert (Hro : rcv_pc s <> ROff) by (rewrite H3, !elem_of_cons, elem_of_nil; naive_solver).
    destruct Hi as [Hs Hr Hg Hd Hend Ht]. destruct s as [snd rcv ir hnd reg gs gr se ha ml ec sc rc]. cbn in *. subst snd gr.
    destruct Ht as (_ & [_ Hidle] & _). cbn in *. subst hnd. unfold receiver_step. cbn.
    rewrite bool_decide_eq_true_2 in Hd by done.
    destruct rcv; cbn; try done; pins; rewrite ?He2, ?Hd; cbn; intros [=].
Qed.

#[export] Instance ipi_final_dec s : Decision (ipi_final s).
Proof. unfold ipi_final. destruct (main_left s); [by left|by right]. Defined.

#[export] Instance ipi_progressing :
  progressing (ipi_act p n e) [Sender; Receiver; Core; Main] (fun _ => True) all_inv ipi_final ipi_rank.
Proof.
  split.
  - intros r s _. apply all_inv_step.
  - intros r s _ (Hm & Hi & _). destruct r; cbn; auto using sender_rank, receiver_rank, core_rank_step, main_rank.
  - apply ipi_helpful.
  - intros r s _ _ Hf. unfold ipi_final in *. destruct r; cbn.
    + unfold sender_step. destruct (snd_pc s); pins; try (destruct (_ =? _)); try (destruct (t2_ready _));
        try (destruct (_ <? _)%nat); try (destruct (wait _)); done.
    + unfold receiver_step. destruct (negb _); [done|].
      destruct (rcv_pc s); pins; try (destruct (_ =? _)); try (destruct (done_ _)); done.
    + unfold core_step, deliver, test_handler. destruct (hnd_pc s); [destruct (takes _ _)|..]; done.
    + unfold main_step. by rewrite Hf.
Qed.

(** Interrupts and their handling, in every state. *)
Lemma turn_counts s : turn n e s -> (handled s <= sent s <= S (handled s))%nat /\ (sent s <= n)%nat.
Proof.
  unfold turn, idle, in_flight, idle. destruct (snd_pc s); intros; destruct_and?; try lia.
Qed.

(** C14. The ping-pong of bench_dune_ipi and posted_ipi for any number [n] of
    turns (NUM_ITERATIONS in the programs), when both threads can be pinned to
    their cores and Dune can be initialised and entered: under
    every interleaving at most one interrupt is unanswered, so none is ever
    merged with the next one or lost; while one is pending it is for the core
    on which the receiver runs, THREAD_2_CORE, with the vector whose handler is
    registered, and the sender runs on THREAD_CORE; when the program has ended
    exactly [n] interrupts were sent and each was handled; and when every actor
    keeps getting turns the program does end, after 7n + 24 rounds at the
    latest. *)
Theorem ipi_ping_pong :
  (forall sched, let s := run (ipi_act p n e) sched (ipi_init p e) in
     (handled s <= sent s <= S (handled s))%nat /\ (sent s <= n)%nat
     /\ (forall vec dest, irr s = Some (vec, dest) ->
           snd_core s = THREAD_CORE /\ rcv_core s = THREAD_2_CORE
           /\ dest = e_apic e (rcv_core s) /\ registered s = Some vec)
     /\ (main_left s = [] -> sent s = n /\ handled s = n))
  /\ (forall rounds, Forall (fun l => round [Sender; Receiver; Core; Main] l) rounds ->
        (7 * n + 24 <= length rounds)%nat ->
        main_left (run (ipi_act p n e) (concat rounds) (ipi_init p e)) = []).
Proof.
  split.
  - intros sched s.
    assert (Hinv : all_inv s) by (apply run_stable; [intros r s0; apply all_inv_step|apply all_inv_init]).
    pose proof Hinv as (Hm & [_ Hrdy Hreg _ _ Ht] & _). destruct (turn_counts s Ht) as [H1 H2].
    split; [done|]. split; [done|]. split.
    + intros vec dest Hirr. destruct (busy_spins s Ht) as [i Hsp]; [left; by rewrite Hirr|].
      unfold turn in Ht. rewrite Hsp in Ht. destruct Ht as (_ & Hrd & _ & Hf).
      destruct (measured_cores s Hinv) as [Hc1 Hc2]; [by rewrite Hsp..|done|]. rewrite Hc1, Hc2, Hreg.
      rewrite Hrd in Hrdy. assert (Hhas : has_handler (rcv_pc s) = true) by (by destruct (rcv_pc s)). rewrite Hhas.
      unfold in_flight, idle in Hf. rewrite Hirr in Hf. unfold test_ipi in Hf.
      destruct Hf as [([= -> ->] & _)|[(? & _)|((? & _) & _)]]; done.
    + intros Hf. destruct Hm as [_ _ _ H4 _]. rewrite Hf in H4.
      unfold turn in Ht. rewrite (H4 (not_elem_of_nil _)) in Ht. tauto.
  - intros rounds Hr Hlen.
    apply (fair_terminates (ipi_act p n e) [Sender; Receiver; Core; Main] (fun _ => True) all_inv ipi_final ipi_rank);
      [apply _| |apply all_inv_init|].
    + eapply List.Forall_impl; [|exact Hr]. intros l Hl. split; [done|]. by apply Forall_true.
    + etransitivity; [|exact Hlen]. unfold ipi_rank, core_rank. destruct p; [| |done]; cbn -[Nat.mul]; lia.
Qed.
End threads.

(** ** Programs that hang *)

Section hangs.
Context (p : program) (n : nat) (e : answers).
Context (Hpin : e_pin e = 0) (Hinit : e_init e = 0) (Hf1 : e_fork1 e <> -1) (Hf2 : e_fork2 e <> -1).

Ltac cases := repeat match goal with |- context [if ?b then _ else _] => destruct b end.

(** The sender is before its loop. *)
Definition early (c : sender_pc) : bool :=
  match c with SOff | SPin | SEnter | SApic | SWaitReady => true | _ => false end.

(** The receiver has not announced itself and will not. *)
Definition silent (c : receiver_pc) : bool :=
  match c with ROff | RPin | REnter | RReturn => true | _ => false end.

Lemma fork_ok : bool_decide (p = ForkIpi) && (e_fork1 e =? -1) = false
                /\ bool_decide (p = ForkIpi) && (e_fork2 e =? -1) = false.
Proof. apply Z.eqb_neq in Hf1, Hf2. rewrite Hf1, Hf2, !andb_false_r. done. Qed.

(** main leaves a join on its list while the thread has not returned. *)
Lemma main_keeps pc s :
  (pc = MJoin1 /\ snd_pc s <> SReturn \/ pc = MJoin2 /\ rcv_pc s <> RReturn) ->
  pc ∈ main_left s -> pc ∈ main_left (main_step p e s).
Proof.
  intros Hpc Hin. destruct fork_ok as [Hk1 Hk2]. unfold main_step, pin_snd, pin_rcv. destruct (main_left s) as [|x l] eqn:Hl; [by apply elem_of_nil in Hin|].
  destruct x; rewrite ?Hpin, ?Hinit, ?Hk1, ?Hk2; cbn;
    try (apply elem_of_cons in Hin as [->|?]; [by destruct Hpc as [[? _]|[? _]]|done]).
  - destruct (bool_decide (snd_pc s = SReturn)) eqn:Hb; [|congruence].
    apply bool_decide_eq_true_1 in Hb. cbn. apply elem_of_cons in Hin as [->|?]; [|done].
    by destruct Hpc as [[_ ?]|[? _]].
  - destruct (bool_decide (rcv_pc s = RReturn)) eqn:Hb; [|congruence].
    apply bool_decide_eq_true_1 in Hb. cbn. apply elem_of_cons in Hin as [->|?]; [|done].
    by destruct Hpc as [[? _]|[_ ?]].
Qed.

Lemma main_snd s : snd_pc (main_step p e s) = snd_pc s
  \/ snd_pc (main_step p e s) = (if bool_decide (p = PostedIpi) then SWaitReady else SPin).
Proof.
  destruct fork_ok as [Hk1 Hk2]. unfold main_step, pin_snd, pin_rcv. destruct (main_left s) as [|x l]; [by left|].
  destruct x; rewrite ?Hpin, ?Hinit, ?Hk1, ?Hk2; cbn; auto;
    cases; auto.
Qed.

Lemma main_rcv s : rcv_pc (main_step p e s) = rcv_pc s
  \/ rcv_pc (main_step p e s) = (if bool_decide (p = PostedIpi) then REnter else RPin).
Proof.
  destruct fork_ok as [Hk1 Hk2]. unfold main_step, pin_snd, pin_rcv. destruct (main_left s) as [|x l]; [by left|].
  destruct x; rewrite ?Hpin, ?Hinit, ?Hk1, ?Hk2; cbn; auto;
    cases; auto.
Qed.

Lemma main_rest s : g_snd (main_step p e s) = g_snd s /\ g_rcv (main_step p e s) = g_rcv s
  /\ sent (main_step p e s) = sent s.
Proof.
  unfold main_step, pin_snd, pin_rcv. destruct (main_left s) as [|x l]; [done|].
  destruct x; cbn; cases; done.
Qed.

Record stuck1 (s : ipi) : Prop := Stuck1 {
  stuck_flag : t2_ready (g_snd s) = false;
  stuck_snd : early (snd_pc s) = true;
  stuck_sent : sent s = O;
  stuck_join : MJoin1 ∈ main_left s;
  stuck_rcv : shared p = true -> silent (rcv_pc s) = true;
}.

Lemma stuck1_step r s :
  (e_enter1 e = 0) -> (shared p = true -> e_enter2 e <> 0) -> stuck1 s -> stuck1 (ipi_act p n e r s).
Proof.
  intros He1 He2 [H1 H2 H3 H4 H5]. destruct r; cbn.
  - destruct s as [snd rcv ir hnd reg gs gr se ha ml ec sc rc]. unfold sender_step, pin_snd. cbn in *.
    destruct snd; try discriminate; rewrite ?He1, ?H1; cbn; cases; by split.
  - destruct s as [snd rcv ir hnd reg gs gr se ha ml ec sc rc]. unfold receiver_step, pin_rcv. cbn in *.
    destruct (negb _); [by split|]. unfold put_rcv. destruct (shared p) eqn:Hsh; cbn.
    + specialize (He2 eq_refl). specialize (H5 eq_refl). apply Z.eqb_neq in He2.
      destruct rcv; try discriminate; rewrite ?He2; cbn; cases; by split.
    + destruct rcv; cbn; cases; split; cbn; done || congruence.
  - destruct s as [snd rcv ir hnd reg gs gr se ha ml ec sc rc]. unfold core_step, deliver. cbn in *.
    destruct hnd; [destruct (takes _ _)|..]; split; cbn; try done; by destruct (shared p).
  - destruct (main_rest s) as (Hg & _ & Hse). split; rewrite ?Hg, ?Hse; try done.
    + destruct (main_snd s) as [->| ->]; [done|]. by destruct (bool_decide _).
    + apply main_keeps; [|done]. left. split; [done|]. intros Hx. by rewrite Hx in H2.
    + intros Hsh. destruct (main_rcv s) as [->| ->]; [by apply H5|]. by destruct (bool_decide _).
Qed.

Record stuck2 (s : ipi) : Prop := Stuck2 {
  stuck2_flag : done_ (g_rcv s) = false;
  stuck2_snd : match snd_pc s with SOff | SPin | SEnter | SReturn => True | _ => False end;
  stuck2_rcv : rcv_pc s <> RReturn;
  stuck2_join : MJoin2 ∈ main_left s;
}.

Lemma stuck2_step r s :
  p = DuneIpi -> e_enter1 e <> 0 -> e_enter2 e = 0 -> stuck2 s -> stuck2 (ipi_act p n e r s).
Proof.
  intros Hp He1 He2 [H1 H2 H3 H4]. destruct r; cbn.
  - destruct s as [snd rcv ir hnd reg gs gr se ha ml ec sc rc]. unfold sender_step, pin_snd. cbn in *.
    apply Z.eqb_neq in He1. destruct snd; try done; rewrite ?He1; cbn; cases; by split.
  - destruct s as [snd rcv ir hnd reg gs gr se ha ml ec sc rc]. unfold receiver_step, pin_rcv. cbn in *.
    destruct (negb _); [by split|]. destruct rcv; try done; rewrite ?He2, ?H1; cbn; cases; by split.
  - destruct s as [snd rcv ir hnd reg gs gr se ha ml ec sc rc]. unfold core_step, deliver. cbn in *.
    destruct hnd; [destruct (takes _ _)|..]; by split.
  - destruct (main_rest s) as (_ & Hg & _). split; rewrite ?Hg; try done.
    + destruct (main_snd s) as [->| ->]; [done|]. by rewrite Hp.
    + destruct (main_rcv s) as [->| ->]; [done|]. by rewrite Hp.
    + apply main_keeps; [|done]. by right.
Qed.

(** The receiver runs on a core that the interrupt does not name. *)
Record stuck3 (s : ipi) : Prop := Stuck3 {
  stuck3_snd : match snd_pc s with SSend i => i = O | SReset _ | SFinish | SReturn => False | _ => True end;
  stuck3_wait : wait (g_snd s) = true;
  stuck3_core : rcv_core s = e_core2 e;
  stuck3_irr : irr s = None \/ irr s = Some (test_ipi e);
  stuck3_hnd : hnd_pc s = HIdle;
  stuck3_handled : handled s = O;
  stuck3_join : MJoin1 ∈ main_left s;
}.

Lemma main_other s : e_affinity2 e <> 0 ->
  rcv_core (main_step p e s) = rcv_core s /\ irr (main_step p e s) = irr s
  /\ hnd_pc (main_step p e s) = hnd_pc s /\ handled (main_step p e s) = handled s.
Proof.
  intros Ha%Z.eqb_neq. unfold main_step, pin_snd, pin_rcv. destruct (main_left s) as [|x l]; [done|].
  destruct x; rewrite ?Ha; cbn; cases; done.
Qed.

Lemma stuck3_step r s :
  (0 < n)%nat -> e_enter1 e = 0 -> e_affinity2 e <> 0 -> e_apic e (e_core2 e) <> e_apic e THREAD_2_CORE ->
  stuck3 s -> stuck3 (ipi_act p n e r s).
Proof.
  intros Hn He1 Ha Hap [H1 H2 H3 H4 H5 H6 H7]. destruct r; cbn.
  - destruct s as [snd rcv ir hnd reg gs gr se ha ml ec sc rc]. unfold sender_step, pin_snd. cbn in *.
    destruct snd as [| | | | | |i|i|i| |]; try done; rewrite ?He1, ?H2; cbn; try (cases; by split).
    subst i. rewrite (proj2 (Nat.ltb_lt 0 n) Hn). split; cbn; try done. by right.
  - destruct s as [snd rcv ir hnd reg gs gr se ha ml ec sc rc]. unfold receiver_step, pin_rcv, put_rcv. cbn in *.
    apply Z.eqb_neq in Ha. destruct (negb _); [by split|].
    destruct rcv; rewrite ?Ha; cbn; cases; by split.
  - unfold core_step, deliver, takes. rewrite H5, H3.
    destruct H4 as [Hir|Hir]; rewrite Hir; [split; by try left|].
    unfold test_ipi. rewrite (proj2 (Z.eqb_neq _ _)) by congruence. cbn. split; by try right.
  - destruct (main_rest s) as (Hg & _ & _). destruct (main_other s Ha) as (Hc & Hi & Hh & Hd).
    split; rewrite ?Hg, ?Hc, ?Hi, ?Hh, ?Hd; try done.
    + destruct (main_snd s) as [->| ->]; [done|]. by destruct (bool_decide _).
    + apply main_keeps; [|done]. left. split; [done|]. intros Hx. by rewrite Hx in H1.
Qed.
End hangs.

(** When the interrupt benchmarks hang: under no schedule does the program
    end, and in the first two cases no interrupt is ever sent: (1)
    bench_fork_ipi, even when every call succeeds, since the flag the sender
    spins on is a copy of its own, which the receiver's process never writes;
    (2) with threads, when the receiver cannot enter Dune; (3) in
    bench_dune_ipi, when the sender cannot, since the receiver then waits for
    a flag nobody sets; (4) with threads that enter Dune, when the affinity of
    the receiver cannot be set and it runs on another core than the interrupt
    names, which no handler then answers. *)
Theorem ipi_hangs p n e sched :
  e_pin e = 0 -> e_init e = 0 -> e_fork1 e <> -1 -> e_fork2 e <> -1 ->
  let s := run (ipi_act p n e) sched (ipi_init p e) in
  (p = ForkIpi /\ e_enter1 e = 0 -> main_left s <> [] /\ sent s = O)
  /\ (p <> ForkIpi /\ e_enter1 e = 0 /\ e_enter2 e <> 0 -> main_left s <> [] /\ sent s = O)
  /\ (p = DuneIpi /\ e_enter1 e <> 0 /\ e_enter2 e = 0 -> main_left s <> [])
  /\ (p <> ForkIpi /\ (0 < n)%nat /\ e_enter1 e = 0 /\ e_affinity2 e <> 0
      /\ e_apic e (e_core2 e) <> e_apic e THREAD_2_CORE -> main_left s <> [] /\ handled s = O).
Proof.
  intros Hpin Hinit Hf1 Hf2 s.
  assert (Hgo1 : e_enter1 e = 0 -> (shared p = true -> e_enter2 e <> 0) -> main_left s <> [] /\ sent s = O).
  { intros He1 He2. assert (Hst : stuck1 p s).
    { apply run_stable; [intros r s0; by apply stuck1_step|].
      split; try done. destruct p; cbn; repeat first [apply list_elem_of_here | apply list_elem_of_further]. }
    destruct Hst as [_ _ Hse Hj _]. split; [|done]. intros Hn. rewrite Hn in Hj. by apply elem_of_nil in Hj. }
  split; [|split; [|split]].
  - intros [-> He1]. by apply Hgo1.
  - intros (Hp & He1 & He2). by apply Hgo1.
  - intros (-> & He1 & He2). assert (Hst : stuck2 s).
    { apply run_stable; [intros r s0; by apply stuck2_step|].
      split; try done. cbn. repeat first [apply list_elem_of_here | apply list_elem_of_further]. }
    destruct Hst as [_ _ _ Hj]. intros Hn. rewrite Hn in Hj. by apply elem_of_nil in Hj.
  - intros (Hp & Hn & He1 & Ha & Hap). assert (Hst : stuck3 e s).
    { apply run_stable; [intros r s0; by apply stuck3_step|].
      split; try done; [by left|]. destruct p; cbn; repeat first [apply list_elem_of_here | apply list_elem_of_further]. }
    destruct Hst as [_ _ _ _ _ Hh Hj]. split; [|done]. intros Hm. rewrite Hm in Hj. by apply elem_of_nil in Hj.
Qed.

(** ** Witnesses *)

(** Every call succeeds; the threads start on cores 0 and 1, and the APIC of a
    core has twice its number. *)
Definition all_succeed : answers := Answers 0 0 0 0 1 1 0 0 0 1 (fun c => 2 * c).

(** As before, but the affinity of the receiver is refused. *)
Definition unpinned : answers := Answers 0 0 0 0 1 1 0 (-1) 0 1 (fun c => 2 * c).

(** A short run, and the programs with their own number of turns. *)
Lemma ipi_ping_pong_witness :
  main_left (run (ipi_act DuneIpi 3 all_succeed)
                 (concat (replicate 45 [Main; Receiver; Sender; Core])) (ipi_init DuneIpi all_succeed)) = []
  /\ (forall sched, let s := run (ipi_act PostedIpi NUM_ITERATIONS all_succeed) sched (ipi_init PostedIpi all_succeed) in
        main_left s = [] -> sent s = NUM_ITERATIONS /\ handled s = NUM_ITERATIONS).
Proof.
  split.
  - destruct (ipi_ping_pong DuneIpi 3 all_succeed ltac:(done) eq_refl eq_refl eq_refl eq_refl eq_refl eq_refl) as [_ H].
    apply (H (replicate 45 [Main; Receiver; Sender; Core])); [|cbn; lia].
    apply Forall_replicate. intros x _. destruct x; repeat first [apply list_elem_of_here | apply list_elem_of_further].
  - destruct (ipi_ping_pong PostedIpi NUM_ITERATIONS all_succeed ltac:(done) eq_refl eq_refl eq_refl eq_refl eq_refl eq_refl)
      as [H _].
    intros sched. apply (H sched).
Defined.

Lemma ipi_hangs_witness :
  main_left (run (ipi_act ForkIpi 3 all_succeed)
                 (concat (replicate 20 [Main; Receiver; Sender; Core])) (ipi_init ForkIpi all_succeed)) <> []
  /\ main_left (run (ipi_act DuneIpi 3 unpinned)
                 (concat (replicate 20 [Main; Receiver; Sender; Core])) (ipi_init DuneIpi unpinned)) <> [].
Proof.
  split.
  - destruct (ipi_hangs ForkIpi 3 all_succeed (concat (replicate 20 [Main; Receiver; Sender; Core]))
                eq_refl eq_refl ltac:(done) ltac:(done)) as [H _].
    by apply H.
  - destruct (ipi_hangs DuneIpi 3 unpinned (concat (replicate 20 [Main; Receiver; Sender; Core]))
                eq_refl eq_refl ltac:(done) ltac:(done)) as (_ & _ & _ & H).
    apply H. repeat split; done || lia.
Defined.
