(* ===== verification/BenchFault.v ===== *)
(** The fault benchmarks (bench/include/bench.h, bench/src/bench_dune.c and
    bench/src/bench_linux.c): timing with the cycle counter, and the two
    programs of Appel and Li, which protect pages, write to them, and unprotect
    them in the fault handler.

    The readings of the cycle counter are a parameter, a sequence of register
    pairs; so are dune_vm_mprotect, dune_vm_map_pages, the kernel's mprotect
    and mmap, and what becomes of a fault when no handler is registered. A page
    table maps page numbers to entries; a store to a page that is present and
    writable sets its accessed and dirty bits, any other faults, and is retried
    after the handler. The translation cache is not modelled, its flushes are
    recorded. *)

From stdpp Require Import base numbers list option gmap.
From S2P Require Import Prelude Platform.

(** ** bench.h *)

Definition NRPGS : Z := 100.
Definition N : Z := 10000.

(** rdtsc: the two halves of the counter, as the code puts them together. *)
Definition rdtsc_value (ad : Z * Z) : Z := Z.lor ad.1 (Z.shiftl ad.2 32).

(** A loop [for (i = first; i < first + n; i++)]. *)
Fixpoint for_ {S} (n : nat) (i : Z) (body : Z -> M S unit) : M S unit :=
  match n with
  | O => mret tt
  | Datatypes.S n => _ ← body i; for_ n (i + 1) body
  end.

(** measure_tsc_overhead on a sequence of readings, from number [k] on. *)
Fixpoint overhead_loop (tsc : nat -> Z * Z) (n k : nat) (overhead : Z) : Z :=
  match n with
  | O => overhead
  | S n =>
      let t0 := rdtsc_value (tsc k) in
      let t1 := rdtsc_value (tsc (S k)) in
      let d := wrap64 (t1 - t0) in
      overhead_loop tsc n (S (S k)) (if d <? overhead then d else overhead)
  end.

Definition measure_tsc_overhead (tsc : nat -> Z * Z) (k : nat) : Z :=
  overhead_loop tsc (Z.to_nat N) k (2 ^ 64 - 1).

(** The accounting of the programs, in unsigned long. *)
Definition net (t1 t0 overhead : Z) : Z := wrap64 (wrap64 (t1 - t0) - overhead).
Definition user_fault (time overhead : Z) : Z := wrap64 (time - wrap64 (overhead * NRPGS)) / NRPGS.

(** The lines the programs print, with the numbers in them. *)
Inductive fb_line : Type :=
  | TscOverheadIs (v : Z) | BenchmarkingDune | BenchmarkingLinux
  | SystemCallTook (v : Z) | KernelFaultTook (v : Z) | UserFaultTook (v : Z)
  | Prot1Took (v : Z) | ProtNTook (v : Z)
  | DuneInitFailed | MappingFailed.

(** The static variables of both programs, with the machine: the number of
    counter readings made, the pages, the memory, the handler installed (0 for
    none), the faults taken, the flushes, the system calls and the lines
    printed. *)
Record fb := Fb {
  fb_now : nat;
  fb_pages : gmap Z Z;
  fb_mem : Z -> Z;
  fb_base : Z;               (* mem *)
  fb_time : Z;               (* my_time, time *)
  fb_trap : Z;               (* trap_tsc *)
  fb_overhead : Z;
  fb_handler : nat;
  fb_faults : nat;
  fb_flushes : list Z;
  fb_calls : nat;
  fb_out : list fb_line;
}.

Definition with_now v s := Fb v (fb_pages s) (fb_mem s) (fb_base s) (fb_time s) (fb_trap s) (fb_overhead s) (fb_handler s) (fb_faults s) (fb_flushes s) (fb_calls s) (fb_out s).
Definition with_pages v s := Fb (fb_now s) v (fb_mem s) (fb_base s) (fb_time s) (fb_trap s) (fb_overhead s) (fb_handler s) (fb_faults s) (fb_flushes s) (fb_calls s) (fb_out s).
Definition with_fmem v s := Fb (fb_now s) (fb_pages s) v (fb_base s) (fb_time s) (fb_trap s) (fb_overhead s) (fb_handler s) (fb_faults s) (fb_flushes s) (fb_calls s) (fb_out s).
Definition with_base v s := Fb (fb_now s) (fb_pages s) (fb_mem s) v (fb_time s) (fb_trap s) (fb_overhead s) (fb_handler s) (fb_faults s) (fb_flushes s) (fb_calls s) (fb_out s).
Definition with_time v s := Fb (fb_now s) (fb_pages s) (fb_mem s) (fb_base s) v (fb_trap s) (fb_overhead s) (fb_handler s) (fb_faults s) (fb_flushes s) (fb_calls s) (fb_out s).
Definition with_trap v s := Fb (fb_now s) (fb_pages s) (fb_mem s) (fb_base s) (fb_time s) v (fb_overhead s) (fb_handler s) (fb_faults s) (fb_flushes s) (fb_calls s) (fb_out s).
Definition with_overhead v s := Fb (fb_now s) (fb_pages s) (fb_mem s) (fb_base s) (fb_time s) (fb_trap s) v (fb_handler s) (fb_faults s) (fb_flushes s) (fb_calls s) (fb_out s).
Definition with_handler v s := Fb (fb_now s) (fb_pages s) (fb_mem s) (fb_base s) (fb_time s) (fb_trap s) (fb_overhead s) v (fb_faults s) (fb_flushes s) (fb_calls s) (fb_out s).
Definition with_fault s := Fb (fb_now s) (fb_pages s) (fb_mem s) (fb_base s) (fb_time s) (fb_trap s) (fb_overhead s) (fb_handler s) (S (fb_faults s)) (fb_flushes s) (fb_calls s) (fb_out s).
Definition with_flush a s := Fb (fb_now s) (fb_pages s) (fb_mem s) (fb_base s) (fb_time s) (fb_trap s) (fb_overhead s) (fb_handler s) (fb_faults s) (fb_flushes s ++ [a]) (fb_calls s) (fb_out s).
Definition with_call s := Fb (fb_now s) (fb_pages s) (fb_mem s) (fb_base s) (fb_time s) (fb_trap s) (fb_overhead s) (fb_handler s) (fb_faults s) (fb_flushes s) (S (fb_calls s)) (fb_out s).
Definition with_out v s := Fb (fb_now s) (fb_pages s) (fb_mem s) (fb_base s) (fb_time s) (fb_trap s) (fb_overhead s) (fb_handler s) (fb_faults s) (fb_flushes s) (fb_calls s) (fb_out s ++ [v]).

Abbreviation FB := (M fb).

Definition PAGE : Z := 4096.

(** ** What both programs share *)

Section timing.
Context (tsc : nat -> Z * Z).

(** rdtscll, rdtscllp and dune_get_ticks: the next reading. *)
Definition ticks : FB Z :=
  k ← gets fb_now;
  _ ← modify (with_now (S k));
  mret (rdtsc_value (tsc k)).

Definition print (l : fb_line) : FB unit := modify (with_out l).

(** main: overhead = measure_tsc_overhead(), and prints it. *)
Definition calibrate : FB unit :=
  k ← gets fb_now;
  let overhead := measure_tsc_overhead tsc k in
  _ ← modify (with_now (k + 2 * Z.to_nat N));
  _ ← modify (with_overhead overhead);
  print (TscOverheadIs overhead).

(** A measurement around [c], with its correction, for [n] repetitions. *)
Definition measured (line : Z -> fb_line) (c : FB unit) (n : Z) : FB unit :=
  t0 ← ticks;
  _ ← c;
  t1 ← ticks;
  o ← gets fb_overhead;
  print (line (net t1 t0 o / n)).

Definition benchmark_syscall : FB unit :=
  measured SystemCallTook (for_ (Z.to_nat N) 0 (fun _ => modify with_call)) N.
End timing.

(** ** bench_dune.c *)

Definition MAP_ADDR : Z := 0x400000000000.
Definition FAULT_ADDR : Z := 0x500000000000.

Section dune.
Context (tsc : nat -> Z * Z) (D : dune_abi) (PTE_A : Z).
Context (dune_vm_mprotect : gmap Z Z -> Z -> Z -> Z -> gmap Z Z).
Context (dune_vm_map_pages : gmap Z Z -> Z -> Z -> Z -> Z * gmap Z Z).
Context (dune_mmap : gmap Z Z -> Z -> Z -> Z * gmap Z Z) (default_fault : Z -> gmap Z Z -> gmap Z Z).

(** The bits the handlers set. *)
Definition fault_bits : Z := Z.lor (Z.lor (Z.lor (Z.lor (PTE_P D) (PTE_W D)) (PTE_U D)) PTE_A) (PTE_D D).

(** dune_vm_lookup(pgroot, addr, 0, &pte): without an entry [pte] is
    uninitialised. *)
Definition lookup_pte (addr : Z) : FB Z :=
  pt ← gets fb_pages;
  match pt !! (addr / PAGE) with
  | Some pte => mret pte
  | None => stop UB
  end.

Definition set_pte (addr pte : Z) : FB unit :=
  modify (fun s => with_pages (<[addr / PAGE := pte]> (fb_pages s)) s).

Definition dune_handler1 (addr : Z) : FB unit :=
  t ← ticks tsc;
  _ ← modify (fun s => with_time (wrap64 (fb_time s + wrap64 (t - fb_trap s))) s);
  pte ← lookup_pte addr;
  _ ← set_pte addr (Z.lor pte fault_bits);
  pte ← lookup_pte (addr + NRPGS * PAGE);
  let accessed := Z.land pte PTE_A in
  _ ← set_pte (addr + NRPGS * PAGE) (PTE_ADDR D pte);
  if truthy accessed then modify (with_flush (addr + NRPGS * PAGE)) else mret tt.

Definition dune_handler2 (addr : Z) : FB unit :=
  pte ← lookup_pte addr;
  set_pte addr (Z.lor pte fault_bits).

Definition handle_fault (addr : Z) : FB unit :=
  _ ← modify with_fault;
  h ← gets fb_handler;
  match h with
  | 1%nat => dune_handler1 addr
  | 2%nat => dune_handler2 addr
  | _ => modify (fun s => with_pages (default_fault addr (fb_pages s)) s)
  end.

Definition can_store (pt : gmap Z Z) (page : Z) : bool :=
  match pt !! page with
  | Some pte => has_bits pte (PTE_P D) && has_bits pte (PTE_W D)
  | None => false
  end.

(** A store of a byte, with at most [k] retries. *)
Fixpoint store_at (k : nat) (addr v : Z) : FB unit :=
  pt ← gets fb_pages;
  if can_store pt (addr / PAGE) then
    _ ← modify (with_pages (alter (fun pte => Z.lor pte (Z.lor PTE_A (PTE_D D))) (addr / PAGE) pt));
    modify (fun s => with_fmem (fun a => if a =? addr then v else fb_mem s a) s)
  else
    match k with
    | O => stop Abort
    | S k => _ ← handle_fault addr; store_at k addr v
    end.

(** mem[i * PGSIZE] = i; one retry is enough. *)
Definition touch (i : Z) : FB unit :=
  b ← gets fb_base;
  store_at 1 (b + i * PAGE) (wrap8 i).

Definition prime_memory : FB unit := for_ (Z.to_nat (NRPGS * 2)) 0 touch.

Definition benchmark1 : FB unit :=
  for_ (Z.to_nat NRPGS) 0 (fun i =>
    t ← ticks tsc;
    _ ← modify (with_trap t);
    touch i).

Definition mprotect_pages (n perm : Z) : FB unit :=
  modify (fun s => with_pages (dune_vm_mprotect (fb_pages s) MAP_ADDR (PAGE * n) perm) s).

Definition benchmark2 : FB unit :=
  _ ← mprotect_pages NRPGS (PERM_R D);
  for_ (Z.to_nat NRPGS) 0 touch.

Definition benchmark_fault : FB unit :=
  pt ← gets fb_pages;
  let '(fm, pt) := dune_mmap pt FAULT_ADDR (NRPGS * PAGE) in
  _ ← modify (with_pages pt);
  measured tsc KernelFaultTook (for_ (Z.to_nat NRPGS) 0 (fun i => store_at 1 (fm + i * PAGE) (wrap8 i))) NRPGS.

(** The loop of benchmark_appel1 and the sums it builds. *)
Fixpoint appel1_loop (n : nat) (avg_appel1 avg_user_fault : Z) : FB (Z * Z) :=
  match n with
  | O => mret (avg_appel1, avg_user_fault)
  | S n =>
      _ ← mprotect_pages NRPGS (PERM_R D);
      _ ← modify (with_time 0);
      t0 ← ticks tsc;
      _ ← benchmark1;
      t1 ← ticks tsc;
      s ← get;
      appel1_loop n (wrap64 (avg_appel1 + net t1 t0 (fb_overhead s)))
                    (wrap64 (avg_user_fault + user_fault (fb_time s) (fb_overhead s)))
  end.

Definition benchmark_appel1 : FB unit :=
  _ ← modify (with_handler 1);
  r ← appel1_loop (Z.to_nat N) 0 0;
  _ ← print (UserFaultTook (r.2 / N));
  print (Prot1Took (r.1 / N)).

Fixpoint appel2_loop (n : nat) (avg : Z) : FB Z :=
  match n with
  | O => mret avg
  | S n =>
      _ ← mprotect_pages (NRPGS * 2) (Z.lor (PERM_R D) (PERM_W D));
      _ ← prime_memory;
      t0 ← ticks tsc;
      _ ← benchmark2;
      t1 ← ticks tsc;
      s ← get;
      appel2_loop n (wrap64 (avg + net t1 t0 (fb_overhead s)))
  end.

Definition benchmark_appel2 : FB unit :=
  _ ← modify (with_handler 2);
  avg ← appel2_loop (Z.to_nat N) 0;
  print (ProtNTook (avg / N)).

(** main, for the answer of dune_init_and_enter. *)
Definition dune_main (init : Z) : FB Z :=
  _ ← calibrate tsc;
  if truthy init then _ ← print DuneInitFailed; mret init else
  _ ← print BenchmarkingDune;
  _ ← benchmark_syscall tsc;
  _ ← benchmark_fault;
  pt ← gets fb_pages;
  let '(ret, pt) := dune_vm_map_pages pt MAP_ADDR (2 * NRPGS * PAGE) (Z.lor (PERM_R D) (PERM_W D)) in
  _ ← modify (with_pages pt);
  if truthy ret then _ ← print MappingFailed; mret ret else
  _ ← modify (with_base MAP_ADDR);
  _ ← prime_memory;
  _ ← benchmark_appel1;
  _ ← benchmark_appel2;
  mret 0.
End dune.

(** ** bench_linux.c *)

Section linux.
Context (tsc : nat -> Z * Z).
Context (mprotect : gmap Z Z -> Z -> Z -> Z -> gmap Z Z) (mmap : gmap Z Z -> Z -> Z * gmap Z Z).

Definition LPROT_READ : Z := 1.
Definition LPROT_WRITE : Z := 2.

(** si_addr & ~(PGSIZE - 1) *)
Definition fault_page (addr : Z) : Z := Z.land addr (wrap64 (Z.lnot (PAGE - 1))).

Definition linux_protect (addr len prot : Z) : FB unit :=
  modify (fun s => with_pages (mprotect (fb_pages s) addr len prot) s).

Definition linux_handler1 (si_addr : Z) : FB unit :=
  let addr := fault_page si_addr in
  t ← ticks tsc;
  _ ← modify (fun s => with_time (wrap64 (fb_time s + wrap64 (t - fb_trap s))) s);
  _ ← linux_protect addr PAGE (Z.lor LPROT_READ LPROT_WRITE);
  linux_protect (addr + PAGE * NRPGS) PAGE LPROT_READ.

Definition linux_handler2 (si_addr : Z) : FB unit :=
  linux_protect (fault_page si_addr) PAGE (Z.lor LPROT_READ LPROT_WRITE).

(** SIGSEGV without a handler ends the process. *)
Definition linux_fault (addr : Z) : FB unit :=
  _ ← modify with_fault;
  h ← gets fb_handler;
  match h with
  | 1%nat => linux_handler1 addr
  | 2%nat => linux_handler2 addr
  | _ => stop (Exit 139)
  end.

Definition linux_can_store (pt : gmap Z Z) (page : Z) : bool :=
  match pt !! page with Some prot => has_bits prot LPROT_WRITE | None => false end.

Fixpoint linux_store (k : nat) (addr v : Z) : FB unit :=
  pt ← gets fb_pages;
  if linux_can_store pt (addr / PAGE) then
    modify (fun s => with_fmem (fun a => if a =? addr then v else fb_mem s a) s)
  else
    match k with
    | O => stop Abort
    | S k => _ ← linux_fault addr; linux_store k addr v
    end.

Definition linux_touch (i : Z) : FB unit :=
  b ← gets fb_base;
  linux_store 1 (b + i * PAGE) (wrap8 i).

Definition linux_prime_memory : FB unit := for_ (Z.to_nat (NRPGS * 2)) 0 linux_touch.

Definition linux_benchmark1 : FB unit :=
  for_ (Z.to_nat NRPGS) 0 (fun i =>
    t ← ticks tsc;
    _ ← modify (with_trap t);
    linux_touch i).

Definition linux_benchmark2 : FB unit :=
  b ← gets fb_base;
  _ ← linux_protect b (NRPGS * PAGE) LPROT_READ;
  for_ (Z.to_nat NRPGS) 0 linux_touch.

(** With gettid where Dune's program has getpid. *)
Definition linux_benchmark_syscall : FB unit :=
  measured tsc SystemCallTook (for_ (Z.to_nat N) 0 (fun _ => modify with_call)) N.

Definition linux_benchmark_fault : FB unit :=
  pt ← gets fb_pages;
  let '(fm, pt) := mmap pt (N * PAGE) in
  _ ← modify (with_pages pt);
  measured tsc KernelFaultTook (for_ (Z.to_nat N) 0 (fun i => linux_store 1 (fm + i * PAGE) (wrap8 i))) N.

Fixpoint linux_appel1_loop (n : nat) (avg_appel1 avg_user_fault : Z) : FB (Z * Z) :=
  match n with
  | O => mret (avg_appel1, avg_user_fault)
  | S n =>
      _ ← modify (with_time 0);
      b ← gets fb_base;
      _ ← linux_protect b (NRPGS * PAGE) LPROT_READ;
      t0 ← ticks tsc;
      _ ← linux_benchmark1;
      t1 ← ticks tsc;
      s ← get;
      linux_appel1_loop n (wrap64 (avg_appel1 + net t1 t0 (fb_overhead s)))
                          (wrap64 (avg_user_fault + user_fault (fb_time s) (fb_overhead s)))
  end.

Definition linux_benchmark_appel1 : FB unit :=
  _ ← modify (with_handler 1);
  r ← linux_appel1_loop (Z.to_nat N) 0 0;
  _ ← print (UserFaultTook (r.2 / N));
  print (Prot1Took (r.1 / N)).

Fixpoint linux_appel2_loop (n : nat) (avg : Z) : FB Z :=
  match n with
  | O => mret avg
  | S n =>
      b ← gets fb_base;
      _ ← linux_protect b (NRPGS * PAGE * 2) (Z.lor LPROT_READ LPROT_WRITE);
      _ ← linux_prime_memory;
      t0 ← ticks tsc;
      _ ← linux_benchmark2;
      t1 ← ticks tsc;
      s ← get;
      linux_appel2_loop n (wrap64 (avg + net t1 t0 (fb_overhead s)))
  end.

Definition linux_benchmark_appel2 : FB unit :=
  _ ← modify (with_handler 2);
  avg ← linux_appel2_loop (Z.to_nat N) 0;
  print (ProtNTook (avg / N)).

Definition linux_main : FB Z :=
  _ ← calibrate tsc;
  _ ← print BenchmarkingLinux;
  _ ← linux_benchmark_syscall;
  _ ← linux_benchmark_fault;
  pt ← gets fb_pages;
  let '(m, pt) := mmap pt (NRPGS * PAGE * 2) in
  _ ← modify (with_base m);
  if m =? 2 ^ 64 - 1 then mret (-1) else
  _ ← modify (with_pages pt);
  _ ← linux_prime_memory;
  _ ← linux_benchmark_appel1;
  _ ← linux_benchmark_appel2;
  mret 0.
End linux.
