(* ===== verification/BenchTimingProps.v ===== *)
(** The timing of the benchmarks: what measure_tsc_overhead computes, and when
    the corrected times are times. *)

From stdpp Require Import base numbers list option.
From S2P Require Import Prelude Platform BenchFault.

Section timing.
Context (tsc : nat -> Z * Z).

(** The cycles between readings [2j] and [2j + 1] after number [k]. *)
Definition pair_cycles (k j : nat) : Z :=
  wrap64 (rdtsc_value (tsc (S (k + 2 * j))) - rdtsc_value (tsc (k + 2 * j))).

Definition least (k n : nat) : Z := foldr Z.min (2 ^ 64 - 1) (pair_cycles k <$> seq 0 n).

Lemma least_le k n j : (j < n)%nat -> least k n <= pair_cycles k j.
Proof.
  intros Hj. unfold least. assert (Hin : j ∈ seq 0 n) by (apply elem_of_seq; lia).
  induction (seq 0 n) as [|x l IH]; [by apply elem_of_nil in Hin|]. cbn.
  apply elem_of_cons in Hin as [->|Hin]; [lia|]. specialize (IH Hin). lia.
Qed.

Lemma least_attained k n : (0 < n)%nat -> exists j, (j < n)%nat /\ least k n = pair_cycles k j.
Proof.
  unfold least. intros Hn.
  assert (H : forall l, l <> [] -> exists j, j ∈ l /\ foldr Z.min (2 ^ 64 - 1) (pair_cycles k <$> l) = pair_cycles k j).
  { induction l as [|x l IH]; [done|intros _]. cbn. destruct l as [|y l].
    - exists x. split; [apply list_elem_of_here|]. cbn.
      pose proof (wrap64_range (rdtsc_value (tsc (S (k + 2 * x))) - rdtsc_value (tsc (k + 2 * x)))) as Hr.
      fold (pair_cycles k x) in Hr. mlia.
    - destruct IH as (j & Hj & Heq); [done|]. rewrite Heq.
      destruct (Z.min_spec (pair_cycles k x) (pair_cycles k j)) as [[_ ->]|[_ ->]].
      + exists x. split; [apply list_elem_of_here|done].
      + exists j. split; [by apply list_elem_of_further|done]. }
  destruct (H (seq 0 n)) as (j & Hj & Heq); [destruct n; [lia|done]|]. exists j. split; [|done].
  apply elem_of_seq in Hj. lia.
Qed.

Lemma overhead_loop_min n k o :
  overhead_loop tsc n k o = Z.min o (foldr Z.min (2 ^ 64 - 1) (pair_cycles k <$> seq 0 n)) \/ 2 ^ 64 - 1 < o.
Proof.
  destruct (Z_le_gt_dec o (2 ^ 64 - 1)) as [Ho|]; [left|right; lia].
  revert k o Ho. induction n as [|n IH]; intros k o Ho; cbn [overhead_loop seq]; [cbn; lia|].
  rewrite fmap_cons. cbn [foldr].
  set (d := wrap64 (rdtsc_value (tsc (S k)) - rdtsc_value (tsc k))).
  assert (Hd : pair_cycles k 0 = d) by (unfold pair_cycles, d; now rewrite Nat.add_0_r).
  rewrite IH by (destruct (Z.ltb_spec d o); lia). rewrite Hd.
  replace (pair_cycles k <$> seq 1 n) with (pair_cycles (S (S k)) <$> seq 0 n).
  { destruct (Z.ltb_spec d o); lia. }
  rewrite <- fmap_S_seq, <- list_fmap_compose. apply list_fmap_ext. intros _ j _. unfold compose, pair_cycles.
  by replace (k + 2 * S j)%nat with (S (S k) + 2 * j)%nat by lia.
Qed.

Lemma measure_least k : measure_tsc_overhead tsc k = least k (Z.to_nat N).
Proof.
  unfold measure_tsc_overhead. destruct (overhead_loop_min (Z.to_nat N) k (2 ^ 64 - 1)) as [->|]; [|lia].
  fold (least k (Z.to_nat N)). destruct (least_attained k (Z.to_nat N)) as (j & _ & ->); [unfold N; lia|].
  pose proof (wrap64_range (rdtsc_value (tsc (S (k + 2 * j))) - rdtsc_value (tsc (k + 2 * j)))) as H.
  fold (pair_cycles k j) in H. mlia.
Qed.

(** C33. measure_tsc_overhead, which keeps a running minimum from ~0UL, computes
    the minimum of the N intervals between its paired readings: it equals the
    fold of [Z.min] over them, one of them attains it, and correcting any of
    them by it never wraps below zero. *)
Theorem tsc_overhead_is_least k :
  measure_tsc_overhead tsc k = foldr Z.min (2 ^ 64 - 1) (pair_cycles k <$> seq 0 (Z.to_nat N))
  /\ (exists j, (j < Z.to_nat N)%nat /\ measure_tsc_overhead tsc k = pair_cycles k j)
  /\ forall j, (j < Z.to_nat N)%nat ->
       net (rdtsc_value (tsc (S (k + 2 * j)))) (rdtsc_value (tsc (k + 2 * j))) (measure_tsc_overhead tsc k)
       = pair_cycles k j - measure_tsc_overhead tsc k.
Proof.
  rewrite measure_least. split; [done|]. split; [apply least_attained; unfold N; lia|].
  intros j Hj. unfold net. fold (pair_cycles k j). apply wrap64_small.
  destruct (least_attained k (Z.to_nat N)) as (i & _ & Hi); [unfold N; lia|].
  pose proof (least_le k _ j Hj) as Hle. rewrite Hi in *.
  pose proof (wrap64_range (rdtsc_value (tsc (S (k + 2 * i))) - rdtsc_value (tsc (k + 2 * i)))) as H1.
  pose proof (wrap64_range (rdtsc_value (tsc (S (k + 2 * j))) - rdtsc_value (tsc (k + 2 * j)))) as H2.
  fold (pair_cycles k i) in H1. fold (pair_cycles k j) in H2. mlia.
Qed.
End timing.

(** The corrected user-fault time of a pass: when the time summed over the
    100 faults covers the correction it is the mean time per fault less the
    overhead; when it does not, by however little, the unsigned subtraction
    wraps and the pass counts as at least 2^64/100 - overhead cycles. *)
Theorem user_fault_correction time overhead :
  u64 time -> 0 <= overhead -> overhead * NRPGS < 2 ^ 64 ->
  (overhead * NRPGS <= time -> user_fault time overhead = time / NRPGS - overhead)
  /\ (time < overhead * NRPGS -> user_fault time overhead >= 2 ^ 64 / NRPGS - overhead).
Proof.
  intros Ht Ho Hs. unfold user_fault. rewrite (wrap64_small (overhead * NRPGS)) by (unfold NRPGS in *; mlia).
  unfold NRPGS in *. split; intros H.
  - rewrite wrap64_small by mlia. replace (time - overhead * 100) with (time + (- overhead) * 100) by lia.
    rewrite Z.div_add; lia.
  - replace (wrap64 (time - overhead * 100)) with (2 ^ 64 + time - overhead * 100).
    + replace (2 ^ 64 + time - overhead * 100) with (2 ^ 64 + time + (- overhead) * 100) by lia.
      rewrite Z.div_add by lia. unfold u64 in Ht.
      pose proof (Z.div_le_mono (2 ^ 64) (2 ^ 64 + time) 100 ltac:(lia) ltac:(lia)). lia.
    + unfold wrap. rewrite <- (Z.mod_small (2 ^ 64 + time - overhead * 100) (2 ^ 64)) by mlia.
      replace (2 ^ 64 + time - overhead * 100) with (time - overhead * 100 + 1 * 2 ^ 64) by lia.
      now rewrite Z.mod_add.
Qed.

Lemma user_fault_correction_witness :
  user_fault 2590 25 = 0 /\ user_fault 2400 25 >= 184467440737095516 - 25.
Proof.
  split.
  - rewrite (proj1 (user_fault_correction 2590 25 ltac:(mlia) ltac:(lia) ltac:(unfold NRPGS; lia))); [reflexivity|].
    unfold NRPGS. lia.
  - apply (proj2 (user_fault_correction 2400 25 ltac:(mlia) ltac:(lia) ltac:(unfold NRPGS; lia))). unfold NRPGS. lia.
Defined.
