(* ===== verification/FaultSpec.v ===== *)
(** What the two fault benchmarks promise, independent of how pages are
    protected: an abstract machine with a set of protected pages and a count of
    faults ([aps]), the interface a system offers to the benchmarks
    ([fault_backend]), and the theorems on their passes proved against it. *)

From stdpp Require Import base numbers list option gmap fin_sets sets.
From S2P Require Import Prelude Platform BenchFault.

(** ** Computations that return *)

Definition returns {S A} (P : S -> Prop) (c : M S A) (Q : A -> S -> Prop) : Prop :=
  forall s, P s -> exists a s', c s = (Ret a, s') /\ Q a s'.

Section returns.
Context {S : Type}.
Implicit Types (P : S -> Prop).

Lemma returns_ret {A} P (a : A) : returns P (mret a) (fun b s => b = a /\ P s).
Proof. intros s Hs. by exists a, s. Qed.

Lemma returns_modify P (Q : unit -> S -> Prop) f : (forall s, P s -> Q tt (f s)) -> returns P (modify f) Q.
Proof. intros H s Hs. exists tt, (f s). auto. Qed.

Lemma returns_bind {A B} P (c : M S A) (k : A -> M S B) Q R :
  returns P c Q -> (forall a, returns (Q a) (k a) R) -> returns P (c ≫= k) R.
Proof.
  intros Hc Hk s Hs. destruct (Hc s Hs) as (a & s1 & E & Ha). destruct (Hk a s1 Ha) as (b & s2 & E2 & Hb).
  exists b, s2. split; [|done]. unfold mbind, M_bind. by rewrite E.
Qed.

Lemma returns_seq {A B} P P' (c : M S A) (k : A -> M S B) R :
  returns P c (fun _ => P') -> (forall a, returns P' (k a) R) -> returns P (c ≫= k) R.
Proof. intros Hc Hk. by eapply returns_bind. Qed.

Lemma returns_assoc {A B C} P (c : M S A) (k : A -> M S B) (h : B -> M S C) R :
  returns P ((c ≫= k) ≫= h) R -> returns P (c ≫= (fun a => k a ≫= h)) R.
Proof. intros H s Hs. rewrite <- bind_assoc. by apply H. Qed.

Lemma returns_gets {A B} P (f : S -> A) (k : A -> M S B) R :
  (forall v, returns (fun s => P s /\ f s = v) (k v) R) -> returns P (gets f ≫= k) R.
Proof. intros H s Hs. rewrite bind_gets. by apply (H (f s)). Qed.

Lemma returns_mono {A} P P' (c : M S A) (Q Q' : A -> S -> Prop) :
  returns P c Q -> (forall s, P' s -> P s) -> (forall a s, Q a s -> Q' a s) -> returns P' c Q'.
Proof. intros H HP HQ s Hs. destruct (H s (HP s Hs)) as (a & s' & ? & ?). exists a, s'. auto. Qed.

Lemma returns_for P (I : Z -> S -> Prop) (Q : unit -> S -> Prop) n first body :
  (forall i, first <= i < first + Z.of_nat n -> returns (I i) (body i) (fun _ => I (i + 1))) ->
  (forall s, P s -> I first s) -> (forall s, I (first + Z.of_nat n) s -> Q tt s) ->
  returns P (for_ n first body) Q.
Proof.
  intros Hb HP HQ. eapply (returns_mono (I first) P _ (fun _ => I (first + Z.of_nat n))); [|done|intros []; apply HQ].
  clear P Q HP HQ. revert first Hb. induction n as [|n IH]; intros first Hb; cbn [for_].
  - intros s Hs. exists tt, s. cbn. by rewrite Z.add_0_r.
  - eapply returns_seq; [apply Hb; lia|intros _].
    replace (first + Z.of_nat (Datatypes.S n)) with (first + 1 + Z.of_nat n) by lia. apply IH.
    intros i Hi. apply Hb. lia.
Qed.
End returns.

(** The next statement, then the rest. *)
Ltac next := eapply returns_seq; [|intros ?].

(** ** The abstract machine *)

(** The pages [lo] to [hi - 1] of the benchmark's memory. *)
Definition pages (lo hi : Z) : gset Z := list_to_set (seqZ lo (hi - lo)).

#[export] Instance set_unfold_pages x lo hi : SetUnfoldElemOf x (pages lo hi) (lo <= x < hi).
Proof. constructor. unfold pages. rewrite elem_of_list_to_set, elem_of_seqZ. lia. Qed.

(** A line without its number. *)
Definition shape (l : fb_line) : fb_line :=
  match l with
  | TscOverheadIs _ => TscOverheadIs 0
  | SystemCallTook _ => SystemCallTook 0
  | KernelFaultTook _ => KernelFaultTook 0
  | UserFaultTook _ => UserFaultTook 0
  | Prot1Took _ => Prot1Took 0
  | ProtNTook _ => ProtNTook 0
  | _ => l
  end.

(** The pages a store faults on, those written so far, the faults taken and
    the lines printed, without their numbers. *)
Record aps := Aps { a_prot : gset Z; a_written : gset Z; a_faults : nat; a_lines : list fb_line }.

(** A store to page [i]; handler 1 protects the page 100 further on. *)
Definition abs_touch (h : nat) (i : Z) (a : aps) : aps :=
  if decide (i ∈ a_prot a) then
    Aps (match h with 1%nat => {[i + NRPGS]} ∪ a_prot a ∖ {[i]} | _ => a_prot a ∖ {[i]} end)
        ({[i]} ∪ a_written a) (S (a_faults a)) (a_lines a)
  else Aps (a_prot a) ({[i]} ∪ a_written a) (a_faults a) (a_lines a).

Definition abs_protect (n : Z) (writable : bool) (a : aps) : aps :=
  Aps (if writable then a_prot a ∖ pages 0 n else pages 0 n ∪ a_prot a) (a_written a) (a_faults a) (a_lines a).

Definition abs_print (l : fb_line) (a : aps) : aps :=
  Aps (a_prot a) (a_written a) (a_faults a) (a_lines a ++ [l]).

(** A pass of PROT1,TRAP,UNPROT: every store to the first hundred pages
    faults, and the second hundred are protected in their place. *)
Definition abs_pass1 (a : aps) : aps :=
  Aps (pages 100 200) (pages 0 100 ∪ a_written a) (100 + a_faults a) (a_lines a).

(** A pass of PROTN,TRAP,UNPROT: no store faults before the pages are
    protected, each of the first hundred faults after, and nothing is left
    protected. *)
Definition abs_pass2 (a : aps) : aps :=
  Aps ∅ (pages 0 200 ∪ a_written a) (100 + a_faults a) (a_lines a).

(** [n > 0] passes in a row. *)
Lemma passes1 n a :
  Nat.iter (S n) abs_pass1 a = Aps (pages 100 200) (pages 0 100 ∪ a_written a) (100 * S n + a_faults a) (a_lines a).
Proof.
  induction n as [|n IH]; [done|]. rewrite Nat.iter_succ, IH. unfold abs_pass1. cbn [a_written a_faults a_lines].
  f_equal; [set_solver|lia].
Qed.

Lemma passes2 n a :
  Nat.iter (S n) abs_pass2 a = Aps ∅ (pages 0 200 ∪ a_written a) (100 * S n + a_faults a) (a_lines a).
Proof.
  induction n as [|n IH]; [done|]. rewrite Nat.iter_succ, IH. unfold abs_pass2. cbn [a_written a_faults a_lines].
  f_equal; [set_solver|lia].
Qed.

(** The two benchmarks, with the lines they print. *)
Definition abs_appel1 (a : aps) : aps :=
  Aps (pages 100 200) (pages 0 100 ∪ a_written a) (Z.to_nat (NRPGS * N) + a_faults a)
      (a_lines a ++ [UserFaultTook 0; Prot1Took 0]).
Definition abs_appel2 (a : aps) : aps :=
  Aps ∅ (pages 0 200 ∪ a_written a) (Z.to_nat (NRPGS * N) + a_faults a) (a_lines a ++ [ProtNTook 0]).

Lemma N_pos : 0 < N.
Proof. unfold N. lia. Qed.


Lemma total_faults f : (100 * S (Z.to_nat (N - 1)) + f = Z.to_nat (NRPGS * N) + f)%nat.
Proof. pose proof N_pos. unfold NRPGS. lia. Qed.

Lemma abs_appel1_passes a :
  abs_print (Prot1Took 0) (abs_print (UserFaultTook 0) (Nat.iter (Z.to_nat N) abs_pass1 a)) = abs_appel1 a.
Proof.
  replace (Z.to_nat N) with (S (Z.to_nat (N - 1))) by (pose proof N_pos; lia). rewrite passes1.
  unfold abs_print, abs_appel1. cbn [a_prot a_written a_faults a_lines]. by rewrite total_faults, <- app_assoc.
Qed.

Lemma abs_appel2_passes a : abs_print (ProtNTook 0) (Nat.iter (Z.to_nat N) abs_pass2 a) = abs_appel2 a.
Proof.
  replace (Z.to_nat N) with (S (Z.to_nat (N - 1))) by (pose proof N_pos; lia). rewrite passes2.
  unfold abs_print, abs_appel2. cbn [a_prot a_written a_faults a_lines]. by rewrite total_faults.
Qed.

(** ** The interface *)

(** What a system offers: how an entry of its page table grants a store, the
    base of the memory, the entries that belong to page [i], a store, and a
    change of protection of the first pages. *)
Record fault_backend := FaultBackend {
  be_writable : Z -> bool;
  be_base : Z -> Prop;
  be_entry : Z -> Z -> Prop;
  be_touch : Z -> FB unit;
  be_protect : Z -> bool -> FB unit;
}.

Section backend.
Context (B : fault_backend).

(** The page table at base page [b] protects exactly the pages [prot]. *)
Definition maps_as (b : Z) (pt : gmap Z Z) (prot : gset Z) : Prop :=
  forall i, 0 <= i < 200 ->
    exists e, pt !! (b + i) = Some e /\ be_entry B i e /\ be_writable B e = bool_decide (i ∉ prot).

(** The abstraction relation, with handler [h] installed. *)
Record rel (h : nat) (a : aps) (s : fb) : Prop := Rel {
  rel_handler : fb_handler s = h;
  rel_faults : fb_faults s = a_faults a;
  rel_lines : shape <$> fb_out s = a_lines a;
  rel_base : be_base B (fb_base s);
  rel_maps : maps_as (fb_base s / PAGE) (fb_pages s) (a_prot a);
  rel_mem : forall i, i ∈ a_written a -> fb_mem s (fb_base s + i * PAGE) = wrap8 i;
  rel_region : a_prot a ⊆ pages 0 200;
}.

(** The handler may be entered for page [i]. *)
Definition handled (h : nat) (i : Z) (a : aps) : Prop :=
  i ∈ a_prot a -> h = 1%nat /\ i < NRPGS \/ h = 2%nat.

Class backend_ok : Prop := {
  bk_touch h i a : 0 <= i < 200 -> handled h i a ->
    returns (rel h a) (be_touch B i) (fun _ => rel h (abs_touch h i a));
  bk_protect h n w a : 0 <= n <= 200 ->
    returns (rel h a) (be_protect B n w) (fun _ => rel h (abs_protect n w a));
}.

(** Changing one entry. *)
Lemma maps_as_insert b pt prot i e :
  maps_as b pt prot -> 0 <= i < 200 -> be_entry B i e ->
  maps_as b (<[b + i := e]> pt) (if be_writable B e then prot ∖ {[i]} else {[i]} ∪ prot).
Proof.
  intros Hm Hi He j Hj. destruct (decide (j = i)) as [->|Hne].
  - exists e. rewrite lookup_insert_eq. do 2 (split; [done|]). destruct (be_writable B e); symmetry.
    + apply bool_decide_eq_true. set_solver.
    + apply bool_decide_eq_false. set_solver.
  - destruct (Hm j Hj) as (e' & Hl & He' & Hw). exists e'. rewrite lookup_insert_ne by lia.
    do 2 (split; [done|]). rewrite Hw. apply bool_decide_ext. destruct (be_writable B e); set_solver.
Qed.

(** Changing the first [n] entries. *)
Lemma maps_as_protect b pt pt' prot n w :
  maps_as b pt prot ->
  (forall i e, 0 <= i < 200 -> pt !! (b + i) = Some e -> be_entry B i e ->
     exists e', pt' !! (b + i) = Some e' /\ be_entry B i e'
                /\ be_writable B e' = if decide (i < n) then w else be_writable B e) ->
  maps_as b pt' (if w then prot ∖ pages 0 n else pages 0 n ∪ prot).
Proof.
  intros Hm Hp i Hi. destruct (Hm i Hi) as (e & Hl & He & Hw).
  destruct (Hp i e Hi Hl He) as (e' & Hl' & He' & Hw'). exists e'. do 2 (split; [done|]). rewrite Hw'.
  destruct (decide (i < n)) as [Hn|Hn].
  - destruct w; symmetry; [apply bool_decide_eq_true|apply bool_decide_eq_false]; set_solver by lia.
  - rewrite Hw. apply bool_decide_ext. destruct w; set_solver by lia.
Qed.

(** ** What does not concern the pages *)

Lemma rel_quiet h a s s' :
  rel h a s -> fb_handler s' = fb_handler s -> fb_faults s' = fb_faults s -> fb_out s' = fb_out s ->
  fb_base s' = fb_base s -> fb_pages s' = fb_pages s -> fb_mem s' = fb_mem s -> rel h a s'.
Proof. intros [] E1 E2 E3 E4 E5 E6. split; rewrite ?E1, ?E2, ?E3, ?E4, ?E5, ?E6; auto. Qed.

Lemma rel_modify h a f :
  (forall s, fb_handler (f s) = fb_handler s /\ fb_faults (f s) = fb_faults s /\ fb_out (f s) = fb_out s
             /\ fb_base (f s) = fb_base s /\ fb_pages (f s) = fb_pages s /\ fb_mem (f s) = fb_mem s) ->
  returns (rel h a) (modify f) (fun _ => rel h a).
Proof.
  intros Hf. apply returns_modify. intros s Hs. destruct (Hf s) as (?&?&?&?&?&?). by eapply rel_quiet.
Qed.

Lemma rel_ticks tsc h a : returns (rel h a) (ticks tsc) (fun _ => rel h a).
Proof. intros s Hs. do 2 eexists. split; [reflexivity|]. by eapply rel_quiet. Qed.

Lemma rel_print h a v : returns (rel h a) (print v) (fun _ => rel h (abs_print (shape v) a)).
Proof.
  apply returns_modify. intros s []. split; cbn; try done. rewrite fmap_app. cbn. congruence.
Qed.

Lemma rel_install h h' a : returns (rel h a) (modify (with_handler h')) (fun _ => rel h' a).
Proof. apply returns_modify. intros s []. by split. Qed.

Lemma rel_get {A} h a (k : fb -> FB A) Q :
  (forall s, returns (rel h a) (k s) Q) -> returns (rel h a) (get ≫= k) Q.
Proof. intros Hk s Hs. rewrite bind_get. by apply Hk. Qed.
(** ** The passes, against the interface *)

Context {Hok : backend_ok}.

(** A sequence of stores that takes the abstract machine through [at_]. *)
Lemma touch_all (body : Z -> FB unit) h n (at_ : Z -> aps) :
  (forall i a, 0 <= i < 200 -> handled h i a -> returns (rel h a) (body i) (fun _ => rel h (abs_touch h i a))) ->
  (forall i, 0 <= i < Z.of_nat n -> i < 200 /\ handled h i (at_ i) /\ abs_touch h i (at_ i) = at_ (i + 1)) ->
  returns (rel h (at_ 0)) (for_ n 0 body) (fun _ => rel h (at_ (Z.of_nat n))).
Proof.
  intros Hbody Hat. eapply (returns_for _ (fun i => rel h (at_ i))); [|done|by rewrite Z.add_0_l].
  intros i Hi. destruct (Hat i) as (? & ? & <-); [lia|]. apply Hbody; [lia|done].
Qed.

(** The state of a pass of stores after the first [i] of them. *)
Definition during1 (a : aps) (i : Z) : aps :=
  Aps (a_prot a ∖ pages 0 i ∪ pages 100 (100 + i)) (pages 0 i ∪ a_written a) (Z.to_nat i + a_faults a) (a_lines a).
Definition during2 (a : aps) (i : Z) : aps :=
  Aps (a_prot a ∖ pages 0 i) (pages 0 i ∪ a_written a) (Z.to_nat i + a_faults a) (a_lines a).
Definition during_prime (a : aps) (i : Z) : aps :=
  Aps (a_prot a) (pages 0 i ∪ a_written a) (a_faults a) (a_lines a).

Lemma during1_touch a i : pages 0 100 ⊆ a_prot a -> 0 <= i < 100 -> abs_touch 1 i (during1 a i) = during1 a (i + 1).
Proof.
  intros Hp Hi. assert (Hin : i ∈ a_prot a) by set_solver by lia. unfold abs_touch, during1, NRPGS. cbn.
  rewrite decide_True by set_solver by lia. f_equal; [|set_solver by lia|lia].
  apply set_eq. intros x. set_solver by lia.
Qed.

Lemma during2_touch a i : pages 0 100 ⊆ a_prot a -> 0 <= i < 100 -> abs_touch 2 i (during2 a i) = during2 a (i + 1).
Proof.
  intros Hp Hi. assert (Hin : i ∈ a_prot a) by set_solver by lia. unfold abs_touch, during2. cbn.
  rewrite decide_True by set_solver by lia. f_equal; [|set_solver by lia|lia].
  apply set_eq. intros x. set_solver by lia.
Qed.

Lemma during_prime_touch h a i : a_prot a = ∅ -> 0 <= i -> abs_touch h i (during_prime a i) = during_prime a (i + 1).
Proof.
  intros Hp Hi. unfold abs_touch, during_prime. cbn. rewrite Hp, decide_False by set_solver.
  f_equal. set_solver by lia.
Qed.

(** The pages protected lie in the region. *)
Lemma with_region {A} h a (c : FB A) Q :
  (a_prot a ⊆ pages 0 200 -> returns (rel h a) c Q) -> returns (rel h a) c Q.
Proof. intros Hc s Hs. apply Hc; [apply Hs|done]. Qed.

Lemma stores1 (body : Z -> FB unit) a :
  (forall i b, 0 <= i < 200 -> handled 1 i b -> returns (rel 1 b) (body i) (fun _ => rel 1 (abs_touch 1 i b))) ->
  returns (rel 1 (abs_protect 100 false a)) (for_ (Z.to_nat NRPGS) 0 body) (fun _ => rel 1 (abs_pass1 a)).
Proof.
  intros Hbody. apply with_region. intros Hr. set (a' := abs_protect 100 false a) in *.
  assert (Hp : pages 0 100 ⊆ a_prot a') by (cbn; set_solver).
  replace a' with (during1 a' 0) at 1 by (unfold during1, a', abs_protect; cbn; f_equal; set_solver by lia).
  replace (abs_pass1 a) with (during1 a' (Z.of_nat (Z.to_nat NRPGS))).
  2: { unfold during1, abs_pass1, NRPGS. cbn in *. f_equal; [|set_solver..].
       apply set_eq. intros x. specialize (Hr x). set_solver by lia. }
  apply touch_all; [done|]. unfold NRPGS. intros i Hi. split; [lia|].
  split; [intros _; left; unfold NRPGS; lia|]. apply during1_touch; [done|lia].
Qed.

Lemma stores2 a :
  a_prot a = ∅ ->
  returns (rel 2 (abs_protect 100 false a)) (for_ (Z.to_nat NRPGS) 0 (be_touch B))
          (fun _ => rel 2 (Aps ∅ (pages 0 100 ∪ a_written a) (100 + a_faults a) (a_lines a))).
Proof.
  intros H0. set (a' := abs_protect 100 false a).
  assert (Hp : a_prot a' = pages 0 100) by (cbn; set_solver).
  replace a' with (during2 a' 0) by (unfold during2, a', abs_protect; cbn; f_equal; set_solver by lia).
  replace (Aps _ _ _ _) with (during2 a' (Z.of_nat (Z.to_nat NRPGS))).
  2: { unfold during2, NRPGS. rewrite Hp. f_equal. }
  apply touch_all; [intros; by apply bk_touch|].
  unfold NRPGS. intros i Hi. split; [lia|]. split; [by right|]. apply during2_touch; [by rewrite Hp|lia].
Qed.

Lemma prime_ok h a :
  a_prot a = ∅ ->
  returns (rel h a) (for_ (Z.to_nat (NRPGS * 2)) 0 (be_touch B))
          (fun _ => rel h (Aps ∅ (pages 0 200 ∪ a_written a) (a_faults a) (a_lines a))).
Proof.
  intros H0. replace a with (during_prime a 0) at 1.
  2: { destruct a. unfold during_prime. cbn. f_equal. set_solver by lia. }
  replace (Aps _ _ _ _) with (during_prime a (Z.of_nat (Z.to_nat (NRPGS * 2)))).
  2: { unfold during_prime, NRPGS. by rewrite H0. }
  apply touch_all; [intros; by apply bk_touch|].
  unfold NRPGS. intros i Hi. split; [lia|]. split; [|apply during_prime_touch; [done|lia]].
  intros Hin. cbn in Hin. rewrite H0 in Hin. set_solver.
Qed.

(** A pass of PROTN: unprotect, write all, protect, write the first hundred. *)
Lemma prime_then_protect h a :
  returns (rel h (abs_protect 200 true a)) (for_ (Z.to_nat (NRPGS * 2)) 0 (be_touch B))
          (fun _ => rel h (Aps ∅ (pages 0 200 ∪ a_written a) (a_faults a) (a_lines a))).
Proof.
  apply with_region. intros Hr. apply (prime_ok h (abs_protect 200 true a)). cbn in *.
  apply set_eq. intros x. specialize (Hr x). clear -Hr. set_solver.
Qed.

Lemma stores2_pass a :
  returns (rel 2 (abs_protect 100 false (Aps ∅ (pages 0 200 ∪ a_written a) (a_faults a) (a_lines a))))
          (for_ (Z.to_nat NRPGS) 0 (be_touch B)) (fun _ => rel 2 (abs_pass2 a)).
Proof.
  replace (abs_pass2 a) with (Aps ∅ (pages 0 100 ∪ (pages 0 200 ∪ a_written a)) (100 + a_faults a) (a_lines a)).
  - exact (stores2 (Aps ∅ (pages 0 200 ∪ a_written a) (a_faults a) (a_lines a)) eq_refl).
  - unfold abs_pass2. f_equal. apply set_eq. set_solver by lia.
Qed.
End backend.
