(* ===== verification/BenchFaultProps.v ===== *)
(** The fault benchmarks on Dune and on Linux implement the abstract machine
    of [FaultSpec]: each system is an instance of its interface, so that the
    two programs take the same faults and end with the same pages protected. *)

From stdpp Require Import base numbers list option gmap fin_sets sets.
From S2P Require Import Prelude Platform BenchFault FaultSpec.

#[local] Arguments PAGE : simpl never.
#[local] Arguments MAP_ADDR : simpl never.
#[local] Arguments NRPGS : simpl never.
#[local] Arguments Z.div : simpl never.
#[local] Arguments Z.mul : simpl never.
#[local] Arguments Z.add : simpl never.

Lemma page_of b i : (PAGE | b) -> (b + i * PAGE) / PAGE = b / PAGE + i.
Proof. intros [k ->]. unfold PAGE. rewrite <- Z.mul_add_distr_r, !Z.div_mul; lia. Qed.

Lemma alter_some {V} (f : V -> V) (m : gmap Z V) k e : m !! k = Some e -> alter f k m = <[k := f e]> m.
Proof.
  intros He. apply map_eq. intros j. destruct (decide (j = k)) as [->|].
  - by rewrite lookup_alter_eq, lookup_insert_eq, He.
  - by rewrite lookup_alter_ne, lookup_insert_ne.
Qed.

(** Writing the byte of page [i] keeps the others'. *)
Lemma written_store (mem : Z -> Z) b i (W : gset Z) :
  (forall j, j ∈ W -> mem (b + j * PAGE) = wrap8 j) ->
  forall j, j ∈ {[i]} ∪ W -> (if b + j * PAGE =? b + i * PAGE then wrap8 i else mem (b + j * PAGE)) = wrap8 j.
Proof.
  intros HW j Hj. destruct (Z.eqb_spec (b + j * PAGE) (b + i * PAGE)) as [E|E].
  - unfold PAGE in E. by replace j with i by lia.
  - apply HW. destruct (decide (j = i)) as [->|]; [done|set_solver].
Qed.

(** ** Dune *)

(** The layout of a page-table entry: a mask selects the frame, the flag bits
    the code uses lie outside it, and the flags that grant a store are neither
    of the two the processor sets. *)
Class pte_layout (D : dune_abi) (PTE_A mask : Z) : Prop := {
  pl_addr x : PTE_ADDR D x = Z.land x mask;
  pl_mask m : m = PTE_P D \/ m = PTE_W D \/ m = PTE_U D \/ m = PTE_A \/ m = PTE_D D -> Z.land m mask = 0;
  pl_P : PTE_P D <> 0;
  pl_W : PTE_W D <> 0;
  pl_P_set : Z.land (Z.lor PTE_A (PTE_D D)) (PTE_P D) = 0;
  pl_W_set : Z.land (Z.lor PTE_A (PTE_D D)) (PTE_W D) = 0;
}.

Definition grants (D : dune_abi) (e : Z) : bool := has_bits e (PTE_P D) && has_bits e (PTE_W D).

(** dune_vm_mprotect on whole pages: each entry in the range keeps its frame
    and gets the permission asked for, the others are not touched. *)
Class vm_mprotect_ok (D : dune_abi) (vm_mprotect : gmap Z Z -> Z -> Z -> Z -> gmap Z Z) : Prop := {
  vmp_in pt va n perm i e : (PAGE | va) -> 0 <= i < n -> pt !! (va / PAGE + i) = Some e -> PTE_ADDR D e <> 0 ->
    perm = PERM_R D \/ perm = Z.lor (PERM_R D) (PERM_W D) ->
    exists e', vm_mprotect pt va (PAGE * n) perm !! (va / PAGE + i) = Some e'
      /\ PTE_ADDR D e' = PTE_ADDR D e /\ grants D e' = bool_decide (perm = Z.lor (PERM_R D) (PERM_W D));
  vmp_out pt va n perm i : (PAGE | va) -> n <= i -> vm_mprotect pt va (PAGE * n) perm !! (va / PAGE + i) = pt !! (va / PAGE + i);
  vmp_perms : PERM_R D <> Z.lor (PERM_R D) (PERM_W D);
}.

Section dune.
Context (tsc : nat -> Z * Z) (D : dune_abi) (PTE_A mask : Z) `{!pte_layout D PTE_A mask}.
Context (dune_vm_mprotect : gmap Z Z -> Z -> Z -> Z -> gmap Z Z) `{!vm_mprotect_ok D dune_vm_mprotect}.
Context (default_fault : Z -> gmap Z Z -> gmap Z Z) (frame : Z -> Z).

Abbreviation touch := (touch tsc D PTE_A default_fault).
Abbreviation mprotect_pages := (mprotect_pages dune_vm_mprotect).

(** The benchmark's view of Dune; page [i] keeps its frame. *)
Definition dune_backend : fault_backend := {|
  be_writable := grants D;
  be_base b := b = MAP_ADDR;
  be_entry i e := PTE_ADDR D e = frame i /\ frame i <> 0;
  be_touch := touch;
  be_protect n w := mprotect_pages n (if w then Z.lor (PERM_R D) (PERM_W D) else PERM_R D);
|}.

Abbreviation rel := (rel dune_backend).

Lemma map_addr_aligned : (PAGE | MAP_ADDR).
Proof. by exists (MAP_ADDR / PAGE). Qed.

Lemma addr_lor x m : Z.land m mask = 0 -> PTE_ADDR D (Z.lor x m) = PTE_ADDR D x.
Proof. intros Hm. by rewrite !pl_addr, Z.land_lor_distr_l, Hm, Z.lor_0_r. Qed.

Lemma fault_bits_addr x : PTE_ADDR D (Z.lor x (fault_bits D PTE_A)) = PTE_ADDR D x.
Proof.
  unfold fault_bits. rewrite !Z.lor_assoc, !addr_lor; [done|apply (pl_mask (mask := mask)); auto 10..].
Qed.

Lemma fault_bits_grant x : grants D (Z.lor x (fault_bits D PTE_A)) = true.
Proof.
  unfold grants, fault_bits. rewrite !Z.lor_assoc. apply andb_true_intro. split.
  - do 4 apply has_bits_lor_mono. apply has_bits_lor_same, (pl_P (mask := mask)).
  - do 3 apply has_bits_lor_mono. apply has_bits_lor_same, (pl_W (mask := mask)).
Qed.

Lemma addr_no_grant x : grants D (PTE_ADDR D x) = false.
Proof.
  unfold grants. rewrite pl_addr, has_bits_land_disjoint; [done|]. rewrite Z.land_comm. apply (pl_mask (mask := mask)). auto.
Qed.

Lemma addr_addr x : PTE_ADDR D (PTE_ADDR D x) = PTE_ADDR D x.
Proof. by rewrite !pl_addr, <- Z.land_assoc, Z.land_diag. Qed.

Lemma rel_lookup h a s i : rel h a s -> 0 <= i < 200 ->
  exists e, fb_pages s !! (MAP_ADDR / PAGE + i) = Some e /\ PTE_ADDR D e = frame i /\ frame i <> 0
            /\ grants D e = bool_decide (i ∉ a_prot a).
Proof.
  intros [_ _ _ Hb Hm _ _] Hi. cbn in Hb. rewrite Hb in Hm. destruct (Hm i Hi) as (e & ? & [? ?] & ?). eauto 6.
Qed.

(** A store to a page that is not protected. *)
Lemma store_granted k h a s i :
  rel h a s -> 0 <= i < 200 -> i ∉ a_prot a ->
  exists s', store_at tsc D PTE_A default_fault k (MAP_ADDR + i * PAGE) (wrap8 i) s = (Ret tt, s')
             /\ rel h (Aps (a_prot a) ({[i]} ∪ a_written a) (a_faults a) (a_lines a)) s'.
Proof.
  intros Hs Hi Hp. destruct (rel_lookup h a s i Hs Hi) as (e & He & Hf & Hf0 & Hg).
  rewrite bool_decide_eq_true_2 in Hg by done.
  assert (Hc : can_store D (fb_pages s) (MAP_ADDR / PAGE + i) = true) by (unfold can_store; by rewrite He).
  set (e' := Z.lor e (Z.lor PTE_A (PTE_D D))).
  assert (Hg' : grants D e' = true).
  { unfold grants, e' in *. rewrite !has_bits_lor_other; [done|apply (pl_W_set (mask := mask))|apply (pl_P_set (mask := mask))]. }
  eexists. split.
  { destruct k; cbn [store_at]; rewrite bind_gets, page_of, Hc by apply map_addr_aligned; reflexivity. }
  destruct Hs as [? ? ? Hb Hm Hw Hr]. cbn in Hb. rewrite (alter_some _ _ _ e) by done. split; cbn; try done.
  - rewrite Hb in *. pose proof (maps_as_insert dune_backend _ _ _ i e' Hm Hi) as Hm'. cbn in Hm'.
    rewrite Hg' in Hm'. replace (a_prot a ∖ {[i]}) with (a_prot a) in Hm' by set_solver. apply Hm'.
    split; [|done]. unfold e'. rewrite Z.lor_assoc, !addr_lor; [done|apply (pl_mask (mask := mask)); auto..].
  - rewrite Hb in *. by apply written_store.
Qed.

(** The two handlers, entered for a protected page. *)
Lemma handler2_ok a s i :
  rel 2 a s -> 0 <= i < 200 ->
  exists s', dune_handler2 D PTE_A (MAP_ADDR + i * PAGE) s = (Ret tt, s')
             /\ rel 2 (Aps (a_prot a ∖ {[i]}) (a_written a) (a_faults a) (a_lines a)) s'.
Proof.
  intros Hs Hi. destruct (rel_lookup 2 a s i Hs Hi) as (e & He & Hf & Hf0 & _).
  unfold dune_handler2, lookup_pte, set_pte. rewrite bind_assoc, bind_gets.
  rewrite page_of, He by apply map_addr_aligned. rewrite bind_ret_l. eexists. split; [reflexivity|].
  destruct Hs as [? ? ? Hb Hm Hw Hr]. cbn in Hb. split; cbn; try done; [|set_solver].
  rewrite Hb in *.
  pose proof (maps_as_insert dune_backend _ _ _ i (Z.lor e (fault_bits D PTE_A)) Hm Hi) as Hm'. cbn in Hm'.
  rewrite fault_bits_grant in Hm'. apply Hm'. by rewrite fault_bits_addr.
Qed.

Lemma handler1_ok a s i :
  rel 1 a s -> 0 <= i < 100 ->
  exists s', dune_handler1 tsc D PTE_A (MAP_ADDR + i * PAGE) s = (Ret tt, s')
             /\ rel 1 (Aps ({[i + NRPGS]} ∪ a_prot a ∖ {[i]}) (a_written a) (a_faults a) (a_lines a)) s'.
Proof.
  intros Hs Hi. destruct (rel_lookup 1 a s i Hs ltac:(lia)) as (e & He & Hf & Hf0 & _).
  destruct (rel_lookup 1 a s (i + NRPGS) Hs ltac:(unfold NRPGS; lia)) as (e2 & He2 & Hf2 & Hf20 & _).
  unfold dune_handler1, lookup_pte, set_pte, ticks. exec. cbn [fb_pages with_time with_now].
  replace (MAP_ADDR + i * PAGE + NRPGS * PAGE) with (MAP_ADDR + (i + NRPGS) * PAGE) by lia.
  rewrite !page_of, He by apply map_addr_aligned. exec. cbn [fb_pages with_pages with_time with_now].
  rewrite lookup_insert_ne, He2 by (unfold NRPGS; lia). exec.
  set (pt' := <[MAP_ADDR / PAGE + (i + NRPGS) := PTE_ADDR D e2]>
               (<[MAP_ADDR / PAGE + i := Z.lor e (fault_bits D PTE_A)]> (fb_pages s))).
  assert (Hm' : maps_as dune_backend (MAP_ADDR / PAGE) pt' ({[i + NRPGS]} ∪ a_prot a ∖ {[i]})).
  { pose proof (rel_maps _ _ _ _ Hs) as Hm. rewrite (rel_base _ _ _ _ Hs) in Hm.
    pose proof (maps_as_insert dune_backend _ _ _ i (Z.lor e (fault_bits D PTE_A)) Hm ltac:(lia)) as H1. cbn in H1.
    rewrite fault_bits_grant, fault_bits_addr in H1. specialize (H1 (conj Hf Hf0)).
    pose proof (maps_as_insert dune_backend _ _ _ (i + NRPGS) (PTE_ADDR D e2) H1 ltac:(unfold NRPGS; lia)) as H2.
    cbn in H2. rewrite addr_no_grant, addr_addr in H2. by apply H2. }
  destruct Hs as [? ? ? Hb _ Hw Hr]. cbn in Hb.
  destruct (truthy (Z.land e2 PTE_A)); eexists; (split; [reflexivity|]); split; cbn; try done;
    try (rewrite Hb; exact Hm'); unfold NRPGS; set_solver by lia.
Qed.

Lemma dune_fault_ok h a s i :
  rel h a s -> 0 <= i < 200 -> i ∈ a_prot a -> handled h i a ->
  exists s', handle_fault tsc D PTE_A default_fault (MAP_ADDR + i * PAGE) s = (Ret tt, s')
             /\ rel h (Aps (a_prot (abs_touch h i a)) (a_written a) (S (a_faults a)) (a_lines a)) s'.
Proof.
  intros Hs Hi Hin Hh. unfold abs_touch. rewrite decide_True by done. cbn [a_prot].
  unfold handle_fault. rewrite bind_modify, bind_gets. cbn [with_fault fb_handler].
  rewrite (rel_handler _ _ _ _ Hs).
  assert (Hs' : rel h (Aps (a_prot a) (a_written a) (S (a_faults a)) (a_lines a)) (with_fault s)).
  { destruct Hs. split; cbn; try done. by f_equal. }
  destruct (Hh Hin) as [[-> Hlt]| ->].
  - exact (handler1_ok _ _ i Hs' ltac:(unfold NRPGS in Hlt; lia)).
  - exact (handler2_ok _ _ i Hs' Hi).
Qed.

Lemma store_faults k addr v s s1 :
  can_store D (fb_pages s) (addr / PAGE) = false ->
  handle_fault tsc D PTE_A default_fault addr s = (Ret tt, s1) ->
  store_at tsc D PTE_A default_fault (S k) addr v s = store_at tsc D PTE_A default_fault k addr v s1.
Proof. intros Hc E. cbn [store_at]. rewrite bind_gets, Hc, (bind_step _ _ _ _ _ E). by destruct k. Qed.

Lemma dune_touch_ok h i a :
  0 <= i < 200 -> handled h i a -> returns (rel h a) (touch i) (fun _ => rel h (abs_touch h i a)).
Proof.
  intros Hi Hh s Hs. unfold BenchFault.touch. rewrite bind_gets, (rel_base _ _ _ _ Hs).
  destruct (decide (i ∈ a_prot a)) as [Hin|Hout].
  - destruct (dune_fault_ok h a s i Hs Hi Hin Hh) as (s1 & E1 & H1).
    destruct (store_granted 0 h _ s1 i H1 Hi) as (s2 & E2 & H2).
    { unfold abs_touch. rewrite decide_True by done. cbn. unfold NRPGS. destruct h as [|[|h]]; set_solver by lia. }
    exists tt, s2. split.
    + destruct (rel_lookup h a s i Hs Hi) as (e & He & _ & _ & Hg). rewrite bool_decide_eq_false_2 in Hg by set_solver.
      rewrite (store_faults 0 _ _ s s1); [exact E2| |exact E1]. rewrite page_of by apply map_addr_aligned.
      unfold can_store. by rewrite He.
    + unfold abs_touch in *. destruct (decide (i ∈ a_prot a)); [exact H2|done].
  - destruct (store_granted 1 h a s i Hs Hi Hout) as (s' & E & H'). exists tt, s'. split; [exact E|].
    unfold abs_touch. by rewrite decide_False by done.
Qed.

Lemma dune_protect_ok h n w a :
  0 <= n <= 200 -> returns (rel h a) (be_protect dune_backend n w) (fun _ => rel h (abs_protect n w a)).
Proof.
  intros Hn. cbn [be_protect dune_backend]. apply returns_modify. intros s [? ? ? Hb Hm Hw Hr]. cbn in Hb.
  split; cbn; try done; [|destruct w; set_solver by lia].
  apply (maps_as_protect dune_backend _ (fb_pages s)); [done|]. rewrite Hb. intros i e Hi He [Hf Hf0].
  pose proof vmp_perms as Hne. destruct (decide (i < n)) as [Hlt|Hge].
  - edestruct (vmp_in (fb_pages s) MAP_ADDR n (if w then Z.lor (PERM_R D) (PERM_W D) else PERM_R D) i e)
      as (e' & ? & ? & Hg); [apply map_addr_aligned|lia|done|congruence|destruct w; auto|].
    exists e'. split; [done|]. split; [split; congruence|]. cbn. rewrite Hg.
    destruct w; [by apply bool_decide_eq_true_2|by apply bool_decide_eq_false_2].
  - exists e. rewrite vmp_out; [done|apply map_addr_aligned|lia].
Qed.

#[export] Instance dune_backend_ok : backend_ok dune_backend.
Proof. split; [exact dune_touch_ok|exact dune_protect_ok]. Qed.

Lemma appel1_loop_ok n x y a :
  returns (rel 1 a) (appel1_loop tsc D PTE_A dune_vm_mprotect default_fault n x y)
          (fun _ => rel 1 (Nat.iter n abs_pass1 a)).
Proof.
  revert x y a. induction n as [|n IH]; intros x y a; cbn [appel1_loop].
  - intros s Hs. by exists (x, y), s.
  - next; [apply (dune_protect_ok 1 100 false); lia|]. next; [by apply rel_modify|]. next; [apply rel_ticks|].
    next; [apply (stores1 dune_backend)|].
    { intros i b Hi Hh. next; [apply rel_ticks|]. next; [by apply rel_modify|]. by apply dune_touch_ok. }
    next; [apply rel_ticks|]. apply rel_get. intros s. rewrite Nat.iter_succ_r. apply IH.
Qed.

Lemma appel2_loop_ok n x a :
  returns (rel 2 a) (appel2_loop tsc D PTE_A dune_vm_mprotect default_fault n x)
          (fun _ => rel 2 (Nat.iter n abs_pass2 a)).
Proof.
  revert x a. induction n as [|n IH]; intros x a; cbn [appel2_loop].
  - intros s Hs. by exists x, s.
  - next; [apply (dune_protect_ok 2 200 true); lia|]. next; [apply (prime_then_protect dune_backend)|].
    next; [apply rel_ticks|]. unfold benchmark2.
    next; [next; [apply (dune_protect_ok 2 100 false); lia|apply (stores2_pass dune_backend)]|].
    next; [apply rel_ticks|]. apply rel_get. intros s. rewrite Nat.iter_succ_r. apply IH.
Qed.

Lemma benchmark_appel1_ok h a :
  returns (rel h a) (benchmark_appel1 tsc D PTE_A dune_vm_mprotect default_fault) (fun _ => rel 1 (abs_appel1 a)).
Proof.
  unfold benchmark_appel1. next; [apply rel_install|]. next; [apply appel1_loop_ok|].
  rewrite <- abs_appel1_passes. next; [apply rel_print|]. apply rel_print.
Qed.

Lemma benchmark_appel2_ok h a :
  returns (rel h a) (benchmark_appel2 tsc D PTE_A dune_vm_mprotect default_fault) (fun _ => rel 2 (abs_appel2 a)).
Proof.
  unfold benchmark_appel2. next; [apply rel_install|]. next; [apply appel2_loop_ok|].
  rewrite <- abs_appel2_passes. apply rel_print.
Qed.
End dune.

(** ** Linux *)

(** mprotect(2) on whole pages that are mapped. *)
Class mprotect_ok (mprotect : gmap Z Z -> Z -> Z -> Z -> gmap Z Z) : Prop := {
  mp_in pt va n prot i : (PAGE | va) -> 0 <= i < n ->
    mprotect pt va (n * PAGE) prot !! (va / PAGE + i) = (fun _ => prot) <$> pt !! (va / PAGE + i);
  mp_out pt va n prot i : (PAGE | va) -> i < 0 \/ n <= i ->
    mprotect pt va (n * PAGE) prot !! (va / PAGE + i) = pt !! (va / PAGE + i);
}.

Section linux.
Context (tsc : nat -> Z * Z).
Context (mprotect : gmap Z Z -> Z -> Z -> Z -> gmap Z Z) `{!mprotect_ok mprotect}.

Definition linux_backend : fault_backend := {|
  be_writable prot := has_bits prot LPROT_WRITE;
  be_base b := (PAGE | b) /\ u64 b /\ u64 (b + 200 * PAGE);
  be_entry _ _ := True;
  be_touch := linux_touch tsc mprotect;
  be_protect n w := b ← gets fb_base; linux_protect mprotect b (n * PAGE) (if w then Z.lor LPROT_READ LPROT_WRITE else LPROT_READ);
|}.

Abbreviation lrel := (rel linux_backend).

Lemma fault_page_id b i : (PAGE | b) -> u64 (b + i * PAGE) -> fault_page (b + i * PAGE) = b + i * PAGE.
Proof.
  intros [k ->] Hu. unfold fault_page. replace (k * PAGE + i * PAGE) with (Z.shiftl (k + i) 12) in *.
  2: { rewrite Z.shiftl_mul_pow2 by lia. unfold PAGE. lia. }
  replace (wrap64 (Z.lnot (PAGE - 1))) with (Z.shiftl (Z.ones 52) 12) by reflexivity.
  rewrite <- Z.shiftl_land, Z.land_ones, Z.mod_small; [done| |lia].
  rewrite Z.shiftl_mul_pow2 in Hu by lia. mlia.
Qed.

(** mprotect on the pages [lo] to [lo + n - 1]. *)
Lemma maps_as_mprotect b pt prot lo n p :
  (PAGE | b) -> 0 <= lo -> 0 <= n -> lo + n <= 200 -> maps_as linux_backend (b / PAGE) pt prot ->
  maps_as linux_backend (b / PAGE) (mprotect pt (b + lo * PAGE) (n * PAGE) p)
    (if has_bits p LPROT_WRITE then prot ∖ pages lo (lo + n) else pages lo (lo + n) ∪ prot).
Proof.
  intros Hb Hlo Hn Hhi Hm i Hi. destruct (Hm i Hi) as (e & He & _ & Hw). cbn in *.
  assert (Hva : (PAGE | b + lo * PAGE)) by (apply Z.divide_add_r; [done|apply Z.divide_factor_r]).
  assert (Hpg : b / PAGE + i = (b + lo * PAGE) / PAGE + (i - lo)) by (rewrite page_of by done; lia).
  destruct (decide (lo <= i < lo + n)) as [Hin|Hout].
  - exists p. rewrite Hpg, mp_in, <- Hpg, He by (done || lia). do 2 (split; [done|]). symmetry.
    destruct (has_bits p LPROT_WRITE); [apply bool_decide_eq_true|apply bool_decide_eq_false]; set_solver by lia.
  - exists e. rewrite Hpg, mp_out, <- Hpg, He by (done || lia). do 2 (split; [done|]). rewrite Hw.
    apply bool_decide_ext. destruct (has_bits p LPROT_WRITE); set_solver by lia.
Qed.

Lemma maps_as_mprotect1 b pt prot i p :
  (PAGE | b) -> 0 <= i < 200 -> maps_as linux_backend (b / PAGE) pt prot ->
  maps_as linux_backend (b / PAGE) (mprotect pt (b + i * PAGE) PAGE p)
    (if has_bits p LPROT_WRITE then prot ∖ {[i]} else {[i]} ∪ prot).
Proof.
  intros Hb Hi Hm. replace ({[i]} : gset Z) with (pages i (i + 1)) by (apply set_eq; set_solver by lia).
  replace PAGE with (1 * PAGE) at 3 by lia. apply maps_as_mprotect; [done|lia..|done].
Qed.

Lemma lstore_granted k h a s i :
  lrel h a s -> 0 <= i < 200 -> i ∉ a_prot a ->
  exists s', linux_store tsc mprotect k (fb_base s + i * PAGE) (wrap8 i) s = (Ret tt, s')
             /\ lrel h (Aps (a_prot a) ({[i]} ∪ a_written a) (a_faults a) (a_lines a)) s'.
Proof.
  intros Hs Hi Hp. destruct Hs as [? ? ? (Hb & Hu & Hu2) Hm Hw Hr]. destruct (Hm i Hi) as (e & He & _ & Hg).
  rewrite bool_decide_eq_true_2 in Hg by done. eexists. split.
  { destruct k; cbn [linux_store]; rewrite bind_gets, page_of by done; unfold linux_can_store; rewrite He;
      change (has_bits e LPROT_WRITE) with (be_writable linux_backend e); rewrite Hg; reflexivity. }
  split; cbn; try done. by apply written_store.
Qed.

Lemma linux_handler1_ok a s i :
  lrel 1 a s -> 0 <= i < 100 ->
  exists s', linux_handler1 tsc mprotect (fb_base s + i * PAGE) s = (Ret tt, s') /\ fb_base s' = fb_base s
             /\ lrel 1 (Aps ({[i + NRPGS]} ∪ a_prot a ∖ {[i]}) (a_written a) (a_faults a) (a_lines a)) s'.
Proof.
  intros [? ? ? (Hb & Hu & Hu2) Hm Hw Hr] Hi. unfold linux_handler1.
  rewrite fault_page_id by (done || (unfold PAGE in *; mlia)).
  replace (fb_base s + i * PAGE + PAGE * NRPGS) with (fb_base s + (i + NRPGS) * PAGE) by lia.
  eexists. split; [reflexivity|]. split; [reflexivity|]. split; cbn; try done; [|unfold NRPGS; set_solver by lia].
  apply (maps_as_mprotect1 _ _ (a_prot a ∖ {[i]}) (i + NRPGS) LPROT_READ); [done|unfold NRPGS; lia|].
  by apply (maps_as_mprotect1 _ _ (a_prot a) i (Z.lor LPROT_READ LPROT_WRITE)); [|lia|].
Qed.

Lemma linux_handler2_ok a s i :
  lrel 2 a s -> 0 <= i < 200 ->
  exists s', linux_handler2 mprotect (fb_base s + i * PAGE) s = (Ret tt, s') /\ fb_base s' = fb_base s
             /\ lrel 2 (Aps (a_prot a ∖ {[i]}) (a_written a) (a_faults a) (a_lines a)) s'.
Proof.
  intros [? ? ? (Hb & Hu & Hu2) Hm Hw Hr] Hi. unfold linux_handler2.
  rewrite fault_page_id by (done || (unfold PAGE in *; mlia)).
  eexists. split; [reflexivity|]. split; [reflexivity|]. split; cbn; try done; [|set_solver].
  by apply (maps_as_mprotect1 _ _ (a_prot a) i (Z.lor LPROT_READ LPROT_WRITE)); [|lia|].
Qed.

Lemma linux_fault_ok h a s i :
  lrel h a s -> 0 <= i < 200 -> i ∈ a_prot a -> handled h i a ->
  exists s', linux_fault tsc mprotect (fb_base s + i * PAGE) s = (Ret tt, s') /\ fb_base s' = fb_base s
             /\ lrel h (Aps (a_prot (abs_touch h i a)) (a_written a) (S (a_faults a)) (a_lines a)) s'.
Proof.
  intros Hs Hi Hin Hh. unfold abs_touch. rewrite decide_True by done. cbn [a_prot].
  unfold linux_fault. rewrite bind_modify, bind_gets. cbn [with_fault fb_handler].
  rewrite (rel_handler _ _ _ _ Hs).
  assert (Hs' : lrel h (Aps (a_prot a) (a_written a) (S (a_faults a)) (a_lines a)) (with_fault s)).
  { destruct Hs. split; cbn; try done. by f_equal. }
  destruct (Hh Hin) as [[-> Hlt]| ->].
  - exact (linux_handler1_ok _ _ i Hs' ltac:(unfold NRPGS in Hlt; lia)).
  - exact (linux_handler2_ok _ _ i Hs' Hi).
Qed.

Lemma lstore_faults k addr v s s1 :
  linux_can_store (fb_pages s) (addr / PAGE) = false -> linux_fault tsc mprotect addr s = (Ret tt, s1) ->
  linux_store tsc mprotect (S k) addr v s = linux_store tsc mprotect k addr v s1.
Proof. intros Hc E. cbn [linux_store]. rewrite bind_gets, Hc, (bind_step _ _ _ _ _ E). by destruct k. Qed.

Lemma linux_touch_ok h i a :
  0 <= i < 200 -> handled h i a ->
  returns (lrel h a) (linux_touch tsc mprotect i) (fun _ => lrel h (abs_touch h i a)).
Proof.
  intros Hi Hh s Hs. unfold linux_touch. rewrite bind_gets.
  destruct (decide (i ∈ a_prot a)) as [Hin|Hout].
  - destruct (linux_fault_ok h a s i Hs Hi Hin Hh) as (s1 & E1 & Eb & H1).
    destruct (lstore_granted 0 h _ s1 i H1 Hi) as (s2 & E2 & H2).
    { unfold abs_touch. rewrite decide_True by done. cbn. unfold NRPGS. destruct h as [|[|h]]; set_solver by lia. }
    exists tt, s2. split.
    + rewrite (lstore_faults 0 _ _ s s1); [by rewrite <- Eb| |exact E1].
      destruct Hs as [? ? ? (Hb & Hu & Hu2) Hm Hw Hr]. rewrite page_of by done.
      destruct (Hm i Hi) as (e & He & _ & Hg). rewrite bool_decide_eq_false_2 in Hg by set_solver.
      unfold linux_can_store. by rewrite He.
    + unfold abs_touch in *. destruct (decide (i ∈ a_prot a)); [exact H2|done].
  - destruct (lstore_granted 1 h a s i Hs Hi Hout) as (s' & E & H'). exists tt, s'. split; [exact E|].
    unfold abs_touch. by rewrite decide_False by done.
Qed.

Lemma linux_protect_ok h n w a :
  0 <= n <= 200 -> returns (lrel h a) (be_protect linux_backend n w) (fun _ => lrel h (abs_protect n w a)).
Proof.
  intros Hn s [? ? ? (Hb & Hu & Hu2) Hm Hw Hr]. cbn [be_protect linux_backend]. rewrite bind_gets.
  eexists _, _. split; [reflexivity|]. split; cbn; try done; [|destruct w; set_solver by lia].
  pose proof (maps_as_mprotect _ _ _ 0 n (if w then Z.lor LPROT_READ LPROT_WRITE else LPROT_READ) Hb
    ltac:(lia) ltac:(lia) ltac:(lia) Hm) as H'. rewrite Z.mul_0_l, Z.add_0_r, Z.add_0_l in H'.
  by destruct w.
Qed.

#[export] Instance linux_backend_ok : backend_ok linux_backend.
Proof. split; [exact linux_touch_ok|exact linux_protect_ok]. Qed.

(** A change of protection in front of other code. *)
Lemma linux_protect_seq {A} h n w a (k : FB A) Q :
  0 <= n <= 200 -> returns (lrel h (abs_protect n w a)) k Q ->
  returns (lrel h a)
    (b ← gets fb_base; _ ← linux_protect mprotect b (n * PAGE) (if w then Z.lor LPROT_READ LPROT_WRITE else LPROT_READ); k) Q.
Proof.
  intros Hn Hk. apply (returns_assoc _ (gets fb_base) (fun b => linux_protect mprotect b (n * PAGE) _) (fun _ => k)).
  eapply returns_seq; [by apply (linux_protect_ok h n w)|by intros _].
Qed.

Lemma linux_appel1_loop_ok n x y a :
  returns (lrel 1 a) (linux_appel1_loop tsc mprotect n x y) (fun _ => lrel 1 (Nat.iter n abs_pass1 a)).
Proof.
  revert x y a. induction n as [|n IH]; intros x y a; cbn [linux_appel1_loop].
  - intros s Hs. by exists (x, y), s.
  - next; [by apply rel_modify|]. apply (linux_protect_seq 1 100 false); [lia|].
    next; [apply rel_ticks|]. next; [apply (stores1 linux_backend)|].
    { intros i b Hi Hh. next; [apply rel_ticks|]. next; [by apply rel_modify|]. by apply linux_touch_ok. }
    next; [apply rel_ticks|]. apply rel_get. intros s. rewrite Nat.iter_succ_r. apply IH.
Qed.

Lemma linux_appel2_loop_ok n x a :
  returns (lrel 2 a) (linux_appel2_loop tsc mprotect n x) (fun _ => lrel 2 (Nat.iter n abs_pass2 a)).
Proof.
  revert x a. induction n as [|n IH]; intros x a; cbn [linux_appel2_loop].
  - intros s Hs. by exists x, s.
  - apply (linux_protect_seq 2 200 true); [lia|]. next; [apply (prime_then_protect linux_backend)|].
    next; [apply rel_ticks|]. unfold linux_benchmark2.
    next; [apply (linux_protect_seq 2 100 false); [lia|apply (stores2_pass linux_backend)]|].
    next; [apply rel_ticks|]. apply rel_get. intros s. rewrite Nat.iter_succ_r. apply IH.
Qed.

Lemma linux_benchmark_appel1_ok h a :
  returns (lrel h a) (linux_benchmark_appel1 tsc mprotect) (fun _ => lrel 1 (abs_appel1 a)).
Proof.
  unfold linux_benchmark_appel1. next; [apply rel_install|]. next; [apply linux_appel1_loop_ok|].
  rewrite <- abs_appel1_passes. next; [apply rel_print|]. apply rel_print.
Qed.

Lemma linux_benchmark_appel2_ok h a :
  returns (lrel h a) (linux_benchmark_appel2 tsc mprotect) (fun _ => lrel 2 (abs_appel2 a)).
Proof.
  unfold linux_benchmark_appel2. next; [apply rel_install|]. next; [apply linux_appel2_loop_ok|].
  rewrite <- abs_appel2_passes. apply rel_print.
Qed.
End linux.
