(* ===== verification/BenchMain.v ===== *)
(** The fault benchmarks as whole programs: their main functions return with
    the results printed and the faults counted, the errors of the platform
    are passed on, and Dune's and Linux's programs agree. *)

From stdpp Require Import base numbers list option gmap fin_sets sets.
From S2P Require Import Prelude Platform BenchFault FaultSpec BenchFaultProps.

#[local] Arguments PAGE : simpl never.
#[local] Arguments MAP_ADDR : simpl never.
#[local] Arguments NRPGS : simpl never.
#[local] Arguments Z.div : simpl never.
#[local] Arguments Z.mul : simpl never.
#[local] Arguments Z.add : simpl never.
#[local] Arguments Z.to_nat : simpl never.

(** ** The two programs agree *)

Section agree.
Context (tsc tsc' : nat -> Z * Z) (D : dune_abi) (PTE_A mask : Z) `{!pte_layout D PTE_A mask}.
Context (vm_mprotect : gmap Z Z -> Z -> Z -> Z -> gmap Z Z) `{!vm_mprotect_ok D vm_mprotect}.
Context (default_fault : Z -> gmap Z Z -> gmap Z Z) (frame : Z -> Z).
Context (mprotect : gmap Z Z -> Z -> Z -> Z -> gmap Z Z) `{!mprotect_ok mprotect}.

Abbreviation dune := (dune_backend tsc D PTE_A vm_mprotect default_fault frame).
Abbreviation linux := (linux_backend tsc' mprotect).

(** What the two relations say of stores and of memory. *)
Lemma dune_observe h a s i :
  rel dune h a s -> 0 <= i < 200 ->
  can_store D (fb_pages s) (fb_base s / PAGE + i) = bool_decide (i ∉ a_prot a)
  /\ (i ∈ a_written a -> fb_mem s (fb_base s + i * PAGE) = wrap8 i).
Proof.
  intros [? ? ? ? Hm Hw ?] Hi. split; [|by intros; apply Hw].
  destruct (Hm i Hi) as (e & He & _ & <-). unfold can_store. by rewrite He.
Qed.

Lemma linux_observe h a s i :
  rel linux h a s -> 0 <= i < 200 ->
  linux_can_store (fb_pages s) (fb_base s / PAGE + i) = bool_decide (i ∉ a_prot a)
  /\ (i ∈ a_written a -> fb_mem s (fb_base s + i * PAGE) = wrap8 i).
Proof.
  intros [? ? ? ? Hm Hw ?] Hi. split; [|by intros; apply Hw].
  destruct (Hm i Hi) as (e & He & _ & <-). unfold linux_can_store. by rewrite He.
Qed.

(** C13. The Dune program and the Linux program measure the same thing. From
    states in which the same pages are protected, PROT1,TRAP,UNPROT returns in
    both after exactly N passes of 100 faults and leaves the same pages
    writable, the first hundred and not the second; PROTN,TRAP,UNPROT then
    returns in both after as many faults again and leaves all 200 writable,
    with the same bytes in memory. *)
Theorem fault_benchmarks_agree h a s t :
  rel dune h a s -> rel linux h a t ->
  exists s1 s2 t1 t2,
    benchmark_appel1 tsc D PTE_A vm_mprotect default_fault s = (Ret tt, s1)
    /\ benchmark_appel2 tsc D PTE_A vm_mprotect default_fault s1 = (Ret tt, s2)
    /\ linux_benchmark_appel1 tsc' mprotect t = (Ret tt, t1)
    /\ linux_benchmark_appel2 tsc' mprotect t1 = (Ret tt, t2)
    /\ fb_faults s1 = (Z.to_nat (NRPGS * N) + fb_faults s)%nat /\ fb_faults t1 = fb_faults s1
    /\ fb_faults s2 = (Z.to_nat (NRPGS * N) + fb_faults s1)%nat /\ fb_faults t2 = fb_faults s2
    /\ forall i, 0 <= i < 200 ->
         can_store D (fb_pages s1) (fb_base s1 / PAGE + i) = (i <? 100)
         /\ linux_can_store (fb_pages t1) (fb_base t1 / PAGE + i) = (i <? 100)
         /\ can_store D (fb_pages s2) (fb_base s2 / PAGE + i) = true
         /\ linux_can_store (fb_pages t2) (fb_base t2 / PAGE + i) = true
         /\ fb_mem s2 (fb_base s2 + i * PAGE) = wrap8 i /\ fb_mem t2 (fb_base t2 + i * PAGE) = wrap8 i.
Proof.
  intros Hs Ht.
  destruct (benchmark_appel1_ok tsc D PTE_A mask vm_mprotect default_fault frame h a s Hs) as ([] & s1 & E1 & H1).
  destruct (benchmark_appel2_ok tsc D PTE_A mask vm_mprotect default_fault frame 1 _ s1 H1) as ([] & s2 & E2 & H2).
  destruct (linux_benchmark_appel1_ok tsc' mprotect h a t Ht) as ([] & t1 & E3 & H3).
  destruct (linux_benchmark_appel2_ok tsc' mprotect 1 _ t1 H3) as ([] & t2 & E4 & H4).
  exists s1, s2, t1, t2. do 4 (split; [assumption|]).
  rewrite (rel_faults _ _ _ _ H2), (rel_faults _ _ _ _ H4), (rel_faults _ _ _ _ H1), (rel_faults _ _ _ _ H3),
    (rel_faults _ _ _ _ Hs).
  do 4 (split; [reflexivity|]). intros i Hi.
  destruct (dune_observe _ _ _ i H1 Hi) as [-> _]. destruct (linux_observe _ _ _ i H3 Hi) as [-> _].
  destruct (dune_observe _ _ _ i H2 Hi) as [-> M2]. destruct (linux_observe _ _ _ i H4 Hi) as [-> M4].
  assert (Hc : bool_decide (i ∉ a_prot (abs_appel1 a)) = (i <? 100)).
  { cbn [abs_appel1 a_prot]. clear -Hi. destruct (Z.ltb_spec i 100); [apply bool_decide_eq_true_2|apply bool_decide_eq_false_2]; set_solver by lia. }
  rewrite Hc. do 2 (split; [reflexivity|]). unfold abs_appel2, abs_appel1 in *. cbn [a_prot a_written] in *.
  clear -M2 M4 Hi. do 2 (split; [apply bool_decide_eq_true_2, not_elem_of_empty|]).
  split; [apply M2|apply M4]; clear M2 M4; set_solver by lia.
Qed.
End agree.

(** ** The parts before the benchmarks of Appel and Li *)

(** The state of the program once it has printed the lines [k], while no
    handler is installed and at most [f] faults were taken. *)
Definition early (k : list fb_line) (f : nat) (s : fb) : Prop :=
  fb_handler s = 0%nat /\ shape <$> fb_out s = k /\ (fb_faults s <= f)%nat.

(** The same before any fault, with the page table [pt]. *)
Definition resting (k : list fb_line) (pt : gmap Z Z) (s : fb) : Prop := early k 0 s /\ fb_pages s = pt.

Section early.
Context (tsc : nat -> Z * Z).

Lemma early_out k f v s : early k f s -> early (k ++ [shape v]) f (with_out v s).
Proof. intros (? & <- & ?). split; [done|]. cbn. by rewrite fmap_app. Qed.

Lemma early_print k f v : returns (early k f) (print v) (fun _ => early (k ++ [shape v]) f).
Proof. apply returns_modify. intros s. apply early_out. Qed.

Lemma resting_print k pt v : returns (resting k pt) (print v) (fun _ => resting (k ++ [shape v]) pt).
Proof. apply returns_modify. intros s [He Hp]. split; [by apply early_out|done]. Qed.

Lemma calibrate_resting k pt : returns (resting k pt) (calibrate tsc) (fun _ => resting (k ++ [TscOverheadIs 0]) pt).
Proof.
  unfold calibrate. apply returns_gets. intros v.
  apply (returns_mono (resting k pt) _ _ (fun _ => resting (k ++ [TscOverheadIs 0]) pt)); [|by intros s [? _]|done].
  next; [by apply (returns_modify _ (fun _ => resting k pt))|].
  next; [by apply (returns_modify _ (fun _ => resting k pt))|].
  apply (resting_print k pt (TscOverheadIs _)).
Qed.

Lemma early_measured (P Q : fb -> Prop) line c n :
  returns P c (fun _ => Q) -> (forall s v, P s -> P (with_now v s)) -> (forall s v, Q s -> Q (with_now v s)) ->
  returns P (measured tsc line c n) (fun _ s => exists s0 v, Q s0 /\ s = with_out (line v) s0).
Proof.
  intros Hc HP HQ s Hs. unfold measured, ticks. exec.
  destruct (Hc (with_now (S (fb_now s)) s) (HP s _ Hs)) as (u & s1 & E & H1). rewrite (bind_step _ _ _ _ _ E). exec.
  do 2 eexists. split; [reflexivity|]. do 2 eexists. split; [apply HQ, H1|reflexivity].
Qed.

Lemma syscall_resting k pt : returns (resting k pt) (benchmark_syscall tsc) (fun _ => resting (k ++ [SystemCallTook 0]) pt).
Proof.
  unfold benchmark_syscall.
  eapply returns_mono; [apply (early_measured (resting k pt) (resting k pt))|done|].
  - apply (returns_for _ (fun _ => resting k pt)); [|done|done]. intros i _. apply returns_modify. by intros s [? ?].
  - by intros s v Hs.
  - by intros s v Hs.
  - intros [] s (s0 & v & [He Hp] & ->). split; [by apply (early_out k 0 (SystemCallTook v))|done].
Qed.

Lemma resting_start k s : early k 0 s -> resting k (fb_pages s) s.
Proof. done. Qed.
End early.

(** ** Dune's program *)

(** The area benchmark_fault maps: once dune_mmap has mapped it, a fault on it
    that no handler of the program takes is resolved by the system. *)
Class fault_region_ok (D : dune_abi) (PTE_A : Z) (dune_mmap : gmap Z Z -> Z -> Z -> Z * gmap Z Z)
    (default_fault : Z -> gmap Z Z -> gmap Z Z) (backed : Z -> gmap Z Z -> Prop) : Prop := {
  fr_map pt fm pt' : dune_mmap pt FAULT_ADDR (NRPGS * PAGE) = (fm, pt') -> fm <> 2 ^ 64 - 1 ->
    (PAGE | fm) /\ backed fm pt';
  fr_fault pt fm i : backed fm pt -> 0 <= i < NRPGS ->
    can_store D (default_fault (fm + i * PAGE) pt) (fm / PAGE + i) = true
    /\ backed fm (default_fault (fm + i * PAGE) pt);
  fr_flags pt fm p : backed fm pt -> backed fm (alter (fun pte => Z.lor pte (Z.lor PTE_A (PTE_D D))) p pt);
}.

(** dune_vm_map_pages: when it answers 0 every page of the range has a frame
    and grants stores. *)
Class map_pages_ok (D : dune_abi) (map_pages : gmap Z Z -> Z -> Z -> Z -> Z * gmap Z Z) : Prop := {
  mpg_entries pt va n i : (PAGE | va) -> 0 <= i < n ->
    (map_pages pt va (n * PAGE) (Z.lor (PERM_R D) (PERM_W D))).1 = 0 ->
    exists e, (map_pages pt va (n * PAGE) (Z.lor (PERM_R D) (PERM_W D))).2 !! (va / PAGE + i) = Some e
              /\ PTE_ADDR D e <> 0 /\ grants D e = true;
}.

Section dune_program.
Context (tsc : nat -> Z * Z) (D : dune_abi) (PTE_A mask : Z) `{!pte_layout D PTE_A mask}.
Context (vm_mprotect : gmap Z Z -> Z -> Z -> Z -> gmap Z Z) `{!vm_mprotect_ok D vm_mprotect}.
Context (map_pages : gmap Z Z -> Z -> Z -> Z -> Z * gmap Z Z) `{!map_pages_ok D map_pages}.
Context (dune_mmap : gmap Z Z -> Z -> Z -> Z * gmap Z Z) (default_fault : Z -> gmap Z Z -> gmap Z Z).
Context (backed : Z -> gmap Z Z -> Prop) `{!fault_region_ok D PTE_A dune_mmap default_fault backed}.

Abbreviation dune_main := (dune_main tsc D PTE_A vm_mprotect map_pages dune_mmap default_fault).
Abbreviation store_at := (store_at tsc D PTE_A default_fault).

Definition faulting (fm : Z) (k : list fb_line) (f : nat) (s : fb) : Prop := early k f s /\ backed fm (fb_pages s).

Lemma region_store_granted fm j i v k f s :
  (PAGE | fm) -> faulting fm k f s -> can_store D (fb_pages s) (fm / PAGE + i) = true ->
  exists s', store_at j (fm + i * PAGE) v s = (Ret tt, s') /\ faulting fm k f s'.
Proof.
  intros Ha [He Hb] Hc. eexists. split.
  { destruct j; cbn [BenchFault.store_at]; rewrite bind_gets, page_of, Hc by done; reflexivity. }
  split; [exact He|]. cbn. by apply fr_flags.
Qed.

Lemma region_store fm i v k f :
  (PAGE | fm) -> 0 <= i < NRPGS ->
  returns (faulting fm k f) (store_at 1 (fm + i * PAGE) v) (fun _ => faulting fm k (S f)).
Proof.
  intros Ha Hi s Hs. assert (Hup : forall s, faulting fm k f s -> faulting fm k (S f) s).
  { intros s' ((? & ? & ?) & ?). repeat split; try done. lia. }
  destruct (can_store D (fb_pages s) (fm / PAGE + i)) eqn:Hc.
  { destruct (region_store_granted fm 1 i v k f s Ha Hs Hc) as (s' & E & H'). exists tt, s'. auto. }
  destruct Hs as ((Hh & Hl & Hf) & Hb). destruct (fr_fault (fb_pages s) fm i Hb Hi) as [Hc' Hb'].
  set (s1 := with_pages (default_fault (fm + i * PAGE) (fb_pages s)) (with_fault s)).
  destruct (region_store_granted fm 0 i v k (S f) s1) as (s' & E & H'); [done| |done|].
  { split; [|exact Hb']. split; [exact Hh|]. split; [exact Hl|]. cbn. lia. }
  exists tt, s'. split; [|done]. rewrite (store_faults _ _ _ _ 0 _ _ s s1); [done| |].
  - by rewrite page_of by done.
  - unfold handle_fault. rewrite bind_modify, bind_gets. cbn [with_fault fb_handler]. by rewrite Hh.
Qed.

Lemma benchmark_fault_ok k pt :
  (dune_mmap pt FAULT_ADDR (NRPGS * PAGE)).1 <> 2 ^ 64 - 1 ->
  returns (resting k pt) (benchmark_fault tsc D PTE_A dune_mmap default_fault)
          (fun _ => early (k ++ [KernelFaultTook 0]) (Z.to_nat NRPGS)).
Proof.
  intros Hne s [He Hp]. unfold benchmark_fault. rewrite bind_gets, Hp.
  destruct (dune_mmap pt FAULT_ADDR (NRPGS * PAGE)) as [fm pt'] eqn:Hm.
  destruct (fr_map _ _ _ Hm Hne) as [Ha Hb]. rewrite bind_modify.
  assert (Hs : faulting fm k 0 (with_pages pt' s)) by (split; [exact He|exact Hb]). revert Hs.
  generalize (with_pages pt' s). clear s He Hp. intros s Hs. revert s Hs.
  eapply returns_mono; [apply (early_measured tsc (faulting fm k 0) (faulting fm k (Z.to_nat NRPGS)))|done|].
  - apply (returns_for _ (fun i => faulting fm k (Z.to_nat i))).
    + intros i Hi. unfold NRPGS in Hi. replace (Z.to_nat (i + 1)) with (S (Z.to_nat i)) by lia.
      apply region_store; [done|]. unfold NRPGS. lia.
    + done.
    + intros s. by rewrite Z.add_0_l, Nat2Z.id.
  - by intros s v Hs.
  - by intros s v Hs.
  - intros [] s (s0 & v & [He _] & ->). by apply (early_out k _ (KernelFaultTook v)).
Qed.

(** The frames dune_vm_map_pages gave. *)
Definition frames_of (pt : gmap Z Z) (i : Z) : Z := from_option (PTE_ADDR D) 0 (pt !! (MAP_ADDR / PAGE + i)).

Lemma mapped_rel pt ret pt' s k f :
  map_pages pt MAP_ADDR (2 * NRPGS * PAGE) (Z.lor (PERM_R D) (PERM_W D)) = (ret, pt') -> ret = 0 ->
  early k f s ->
  rel (dune_backend tsc D PTE_A vm_mprotect default_fault (frames_of pt')) 0 (Aps ∅ ∅ (fb_faults s) k)
      (with_base MAP_ADDR (with_pages pt' s)).
Proof.
  intros Hm -> (Hh & Hl & Hf). split; cbn; try done.
  intros i Hi. destruct (mpg_entries pt MAP_ADDR 200 i) as (e & He & Hf0 & Hg); [apply map_addr_aligned|lia| |].
  { change 200 with (2 * NRPGS). by rewrite Hm. }
  change 200 with (2 * NRPGS) in He. rewrite Hm in He. cbn in He.
  exists e. split; [done|]. cbn. unfold frames_of. by rewrite He.
Qed.

(** The rest of main once the memory is mapped. *)
Lemma dune_tail_ok frame h f k :
  returns (rel (dune_backend tsc D PTE_A vm_mprotect default_fault frame) h (Aps ∅ ∅ f k))
    (_ ← prime_memory tsc D PTE_A default_fault;
     _ ← benchmark_appel1 tsc D PTE_A vm_mprotect default_fault;
     _ ← benchmark_appel2 tsc D PTE_A vm_mprotect default_fault; mret 0)
    (fun r s => r = 0 /\ rel (dune_backend tsc D PTE_A vm_mprotect default_fault frame) 2
       (abs_appel2 (abs_appel1 (Aps ∅ (pages 0 200 ∪ ∅) f k))) s).
Proof.
  next; [by apply (prime_ok (dune_backend tsc D PTE_A vm_mprotect default_fault frame))|].
  next; [by apply (benchmark_appel1_ok tsc D PTE_A mask vm_mprotect default_fault frame)|].
  next; [by apply (benchmark_appel2_ok tsc D PTE_A mask vm_mprotect default_fault frame)|].
  apply returns_ret.
Qed.

(** The lines before the memory is mapped. *)
Definition dune_lines : list fb_line :=
  [TscOverheadIs 0; BenchmarkingDune; SystemCallTook 0; KernelFaultTook 0].

Abbreviation map_answer := (fun pt => map_pages pt MAP_ADDR (2 * NRPGS * PAGE) (Z.lor (PERM_R D) (PERM_W D))).

(** C30. Dune's fault benchmark runs to its end whatever the cycle counter
    reads. If Dune cannot be entered main passes the error on after two lines
    of output, the overhead and the failure. Otherwise, if dune_mmap can map
    the area of benchmark_fault (the program does not check): when
    dune_vm_map_pages fails main passes its error on after five lines, the last
    of them the failure; when it succeeds main returns 0 after the seven lines
    of its results, having taken the 2 * N * 100 faults of the two benchmarks
    and at most one per page of benchmark_fault, and all 200 pages are writable
    and hold what the program wrote. *)
Theorem dune_main_completes init s :
  fb_handler s = 0%nat -> fb_out s = [] -> fb_faults s = 0%nat ->
  (init <> 0 -> exists s', dune_main init s = (Ret init, s')
     /\ shape <$> fb_out s' = [TscOverheadIs 0; DuneInitFailed])
  /\ (init = 0 -> (dune_mmap (fb_pages s) FAULT_ADDR (NRPGS * PAGE)).1 <> 2 ^ 64 - 1 ->
     exists r pt s', dune_main init s = (Ret r, s') /\ r = (map_answer pt).1
       /\ (r <> 0 -> fb_pages s' = (map_answer pt).2 /\ shape <$> fb_out s' = dune_lines ++ [MappingFailed])
       /\ (r = 0 ->
            shape <$> fb_out s' = dune_lines ++ [UserFaultTook 0; Prot1Took 0; ProtNTook 0]
            /\ 2 * (NRPGS * N) <= Z.of_nat (fb_faults s') <= 2 * (NRPGS * N) + NRPGS
            /\ forall i, 0 <= i < 200 -> can_store D (fb_pages s') (fb_base s' / PAGE + i) = true
                                        /\ fb_mem s' (fb_base s' + i * PAGE) = wrap8 i)).
Proof.
  intros Hh Ho Hf. unfold BenchFault.dune_main.
  assert (H0 : resting [] (fb_pages s) s) by (split; [|done]; split; [done|]; by rewrite Ho, Hf).
  destruct (calibrate_resting tsc _ _ s H0) as ([] & s1 & E1 & H1).
  split; intros Hi; rewrite (bind_step _ _ _ _ _ E1).
  { rewrite (proj2 (truthy_true init) Hi). destruct (resting_print _ _ DuneInitFailed s1 H1) as ([] & s2 & E2 & [[_ [H2 _]] _]).
    rewrite (bind_step _ _ _ _ _ E2). by exists s2. }
  rewrite (proj2 (truthy_false init) Hi). intros Hmm.
  destruct (resting_print _ _ BenchmarkingDune s1 H1) as ([] & s2 & E2 & H2). rewrite (bind_step _ _ _ _ _ E2).
  destruct (syscall_resting tsc _ _ s2 H2) as ([] & s3 & E3 & H3). rewrite (bind_step _ _ _ _ _ E3).
  destruct (benchmark_fault_ok _ _ Hmm s3 H3) as ([] & s4 & E4 & H4). rewrite (bind_step _ _ _ _ _ E4), bind_gets.
  destruct (map_answer (fb_pages s4)) as [ret pt'] eqn:Hm. rewrite bind_modify.
  exists ret, (fb_pages s4). rewrite Hm. destruct (truthy ret) eqn:Hr.
  { apply truthy_true in Hr. destruct (early_print _ _ MappingFailed s4 H4) as ([] & s5 & E5 & (_ & H5 & _)).
    injection E5 as <-. eexists. split; [reflexivity|]. split; [done|].
    split; [intros _; split; [reflexivity|exact H5]|intros; contradiction]. }
  apply truthy_false in Hr. rewrite bind_modify.
  destruct (dune_tail_ok _ _ _ _ _ (mapped_rel _ _ _ _ _ _ Hm Hr H4)) as (r & s5 & E5 & -> & H5).
  exists s5. subst ret. split; [exact E5|]. split; [done|]. split; [intros; congruence|]. intros _.
  split; [exact (rel_lines _ _ _ _ H5)|]. split.
  - rewrite (rel_faults _ _ _ _ H5). destruct H4 as (_ & _ & Hf4). pose proof N_pos. unfold abs_appel2, abs_appel1.
    cbn [a_faults]. unfold NRPGS in *. lia.
  - intros i Hi'. destruct (dune_observe _ _ _ _ _ _ _ _ _ i H5 Hi') as [-> M].
    unfold abs_appel2, abs_appel1 in *. cbn [a_prot a_written] in *. clear -M Hi'.
    split; [apply bool_decide_eq_true_2, not_elem_of_empty|apply M]. clear M. set_solver by lia.
Qed.
End dune_program.

(** ** Linux's program *)

(** mmap(2) of an anonymous, readable and writable area. *)
Class mmap_ok (mmap : gmap Z Z -> Z -> Z * gmap Z Z) : Prop := {
  mm_area pt n m pt' : 0 <= n -> mmap pt (n * PAGE) = (m, pt') -> m <> 2 ^ 64 - 1 ->
    (PAGE | m) /\ u64 m /\ u64 (m + n * PAGE)
    /\ forall i, 0 <= i < n -> pt' !! (m / PAGE + i) = Some (Z.lor LPROT_READ LPROT_WRITE);
}.

Section linux_program.
Context (tsc : nat -> Z * Z).
Context (mprotect : gmap Z Z -> Z -> Z -> Z -> gmap Z Z) `{!mprotect_ok mprotect}.
Context (mmap : gmap Z Z -> Z -> Z * gmap Z Z) `{!mmap_ok mmap}.

Abbreviation linux := (linux_backend tsc mprotect).

Lemma resting_store k pt addr v :
  linux_can_store pt (addr / PAGE) = true ->
  returns (resting k pt) (linux_store tsc mprotect 1 addr v) (fun _ => resting k pt).
Proof.
  intros Hc s [He Hp]. cbn [linux_store]. rewrite bind_gets, Hp, Hc. do 2 eexists. split; [reflexivity|].
  split; [exact He|exact Hp].
Qed.

(** The stores of benchmark_fault, all granted. *)
Lemma resting_fault k pt m pt' :
  mmap pt (N * PAGE) = (m, pt') -> m <> 2 ^ 64 - 1 ->
  returns (resting k pt) (linux_benchmark_fault tsc mprotect mmap)
          (fun _ => resting (k ++ [KernelFaultTook 0]) pt').
Proof.
  intros Hm Hne. destruct (mm_area _ N _ _ ltac:(pose proof N_pos; lia) Hm Hne) as (Ha & _ & _ & Hp).
  unfold linux_benchmark_fault. apply returns_gets. intros v s [[He Hv] Hv']. rewrite <- Hv', Hv, Hm.
  revert s He Hv Hv'. intros s He _ _. rewrite bind_modify.
  assert (Hs : resting k pt' (with_pages pt' s)) by (split; [exact He|done]). revert Hs.
  generalize (with_pages pt' s). clear s He. intros s Hs.
  apply (returns_mono (resting k pt') (resting k pt') _
    (fun _ s => exists s0 v, resting k pt' s0 /\ s = with_out (KernelFaultTook v) s0)
    (fun _ => resting (k ++ [KernelFaultTook 0]) pt')); [|done| |done].
  - apply (early_measured tsc); [|by intros ? ? ?..].
    apply (returns_for _ (fun _ => resting k pt')); [|done|done]. intros i Hi. apply resting_store.
    rewrite page_of by done. unfold linux_can_store. rewrite Hp; [done|]. pose proof N_pos. lia.
  - intros [] s' (s0 & u & [He Hp0] & ->). split; [by apply (early_out k 0 (KernelFaultTook u))|done].
Qed.

Lemma linux_tail_ok h f k :
  returns (rel linux h (Aps ∅ ∅ f k))
    (_ ← linux_prime_memory tsc mprotect; _ ← linux_benchmark_appel1 tsc mprotect;
     _ ← linux_benchmark_appel2 tsc mprotect; mret 0)
    (fun r s => r = 0 /\ rel linux 2 (abs_appel2 (abs_appel1 (Aps ∅ (pages 0 200 ∪ ∅) f k))) s).
Proof.
  next; [by apply (prime_ok linux)|]. next; [by apply (linux_benchmark_appel1_ok tsc mprotect)|].
  next; [by apply (linux_benchmark_appel2_ok tsc mprotect)|]. apply returns_ret.
Qed.

(** The lines before the memory is mapped. *)
Definition linux_lines : list fb_line :=
  [TscOverheadIs 0; BenchmarkingLinux; SystemCallTook 0; KernelFaultTook 0].

(** The part of main up to benchmark_fault. *)
Lemma linux_start_ok s :
  early [] 0 s ->
  exists s', resting [TscOverheadIs 0; BenchmarkingLinux; SystemCallTook 0] (fb_pages s) s'
    /\ forall A (k : FB A),
         (_ ← calibrate tsc; _ ← print BenchmarkingLinux; _ ← linux_benchmark_syscall tsc; k) s = k s'.
Proof.
  intros He.
  destruct (calibrate_resting tsc _ _ s (resting_start _ s He)) as ([] & s1 & E1 & H1).
  destruct (resting_print _ _ BenchmarkingLinux s1 H1) as ([] & s2 & E2 & H2).
  destruct (syscall_resting tsc _ _ s2 H2) as ([] & s3 & E3 & H3). exists s3. split; [exact H3|]. intros A k.
  change (linux_benchmark_syscall tsc) with (benchmark_syscall tsc).
  by rewrite (bind_step _ _ _ _ _ E1), (bind_step _ _ _ _ _ E2), (bind_step _ _ _ _ _ E3).
Qed.

(** The part of main up to the second mmap. *)
Lemma linux_head_ok s m pt' :
  early [] 0 s -> mmap (fb_pages s) (N * PAGE) = (m, pt') -> m <> 2 ^ 64 - 1 ->
  exists s', resting linux_lines pt' s' /\ linux_main tsc mprotect mmap s =
    (let '(m, pt) := mmap pt' (NRPGS * PAGE * 2) in
     _ ← modify (with_base m);
     if m =? 2 ^ 64 - 1 then mret (-1) else
     _ ← modify (with_pages pt);
     _ ← linux_prime_memory tsc mprotect; _ ← linux_benchmark_appel1 tsc mprotect;
     _ ← linux_benchmark_appel2 tsc mprotect; mret 0) s'.
Proof.
  intros He Hm Hne. unfold linux_main. destruct (linux_start_ok s He) as (s2 & H2 & E2). rewrite E2.
  destruct (resting_fault _ _ _ _ Hm Hne s2 H2) as ([] & s3 & E3 & H3). rewrite (bind_step _ _ _ _ _ E3), bind_gets.
  exists s3. split; [done|]. by rewrite (proj2 H3).
Qed.

Lemma mmapped_rel s k m pt' :
  early k 0 s -> (PAGE | m) -> u64 m -> u64 (m + 200 * PAGE) ->
  (forall i, 0 <= i < 200 -> pt' !! (m / PAGE + i) = Some (Z.lor LPROT_READ LPROT_WRITE)) ->
  rel linux 0 (Aps ∅ ∅ (fb_faults s) k) (with_pages pt' (with_base m s)).
Proof. intros (? & ? & ?) Ha Hu Hu2 Hp. split; cbn; try done. intros i Hi. eexists. by rewrite Hp. Qed.

(** benchmark_fault stores through the failed mmap's result. *)
Lemma unchecked_mmap s pt1 :
  early [] 0 s -> mmap (fb_pages s) (N * PAGE) = (2 ^ 64 - 1, pt1) -> pt1 !! ((2 ^ 64 - 1) / PAGE) = None ->
  exists s', linux_main tsc mprotect mmap s = (Exit 139, s').
Proof.
  intros He Hm Htop. unfold linux_main.
  destruct (linux_start_ok s He) as (s2 & [(Hh2 & _) Hp2] & E2). rewrite E2.
  unfold linux_benchmark_fault. exec. rewrite Hp2, Hm. exec. unfold measured, ticks. exec.
  replace (Z.to_nat N) with (S (Z.to_nat (N - 1))) by (pose proof N_pos; lia). cbn [for_ linux_store]. exec.
  cbn [fb_pages with_now with_pages]. rewrite Z.mul_0_l, Z.add_0_r. unfold linux_can_store. rewrite Htop.
  unfold linux_fault. exec. cbn [fb_handler with_fault with_now with_pages]. rewrite Hh2. eexists. reflexivity.
Qed.

(** C31. Linux's fault benchmark, when its first mmap succeeds, runs to its end
    whatever the cycle counter reads: it returns -1 after four lines of output
    if the second mmap fails, and otherwise 0 after the seven lines of its
    results, having taken exactly
    2 * N * 100 faults, with all 200 pages writable and holding what the program
    wrote. The first mmap is not checked: when it fails, and nothing is mapped
    at the top of memory, the program dies of the store that follows. *)
Theorem linux_main_completes s m1 pt1 :
  fb_handler s = 0%nat -> fb_out s = [] -> fb_faults s = 0%nat -> mmap (fb_pages s) (N * PAGE) = (m1, pt1) ->
  (m1 <> 2 ^ 64 - 1 ->
     exists r s', linux_main tsc mprotect mmap s = (Ret r, s')
       /\ ((mmap pt1 (NRPGS * PAGE * 2)).1 = 2 ^ 64 - 1 -> r = -1 /\ shape <$> fb_out s' = linux_lines)
       /\ ((mmap pt1 (NRPGS * PAGE * 2)).1 <> 2 ^ 64 - 1 ->
             r = 0 /\ shape <$> fb_out s' = linux_lines ++ [UserFaultTook 0; Prot1Took 0; ProtNTook 0]
             /\ Z.of_nat (fb_faults s') = 2 * (NRPGS * N)
             /\ forall i, 0 <= i < 200 -> linux_can_store (fb_pages s') (fb_base s' / PAGE + i) = true
                                         /\ fb_mem s' (fb_base s' + i * PAGE) = wrap8 i))
  /\ (m1 = 2 ^ 64 - 1 -> pt1 !! ((2 ^ 64 - 1) / PAGE) = None ->
     exists s', linux_main tsc mprotect mmap s = (Exit 139, s')).
Proof.
  intros Hh Ho Hf Hm. assert (He : early [] 0 s) by (split; [done|]; by rewrite Ho, Hf). split.
  - intros Hne. destruct (linux_head_ok s m1 pt1 He Hm Hne) as (s3 & [H3 Hp] & ->).
    destruct (mmap pt1 (NRPGS * PAGE * 2)) as [m pt2] eqn:Hm2. rewrite bind_modify. cbn [fst].
    destruct (Z.eqb_spec m (2 ^ 64 - 1)) as [Heq|Hne2].
    { exists (-1), (with_base m s3). split; [reflexivity|]. split; [|intros; contradiction].
      intros _. split; [reflexivity|]. apply H3. }
    rewrite bind_modify. destruct (mm_area pt1 200 m pt2 ltac:(lia) Hm2 Hne2) as (Ha & Hu & Hu2 & Hp2).
    destruct (linux_tail_ok 0 0 linux_lines (with_pages pt2 (with_base m s3))) as (r & s4 & E4 & -> & H4).
    { pose proof (mmapped_rel s3 linux_lines m pt2 H3 Ha Hu Hu2 Hp2) as Hr. destruct H3 as (_ & _ & Hf3).
      by replace (fb_faults s3) with 0%nat in Hr by lia. }
    exists 0, s4. split; [exact E4|]. split; [intros; contradiction|]. intros _. split; [reflexivity|].
    split; [exact (rel_lines _ _ _ _ H4)|]. split.
    + rewrite (rel_faults _ _ _ _ H4). pose proof N_pos. unfold abs_appel2, abs_appel1. cbn [a_faults]. unfold NRPGS. lia.
    + intros i Hi. destruct (linux_observe _ _ _ _ _ i H4 Hi) as [-> M].
      unfold abs_appel2, abs_appel1 in *. cbn [a_prot a_written] in *. clear -M Hi.
      split; [apply bool_decide_eq_true_2, not_elem_of_empty|apply M]. clear M. set_solver by lia.
  - intros Heq Htop. subst m1. by eapply unchecked_mmap.
Qed.
End linux_program.

(** ** The hypotheses can be met *)

Section concrete.

Lemma page_range va n : (PAGE | va) -> (va + n * PAGE) / PAGE = va / PAGE + n.
Proof. apply page_of. Qed.

(** Flags over a range of entries. *)
Definition reprotect (f : Z -> Z) (pt : gmap Z Z) (va len : Z) : gmap Z Z :=
  map_imap (fun p e => Some (if (va / PAGE <=? p) && (p <? (va + len) / PAGE) then f e else e)) pt.

Lemma reprotect_lookup f pt va n i :
  (PAGE | va) -> reprotect f pt va (n * PAGE) !! (va / PAGE + i)
                 = (if bool_decide (0 <= i < n) then f else id) <$> pt !! (va / PAGE + i).
Proof.
  intros Hva. unfold reprotect. rewrite map_lookup_imap, page_range by done.
  destruct (pt !! (va / PAGE + i)) as [e|]; [|done]. cbn [mbind option_bind fmap option_fmap option_map]. f_equal.
  destruct (Z.leb_spec (va / PAGE) (va / PAGE + i)), (Z.ltb_spec (va / PAGE + i) (va / PAGE + n)); cbn [andb];
    (rewrite bool_decide_eq_true_2 by lia) || (rewrite bool_decide_eq_false_2 by lia); done.
Qed.

Definition vm_mprotect_c (pt : gmap Z Z) (va len perm : Z) : gmap Z Z :=
  reprotect (fun e => Z.lor (Z.land e (-4096)) (if perm =? 3 then 3 else 1)) pt va len.

Definition map_pages_c (pt : gmap Z Z) (va len perm : Z) : Z * gmap Z Z :=
  (0, map_imap (fun p _ => Some (Z.lor ((Z.abs p + 1) * 4096) 3)) (gset_to_gmap tt (pages (va / PAGE) ((va + len) / PAGE))) ∪ pt).

Definition dune_mmap_c (pt : gmap Z Z) (addr len : Z) : Z * gmap Z Z := (addr, pt).

Definition default_fault_c (addr : Z) (pt : gmap Z Z) : gmap Z Z := <[addr / PAGE := 4099]> pt.

Definition mprotect_c (pt : gmap Z Z) (va len prot : Z) : gmap Z Z := reprotect (fun _ => prot) pt va len.

Definition mmap_c (pt : gmap Z Z) (len : Z) : Z * gmap Z Z :=
  let m := 0x10000000 in
  if m + len <? 2 ^ 64 then (m, gset_to_gmap (Z.lor LPROT_READ LPROT_WRITE) (pages (m / PAGE) ((m + len) / PAGE)) ∪ pt)
  else (2 ^ 64 - 1, pt).

Lemma align_down_land x : align_down 4096 x = Z.land x (-4096).
Proof.
  replace (-4096) with (Z.lnot (Z.ones 12)) by reflexivity.
  rewrite <- Z.ldiff_land, Z.ldiff_ones_r, Z.shiftl_mul_pow2, Z.shiftr_div_pow2 by lia.
  unfold align_down. change (2 ^ 12) with 4096. pose proof (Z_div_mod_eq_full x 4096). lia.
Qed.

#[export] Instance layout_x86 : pte_layout dune_x86 0x20 (-4096).
Proof.
  split; [exact align_down_land| |by cbn..]. intros m Hm. cbn in Hm.
  destruct Hm as [->|[->|[->|[->| ->]]]]; reflexivity.
Qed.

Lemma flags_x86 x f : 0 <= f < 4 ->
  PTE_ADDR dune_x86 (Z.lor (Z.land x (-4096)) f) = PTE_ADDR dune_x86 x
  /\ grants dune_x86 (Z.lor (Z.land x (-4096)) f) = (f =? 3).
Proof.
  intros Hf. rewrite !(pl_addr (PTE_A := 0x20) (mask := -4096)). unfold grants, has_bits.
  rewrite !Z.land_lor_distr_l, <- !Z.land_assoc.
  assert (H : f = 0 \/ f = 1 \/ f = 2 \/ f = 3) by lia.
  destruct H as [->|[->|[->| ->]]]; cbn [dune_x86 PTE_P PTE_W];
    rewrite ?Z.land_diag, ?Z.land_0_r, ?Z.lor_0_l, ?Z.lor_0_r; done.
Qed.

#[export] Instance vm_mprotect_c_ok : vm_mprotect_ok dune_x86 vm_mprotect_c.
Proof.
  split.
  - intros pt va n perm i e Hva Hi He Hf Hp. unfold vm_mprotect_c. rewrite Z.mul_comm, reprotect_lookup, He by done.
    rewrite bool_decide_eq_true_2 by lia. eexists. split; [reflexivity|]. cbn [dune_x86 PERM_R PERM_W] in *.
    destruct Hp as [->| ->]; cbn [Z.lor Pos.lor Z.eqb Pos.eqb]; by apply flags_x86.
  - intros pt va n perm i Hva Hi. unfold vm_mprotect_c. rewrite Z.mul_comm, reprotect_lookup by done.
    rewrite bool_decide_eq_false_2 by lia. by destruct (pt !! _).
  - done.
Qed.

#[export] Instance map_pages_c_ok : map_pages_ok dune_x86 map_pages_c.
Proof.
  split. intros pt va n i Hva Hi _. unfold map_pages_c. cbn [snd]. set (p := va / PAGE + i).
  exists (Z.lor ((Z.abs p + 1) * 4096) 3).
  assert (Hr : (Z.abs p + 1) * 4096 = Z.land ((Z.abs p + 1) * 4096) (-4096)).
  { rewrite <- align_down_land, align_down_id; [done|lia|]. apply Z.divide_factor_r. }
  split.
  - apply lookup_union_Some_l. rewrite map_lookup_imap, page_range by done.
    rewrite (proj2 (lookup_gset_to_gmap_Some _ _ _ tt)); [done|]. split; [|done]. set_solver by lia.
  - rewrite Hr. destruct (flags_x86 ((Z.abs p + 1) * 4096) 3 ltac:(lia)) as [-> ->]. split; [|done].
    rewrite (pl_addr (PTE_A := 0x20) (mask := -4096)), <- Hr. lia.
Qed.

#[export] Instance region_c_ok :
  fault_region_ok dune_x86 0x20 dune_mmap_c default_fault_c (fun fm _ => (PAGE | fm)).
Proof.
  split; [|intros pt fm i Ha Hi|done].
  - intros pt fm pt' [= <- <-] _. split; by exists (FAULT_ADDR / PAGE).
  - split; [|done]. unfold can_store, default_fault_c. by rewrite page_of, lookup_insert_eq by done.
Qed.

#[export] Instance mprotect_c_ok : mprotect_ok mprotect_c.
Proof.
  split; intros pt va n prot i Hva Hi; unfold mprotect_c; rewrite reprotect_lookup by done.
  - by rewrite bool_decide_eq_true_2 by lia.
  - rewrite bool_decide_eq_false_2 by lia. by destruct (pt !! _).
Qed.

#[export] Instance mmap_c_ok : mmap_ok mmap_c.
Proof.
  split. intros pt n m pt' Hn. unfold mmap_c. destruct (Z.ltb_spec (0x10000000 + n * PAGE) (2 ^ 64)) as [Hlt|].
  2: { intros [= <- <-]. done. }
  intros [= <- <-] _. assert (Ha : (PAGE | 0x10000000)) by (by exists 65536).
  split; [done|]. split; [mlia|]. split; [unfold PAGE in *; mlia|]. intros i Hi. apply lookup_union_Some_l.
  rewrite page_range by done. apply lookup_gset_to_gmap_Some. split; [|done]. set_solver by lia.
Qed.

Lemma mmap_c_some pt len : 0x10000000 + len < 2 ^ 64 -> (mmap_c pt len).1 = 0x10000000.
Proof. intros Hl. unfold mmap_c. destruct (Z.ltb_spec (0x10000000 + len) (2 ^ 64)); [done|lia]. Qed.

(** A process that has just started, and a counter that advances by 40. *)
Definition boot : fb := Fb 0 ∅ (fun _ => 0) 0 0 0 0 0 0 [] 0 [].
Definition tsc_c (k : nat) : Z * Z := (40 * Z.of_nat k, 0).

Lemma dune_main_completes_witness :
  exists s', dune_main tsc_c dune_x86 0x20 vm_mprotect_c map_pages_c dune_mmap_c default_fault_c 0 boot = (Ret 0, s')
             /\ length (fb_out s') = 7%nat.
Proof.
  destruct (dune_main_completes tsc_c dune_x86 0x20 (-4096) vm_mprotect_c map_pages_c dune_mmap_c default_fault_c
    (fun fm _ => (PAGE | fm)) 0 boot eq_refl eq_refl eq_refl) as [_ H].
  destruct (H eq_refl ltac:(discriminate)) as (r & pt & s' & E & Hr & _ & H7). cbn in Hr. subst r.
  destruct (H7 eq_refl) as [Hl _]. exists s'. split; [exact E|].
  apply (f_equal length) in Hl. rewrite length_fmap in Hl. exact Hl.
Defined.

Lemma linux_main_completes_witness :
  exists s', linux_main tsc_c mprotect_c mmap_c boot = (Ret 0, s') /\ Z.of_nat (fb_faults s') = 2 * (NRPGS * N).
Proof.
  destruct (linux_main_completes tsc_c mprotect_c mmap_c boot _ _ eq_refl eq_refl eq_refl eq_refl) as [H _].
  destruct H as (r & s' & E & _ & H); [lia|]. destruct H as (-> & _ & H & _); [by rewrite mmap_c_some|].
  exists s'. split; [exact E|exact H].
Defined.

Lemma fault_benchmarks_agree_witness :
  exists s t s1 t1,
    benchmark_appel1 tsc_c dune_x86 0x20 vm_mprotect_c default_fault_c s = (Ret tt, s1)
    /\ linux_benchmark_appel1 tsc_c mprotect_c t = (Ret tt, t1) /\ fb_faults t1 = fb_faults s1.
Proof.
  pose proof (mapped_rel tsc_c dune_x86 0x20 vm_mprotect_c map_pages_c default_fault_c ∅ _ _ boot [] 0 eq_refl eq_refl
    ltac:(by repeat split)) as Hs.
  destruct (mmap_c ∅ (200 * PAGE)) as [m pt'] eqn:Hm.
  destruct (mm_area ∅ 200 m pt' ltac:(lia) Hm) as (Ha & Hu & Hu2 & Hp).
  { apply (f_equal fst) in Hm. rewrite mmap_c_some in Hm by (unfold PAGE; lia). cbn in Hm. lia. }
  pose proof (mmapped_rel tsc_c mprotect_c boot [] _ _ ltac:(by repeat split) Ha Hu Hu2 Hp) as Ht.
  destruct (fault_benchmarks_agree tsc_c tsc_c dune_x86 0x20 (-4096) vm_mprotect_c default_fault_c _ mprotect_c
    0 _ _ _ Hs Ht) as (s1 & _ & t1 & _ & E1 & _ & E3 & _ & _ & E & _).
  do 4 eexists. split; [exact E1|]. split; [exact E3|exact E].
Defined.
End concrete.
