(* ===== verification/Ring.v ===== *)
(** bench_dune_ring.c: user code entered with dune_jump_to_user, a page fault
    and system calls taken from it, and the way back with dune_ret_from_user.

    dune_jump_to_user, malloc, dune_vm_map_pages, the passed-through system
    call and the cycle counter are parameters. A handler that calls
    dune_ret_from_user does not come back: it ends the user code with [Leave]. *)

From stdpp Require Import base numbers list option gmap.
From S2P Require Import Prelude Platform BenchFault.

Definition ENOMEM : Z := 12.

(** The handlers, the static variables, and what the program does: the system
    calls passed through, the page faults, what it prints. *)
Inductive sys_handler : Type := NoHandler | Handler1 | Handler2.

Inductive line : Type := Testing | MapFailed | Passed | Measuring | Took (cycles : Z) | InitFailed.

Record ring := RingState {
  r_pages : gmap Z Z;
  r_mem : Z -> Z;
  r_now : nat;
  r_pgflt : bool;
  r_sys : sys_handler;
  r_count : Z;                  (* syscall_count *)
  r_tsc : Z;                    (* tsc *)
  r_passed : nat;
  r_faults : nat;
  r_out : list line;
}.

Definition put_pages v s := RingState v (r_mem s) (r_now s) (r_pgflt s) (r_sys s) (r_count s) (r_tsc s) (r_passed s) (r_faults s) (r_out s).
Definition put_mem v s := RingState (r_pages s) v (r_now s) (r_pgflt s) (r_sys s) (r_count s) (r_tsc s) (r_passed s) (r_faults s) (r_out s).
Definition put_now v s := RingState (r_pages s) (r_mem s) v (r_pgflt s) (r_sys s) (r_count s) (r_tsc s) (r_passed s) (r_faults s) (r_out s).
Definition put_pgflt v s := RingState (r_pages s) (r_mem s) (r_now s) v (r_sys s) (r_count s) (r_tsc s) (r_passed s) (r_faults s) (r_out s).
Definition put_sys v s := RingState (r_pages s) (r_mem s) (r_now s) (r_pgflt s) v (r_count s) (r_tsc s) (r_passed s) (r_faults s) (r_out s).
Definition put_count v s := RingState (r_pages s) (r_mem s) (r_now s) (r_pgflt s) (r_sys s) v (r_tsc s) (r_passed s) (r_faults s) (r_out s).
Definition put_tsc v s := RingState (r_pages s) (r_mem s) (r_now s) (r_pgflt s) (r_sys s) (r_count s) v (r_passed s) (r_faults s) (r_out s).
Definition put_passed v s := RingState (r_pages s) (r_mem s) (r_now s) (r_pgflt s) (r_sys s) (r_count s) (r_tsc s) v (r_faults s) (r_out s).
Definition put_faults v s := RingState (r_pages s) (r_mem s) (r_now s) (r_pgflt s) (r_sys s) (r_count s) (r_tsc s) (r_passed s) v (r_out s).
Definition say v s := RingState (r_pages s) (r_mem s) (r_now s) (r_pgflt s) (r_sys s) (r_count s) (r_tsc s) (r_passed s) (r_faults s) (r_out s ++ [v]).

Abbreviation R := (M ring).

(** The fields of struct pt_regs the program fills. *)
Inductive user_entry : Type := UserlevelPgflt | UserlevelSyscall.
Record ring_tf := RingTf { tf_rip : user_entry; tf_rsp : Z; tf_eflags : Z }.

(** sp = (sp - 10000) & ~0xF *)
Definition user_sp (sp : Z) : Z := Z.land (wrap64 (sp - 10000)) (wrap64 (Z.lnot 15)).

Section ring.
Context (D : dune_abi) (PTE_A : Z) (tsc : nat -> Z * Z) (sp : Z).
Context (malloc_ok : nat -> bool) (vm_map_pages : gmap Z Z -> Z -> Z -> Z -> Z * gmap Z Z).
Context (dune_jump_to_user : ring_tf -> (user_entry -> R unit) -> R Z).

Definition dune_get_ticks : R Z :=
  k ← gets r_now; _ ← modify (put_now (S k)); mret (rdtsc_value (tsc k)).

(** [pte] is uninitialised when there is no entry. *)
Definition pgflt_handler (addr : Z) : R unit :=
  pt ← gets r_pages;
  match pt !! (addr / PAGE) with
  | Some pte => modify (put_pages (<[addr / PAGE := Z.lor pte (fault_bits D PTE_A)]> pt))
  | None => stop UB
  end.

Definition dune_ret_from_user (code : Z) : R unit := stop (Leave code).

Definition syscall_handler1 : R unit := dune_ret_from_user 0.

Definition syscall_handler2 : R unit :=
  _ ← modify (fun s => put_count (r_count s + 1) s);
  c ← gets r_count;
  _ ← (if c =? N then
         t ← dune_get_ticks;
         s ← get;
         _ ← modify (say (Took (wrap64 (t - r_tsc s) / N)));
         dune_ret_from_user 0
       else mret tt);
  modify (fun s => put_passed (S (r_passed s)) s).

(** A system call made by the user code. *)
Definition syscall : R unit :=
  h ← gets r_sys;
  match h with
  | NoHandler => stop Abort
  | Handler1 => syscall_handler1
  | Handler2 => syscall_handler2
  end.

(** A store made by the user code, with at most [k] retries. *)
Fixpoint user_store (k : nat) (addr v : Z) : R unit :=
  pt ← gets r_pages;
  if can_store D pt (addr / PAGE) then
    modify (fun s => put_mem (fun a => if a =? addr then v else r_mem s a) s)
  else
    match k with
    | O => stop Abort
    | S k =>
        _ ← modify (fun s => put_faults (S (r_faults s)) s);
        h ← gets r_pgflt;
        _ ← (if h : bool then pgflt_handler addr else stop Abort);
        user_store k addr v
    end.

Definition userlevel_pgflt : R unit := _ ← user_store 1 MAP_ADDR 1; syscall.

Definition userlevel_syscall : R unit := for_ (Z.to_nat N) 0 (fun _ => syscall).

Definition user_code (e : user_entry) : R unit :=
  match e with UserlevelPgflt => userlevel_pgflt | UserlevelSyscall => userlevel_syscall end.

(** [malloc_ok] tells which of the program's two calls of malloc succeed. *)
Definition test_pgflt : R Z :=
  if negb (malloc_ok 0) then mret (- ENOMEM) else
  _ ← modify (say Testing);
  pt ← gets r_pages;
  let '(ret, pt) := vm_map_pages pt MAP_ADDR 1 (PERM_R D) in
  _ ← modify (put_pages pt);
  if truthy ret then _ ← modify (say MapFailed); mret ret else
  _ ← modify (put_pgflt true);
  _ ← modify (put_sys Handler1);
  ret ← dune_jump_to_user (RingTf UserlevelPgflt (user_sp sp) 0x02) user_code;
  _ ← (if negb (truthy ret) then modify (say Passed) else mret tt);
  mret ret.

Definition test_syscall : R Z :=
  if negb (malloc_ok 1) then mret (- ENOMEM) else
  _ ← modify (say Measuring);
  _ ← modify (put_sys Handler2);
  t ← dune_get_ticks;
  _ ← modify (put_tsc t);
  dune_jump_to_user (RingTf UserlevelSyscall (user_sp sp) 0x0) user_code.

(** main, for the answer of dune_init_and_enter. *)
Definition ring_main (init : Z) : R Z :=
  if truthy init then _ ← modify (say InitFailed); mret init else
  _ ← test_pgflt;
  _ ← test_syscall;
  mret 0.
End ring.
