(* ===== verification/RingProps.v ===== *)
(** The ring benchmark: the page fault taken from user code is repaired, the
    N-th system call is the one that comes back, and main's answer does not
    depend on the tests. *)

From stdpp Require Import base numbers list option gmap.
From S2P Require Import Prelude Platform BenchFault FaultSpec BenchFaultProps BenchMain Ring.

#[local] Arguments PAGE : simpl never.
#[local] Arguments MAP_ADDR : simpl never.
#[local] Arguments N : simpl never.
#[local] Arguments Z.to_nat : simpl never.

(** dune_jump_to_user runs the code at [rip] until it calls
    dune_ret_from_user, and returns the argument of that call. *)
Class jump_ok (jump : ring_tf -> (user_entry -> M ring unit) -> M ring Z) : Prop := {
  jump_leave tf code s n s' : code (tf_rip tf) s = (Leave n, s') -> jump tf code s = (Ret n, s');
}.

(** dune_vm_map_pages: when it answers 0 the page has an entry. *)
Class map_page_ok (D : dune_abi) (map_pages : gmap Z Z -> Z -> Z -> Z -> Z * gmap Z Z) : Prop := {
  mp_entry pt : (map_pages pt MAP_ADDR 1 (PERM_R D)).1 = 0 ->
    is_Some ((map_pages pt MAP_ADDR 1 (PERM_R D)).2 !! (MAP_ADDR / PAGE));
}.

(** The user stack: 16-byte aligned, and about 10000 bytes below the caller's. *)
Lemma user_sp_range sp : u64 sp -> 10000 <= sp -> user_sp sp mod 16 = 0 /\ sp - 10015 <= user_sp sp <= sp - 10000.
Proof.
  intros Hu Hs. assert (Hw : user_sp sp = align_down 16 (sp - 10000)).
  { unfold user_sp. rewrite wrap64_small by mlia.
    replace (wrap64 (Z.lnot 15)) with (Z.shiftl (Z.ones 60) 4) by reflexivity.
    apply Z.bits_inj'. intros i Hi. rewrite Z.land_spec, Z.shiftl_spec by done.
    unfold align_down. replace (sp - 10000 - (sp - 10000) mod 16) with (Z.shiftl (Z.shiftr (sp - 10000) 4) 4).
    2: { rewrite Z.shiftl_mul_pow2, Z.shiftr_div_pow2 by lia. change (2 ^ 4) with 16.
         pose proof (Z_div_mod_eq_full (sp - 10000) 16). lia. }
    rewrite Z.shiftl_spec by done. destruct (Z_lt_le_dec i 4).
    { rewrite (Z.testbit_neg_r (Z.ones 60)), (Z.testbit_neg_r (Z.shiftr _ _)) by lia. apply andb_false_r. }
    rewrite Z.shiftr_spec by lia. replace (i - 4 + 4) with i by lia. rewrite Z.testbit_ones_nonneg by lia.
    destruct (Z.ltb_spec (i - 4) 60); [apply andb_true_r|].
    rewrite (Z.bits_above_log2 _ i); [done|mlia|]. destruct (Z.eq_dec (sp - 10000) 0) as [->|]; [cbn; lia|].
    apply Z.log2_lt_pow2; [mlia|]. pose proof (Z.pow_le_mono_r 2 64 i ltac:(lia) ltac:(lia)). mlia. }
  rewrite Hw. pose proof (align_down_range 16 (sp - 10000) ltac:(lia)).
  split; [|lia]. apply divide_mod_0; [lia|]. apply align_down_divide. lia.
Qed.

Section ring.
Context (D : dune_abi) (PTE_A mask : Z) `{!pte_layout D PTE_A mask} (tsc : nat -> Z * Z) (sp : Z).
Context (malloc_ok : nat -> bool) (vm_map_pages : gmap Z Z -> Z -> Z -> Z -> Z * gmap Z Z).
Context (jump : ring_tf -> (user_entry -> M ring unit) -> M ring Z).
Context `{!map_page_ok D vm_map_pages} `{!jump_ok jump}.

Abbreviation syscall := (syscall tsc).
Abbreviation test_pgflt := (test_pgflt D PTE_A tsc sp malloc_ok vm_map_pages jump).
Abbreviation test_syscall := (test_syscall D PTE_A tsc sp malloc_ok jump).

(** ** System calls *)

Definition same_memory (s s' : ring) : Prop := r_mem s' = r_mem s /\ r_pages s' = r_pages s.

Lemma syscall_passes s :
  r_sys s = Handler2 -> r_count s + 1 <> N ->
  syscall s = (Ret tt, put_passed (S (r_passed s)) (put_count (r_count s + 1) s)).
Proof.
  intros Hh Hc. unfold Ring.syscall, syscall_handler2. rewrite bind_gets, Hh. exec. cbn [r_count put_count].
  destruct (Z.eqb_spec (r_count s + 1) N); [done|reflexivity].
Qed.

Lemma syscall_leaves s :
  r_sys s = Handler2 -> r_count s + 1 = N ->
  exists s' c, syscall s = (Leave 0, s') /\ r_count s' = N /\ r_passed s' = r_passed s /\ r_out s' = r_out s ++ [Took c]
    /\ same_memory s s'.
Proof.
  intros Hh Hc. unfold Ring.syscall, syscall_handler2. rewrite bind_gets, Hh. exec. cbn [r_count put_count].
  rewrite Hc, Z.eqb_refl. unfold dune_get_ticks. exec. do 2 eexists. split; [reflexivity|]. cbn. done.
Qed.

(** [n] calls that stay below the limit, or go past it. *)
Lemma calls_return n i s :
  r_sys s = Handler2 -> r_count s + Z.of_nat n < N \/ N <= r_count s ->
  for_ n i (fun _ => syscall) s
  = (Ret tt, put_passed (n + r_passed s) (put_count (r_count s + Z.of_nat n) s)).
Proof.
  revert i s. induction n as [|n IH]; intros i s Hh Hc; cbn [for_].
  - destruct s. cbn. unfold mret, M_ret, put_passed, put_count. cbn. by rewrite Z.add_0_r.
  - rewrite (bind_step _ _ _ _ _ (syscall_passes s Hh ltac:(lia))).
    rewrite IH; [|done|cbn; lia]. unfold put_passed, put_count. cbn [r_passed r_count r_sys r_pages r_mem r_now r_pgflt r_tsc r_faults r_out].
    do 2 f_equal; lia.
Qed.

Lemma for_add {S} n m i (body : Z -> M S unit) s :
  for_ (n + m) i body s = (for_ n i body ≫= fun _ => for_ m (i + Z.of_nat n) body) s.
Proof.
  revert i s. induction n as [|n IH]; intros i s; cbn [for_ Nat.add].
  - by rewrite bind_ret_l, Z.add_0_r.
  - rewrite bind_assoc. unfold mbind, M_bind. destruct (body i s) as [[] s1]; try done.
    rewrite IH. unfold mbind, M_bind. by replace (i + Z.of_nat (Datatypes.S n)) with (i + 1 + Z.of_nat n) by lia.
Qed.

(** The loop of N calls leaves at the N-th call counted. *)
Lemma userlevel_syscall_leaves s :
  r_sys s = Handler2 -> 0 <= r_count s < N ->
  exists s' c, userlevel_syscall tsc s = (Leave 0, s') /\ r_count s' = N
    /\ Z.of_nat (r_passed s') = Z.of_nat (r_passed s) + (N - 1 - r_count s) /\ r_out s' = r_out s ++ [Took c]
    /\ same_memory s s'.
Proof.
  intros Hh Hc. unfold userlevel_syscall. set (n := Z.to_nat (N - 1 - r_count s)).
  replace (Z.to_nat N) with (n + S (Z.to_nat (r_count s)))%nat by lia. rewrite for_add.
  rewrite (bind_step _ _ _ _ _ (calls_return n 0 s Hh ltac:(lia))). cbn [for_].
  set (s1 := put_passed _ _). destruct (syscall_leaves s1) as (s' & c & E & H1 & H2 & H3 & H4); [done|cbn; lia|].
  exists s', c. unfold mbind, M_bind. rewrite E. split; [done|]. split; [done|]. rewrite H2, H3. cbn. split; [lia|]. by split.
Qed.

(** Once the counter has passed the limit no call leaves: the user function
    runs off its end. *)
Lemma userlevel_syscall_stays s :
  r_sys s = Handler2 -> N <= r_count s -> exists s', userlevel_syscall tsc s = (Ret tt, s').
Proof. intros Hh Hc. eexists. apply calls_return; auto. Qed.

(** ** The page fault *)

Lemma store_lands k addr v s :
  can_store D (r_pages s) (addr / PAGE) = true ->
  user_store D PTE_A k addr v s = (Ret tt, put_mem (fun a => if a =? addr then v else r_mem s a) s).
Proof. intros Hc. destruct k; cbn [user_store]; rewrite bind_gets, Hc; reflexivity. Qed.

Lemma userlevel_pgflt_leaves s :
  r_sys s = Handler1 -> r_pgflt s = true -> is_Some (r_pages s !! (MAP_ADDR / PAGE)) ->
  exists s', userlevel_pgflt D PTE_A tsc s = (Leave 0, s') /\ r_mem s' MAP_ADDR = 1
    /\ can_store D (r_pages s') (MAP_ADDR / PAGE) = true
    /\ r_faults s' = (if can_store D (r_pages s) (MAP_ADDR / PAGE) then r_faults s else S (r_faults s))
    /\ r_out s' = r_out s /\ r_count s' = r_count s /\ r_passed s' = r_passed s.
Proof.
  intros Hh Hp [e He]. unfold userlevel_pgflt.
  assert (Hleave : forall s, r_sys s = Handler1 -> syscall s = (Leave 0, s)).
  { intros s' H'. unfold Ring.syscall. by rewrite bind_gets, H'. }
  destruct (can_store D (r_pages s) (MAP_ADDR / PAGE)) eqn:Hc.
  - rewrite (bind_step _ _ _ _ _ (store_lands 1 _ _ _ Hc)), Hleave by done. eexists. split; [reflexivity|]. cbn.
    by rewrite Z.eqb_refl.
  - set (pt' := <[MAP_ADDR / PAGE := Z.lor e (fault_bits D PTE_A)]> (r_pages s)).
    set (s1 := put_pages pt' (put_faults (S (r_faults s)) s)).
    assert (Hc1 : can_store D (r_pages s1) (MAP_ADDR / PAGE) = true).
    { cbn. unfold can_store, pt'. rewrite lookup_insert_eq. apply (fault_bits_grant D PTE_A mask). }
    assert (E : user_store D PTE_A 1 MAP_ADDR 1 s = user_store D PTE_A 0 MAP_ADDR 1 s1).
    { unfold user_store at 1. rewrite bind_gets, Hc, bind_modify, bind_gets. cbn [r_pgflt put_faults]. rewrite Hp.
      unfold pgflt_handler. rewrite bind_assoc, bind_gets. cbn [r_pages put_faults]. rewrite He. reflexivity. }
    rewrite (store_lands 0 _ _ _ Hc1) in E. rewrite (bind_step _ _ _ _ _ E), Hleave by done.
    eexists. split; [reflexivity|]. cbn. by rewrite Z.eqb_refl.
Qed.

(** ** The tests *)

Definition map_answer (s : ring) : Z := (vm_map_pages (r_pages s) MAP_ADDR 1 (PERM_R D)).1.

Definition pgflt_answer (s : ring) : Z := if malloc_ok 0 then map_answer s else - ENOMEM.
Definition pgflt_lines (s : ring) : list line :=
  if malloc_ok 0 then if truthy (map_answer s) then [Testing; MapFailed] else [Testing; Passed] else [].

Lemma test_pgflt_ok s :
  exists s', test_pgflt s = (Ret (pgflt_answer s), s') /\ r_out s' = r_out s ++ pgflt_lines s
    /\ r_count s' = r_count s /\ r_passed s' = r_passed s
    /\ (pgflt_answer s = 0 -> r_mem s' MAP_ADDR = 1 /\ can_store D (r_pages s') (MAP_ADDR / PAGE) = true).
Proof.
  unfold Ring.test_pgflt, pgflt_answer, pgflt_lines, map_answer. destruct (malloc_ok 0); cbn [negb].
  2: { eexists. split; [reflexivity|]. by rewrite app_nil_r. }
  rewrite bind_modify, bind_gets. cbn [r_pages say]. pose proof (mp_entry (r_pages s)) as He.
  destruct (vm_map_pages (r_pages s) MAP_ADDR 1 (PERM_R D)) as [ret pt]. cbn [fst snd] in *. rewrite bind_modify.
  destruct (truthy ret) eqn:Hr.
  { apply truthy_true in Hr. rewrite bind_modify. eexists. split; [reflexivity|]. cbn. rewrite <- app_assoc. done. }
  apply truthy_false in Hr as ->. rewrite !bind_modify. set (s1 := put_sys _ _).
  destruct (userlevel_pgflt_leaves s1) as (s' & E & Hm & Hc & _ & Ho & Hk & Hp); [done|done|by apply He|].
  rewrite (bind_step _ _ _ _ _ (jump_leave _ _ s1 0 s' E)). cbn [truthy negb Z.eqb]. rewrite bind_modify.
  eexists. split; [reflexivity|]. cbn [r_out r_count r_passed r_mem r_pages say]. rewrite Ho, Hk, Hp.
  cbn. rewrite <- app_assoc. done.
Qed.

Lemma test_syscall_ok s :
  0 <= r_count s < N ->
  exists s', test_syscall s = (Ret (if malloc_ok 1 then 0 else - ENOMEM), s')
    /\ same_memory s s'
    /\ (malloc_ok 1 = false -> r_out s' = r_out s)
    /\ (malloc_ok 1 = true -> exists c, r_out s' = r_out s ++ [Measuring; Took c]
           /\ r_count s' = N /\ Z.of_nat (r_passed s') = Z.of_nat (r_passed s) + (N - 1 - r_count s)).
Proof.
  intros Hc. unfold Ring.test_syscall. destruct (malloc_ok 1); cbn [negb].
  2: { eexists. split; [reflexivity|]. done. }
  unfold dune_get_ticks. exec. set (s1 := put_tsc _ _).
  destruct (userlevel_syscall_leaves s1) as (s' & c & E & Hk & Hp & Ho & Hm); [done|exact Hc|].
  rewrite (jump_leave _ _ s1 0 s' E). exists s'. split; [reflexivity|]. split; [exact Hm|].
  split; [done|]. intros _. exists c.
  rewrite Ho, Hp. cbn. rewrite <- app_assoc. done.
Qed.

(** C32. The ring benchmark. When Dune cannot be entered main passes the error
    on; otherwise it runs its two tests in order and returns 0 whatever they
    answer. The page-fault test reports [passed] exactly when its memory and
    mapping were obtained; it then answers 0, and after it, to the end of the
    run, the store of 1 made by the user code is in the page, which the handler
    has made writable. The system-call test ends at the N-th call: N - 1 calls
    are passed through and the N-th comes back to the caller with the one line
    of its result. *)
Theorem ring_main_result init s :
  r_count s = 0 ->
  (init <> 0 -> ring_main D PTE_A tsc sp malloc_ok vm_map_pages jump init s = (Ret init, say InitFailed s))
  /\ (init = 0 -> exists s1 s2,
        test_pgflt s = (Ret (pgflt_answer s), s1)
        /\ test_syscall s1 = (Ret (if malloc_ok 1 then 0 else - ENOMEM), s2)
        /\ ring_main D PTE_A tsc sp malloc_ok vm_map_pages jump init s = (Ret 0, s2)
        /\ r_out s1 = r_out s ++ pgflt_lines s
        /\ (pgflt_answer s = 0 ->
              r_mem s1 MAP_ADDR = 1 /\ can_store D (r_pages s1) (MAP_ADDR / PAGE) = true
              /\ r_mem s2 MAP_ADDR = 1 /\ can_store D (r_pages s2) (MAP_ADDR / PAGE) = true)
        /\ (malloc_ok 1 = false -> r_out s2 = r_out s1)
        /\ (malloc_ok 1 = true -> exists c, r_out s2 = r_out s1 ++ [Measuring; Took c]
               /\ r_count s2 = N /\ Z.of_nat (r_passed s2) = Z.of_nat (r_passed s) + (N - 1))).
Proof.
  intros Hc. unfold ring_main. split; intros Hi.
  - by rewrite (proj2 (truthy_true init) Hi).
  - rewrite (proj2 (truthy_false init) Hi). destruct (test_pgflt_ok s) as (s1 & E1 & Ho1 & Hk1 & Hp1 & Hm1).
    rewrite (bind_step _ _ _ _ _ E1).
    destruct (test_syscall_ok s1) as (s2 & E2 & [Hmem Hpg] & Hf & Ht); [pose proof N_pos; lia|].
    rewrite (bind_step _ _ _ _ _ E2). exists s1, s2. split; [exact E1|]. split; [exact E2|].
    split; [reflexivity|]. split; [exact Ho1|]. rewrite Hmem, Hpg. split; [intros Ha; by destruct (Hm1 Ha)|].
    split; [assumption|].
    intros Hm. destruct (Ht Hm) as (c & Ho & Hk & Hp). exists c. split; [done|]. split; [done|]. lia.
Qed.
End ring.

(** A jump as documented, for the witness. *)
Definition jump_c (tf : ring_tf) (code : user_entry -> M ring unit) : M ring Z := fun s =>
  match code (tf_rip tf) s with
  | (Leave n, s') => (Ret n, s')
  | (Exit n, s') => (Exit n, s')
  | (_, s') => (UB, s')
  end.

#[export] Instance jump_c_ok : jump_ok jump_c.
Proof. split. intros tf code s n s' E. unfold jump_c. by rewrite E. Qed.

Definition map_page_c (pt : gmap Z Z) (va len perm : Z) : Z * gmap Z Z := (0, <[va / PAGE := 4097]> pt).

#[export] Instance map_page_c_ok : map_page_ok dune_x86 map_page_c.
Proof. split. intros pt _. cbn. by rewrite lookup_insert_eq. Qed.

Lemma ring_main_result_witness :
  exists s2, ring_main dune_x86 0x20 (fun k => (Z.of_nat k, 0)) 0x7fff0000 (fun _ => true) map_page_c jump_c 0
    (RingState ∅ (fun _ => 0) 0 false NoHandler 0 0 0 0 []) = (Ret 0, s2) /\ Z.of_nat (r_passed s2) = N - 1
    /\ r_mem s2 MAP_ADDR = 1.
Proof.
  destruct (proj2 (ring_main_result dune_x86 0x20 (-4096) (fun k => (Z.of_nat k, 0)) 0x7fff0000 (fun _ => true)
    map_page_c jump_c 0 (RingState ∅ (fun _ => 0) 0 false NoHandler 0 0 0 0 []) eq_refl) eq_refl)
    as (s1 & s2 & _ & _ & E & _ & Hst & _ & H).
  exists s2. split; [exact E|]. destruct (H eq_refl) as (c & _ & _ & Hp). split; [exact Hp|].
  exact (proj1 (proj2 (proj2 (Hst eq_refl)))).
Defined.
